(** * JustAddDocuments: the Code Normalizer, the Placeholder Protocol and the
    session store, embedded from [src/services/claude.ts] and
    [src/components/FileUpload.tsx].

    JavaScript strings are sequences of UTF-16 code units; a code unit is
    modelled as an [N].  The regular expressions of the source are kept as
    syntax trees and run by a backtracking matcher with the priorities of
    ECMAScript (leftmost alternative first, greedy or lazy repetition,
    captures, multiline anchors, lookahead).

    [FileUpload.tsx] carries two revisions of the component, one after the
    other.  The functions are embedded from the first one (lines 1 to
    1728); [markdownToHtml], the persistence functions, the session
    creation and the regeneration update read the same in the second. *)

From Stdlib Require Import NArith ZArith List String Ascii Bool Arith Lia.
From stdpp Require Import base option list gmap.
Import ListNotations.

Set Implicit Arguments.
Set Warnings "-register-all".

(** ** Code units and character classes *)

Definition char := N.
Bind Scope N_scope with char.
Definition jsstring := list char.

Definition js (s : string) : jsstring :=
  List.map N_of_ascii (list_ascii_of_string s).
Arguments js s%_string : simpl never.

(** The double quote, written apart because it cannot sit in a literal. *)
Definition dq : jsstring := [34%N].

Definition ch (a : ascii) : char := N_of_ascii a.
Arguments ch a%_char : simpl never.

Definition in_range (lo hi c : char) : bool := (N.leb lo c && N.leb c hi)%bool.

Definition is_upper (c : char) : bool := in_range 65 90 c.
Definition is_lower (c : char) : bool := in_range 97 122 c.
Definition is_digit (c : char) : bool := in_range 48 57 c.
Definition is_alnum (c : char) : bool := (is_lower c || is_upper c || is_digit c)%bool.
Definition is_word (c : char) : bool := (is_alnum c || N.eqb c 95)%bool.

(** LineTerminator: LF, CR, U+2028, U+2029. *)
Definition is_line_terminator (c : char) : bool :=
  (N.eqb c 10 || N.eqb c 13 || N.eqb c 8232 || N.eqb c 8233)%bool.

(** [\s]: WhiteSpace and LineTerminator of ECMAScript. *)
Definition is_space (c : char) : bool :=
  (in_range 9 13 c || N.eqb c 32 || N.eqb c 160 || N.eqb c 5760
   || in_range 8192 8202 c || N.eqb c 8232 || N.eqb c 8233 || N.eqb c 8239
   || N.eqb c 8287 || N.eqb c 12288 || N.eqb c 65279)%bool.

(** [.] without the s flag. *)
Definition is_dot (c : char) : bool := negb (is_line_terminator c).
Definition is_any (c : char) : bool := true.
Definition is_not (x : char) (c : char) : bool := negb (N.eqb c x).

(** Canonicalize of a pattern without the u flag.  Only ASCII literals are
    compared under the i flag in this program, and a code unit above 127
    never canonicalizes to one below 128, so code units above 127 are left
    as they are. *)
Definition canon (c : char) : char := if is_lower c then (c - 32)%N else c.

Definition char_eq (ci : bool) (a b : char) : bool :=
  if ci then N.eqb (canon a) (canon b) else N.eqb a b.

(** ** Regular expressions *)

Inductive regex : Type :=
| Eps
| Chr (c : char)
| Cls (p : char -> bool)
| Seq (r1 r2 : regex)
| Alt (r1 r2 : regex)
| Star (greedy : bool) (r : regex)
| Grp (n : nat) (r : regex)
| Bol                       (* [^] with the m flag *)
| Eol                       (* [$] with the m flag *)
| Eoi                       (* [$] without the m flag *)
| Look (negated : bool) (r : regex).

Fixpoint Lit (l : jsstring) : regex :=
  match l with
  | [] => Eps
  | c :: l' => Seq (Chr c) (Lit l')
  end.

Definition Plus (greedy : bool) (r : regex) : regex := Seq r (Star greedy r).
Definition Seqs (rs : list regex) : regex := fold_right Seq Eps rs.
Definition Alts (rs : list regex) : regex :=
  match rs with
  | [] => Eps
  | r :: rs' => fold_left Alt rs' r
  end.

(** A matcher state: the input read so far (reversed), the input left, and
    the captures, most recent binding first. *)
Record mstate : Type := MState {
  before : jsstring;
  after : jsstring;
  caps : list (nat * jsstring)
}.

Definition advance (c : char) (rest : jsstring) (st : mstate) : mstate :=
  MState (c :: before st) rest (caps st).

Definition consumed (st st' : mstate) : jsstring :=
  firstn (length (after st) - length (after st')) (after st).

Definition set_cap (n : nat) (st st' : mstate) : mstate :=
  MState (before st') (after st') ((n, consumed st st') :: caps st').

Definition progress (st st' : mstate) : bool :=
  Nat.ltb (length (after st')) (length (after st)).

(** [^] and [$] with the m flag. *)
Definition at_bol (st : mstate) : bool :=
  match before st with
  | [] => true
  | c :: _ => is_line_terminator c
  end.

Definition at_eol (st : mstate) : bool :=
  match after st with
  | [] => true
  | c :: _ => is_line_terminator c
  end.

(** One repetition step of [r*]: an iteration that reads nothing fails, as
    in RepeatMatcher.  The fuel is the length of the input left, plus one. *)
Fixpoint star_loop {A : Type} (greedy : bool)
    (body : (mstate -> option A) -> mstate -> option A)
    (k : mstate -> option A) (fuel : nat) (st : mstate) : option A :=
  match fuel with
  | O => None
  | S fuel' =>
      if greedy then
        match body (fun st' => if progress st st'
                               then star_loop greedy body k fuel' st'
                               else None) st with
        | Some a => Some a
        | None => k st
        end
      else
        match k st with
        | Some a => Some a
        | None => body (fun st' => if progress st st'
                                   then star_loop greedy body k fuel' st'
                                   else None) st
        end
  end.

(** The backtracking matcher, in continuation-passing style. *)
Fixpoint rmatch (A : Type) (ci : bool) (r : regex)
    (k : mstate -> option A) (st : mstate) {struct r} : option A :=
  match r with
  | Eps => k st
  | Chr c =>
      match after st with
      | x :: rest => if char_eq ci c x then k (advance x rest st) else None
      | [] => None
      end
  | Cls p =>
      match after st with
      | x :: rest => if p x then k (advance x rest st) else None
      | [] => None
      end
  | Seq r1 r2 => rmatch ci r1 (rmatch ci r2 k) st
  | Alt r1 r2 =>
      match rmatch ci r1 k st with
      | Some a => Some a
      | None => rmatch ci r2 k st
      end
  | Star greedy r1 =>
      star_loop greedy (rmatch ci r1) k (S (length (after st))) st
  | Grp n r1 => rmatch ci r1 (fun st' => k (set_cap n st st')) st
  | Bol => if at_bol st then k st else None
  | Eol => if at_eol st then k st else None
  | Eoi => match after st with [] => k st | _ :: _ => None end
  | Look negated r1 =>
      match rmatch ci r1 (fun st' => Some st') st with
      | Some st' =>
          if negated then None
          else k (MState (before st) (after st) (caps st'))
      | None => if negated then k st else None
      end
  end.

(** A compiled pattern: the tree and its i flag. *)
Record pattern : Type := Pattern { pat_re : regex; pat_ci : bool }.

(** One match attempt at the current position. *)
Definition exec_at (p : pattern) (bef aft : jsstring) : option mstate :=
  rmatch (pat_ci p) (pat_re p) (fun st' => Some st') (MState bef aft []).

(** What a replacer sees of a match. *)
Record minfo : Type := MInfo {
  m_text : jsstring;            (* the matched substring *)
  m_caps : list (nat * jsstring);
  m_pre : jsstring;             (* the input before the match *)
  m_post : jsstring             (* the input after the match *)
}.

Definition match_len (aft : jsstring) (e : mstate) : nat :=
  length aft - length (after e).

Definition info_of (bef aft : jsstring) (e : mstate) : minfo :=
  MInfo (firstn (match_len aft e) aft) (caps e) (rev bef)
        (skipn (match_len aft e) aft).

Definition cap (i : minfo) (n : nat) : option jsstring :=
  snd <$> List.find (fun p => Nat.eqb (fst p) n) (m_caps i).

(** RegExp.prototype.exec from a position: the leftmost match. *)
Fixpoint search (p : pattern) (bef aft : jsstring) : option minfo :=
  match exec_at p bef aft with
  | Some e => Some (info_of bef aft e)
  | None =>
      match aft with
      | [] => None
      | c :: aft' => search p (c :: bef) aft'
      end
  end.

(** [re.test(s)] for a pattern without the g flag. *)
Definition test (p : pattern) (s : jsstring) : bool :=
  match search p [] s with Some _ => true | None => false end.

(** [s.replace(re, fn)] for a pattern with the g flag and a replacer that
    may update a state of the caller.  [skip] counts the code units of the
    current match that are still to be passed over. *)
Fixpoint replace_loop {St : Type} (p : pattern)
    (f : minfo -> St -> jsstring * St) (skip : nat)
    (bef aft : jsstring) (s : St) : jsstring * St :=
  match skip with
  | S skip' =>
      match aft with
      | [] => ([], s)
      | c :: aft' => replace_loop p f skip' (c :: bef) aft' s
      end
  | O =>
      match exec_at p bef aft with
      | Some e =>
          let '(t, s1) := f (info_of bef aft e) s in
          match aft with
          | [] => (t, s1)
          | c :: aft' =>
              match match_len aft e with
              | O =>
                  let '(out, s2) := replace_loop p f 0 (c :: bef) aft' s1 in
                  (t ++ c :: out, s2)
              | S n =>
                  let '(out, s2) := replace_loop p f n (c :: bef) aft' s1 in
                  (t ++ out, s2)
              end
          end
      | None =>
          match aft with
          | [] => ([], s)
          | c :: aft' =>
              let '(out, s2) := replace_loop p f 0 (c :: bef) aft' s in
              (c :: out, s2)
          end
      end
  end.

Definition replace_fn {St : Type} (p : pattern)
    (f : minfo -> St -> jsstring * St) (str : jsstring) (s : St) : jsstring * St :=
  replace_loop p f 0 [] str s.

(** ** String operations of the JavaScript library *)

Fixpoint jseq (a b : jsstring) : bool :=
  match a, b with
  | [], [] => true
  | x :: a', y :: b' => N.eqb x y && jseq a' b'
  | _, _ => false
  end.

Fixpoint startsWith (s prefix : jsstring) : bool :=
  match prefix, s with
  | [], _ => true
  | x :: p', y :: s' => N.eqb x y && startsWith s' p'
  | _ :: _, [] => false
  end.

Fixpoint trimStart (s : jsstring) : jsstring :=
  match s with
  | c :: s' => if is_space c then trimStart s' else s
  | [] => []
  end.

Definition trim (s : jsstring) : jsstring :=
  rev (trimStart (rev (trimStart s))).

(** A value spliced into a template literal; an absent capture prints as
    the word undefined. *)
Definition interp (o : option jsstring) : jsstring :=
  match o with Some s => s | None => js "undefined" end.

Definition str_is (o : option jsstring) (s : jsstring) : bool :=
  match o with Some x => jseq x s | None => false end.

(** ** Replacement texts ([GetSubstitution]) *)

Fixpoint ngroups (r : regex) : nat :=
  match r with
  | Grp n r1 => Nat.max n (ngroups r1)
  | Seq r1 r2 | Alt r1 r2 => Nat.max (ngroups r1) (ngroups r2)
  | Star _ r1 | Look _ r1 => ngroups r1
  | Eps | Chr _ | Cls _ | Bol | Eol | Eoi => 0
  end.

Definition digit_value (c : char) : nat := N.to_nat (c - 48).

(** A capture that took no part in the match is replaced by nothing. *)
Definition capture_text (i : minfo) (n : nat) : jsstring := default [] (cap i n).

Definition valid_index (m n : nat) : bool := Nat.leb 1 n && Nat.leb n m.

(** The replacement text for a match, [m] being the number of groups of
    the pattern: [$$], [$&], [$`], [$'], [$n] and [$nn]. *)
Fixpoint expand (m : nat) (i : minfo) (template : jsstring) : jsstring :=
  match template with
  | [] => []
  | c :: rest =>
      if negb (N.eqb c (ch "$")) then c :: expand m i rest
      else
        match rest with
        | [] => [c]
        | d :: rest1 =>
            if N.eqb d (ch "$") then ch "$" :: expand m i rest1
            else if N.eqb d (ch "&") then m_text i ++ expand m i rest1
            else if N.eqb d (ch "`") then m_pre i ++ expand m i rest1
            else if N.eqb d (ch "'") then m_post i ++ expand m i rest1
            else if is_digit d then
              match rest1 with
              | e :: rest2 =>
                  if is_digit e
                     && valid_index m (digit_value d * 10 + digit_value e)
                  then capture_text i (digit_value d * 10 + digit_value e)
                       ++ expand m i rest2
                  else if valid_index m (digit_value d)
                  then capture_text i (digit_value d) ++ expand m i rest1
                  else c :: expand m i rest
              | [] =>
                  if valid_index m (digit_value d)
                  then capture_text i (digit_value d)
                  else c :: expand m i rest
              end
            else c :: expand m i rest
        end
  end.

(** [s.replace(re, template)] for a pattern with the g flag. *)
Definition replace_regex (p : pattern) (template : jsstring) (s : jsstring)
    : jsstring :=
  fst (replace_fn p
         (fun i (u : unit) => (expand (ngroups (pat_re p)) i template, u))
         s tt).

(** [s.indexOf(pat)], as the text before and after the first occurrence. *)
Fixpoint split_at_first (pat : jsstring) (bef s : jsstring)
    : option (jsstring * jsstring) :=
  if startsWith s pat then Some (rev bef, skipn (length pat) s)
  else
    match s with
    | [] => None
    | c :: s' => split_at_first pat (c :: bef) s'
    end.

(** [s.replace(pat, template)] for a string [pat]: the first occurrence
    only, and the template is expanded all the same. *)
Definition replace_string (pat template s : jsstring) : jsstring :=
  match split_at_first pat [] s with
  | None => s
  | Some (pre, post) => pre ++ expand 0 (MInfo pat [] pre post) template ++ post
  end.

(** [s.replace(/c/g, r)] for one literal code unit [c]. *)
Definition replace_unit (c : char) (r : jsstring) (s : jsstring) : jsstring :=
  flat_map (fun x => if N.eqb x c then r else [x]) s.

(** All matches of a pattern with the g flag, as the loop over
    [re.exec(s)] collects them.  No pattern of this program matches the
    empty string. *)
Fixpoint exec_loop (p : pattern) (skip : nat) (bef aft : jsstring)
    : list minfo :=
  match skip with
  | S skip' =>
      match aft with
      | [] => []
      | c :: aft' => exec_loop p skip' (c :: bef) aft'
      end
  | O =>
      match exec_at p bef aft with
      | Some e =>
          info_of bef aft e
          :: match aft with
             | [] => []
             | c :: aft' =>
                 exec_loop p (Nat.pred (match_len aft e)) (c :: bef) aft'
             end
      | None =>
          match aft with
          | [] => []
          | c :: aft' => exec_loop p 0 (c :: bef) aft'
          end
      end
  end.

Definition exec_all (p : pattern) (s : jsstring) : list minfo :=
  exec_loop p 0 [] s.

(** ** The Code Normalizer ([renameComponentToApp], claude.ts) *)

Definition ws : regex := Cls is_space.

(** /function\s+App\s*\(|const\s+App\s*=\s*(\([^)]*\)|)\s*=>|class\s+App\s+extends\s+React\.Component/i *)
Definition re_has_App : pattern :=
  Pattern
    (Alts
       [ Seqs [Lit (js "function"); Plus true ws; Lit (js "App");
               Star true ws; Chr (ch "(")];
         Seqs [Lit (js "const"); Plus true ws; Lit (js "App"); Star true ws;
               Chr (ch "="); Star true ws;
               Grp 1 (Alt (Seqs [Chr (ch "("); Star true (Cls (is_not (ch ")")));
                                 Chr (ch ")")])
                          Eps);
               Star true ws; Lit (js "=>")];
         Seqs [Lit (js "class"); Plus true ws; Lit (js "App"); Plus true ws;
               Lit (js "extends"); Plus true ws; Lit (js "React.Component")] ])
    true.

Definition component_name : regex :=
  Seq (Cls is_upper) (Star true (Cls is_alnum)).

(** /function\s+([A-Z][a-zA-Z0-9]* )\s*\(/g *)
Definition re_function : pattern :=
  Pattern
    (Seqs [Lit (js "function"); Plus true ws; Grp 1 component_name;
           Star true ws; Chr (ch "(")])
    false.

(** /const\s+([A-Z][a-zA-Z0-9]* )\s*=\s*(\([^)]*\)|)\s*=>/g *)
Definition re_arrow : pattern :=
  Pattern
    (Seqs [Lit (js "const"); Plus true ws; Grp 1 component_name; Star true ws;
           Chr (ch "="); Star true ws;
           Grp 2 (Alt (Seqs [Chr (ch "("); Star true (Cls (is_not (ch ")")));
                             Chr (ch ")")])
                      Eps);
           Star true ws; Lit (js "=>")])
    false.

(** /class\s+([A-Z][a-zA-Z0-9]* )\s+extends\s+React\.Component/g *)
Definition re_class : pattern :=
  Pattern
    (Seqs [Lit (js "class"); Plus true ws; Grp 1 component_name; Plus true ws;
           Lit (js "extends"); Plus true ws; Lit (js "React.Component")])
    false.

(** The lines written to the console. *)
Inductive log_line : Type :=
| LogAlreadyApp
| LogRenaming
| LogRenamedFunction (componentName : option jsstring)
| LogRenamedArrow (componentName : option jsstring)
| LogRenamedClass (componentName : option jsstring).

(** The variables the replacers close over. *)
Record rename_state : Type := RenameState {
  functionMatched : bool;
  console : list log_line
}.

Definition keep_match (componentName : option jsstring) (match_ : jsstring) : bool :=
  str_is componentName (js "App")
  || startsWith (trim match_) (js "//")
  || startsWith (trim match_) (js "*").

Definition replace_function (i : minfo) (st : rename_state)
    : jsstring * rename_state :=
  let componentName := cap i 1 in
  if keep_match componentName (m_text i) then (m_text i, st)
  else (js "function App(",
        RenameState true (console st ++ [LogRenamedFunction componentName])).

Definition replace_arrow (i : minfo) (st : rename_state)
    : jsstring * rename_state :=
  let componentName := cap i 1 in
  let params := cap i 2 in
  if keep_match componentName (m_text i) then (m_text i, st)
  else (js "const App = " ++ interp params ++ js " =>",
        RenameState (functionMatched st)
                    (console st ++ [LogRenamedArrow componentName])).

Definition replace_class (i : minfo) (st : rename_state)
    : jsstring * rename_state :=
  let componentName := cap i 1 in
  if keep_match componentName (m_text i) then (m_text i, st)
  else (js "class App extends React.Component",
        RenameState (functionMatched st)
                    (console st ++ [LogRenamedClass componentName])).

Definition renameComponentToApp_run (code : jsstring)
    : jsstring * list log_line :=
  if test re_has_App code then (code, [LogAlreadyApp])
  else
    let st0 := RenameState false [LogRenaming] in
    let '(code1, st1) := replace_fn re_function replace_function code st0 in
    let '(code2, st2) :=
      if negb (functionMatched st1)
      then replace_fn re_arrow replace_arrow code1 st1
      else (code1, st1) in
    let '(code3, st3) := replace_fn re_class replace_class code2 st2 in
    (code3, console st3).

Definition renameComponentToApp (code : jsstring) : jsstring :=
  fst (renameComponentToApp_run code).

Definition renameComponentToApp_console (code : jsstring) : list log_line :=
  snd (renameComponentToApp_run code).

(** ** The data model ([LearningTab], [Visualization], FileUpload.tsx) *)

Inductive vis_status : Type := Loading | Ready | Error.

Record Visualization : Type := mkVisualization {
  vis_id : jsstring;
  vis_description : jsstring;
  vis_code : jsstring;
  vis_status_of : vis_status;
  vis_error : option jsstring
}.

Record LearningTab : Type := mkLearningTab {
  tab_id : jsstring;
  tab_title : jsstring;
  tab_content : jsstring;
  tab_visualizations : list Visualization;
  tab_fileData : option jsstring
}.

(** ** JSON values, as [JSON.parse] returns them and as [JSON.stringify]
    reads an object: a property whose value is undefined is not there. *)

Inductive json : Type :=
| JNull
| JBool (b : bool)
| JNum (n : Z)
| JStr (s : jsstring)
| JArr (items : list json)
| JObj (fields : list (jsstring * json)).

Fixpoint get_field (fields : list (jsstring * json)) (k : jsstring)
    : option json :=
  match fields with
  | [] => None
  | (k', v) :: rest => if jseq k' k then Some v else get_field rest k
  end.

(** [{...o, k: v}]: the property keeps its place when it is there already. *)
Fixpoint set_field (fields : list (jsstring * json)) (k : jsstring) (v : json)
    : list (jsstring * json) :=
  match fields with
  | [] => [(k, v)]
  | (k', v') :: rest =>
      if jseq k' k then (k', v) :: rest else (k', v') :: set_field rest k v
  end.

(** [{...o, k: undefined}], seen through [JSON.stringify]. *)
Fixpoint remove_field (fields : list (jsstring * json)) (k : jsstring)
    : list (jsstring * json) :=
  match fields with
  | [] => []
  | (k', v') :: rest =>
      if jseq k' k then remove_field rest k else (k', v') :: remove_field rest k
  end.

Fixpoint digits_of (fuel n : nat) (acc : jsstring) : jsstring :=
  match fuel with
  | O => acc
  | S fuel' =>
      let d := N.of_nat (48 + n mod 10) in
      if Nat.ltb n 10 then d :: acc else digits_of fuel' (n / 10) (d :: acc)
  end.

Definition index_key (n : nat) : jsstring := digits_of (S n) n [].

Fixpoint indexed {A : Type} (f : A -> json) (n : nat) (l : list A)
    : list (jsstring * json) :=
  match l with
  | [] => []
  | x :: l' => (index_key n, f x) :: indexed f (S n) l'
  end.

(** The own enumerable properties that the spread [{...v}] copies. *)
Definition spread (v : json) : list (jsstring * json) :=
  match v with
  | JObj fields => fields
  | JArr items => indexed (fun x => x) 0 items
  | JStr s => indexed (fun c => JStr [c]) 0 s
  | JNull | JBool _ | JNum _ => []
  end.

(** [v.k]: [None] is undefined, an error is the TypeError on null. *)
Definition property (v : json) (k : jsstring) : option (option json) :=
  match v with
  | JNull => None
  | JObj fields => Some (get_field fields k)
  | JArr _ | JStr _ | JBool _ | JNum _ => Some None
  end.

Definition truthy (v : option json) : bool :=
  match v with
  | None | Some JNull | Some (JBool false) => false
  | Some (JNum n) => negb (Z.eqb n 0)
  | Some (JStr s) => negb (jseq s [])
  | Some (JBool true) | Some (JArr _) | Some (JObj _) => true
  end.

(** What [JSON.stringify] reads in a session list of the component. *)

Definition status_text (s : vis_status) : jsstring :=
  match s with
  | Loading => js "loading"
  | Ready => js "ready"
  | Error => js "error"
  end.

Definition optional_field (k : jsstring) (v : option jsstring)
    : list (jsstring * json) :=
  match v with Some s => [(k, JStr s)] | None => [] end.

Definition json_of_vis (v : Visualization) : json :=
  JObj ([ (js "id", JStr (vis_id v));
          (js "description", JStr (vis_description v));
          (js "code", JStr (vis_code v));
          (js "status", JStr (status_text (vis_status_of v))) ]
        ++ optional_field (js "error") (vis_error v)).

Definition json_of_tab (t : LearningTab) : json :=
  JObj ([ (js "id", JStr (tab_id t));
          (js "title", JStr (tab_title t));
          (js "content", JStr (tab_content t));
          (js "visualizations", JArr (List.map json_of_vis (tab_visualizations t))) ]
        ++ optional_field (js "fileData") (tab_fileData t)).

Definition json_of_tabs (tabs : list LearningTab) : json :=
  JArr (List.map json_of_tab tabs).

(** An artifact as an earlier version may have stored it: the status may
    be missing. *)
Record StoredVisualization : Type := mkStoredVisualization {
  sv_id : jsstring;
  sv_description : jsstring;
  sv_code : jsstring;
  sv_status : option vis_status;
  sv_error : option jsstring
}.

Record StoredTab : Type := mkStoredTab {
  st_id : jsstring;
  st_title : jsstring;
  st_content : jsstring;
  st_visualizations : list StoredVisualization;
  st_fileData : option jsstring
}.

Definition json_of_stored_vis (v : StoredVisualization) : json :=
  JObj ([ (js "id", JStr (sv_id v));
          (js "description", JStr (sv_description v));
          (js "code", JStr (sv_code v)) ]
        ++ optional_field (js "status") (status_text <$> sv_status v)
        ++ optional_field (js "error") (sv_error v)).

Definition json_of_stored_tab (t : StoredTab) : json :=
  JObj ([ (js "id", JStr (st_id t));
          (js "title", JStr (st_title t));
          (js "content", JStr (st_content t));
          (js "visualizations",
           JArr (List.map json_of_stored_vis (st_visualizations t))) ]
        ++ optional_field (js "fileData") (st_fileData t)).

Definition backfill_vis (v : StoredVisualization) : Visualization :=
  mkVisualization (sv_id v) (sv_description v) (sv_code v)
    (default Ready (sv_status v)) (sv_error v).

Definition backfill_tab (t : StoredTab) : LearningTab :=
  mkLearningTab (st_id t) (st_title t) (st_content t)
    (List.map backfill_vis (st_visualizations t)) (st_fileData t).

(** Reading a restored object back at the types of the component. *)

Definition read_string (fields : list (jsstring * json)) (k : jsstring)
    : option jsstring :=
  match get_field fields k with Some (JStr s) => Some s | _ => None end.

Definition read_optional (fields : list (jsstring * json)) (k : jsstring)
    : option (option jsstring) :=
  match get_field fields k with
  | None => Some None
  | Some (JStr s) => Some (Some s)
  | Some _ => None
  end.

Definition read_status (s : jsstring) : option vis_status :=
  if jseq s (js "loading") then Some Loading
  else if jseq s (js "ready") then Some Ready
  else if jseq s (js "error") then Some Error
  else None.

Definition read_vis (v : json) : option Visualization :=
  match v with
  | JObj fields =>
      i ← read_string fields (js "id");
      d ← read_string fields (js "description");
      c ← read_string fields (js "code");
      s ← read_string fields (js "status") ≫= read_status;
      e ← read_optional fields (js "error");
      Some (mkVisualization i d c s e)
  | _ => None
  end.

Definition read_tab (v : json) : option LearningTab :=
  match v with
  | JObj fields =>
      i ← read_string fields (js "id");
      t ← read_string fields (js "title");
      c ← read_string fields (js "content");
      vs ← match get_field fields (js "visualizations") with
           | Some (JArr items) => mapM read_vis items
           | _ => None
           end;
      d ← read_optional fields (js "fileData");
      Some (mkLearningTab i t c vs d)
  | _ => None
  end.

(** ** Persistence ([saveToLocalStorage] and the two effects on
    [learningTabs], FileUpload.tsx)

    The browser side is a parameter: the text codec of [JSON] and the
    decision of [localStorage.setItem] to accept a write or to throw. *)

Inductive set_outcome : Type :=
| SetOk
| SetQuotaExceeded      (* a DOMException named QuotaExceededError *)
| SetOtherError.

Inductive event : Type :=
| WarnApproachingLimit            (* console.warn, data above 4 MB *)
| CallSetItem (key value : jsstring) (outcome : set_outcome)
| CallRemoveItem (key : jsstring)
| ErrorSaving                     (* console.error('Error saving to localStorage:') *)
| WarnSavedWithoutFileData        (* console.warn('Saved tabs without file data ...') *)
| AlertStorageLimit               (* alert('Your browser storage limit was reached. ...') *)
| ErrorRetryFailed                (* console.error('Failed to save even without file data:') *)
| ErrorParsing.                   (* console.error('Error parsing saved tabs:') *)

Record world : Type := World {
  localStorage : gmap jsstring jsstring;
  trace : list event
}.

Definition emit (e : event) (w : world) : world :=
  World (localStorage w) (trace w ++ [e]).

(** The size of [new Blob([s])]: the length of the UTF-8 encoding, a lone
    surrogate counting as U+FFFD. *)
Fixpoint blob_size (s : jsstring) : N :=
  match s with
  | [] => 0
  | c :: rest =>
      if N.ltb c 128 then 1 + blob_size rest
      else if N.ltb c 2048 then 2 + blob_size rest
      else if in_range 55296 56319 c then
        match rest with
        | d :: rest' =>
            if in_range 56320 57343 d then 4 + blob_size rest'
            else 3 + blob_size rest
        | [] => 3
        end
      else 3 + blob_size rest
  end%N.

Definition is_array (v : json) : bool :=
  match v with JArr _ => true | _ => false end.

(** [data.map(tab => ({ ...tab, fileData: undefined }))], as serialized. *)
Definition strip_fileData (tab : json) : json :=
  JObj (remove_field (spread tab) (js "fileData")).

Definition strippedData (data : json) : json :=
  match data with
  | JArr items => JArr (List.map strip_fileData items)
  | other => other
  end.

(** The view the component shows. *)
Inductive view_kind : Type := ViewUpload | ViewContent | ViewVisualization.

(** The state the load effect writes: the restored objects are untyped. *)
Record restored : Type := Restored {
  r_learningTabs : list json;
  r_activeTab : option json;
  r_view : view_kind
}.

Definition initial_state : restored := Restored [] None ViewUpload.

(** [{...vis, status: vis.status || 'ready'}]; [None] is the TypeError. *)
Definition restore_vis (vis : json) : option json :=
  match property vis (js "status") with
  | None => None
  | Some st =>
      let status := if truthy st then default JNull st else JStr (js "ready") in
      Some (JObj (set_field (spread vis) (js "status") status))
  end.

(** [{...tab, visualizations: tab.visualizations.map(...)}]. *)
Definition restore_tab (tab : json) : option json :=
  match property tab (js "visualizations") with
  | Some (Some (JArr items)) =>
      vs ← mapM restore_vis items;
      Some (JObj (set_field (spread tab) (js "visualizations") (JArr vs)))
  | _ => None
  end.

Definition restore_tabs (parsedTabs : json) : option (list json) :=
  match parsedTabs with
  | JArr items => mapM restore_tab items
  | _ => None
  end.

Definition last_tab_id (tabs : list json) : option json :=
  match List.last (List.map Some tabs) None with
  | Some t => default None (property t (js "id"))
  | None => None
  end.

Section Browser.

Variable JSON_stringify : json -> jsstring.
Variable JSON_parse : jsstring -> option json.   (* [None]: SyntaxError *)
Variable try_setItem : gmap jsstring jsstring -> jsstring -> jsstring -> set_outcome.

Definition setItem (key value : jsstring) (w : world) : set_outcome * world :=
  match try_setItem (localStorage w) key value with
  | SetOk =>
      (SetOk, World (<[key := value]> (localStorage w))
                    (trace w ++ [CallSetItem key value SetOk]))
  | failure => (failure, emit (CallSetItem key value failure) w)
  end.

Definition removeItem (key : jsstring) (w : world) : world :=
  World (delete key (localStorage w)) (trace w ++ [CallRemoveItem key]).

Definition saveToLocalStorage (key : jsstring) (data : json) (w : world)
    : bool * world :=
  let serialized := JSON_stringify data in
  let w1 :=
    if N.ltb (4 * (1024 * 1024)) (blob_size serialized)
    then emit WarnApproachingLimit w else w in
  match setItem key serialized w1 with
  | (SetOk, w2) => (true, w2)
  | (failure, w2) =>
      let w3 := emit ErrorSaving w2 in
      match failure with
      | SetQuotaExceeded =>
          if jseq key (js "learningTabs") && is_array data then
            let serialized2 := JSON_stringify (strippedData data) in
            match setItem key serialized2 w3 with
            | (SetOk, w4) =>
                (true, emit AlertStorageLimit (emit WarnSavedWithoutFileData w4))
            | (_, w4) => (false, emit ErrorRetryFailed w4)
            end
          else (false, w3)
      | _ => (false, w3)
      end
  end.

(** The effect that runs whenever [learningTabs] changes. *)
Definition save_effect (learningTabs : list LearningTab) (w : world)
    : world :=
  if Nat.ltb 0 (length learningTabs)
  then snd (saveToLocalStorage (js "learningTabs") (json_of_tabs learningTabs) w)
  else removeItem (js "learningTabs") w.

(** The effect that runs once, on the first render. *)
Definition load_effect (s : restored) (w : world) : restored * world :=
  let savedTabs : option jsstring := localStorage w !! js "learningTabs" in
  match savedTabs with
  | None | Some [] => (s, w)
  | Some savedTabs =>
      match JSON_parse savedTabs ≫= restore_tabs with
      | Some restoredTabs =>
          (if Nat.ltb 0 (length restoredTabs)
           then Restored restoredTabs (last_tab_id restoredTabs) ViewContent
           else Restored restoredTabs (r_activeTab s) (r_view s), w)
      | None => (s, removeItem (js "learningTabs") (emit ErrorParsing w))
      end
  end.

End Browser.

(** ** Session creation ([handleBeginLearning], FileUpload.tsx) *)

Record File : Type := mkFile {
  file_name : jsstring;
  file_size : N                 (* bytes *)
}.

(** One block returned by [analyzeDocument]. *)
Record ExtractedVisualization : Type := mkExtracted {
  ev_id : jsstring;
  ev_description : jsstring;
  ev_code : jsstring
}.

Definition processedVisualizations (extracted : list ExtractedVisualization)
    : list Visualization :=
  List.map (fun vis => mkVisualization (ev_id vis) (ev_description vis)
                         (ev_code vis) Ready None)
           extracted.

Definition fileDataToStore (file : File) (base64Data : jsstring)
    : option jsstring :=
  if N.ltb (file_size file) (5 * 1024 * 1024) then Some base64Data else None.

Definition newTab (newTabId : jsstring) (file : File) (base64Data : jsstring)
    (paperContent : jsstring) (extracted : list ExtractedVisualization)
    : LearningTab :=
  mkLearningTab newTabId (file_name file) paperContent
    (processedVisualizations extracted) (fileDataToStore file base64Data).

(** [[...prev, newTab]]. *)
Definition add_tab_list {A : Type} (prev : list A) (t : A) : list A :=
  prev ++ [t].

(** [setLearningTabs(prev => [...prev, newTab])]. *)
Definition add_tab (prev : list LearningTab) (t : LearningTab)
    : list LearningTab :=
  add_tab_list prev t.

(** ** Regeneration: the update of the session list
    ([handleRegenerateVisualization], FileUpload.tsx) *)

Definition replace_visualization (visId : jsstring)
    (updatedVisualization : Visualization) (vs : list Visualization)
    : list Visualization :=
  List.map (fun v => if jseq (vis_id v) visId then updatedVisualization else v) vs.

Definition update_tabs (activeTab visId : jsstring)
    (updatedVisualization : Visualization) (prevTabs : list LearningTab)
    : list LearningTab :=
  List.map (fun tab =>
              if jseq (tab_id tab) activeTab
              then mkLearningTab (tab_id tab) (tab_title tab) (tab_content tab)
                     (replace_visualization visId updatedVisualization
                        (tab_visualizations tab))
                     (tab_fileData tab)
              else tab)
           prevTabs.

Definition updatedVisualization (visId description newVisualizationCode : jsstring)
    : Visualization :=
  mkVisualization visId description newVisualizationCode Ready None.

(** ** Markdown to HTML ([markdownToHtml], FileUpload.tsx) *)

(** A template or literal of the source; [~] stands for the double quote. *)
Definition tpl (s : string) : jsstring :=
  List.map (fun c => if N.eqb c (ch "~") then 34%N else c) (js s).
Arguments tpl s%_string : simpl never.

Definition dot : regex := Cls is_dot.
Definition Opt (r : regex) : regex := Alt r Eps.
Definition is_alpha (c : char) : bool := (is_lower c || is_upper c)%bool.

(** /^#{n} (.+)$/gm *)
Definition re_heading (n : nat) : pattern :=
  Pattern (Seqs [Bol; Lit (repeat (ch "#") n); Chr (ch " ");
                 Grp 1 (Plus true dot); Eol]) false.

(** /^\* (.+)$/gm and /^- (.+)$/gm *)
Definition re_bullet (c : char) : pattern :=
  Pattern (Seqs [Bol; Chr c; Chr (ch " "); Grp 1 (Plus true dot); Eol]) false.

Definition list_item : regex :=
  Grp 1 (Seqs [Lit (js "<li>"); Plus true dot; Lit (js "</li>")]).

(** /(<li>.+<\/li>)\n(?=<li>)/g *)
Definition re_item_newline : pattern :=
  Pattern (Seqs [list_item; Chr 10; Look false (Lit (js "<li>"))]) false.

(** /(<li>.+<\/li>)+/g *)
Definition re_items : pattern := Pattern (Plus true list_item) false.

(** /^\d+\. (.+)$/gm *)
Definition re_numbered : pattern :=
  Pattern (Seqs [Bol; Plus true (Cls is_digit); Chr (ch "."); Chr (ch " ");
                 Grp 1 (Plus true dot); Eol]) false.

(** /\*\*(.+?)\*\*/g, /__(.+?)__/g, /\*(.+?)\*/g and /_(.+?)_/g *)
Definition re_emphasis (mark : jsstring) : pattern :=
  Pattern (Seqs [Lit mark; Grp 1 (Plus false dot); Lit mark]) false.

(** /```([a-zA-Z]* )([\s\S]*?)```/g, without the space *)
Definition re_code_block : pattern :=
  Pattern (Seqs [Lit (js "```"); Grp 1 (Star true (Cls is_alpha));
                 Grp 2 (Star false (Cls is_any)); Lit (js "```")]) false.

(** /`([^`]+)`/g *)
Definition re_inline_code : pattern :=
  Pattern (Seqs [Chr (ch "`"); Grp 1 (Plus true (Cls (is_not (ch "`"))));
                 Chr (ch "`")]) false.

(** /^(?!(#|<h|<ul|<ol|<div class="code-block"|<p)).+$/gm *)
Definition re_paragraph : pattern :=
  Pattern (Seqs [Bol;
                 Look true
                   (Grp 1 (Alts [Lit (js "#"); Lit (js "<h"); Lit (js "<ul");
                                 Lit (js "<ol");
                                 Lit (tpl "<div class=~code-block~");
                                 Lit (js "<p")]));
                 Plus true dot; Eol]) false.

(** /<p><p>/g and /<\/p><\/p>/g *)
Definition re_literal (l : jsstring) : pattern := Pattern (Lit l) false.

(** /(.+)\n(?!<\/?[a-z]|$)/g *)
Definition re_line_break : pattern :=
  Pattern (Seqs [Grp 1 (Plus true dot); Chr 10;
                 Look true (Alt (Seqs [Chr (ch "<"); Opt (Chr (ch "/"));
                                       Cls is_lower])
                                Eoi)]) false.

Definition markdownToHtml (markdown : jsstring) : jsstring :=
  let html := markdown in
  let html := replace_regex (re_heading 1) (js "<h1>$1</h1>") html in
  let html := replace_regex (re_heading 2) (js "<h2>$1</h2>") html in
  let html := replace_regex (re_heading 3) (js "<h3>$1</h3>") html in
  let html := replace_regex (re_heading 4) (js "<h4>$1</h4>") html in
  let html := replace_regex (re_heading 5) (js "<h5>$1</h5>") html in
  let html := replace_regex (re_heading 6) (js "<h6>$1</h6>") html in
  let html := replace_regex (re_bullet (ch "*")) (js "<li>$1</li>") html in
  let html := replace_regex (re_bullet (ch "-")) (js "<li>$1</li>") html in
  let html := replace_regex re_item_newline (js "$1") html in
  let html := replace_regex re_items (js "<ul>$&</ul>") html in
  let html := replace_regex re_numbered (js "<li>$1</li>") html in
  let html := replace_regex re_item_newline (js "$1") html in
  let html := replace_regex re_items (js "<ol>$&</ol>") html in
  let html := replace_regex (re_emphasis (js "**")) (js "<strong>$1</strong>") html in
  let html := replace_regex (re_emphasis (js "__")) (js "<strong>$1</strong>") html in
  let html := replace_regex (re_emphasis (js "*")) (js "<em>$1</em>") html in
  let html := replace_regex (re_emphasis (js "_")) (js "<em>$1</em>") html in
  let html :=
    replace_regex re_code_block
      (tpl "<div class=~code-block~><div class=~code-lang~>$1</div><pre>$2</pre></div>")
      html in
  let html := replace_regex re_inline_code (js "<code>$1</code>") html in
  let html := replace_regex re_paragraph (js "<p>$&</p>") html in
  let html := replace_regex (re_literal (js "<p><p>")) (js "<p>") html in
  let html := replace_regex (re_literal (js "</p></p>")) (js "</p>") html in
  let html := replace_regex re_line_break (js "$1<br>") html in
  html.

(** ** The Placeholder Protocol ([formatResponse], FileUpload.tsx) *)

(** The state of the component that [formatResponse] reads. *)
Record component : Type := Component {
  file : option File;
  cachedFile : option File;
  learningTabs : list LearningTab;
  activeTab : option jsstring;
  regeneratingVisualizations : gmap jsstring bool
}.

(** The properties every object inherits from [Object.prototype]; each of
    them is truthy. *)
Definition object_prototype_keys : list jsstring :=
  [ js "constructor"; js "__defineGetter__"; js "__defineSetter__";
    js "hasOwnProperty"; js "__lookupGetter__"; js "__lookupSetter__";
    js "isPrototypeOf"; js "propertyIsEnumerable"; js "toString";
    js "valueOf"; js "__proto__"; js "toLocaleString" ].

(** [regeneratingVisualizations[id]], as a condition. *)
Definition is_regenerating (c : component) (id : jsstring) : bool :=
  match regeneratingVisualizations c !! id with
  | Some b => b
  | None => existsb (jseq id) object_prototype_keys
  end.

Definition nonempty (o : option jsstring) : bool :=
  match o with Some (_ :: _) => true | _ => false end.

Definition current_tab (c : component) : option LearningTab :=
  match activeTab c with
  | Some a => List.find (fun t => jseq (tab_id t) a) (learningTabs c)
  | None => None
  end.

(** [!!(file || cachedFile || (tab && tab.fileData))] *)
Definition fileDataAvailable (c : component) : bool :=
  match file c, cachedFile c, current_tab c with
  | Some _, _, _ => true
  | None, Some _, _ => true
  | None, None, Some tab => nonempty (tab_fileData tab)
  | None, None, None => false
  end.

(** /{{VISUALIZATION:([a-zA-Z0-9_]+):([^}]+)}}/g *)
Definition placeholderRegex : pattern :=
  Pattern (Seqs [Lit (js "{{VISUALIZATION:"); Grp 1 (Plus true (Cls is_word));
                 Chr (ch ":"); Grp 2 (Plus true (Cls (is_not (ch "}"))));
                 Lit (js "}}")]) false.

Record placeholder : Type := Placeholder {
  ph_id : jsstring;
  ph_description : jsstring
}.

Definition placeholdersInText (text : jsstring) : list placeholder :=
  List.map (fun m => Placeholder (capture_text m 1) (capture_text m 2))
           (exec_all placeholderRegex text).

Definition placeholderTag (id description : jsstring) : jsstring :=
  js "{{VISUALIZATION:" ++ id ++ js ":" ++ description ++ js "}}".

(** U+26A0 U+FE0F, the warning sign of the fragments. *)
Definition warning_sign : jsstring := [9888; 65039]%N.

Definition file_data_warning : jsstring :=
  tpl "<div class=~file-data-warning~>Document data not available. Please re-upload the document to regenerate visualizations.</div>".

(** [description.replace(/'/g, "\\'")] *)
Definition escape_quotes (description : jsstring) : jsstring :=
  replace_unit (ch "'") [92; 39]%N description.

(** [visualization.error || 'Failed to load visualization'] *)
Definition error_text (visualization : Visualization) : jsstring :=
  match vis_error visualization with
  | Some (c :: e) => c :: e
  | _ => js "Failed to load visualization"
  end.

(** The five replacements that escape the code for display. *)
Definition escape_html (code : jsstring) : jsstring :=
  replace_unit (ch "'") (js "&#039;")
    (replace_unit 34 (js "&quot;")
       (replace_unit (ch ">") (js "&gt;")
          (replace_unit (ch "<") (js "&lt;")
             (replace_unit (ch "&") (js "&amp;") code)))).

(** [encodeURIComponent]: [None] is the URIError on a lone surrogate. *)
Definition uri_unreserved (c : char) : bool :=
  (is_alnum c || existsb (N.eqb c) (js "-_.!~*'()"))%bool.

Definition upper_hex (n : N) : char :=
  if N.ltb n 10 then (48 + n)%N else (55 + n)%N.

Definition percent (byte : N) : jsstring :=
  [ch "%"; upper_hex (N.modulo (N.div byte 16) 16); upper_hex (N.modulo byte 16)].

Definition utf8_bytes (cp : N) : list N :=
  (if N.ltb cp 128 then [cp]
   else if N.ltb cp 2048 then [192 + cp / 64; 128 + cp mod 64]
   else if N.ltb cp 65536
   then [224 + cp / 4096; 128 + (cp / 64) mod 64; 128 + cp mod 64]
   else [240 + cp / 262144; 128 + (cp / 4096) mod 64;
         128 + (cp / 64) mod 64; 128 + cp mod 64])%N.

Fixpoint encodeURIComponent (s : jsstring) : option jsstring :=
  match s with
  | [] => Some []
  | c :: rest =>
      if uri_unreserved c then cons c <$> encodeURIComponent rest
      else if in_range 56320 57343 c then None
      else if in_range 55296 56319 c then
        match rest with
        | d :: rest' =>
            if in_range 56320 57343 d
            then app (flat_map percent
                        (utf8_bytes ((c - 55296) * 1024 + (d - 56320) + 65536)%N))
                 <$> encodeURIComponent rest'
            else None
        | [] => None
        end
      else app (flat_map percent (utf8_bytes c)) <$> encodeURIComponent rest
  end.

Definition fragment_missing (id description : jsstring)
    (regenerating fileDataAvailable : bool) : jsstring :=
  tpl "<div class=~visualization-placeholder error~>
          <h4>Visualization: "
    ++ description
    ++ tpl "</h4>
          <div class=~placeholder-status error~>
            <div class=~error-icon~>"
    ++ warning_sign
    ++ tpl "</div>
            <div>Visual failed to generate</div>
            <button 
              class=~retry-button~
              onclick=~window.dispatchEvent(new CustomEvent('regenerate-visualization', { detail: { id: '"
    ++ id
    ++ tpl "', description: '"
    ++ escape_quotes description
    ++ tpl "' } }))~
              "
    ++ (if regenerating then js "disabled" else [])
    ++ tpl "
              "
    ++ (if negb fileDataAvailable then js "disabled" else [])
    ++ tpl "
            >
              "
    ++ (if regenerating then js "Regenerating..." else js "Generate")
    ++ tpl "
            </button>
            "
    ++ (if negb fileDataAvailable then file_data_warning else [])
    ++ tpl "
          </div>
        </div>".

Definition fragment_loading (visualization : Visualization) : jsstring :=
  tpl "<div class=~visualization-placeholder loading~>
          <h4>Visualization: "
    ++ vis_description visualization
    ++ tpl "</h4>
          <div class=~placeholder-status~>
            <div className=~spinner~></div>
            <span>Loading visualization...</span>
          </div>
        </div>".

Definition fragment_error (visualization : Visualization)
    (id description : jsstring) (regenerating fileDataAvailable : bool)
    : jsstring :=
  tpl "<div class=~visualization-placeholder error~>
          <h4>Visualization: "
    ++ vis_description visualization
    ++ tpl "</h4>
          <div class=~placeholder-status error~>
            <div className=~error-icon~>"
    ++ warning_sign
    ++ tpl "</div>
            <div>Error: "
    ++ error_text visualization
    ++ tpl "</div>
            <button 
              class=~retry-button~
              onclick=~window.dispatchEvent(new CustomEvent('regenerate-visualization', { detail: { id: '"
    ++ id
    ++ tpl "', description: '"
    ++ escape_quotes description
    ++ tpl "' } }))~
              "
    ++ (if regenerating then js "disabled" else [])
    ++ tpl "
              "
    ++ (if negb fileDataAvailable then js "disabled" else [])
    ++ tpl "
            >
              "
    ++ (if regenerating then js "Regenerating..." else js "Try Again")
    ++ tpl "
            </button>
            "
    ++ (if negb fileDataAvailable then file_data_warning else [])
    ++ tpl "
          </div>
        </div>".

Definition fragment_ready (visualization : Visualization)
    (id description : jsstring) (regenerating fileDataAvailable : bool)
    (visContainerId encoded escapedCode : jsstring) : jsstring :=
  tpl "<div class=~visualization-placeholder ready~>
          <div class=~visualization-header~>
            <h4>Visualization: "
    ++ vis_description visualization
    ++ tpl "</h4>
            <button 
              class=~regenerate-button~
              onclick=~window.dispatchEvent(new CustomEvent('regenerate-visualization', { detail: { id: '"
    ++ id
    ++ tpl "', description: '"
    ++ escape_quotes description
    ++ tpl "' } }))~
              "
    ++ (if regenerating then js "disabled" else [])
    ++ tpl "
              "
    ++ (if negb fileDataAvailable then js "disabled" else [])
    ++ tpl "
            >
              "
    ++ (if regenerating then js "Regenerating..." else js "Regenerate")
    ++ tpl "
            </button>
          </div>
          "
    ++ (if negb fileDataAvailable then file_data_warning else [])
    ++ tpl "
          <div id=~"
    ++ visContainerId
    ++ tpl "~ class=~embedded-visualization-container~ data-code=~"
    ++ encoded
    ++ tpl "~></div>
          <details>
            <summary>Show Code</summary>
            <pre style=~background-color: #f0f0f0; padding: 10px; border-radius: 4px; overflow-x: auto; max-height: 300px;~>"
    ++ escapedCode
    ++ tpl "</pre>
          </details>
        </div>".

Definition visContainerId_of (visualization : Visualization) : jsstring :=
  js "vis-container-" ++ vis_id visualization.

Definition replacementHtml (c : component) (visualizations : list Visualization)
    (p : placeholder) : option jsstring :=
  let id := ph_id p in
  let description := ph_description p in
  match List.find (fun v => jseq (vis_id v) id) visualizations with
  | None =>
      Some (fragment_missing id description (is_regenerating c id)
              (fileDataAvailable c))
  | Some visualization =>
      match vis_status_of visualization with
      | Loading => Some (fragment_loading visualization)
      | Error =>
          Some (fragment_error visualization id description
                  (is_regenerating c id) (fileDataAvailable c))
      | Ready =>
          encoded ← encodeURIComponent (vis_code visualization);
          Some (fragment_ready visualization id description
                  (is_regenerating c id) (fileDataAvailable c)
                  (visContainerId_of visualization) encoded
                  (escape_html (vis_code visualization)))
      end
  end.

(** The loop over the placeholders of the text. *)
Fixpoint substitute (c : component) (visualizations : list Visualization)
    (placeholders : list placeholder) (formattedText : jsstring)
    : option jsstring :=
  match placeholders with
  | [] => Some formattedText
  | p :: rest =>
      html ← replacementHtml c visualizations p;
      substitute c visualizations rest
        (replace_string (placeholderTag (ph_id p) (ph_description p)) html
           formattedText)
  end.

(** /{{[^}]+}}/g *)
Definition re_braces : pattern :=
  Pattern (Seqs [Lit (js "{{"); Plus true (Cls (is_not (ch "}")));
                 Lit (js "}}")]) false.

Definition formatResponse (c : component) (text : jsstring)
    (visualizations : list Visualization) : option jsstring :=
  formattedText ← substitute c visualizations (placeholdersInText text)
                    (markdownToHtml text);
  Some (replace_regex re_braces [] formattedText).

(** * Vocabulary of the statements *)

(** ** The matcher, declaratively

    [Matches ci r st st'] holds when [r] can read the input from [st] to
    [st'] along some path of the backtracking search. *)

Inductive Matches (ci : bool) : regex -> mstate -> mstate -> Prop :=
| M_Eps st : Matches ci Eps st st
| M_Chr c x rest st :
    after st = x :: rest -> char_eq ci c x = true ->
    Matches ci (Chr c) st (advance x rest st)
| M_Cls p x rest st :
    after st = x :: rest -> p x = true ->
    Matches ci (Cls p) st (advance x rest st)
| M_Seq r1 r2 st st1 st2 :
    Matches ci r1 st st1 -> Matches ci r2 st1 st2 ->
    Matches ci (Seq r1 r2) st st2
| M_AltL r1 r2 st st' : Matches ci r1 st st' -> Matches ci (Alt r1 r2) st st'
| M_AltR r1 r2 st st' : Matches ci r2 st st' -> Matches ci (Alt r1 r2) st st'
| M_Star0 g r st : Matches ci (Star g r) st st
| M_StarS g r st st1 st2 :
    Matches ci r st st1 -> progress st st1 = true ->
    Matches ci (Star g r) st1 st2 ->
    Matches ci (Star g r) st st2
| M_Grp n r st st' :
    Matches ci r st st' -> Matches ci (Grp n r) st (set_cap n st st')
| M_Bol st : at_bol st = true -> Matches ci Bol st st
| M_Eol st : at_eol st = true -> Matches ci Eol st st
| M_Eoi st : after st = [] -> Matches ci Eoi st st
| M_LookPos r st st' :
    rmatch ci r (fun x => Some x) st = Some st' ->
    Matches ci (Look false r) st (MState (before st) (after st) (caps st'))
| M_LookNeg r st :
    rmatch ci r (fun x => Some x) st = None ->
    Matches ci (Look true r) st st.

(** [w] is the literal [lit], up to letter case when [ci] is set. *)
Definition same_text (ci : bool) (lit w : jsstring) : Prop :=
  Forall2 (fun c x => char_eq ci c x = true) lit w.

Definition all_space (w : jsstring) : Prop := Forall (fun c => is_space c = true) w.

(** The text of a parameter list as the patterns read it: nothing, or a
    parenthesised run without a closing parenthesis inside. *)
Inductive params_text : jsstring -> Prop :=
| PT_none : params_text []
| PT_list p :
    Forall (fun c => is_not (ch ")") c = true) p ->
    params_text (ch "(" :: p ++ [ch ")"]).

(** A declaration of the entry name [App] in one of the three styles,
    letter for letter ([ci = false]) or up to letter case ([ci = true]). *)
Inductive EntryDecl (ci : bool) : jsstring -> Prop :=
| ED_function kw s1 nm s2 :
    same_text ci (js "function") kw -> all_space s1 -> s1 <> [] ->
    same_text ci (js "App") nm -> all_space s2 ->
    EntryDecl ci (kw ++ s1 ++ nm ++ s2 ++ [ch "("])
| ED_arrow kw s1 nm s2 s3 ps s4 :
    same_text ci (js "const") kw -> all_space s1 -> s1 <> [] ->
    same_text ci (js "App") nm -> all_space s2 -> all_space s3 ->
    params_text ps -> all_space s4 ->
    EntryDecl ci (kw ++ s1 ++ nm ++ s2 ++ [ch "="] ++ s3 ++ ps ++ s4 ++ js "=>")
| ED_class kw s1 nm s2 ex s3 rc :
    same_text ci (js "class") kw -> all_space s1 -> s1 <> [] ->
    same_text ci (js "App") nm -> all_space s2 -> s2 <> [] ->
    same_text ci (js "extends") ex -> all_space s3 -> s3 <> [] ->
    same_text ci (js "React.Component") rc ->
    EntryDecl ci (kw ++ s1 ++ nm ++ s2 ++ ex ++ s3 ++ rc).

(** A pattern without capture groups. *)
Fixpoint groupless (r : regex) : bool :=
  match r with
  | Eps | Chr _ | Cls _ | Bol | Eol | Eoi => true
  | Seq r1 r2 | Alt r1 r2 => groupless r1 && groupless r2
  | Star _ r1 => groupless r1
  | Grp _ _ => false
  | Look negated _ => negated
  end.

(** The three texts the replacers of the Code Normalizer write. *)
Definition renamed_text (t : jsstring) : Prop :=
  t = js "function App("
  \/ (exists ps, params_text ps /\ t = js "const App = " ++ ps ++ js " =>")
  \/ t = js "class App extends React.Component".

(** Which category a console line reports, and which categories a run of
    the Code Normalizer applied. *)
Definition is_function_line (l : log_line) : bool :=
  match l with LogRenamedFunction _ => true | _ => false end.
Definition is_arrow_line (l : log_line) : bool :=
  match l with LogRenamedArrow _ => true | _ => false end.
Definition is_class_line (l : log_line) : bool :=
  match l with LogRenamedClass _ => true | _ => false end.

Definition applied_function (code : jsstring) : bool :=
  existsb is_function_line (renameComponentToApp_console code).
Definition applied_arrow (code : jsstring) : bool :=
  existsb is_arrow_line (renameComponentToApp_console code).
Definition applied_class (code : jsstring) : bool :=
  existsb is_class_line (renameComponentToApp_console code).

Definition categories_applied (code : jsstring) : nat :=
  Nat.b2n (applied_function code) + Nat.b2n (applied_arrow code)
  + Nat.b2n (applied_class code).

(** Each pass on its own. *)
Definition function_pass (code : jsstring) : jsstring :=
  fst (replace_fn re_function replace_function code (RenameState false [])).
Definition arrow_pass (code : jsstring) : jsstring :=
  fst (replace_fn re_arrow replace_arrow code (RenameState false [])).
Definition class_pass (code : jsstring) : jsstring :=
  fst (replace_fn re_class replace_class code (RenameState false [])).

(** A pass only appends console lines of its own kind, and the flag is set
    exactly when a function line was written. *)
Definition adds_lines (kind : log_line -> bool) (s s' : rename_state) : Prop :=
  exists l, console s' = console s ++ l /\ forallb kind l = true
            /\ functionMatched s'
               = (functionMatched s || (existsb is_function_line l))%bool.

Definition without_fileData (t : LearningTab) : LearningTab :=
  mkLearningTab (tab_id t) (tab_title t) (tab_content t)
    (tab_visualizations t) None.

Definition stored_of_vis (v : Visualization) : StoredVisualization :=
  mkStoredVisualization (vis_id v) (vis_description v) (vis_code v)
    (Some (vis_status_of v)) (vis_error v).

Definition stored_of_tab (t : LearningTab) : StoredTab :=
  mkStoredTab (tab_id t) (tab_title t) (tab_content t)
    (List.map stored_of_vis (tab_visualizations t)) (tab_fileData t).

(** The active session after a restore: the last one of the list. *)
Definition last_id (tabs : list LearningTab) : option json :=
  match List.last (List.map Some tabs) None with
  | Some t => Some (JStr (tab_id t))
  | None => None
  end.

(** The save effect left the list in storage: with an empty list there is
    nothing to write, otherwise [saveToLocalStorage] returned true. *)
Definition saved_ok (JSON_stringify : json -> jsstring)
    (try_setItem : gmap jsstring jsstring -> jsstring -> jsstring -> set_outcome)
    (learningTabs : list LearningTab) (w : world) : bool :=
  if Nat.ltb 0 (length learningTabs)
  then fst (saveToLocalStorage JSON_stringify try_setItem (js "learningTabs")
              (json_of_tabs learningTabs) w)
  else true.

(** The text written for [v] parses back to [v]. *)
Definition reads_back (JSON_stringify : json -> jsstring)
    (JSON_parse : jsstring -> option json) (v : json) : Prop :=
  JSON_parse (JSON_stringify v) = Some v.

(** ** Mount points in the HTML *)

(** The number of places where [pat] occurs in [s]. *)
Fixpoint occurrences (pat s : jsstring) : nat :=
  (if startsWith s pat then 1 else 0)
  + match s with
    | [] => 0
    | _ :: s' => occurrences pat s'
    end.

(** The opening of the element that [renderVisualization] looks up by
    [document.getElementById('vis-container-' + id)]. *)
Definition mount_prefix : jsstring := tpl "<div id=~vis-container-".

Definition mount_point (id : jsstring) : jsstring := mount_prefix ++ id ++ dq.

Definition mount_points (c : component) (text : jsstring)
    (visualizations : list Visualization) (id : jsstring) : option nat :=
  occurrences (mount_point id) <$> formatResponse c text visualizations.

(** No [{{] in [s]; [prev] tells that the unit before [s] is a brace. *)
Fixpoint brace_free (prev : bool) (s : jsstring) : bool :=
  match s with
  | [] => true
  | c :: rest =>
      if N.eqb c (ch "{") then negb prev && brace_free true rest
      else brace_free false rest
  end.

(** A unit that is none of [$], [<] and [{]. *)
Definition plain (c : char) : bool :=
  negb (N.eqb c (ch "$")) && negb (N.eqb c (ch "<")) && negb (N.eqb c (ch "{")).

(** [u] and [m] differ at a position they both have. *)
Fixpoint mismatch (u m : jsstring) : bool :=
  match u, m with
  | x :: u', y :: m' => if N.eqb x y then mismatch u' m' else true
  | _, _ => false
  end.

(** No suffix of [f] can be the start of an occurrence of [m]. *)
Fixpoint clean (m f : jsstring) : bool :=
  match f with
  | [] => true
  | _ :: f' => mismatch f m && clean m f'
  end.

(** The last unit of [f] is there and is not a brace. *)
Definition ends_plain (f : jsstring) : bool :=
  match rev f with
  | c :: _ => is_not (ch "{") c
  | [] => false
  end.

Definition head_is (q : char -> bool) (f : jsstring) : bool :=
  match f with
  | c :: _ => q c
  | [] => false
  end.

(** [f] ends with the opening of a mount point, up to the quote of its
    id attribute, and nothing before that can start one. *)
Definition opens_mount (f : jsstring) : bool :=
  let g := firstn (length f - 9) f in
  jseq f (g ++ tpl "<div id=~") && clean mount_prefix g.

(** * A reference browser and examples *)

(** ** A text codec for JSON

    [JSON.stringify] and [JSON.parse] belong to the browser and stay
    parameters of the model.  This printer and parser follow ECMA-404 on
    the values the program writes (integers only for numbers), to run the
    persistence functions on concrete session lists. *)

Definition hex_digit (n : N) : char :=
  if N.ltb n 10 then (48 + n)%N else (87 + n)%N.

Definition hex4 (c : char) : jsstring :=
  [ hex_digit (N.modulo (N.div c 4096) 16); hex_digit (N.modulo (N.div c 256) 16);
    hex_digit (N.modulo (N.div c 16) 16); hex_digit (N.modulo c 16) ].

Definition escape_unit (c : char) : jsstring :=
  if N.eqb c 34 then [92; 34]%N
  else if N.eqb c 92 then [92; 92]%N
  else if N.eqb c 8 then [92; 98]%N
  else if N.eqb c 9 then [92; 116]%N
  else if N.eqb c 10 then [92; 110]%N
  else if N.eqb c 12 then [92; 102]%N
  else if N.eqb c 13 then [92; 114]%N
  else if N.ltb c 32 then [92; 117]%N ++ hex4 c
  else if in_range 55296 57343 c then [92; 117]%N ++ hex4 c
  else [c].

(** A surrogate pair is written as it is, a lone surrogate escaped. *)
Fixpoint quote_units (s : jsstring) : jsstring :=
  match s with
  | [] => []
  | c :: rest =>
      match rest with
      | d :: rest' =>
          if in_range 55296 56319 c && in_range 56320 57343 d
          then c :: d :: quote_units rest'
          else escape_unit c ++ quote_units rest
      | [] => escape_unit c
      end
  end.

Definition quote (s : jsstring) : jsstring := dq ++ quote_units s ++ dq.

Fixpoint join_comma (parts : list jsstring) : jsstring :=
  match parts with
  | [] => []
  | [p] => p
  | p :: rest => p ++ ch "," :: join_comma rest
  end.

Definition print_Z (n : Z) : jsstring :=
  (if Z.ltb n 0 then [ch "-"] else []) ++ index_key (Z.abs_nat n).

Fixpoint JSON_print (v : json) : jsstring :=
  match v with
  | JNull => js "null"
  | JBool true => js "true"
  | JBool false => js "false"
  | JNum n => print_Z n
  | JStr s => quote s
  | JArr items => js "[" ++ join_comma (List.map JSON_print items) ++ js "]"
  | JObj fields =>
      js "{"
      ++ join_comma
           (List.map (fun kv => let '(k, x) := kv in
                                quote k ++ ch ":" :: JSON_print x)
                     fields)
      ++ js "}"
  end.

Definition is_json_space (c : char) : bool :=
  (N.eqb c 32 || N.eqb c 9 || N.eqb c 10 || N.eqb c 13)%bool.

Fixpoint skip_space (s : jsstring) : jsstring :=
  match s with
  | c :: rest => if is_json_space c then skip_space rest else s
  | [] => []
  end.

Definition hex_value (c : char) : option N :=
  if is_digit c then Some (c - 48)%N
  else if in_range 97 102 c then Some (c - 87)%N
  else if in_range 65 70 c then Some (c - 55)%N
  else None.

Definition simple_escape (e : char) : option char :=
  if N.eqb e 34 then Some 34%N
  else if N.eqb e 92 then Some 92%N
  else if N.eqb e 47 then Some 47%N
  else if N.eqb e 98 then Some 8%N
  else if N.eqb e 102 then Some 12%N
  else if N.eqb e 110 then Some 10%N
  else if N.eqb e 114 then Some 13%N
  else if N.eqb e 116 then Some 9%N
  else None.

(** The units of a string literal after its opening quote. *)
Fixpoint parse_units (s : jsstring) (acc : jsstring)
    : option (jsstring * jsstring) :=
  match s with
  | [] => None
  | c :: rest =>
      if N.eqb c 34 then Some (rev acc, rest)
      else if N.eqb c 92 then
        match rest with
        | e :: rest1 =>
            if N.eqb e 117 then
              match rest1 with
              | h1 :: h2 :: h3 :: h4 :: rest2 =>
                  match hex_value h1, hex_value h2, hex_value h3, hex_value h4 with
                  | Some a, Some b, Some c', Some d =>
                      parse_units rest2 ((a * 4096 + b * 256 + c' * 16 + d)%N :: acc)
                  | _, _, _, _ => None
                  end
              | _ => None
              end
            else
              match simple_escape e with
              | Some x => parse_units rest1 (x :: acc)
              | None => None
              end
        | [] => None
        end
      else if N.ltb c 32 then None
      else parse_units rest (c :: acc)
  end.

Fixpoint parse_digits (s : jsstring) (acc : N) : N * jsstring :=
  match s with
  | c :: rest =>
      if is_digit c then parse_digits rest (acc * 10 + (c - 48))%N else (acc, s)
  | [] => (acc, [])
  end.

Definition parse_number (s : jsstring) : option (json * jsstring) :=
  match s with
  | c :: rest =>
      if N.eqb c (ch "-") then
        match rest with
        | d :: _ =>
            if is_digit d
            then let '(n, r) := parse_digits rest 0 in Some (JNum (- Z.of_N n), r)
            else None
        | [] => None
        end
      else if is_digit c
      then let '(n, r) := parse_digits s 0 in Some (JNum (Z.of_N n), r)
      else None
  | [] => None
  end.

Fixpoint parse_value (fuel : nat) (s : jsstring) : option (json * jsstring) :=
  match fuel with
  | O => None
  | S fuel' =>
      let t := skip_space s in
      if startsWith t (js "null") then Some (JNull, skipn 4 t)
      else if startsWith t (js "true") then Some (JBool true, skipn 4 t)
      else if startsWith t (js "false") then Some (JBool false, skipn 5 t)
      else
        match t with
        | [] => None
        | c :: rest =>
            if N.eqb c 34 then
              match parse_units rest [] with
              | Some (str, r) => Some (JStr str, r)
              | None => None
              end
            else if N.eqb c (ch "[") then
              match skip_space rest with
              | d :: r =>
                  if N.eqb d (ch "]") then Some (JArr [], r)
                  else match parse_elements fuel' rest with
                       | Some (items, r') => Some (JArr items, r')
                       | None => None
                       end
              | [] => None
              end
            else if N.eqb c (ch "{") then
              match skip_space rest with
              | d :: r =>
                  if N.eqb d (ch "}") then Some (JObj [], r)
                  else match parse_members fuel' rest with
                       | Some (fields, r') => Some (JObj fields, r')
                       | None => None
                       end
              | [] => None
              end
            else parse_number t
        end
  end
with parse_elements (fuel : nat) (s : jsstring)
    : option (list json * jsstring) :=
  match fuel with
  | O => None
  | S fuel' =>
      match parse_value fuel' s with
      | Some (v, r) =>
          match skip_space r with
          | d :: r' =>
              if N.eqb d (ch ",") then
                match parse_elements fuel' r' with
                | Some (vs, r'') => Some (v :: vs, r'')
                | None => None
                end
              else if N.eqb d (ch "]") then Some ([v], r')
              else None
          | [] => None
          end
      | None => None
      end
  end
with parse_members (fuel : nat) (s : jsstring)
    : option (list (jsstring * json) * jsstring) :=
  match fuel with
  | O => None
  | S fuel' =>
      match skip_space s with
      | q :: r0 =>
          if N.eqb q 34 then
            match parse_units r0 [] with
            | Some (k, r1) =>
                match skip_space r1 with
                | c :: r2 =>
                    if N.eqb c (ch ":") then
                      match parse_value fuel' r2 with
                      | Some (v, r3) =>
                          match skip_space r3 with
                          | d :: r4 =>
                              if N.eqb d (ch ",") then
                                match parse_members fuel' r4 with
                                | Some (fs, r5) => Some ((k, v) :: fs, r5)
                                | None => None
                                end
                              else if N.eqb d (ch "}") then Some ([(k, v)], r4)
                              else None
                          | [] => None
                          end
                      | None => None
                      end
                    else None
                | [] => None
                end
            | None => None
            end
          else None
      | [] => None
      end
  end.

Definition JSON_read (text : jsstring) : option json :=
  match parse_value (S (length text)) text with
  | Some (v, rest) =>
      match skip_space rest with
      | [] => Some v
      | _ :: _ => None
      end
  | None => None
  end.

(** A browser that accepts a write while key and value together stay
    within [limit] code units. *)
Definition quota_browser (limit : nat) (store : gmap jsstring jsstring)
    (key value : jsstring) : set_outcome :=
  if Nat.leb (length key + length value) limit then SetOk else SetQuotaExceeded.

(** ** Example sessions and texts *)

Definition example_vis : Visualization :=
  mkVisualization (js "abc") (js "Sales Chart")
    (js "function App() { return <div>42</div>; }") Ready None.

Definition example_tab : LearningTab :=
  mkLearningTab (js "1700000000000") (js "notes.pdf")
    (js "# Sales

{{VISUALIZATION:abc:Sales Chart}}")
    [example_vis]
    (Some (js "JVBERi0xLjQK")).

Definition example_tabs : list LearningTab := [example_tab].

Definition empty_world : world := World ∅ [].

(** A prose that holds the marker of one artifact twice. *)
Definition twice_marked : jsstring :=
  js "{{VISUALIZATION:abc:Sales Chart}}

{{VISUALIZATION:abc:Sales Chart}}".

Definition example_component : component :=
  Component None None example_tabs (Some (js "1700000000000")) ∅.

Definition blank_component : component := Component None None [] None ∅.

(** A marker whose id holds two underscores, and no artifact for it. *)
Definition underscored_marker : jsstring :=
  js "See {{VISUALIZATION:sales_by_region:Sales by region}} below.".


(** A file above the threshold and the session created from it. *)
Definition big_file : File := mkFile (js "big.pdf") 6000000.

Definition big_session : LearningTab :=
  newTab (js "1700000000001") big_file (js "JVBERi0xLjQK") (js "# Big") [].

(** A session as an earlier version stored it: its artifact has no
    status. *)
Definition legacy_tab : StoredTab :=
  mkStoredTab (js "1600000000000") (js "old.pdf")
    (js "{{VISUALIZATION:v1:Old}}")
    [mkStoredVisualization (js "v1") (js "Old") (js "function App() {}")
       None None]
    None.

Definition legacy_world : world :=
  World {[ js "learningTabs"
           := JSON_print (JArr (List.map json_of_stored_tab [legacy_tab])) ]} [].

(** * The rest of the service and of the component *)

(** ** More string operations *)

(** [s.replace(re, template)] for a pattern without the g flag: the
    leftmost match only. *)
Definition replace_first (p : pattern) (template s : jsstring) : jsstring :=
  match search p [] s with
  | Some i => m_pre i ++ expand (ngroups (pat_re p)) i template ++ m_post i
  | None => s
  end.

(** [s.includes(pat)] *)
Definition includes (s pat : jsstring) : bool :=
  match split_at_first pat [] s with Some _ => true | None => false end.

(** [s.split(sep)[0]] for a separator that is not empty. *)
Definition before_first (sep s : jsstring) : jsstring :=
  match split_at_first sep [] s with
  | Some (pre, _) => pre
  | None => s
  end.

(** [s.split(c)] for a separator of one code unit; [cur] holds the piece
    being read, reversed. *)
Fixpoint split_unit (c : char) (cur s : jsstring) : list jsstring :=
  match s with
  | [] => [rev cur]
  | x :: s' =>
      if N.eqb x c then rev cur :: split_unit c [] s'
      else split_unit c (x :: cur) s'
  end.

(** ** Extraction of the paper and of the artifacts
    ([extractPaperAndVisualizations], claude.ts) *)

(** /<<VISUALIZATION:([a-zA-Z0-9_]+):([^>]+)>>\s*([\s\S]*?)<<END_VISUALIZATION>>/g *)
Definition visualizationRegex : pattern :=
  Pattern (Seqs [Lit (js "<<VISUALIZATION:"); Grp 1 (Plus true (Cls is_word));
                 Chr (ch ":"); Grp 2 (Plus true (Cls (is_not (ch ">"))));
                 Lit (js ">>"); Star true ws;
                 Grp 3 (Star false (Cls is_any));
                 Lit (js "<<END_VISUALIZATION>>")]) false.

(** /\n+$/ *)
Definition re_trailing_newlines : pattern :=
  Pattern (Seqs [Plus true (Chr 10); Eoi]) false.

Record Extraction : Type := mkExtraction {
  paperContent : jsstring;
  visualizations : list ExtractedVisualization
}.

Definition extractPaperAndVisualizations (rawText : jsstring) : Extraction :=
  let visualizations :=
    List.map (fun m => mkExtracted (capture_text m 1) (capture_text m 2)
                         (renameComponentToApp (trim (capture_text m 3))))
             (exec_all visualizationRegex rawText) in
  let paperContent :=
    match split_at_first (js "<<VISUALIZATION:") [] rawText with
    | Some (before, _) => trim before
    | None => rawText
    end in
  let paperContent := replace_first re_trailing_newlines [] paperContent in
  mkExtraction paperContent visualizations.

(** ** The markers of a paper ([extractVisualizationPlaceholders],
    claude.ts) *)

Definition extractVisualizationPlaceholders (paper : jsstring)
    : list placeholder :=
  List.map (fun m => Placeholder (capture_text m 1) (capture_text m 2))
           (exec_all placeholderRegex paper).

(** ** One artifact on request ([generateVisualizationForPlaceholder],
    claude.ts): what is returned for the text [response] that
    [generateVisualizations] resolved with. *)
Definition generatedVisualizationCode (response : jsstring) : jsstring :=
  renameComponentToApp response.

(** ** The code written into the frame of an artifact (the effect that
    renders embedded visualizations and [renderVisualizationInContainer],
    FileUpload.tsx): [renameComponentToApp(visualization.code || '')]. *)
Definition transformedCode (visualization : Visualization) : jsstring :=
  renameComponentToApp (vis_code visualization).

(** ** Choosing a file ([validateFile], [convertToBase64], FileUpload.tsx) *)

(** A [File] of the browser with its media type. *)
Record PickedFile : Type := mkPicked {
  picked : File;
  picked_type : jsstring
}.

(** The callback of [acceptedTypes.some]. *)
Definition type_accepted (fileType type : jsstring) : bool :=
  if includes type (js "*")
  then startsWith fileType (before_first (js "/*") type)
  else jseq fileType type.

Definition decimal (n : N) : jsstring := index_key (N.to_nat n).

(** The result and the error text that is left in the state; [maxSize] is
    a whole number of megabytes. *)
Definition validateFile (maxSize : N) (acceptedTypes : list jsstring)
    (file : PickedFile) : bool * jsstring :=
  if N.ltb (maxSize * 1024 * 1024) (file_size (picked file))
  then (false, js "File size exceeds " ++ decimal maxSize ++ js "MB limit")
  else if negb (existsb (type_accepted (picked_type file)) acceptedTypes)
  then (false, js "Only PDF files are supported")
  else (true, []).

(** The props when the component is used without any. *)
Definition default_maxSize : N := 32.
Definition default_acceptedTypes : list jsstring := [js "application/pdf"].

(** What [convertToBase64] resolves with when the reader has loaded the
    data URL [result]: [result.split(',')[1]], [None] being undefined. *)
Definition base64_of_data_url (result : jsstring) : option jsstring :=
  nth_error (split_unit (ch ",") [] result) 1.

(** ** The state of the component and its handlers (FileUpload.tsx) *)

Record uistate : Type := UIState {
  a_isDragging : bool;
  a_file : option PickedFile;
  a_cachedFile : option PickedFile;
  a_error : jsstring;
  a_loading : bool;
  a_learningTabs : list LearningTab;
  a_activeTab : option jsstring;
  a_view : view_kind;
  a_regenerating : gmap jsstring bool
}.

Definition initial_app : uistate :=
  UIState false None None [] false [] None ViewUpload ∅.

Definition set_isDragging (b : bool) (s : uistate) : uistate :=
  UIState b (a_file s) (a_cachedFile s) (a_error s) (a_loading s)
    (a_learningTabs s) (a_activeTab s) (a_view s) (a_regenerating s).
Definition set_file (f : option PickedFile) (s : uistate) : uistate :=
  UIState (a_isDragging s) f (a_cachedFile s) (a_error s) (a_loading s)
    (a_learningTabs s) (a_activeTab s) (a_view s) (a_regenerating s).
Definition set_cachedFile (f : option PickedFile) (s : uistate) : uistate :=
  UIState (a_isDragging s) (a_file s) f (a_error s) (a_loading s)
    (a_learningTabs s) (a_activeTab s) (a_view s) (a_regenerating s).
Definition set_error (e : jsstring) (s : uistate) : uistate :=
  UIState (a_isDragging s) (a_file s) (a_cachedFile s) e (a_loading s)
    (a_learningTabs s) (a_activeTab s) (a_view s) (a_regenerating s).
Definition set_loading (b : bool) (s : uistate) : uistate :=
  UIState (a_isDragging s) (a_file s) (a_cachedFile s) (a_error s) b
    (a_learningTabs s) (a_activeTab s) (a_view s) (a_regenerating s).
Definition set_learningTabs (tabs : list LearningTab) (s : uistate) : uistate :=
  UIState (a_isDragging s) (a_file s) (a_cachedFile s) (a_error s) (a_loading s)
    tabs (a_activeTab s) (a_view s) (a_regenerating s).
Definition set_activeTab (a : option jsstring) (s : uistate) : uistate :=
  UIState (a_isDragging s) (a_file s) (a_cachedFile s) (a_error s) (a_loading s)
    (a_learningTabs s) a (a_view s) (a_regenerating s).
Definition set_view (v : view_kind) (s : uistate) : uistate :=
  UIState (a_isDragging s) (a_file s) (a_cachedFile s) (a_error s) (a_loading s)
    (a_learningTabs s) (a_activeTab s) v (a_regenerating s).
Definition set_regenerating (visId : jsstring) (b : bool) (s : uistate) : uistate :=
  UIState (a_isDragging s) (a_file s) (a_cachedFile s) (a_error s) (a_loading s)
    (a_learningTabs s) (a_activeTab s) (a_view s)
    (<[visId := b]> (a_regenerating s)).

(** What [formatResponse] reads of the state. *)
Definition component_of (s : uistate) : component :=
  Component (picked <$> a_file s) (picked <$> a_cachedFile s)
    (a_learningTabs s) (a_activeTab s) (a_regenerating s).

(** [learningTabs.find(t => t.id === activeTab)] *)
Definition find_tab (tabs : list LearningTab) (activeTab : option jsstring)
    : option LearningTab :=
  match activeTab with
  | Some a => List.find (fun t => jseq (tab_id t) a) tabs
  | None => None
  end.

(** [tabs[tabs.length - 1].id] of a list that is not empty. *)
Definition last_tab_id_of (tabs : list LearningTab) : option jsstring :=
  tab_id <$> List.last (List.map Some tabs) None.

(** [handleDeleteTab]; [confirmed] is the answer to [window.confirm]. *)
Definition handleDeleteTab (confirmed : bool) (tabId : jsstring) (s : uistate)
    : uistate :=
  if negb confirmed then s
  else
    let updatedTabs :=
      List.filter (fun tab => negb (jseq (tab_id tab) tabId))
                  (a_learningTabs s) in
    let s1 := set_learningTabs updatedTabs s in
    if str_is (a_activeTab s) tabId then
      if Nat.ltb 0 (length updatedTabs)
      then set_activeTab (last_tab_id_of updatedTabs) s1
      else set_view ViewUpload (set_activeTab None s1)
    else s1.

(** [handleClearAllTabs]: the state, and what it does to the storage. *)
Definition clears (confirmed : bool) (s : uistate) : bool :=
  negb (Nat.eqb (length (a_learningTabs s)) 0) && confirmed.

Definition handleClearAllTabs (confirmed : bool) (s : uistate) (w : world)
    : uistate * world :=
  if clears confirmed s
  then (set_view ViewUpload (set_activeTab None (set_learningTabs [] s)),
        removeItem (js "learningTabs") w)
  else (s, w).

Definition goToUpload (s : uistate) : uistate :=
  set_activeTab None (set_view ViewUpload s).

Definition goToVisualization (visId : jsstring) (s : uistate) : uistate :=
  set_view ViewVisualization s.

(** The click on the button of a session in the sidebar. *)
Definition selectTab (tab : LearningTab) (s : uistate) : uistate :=
  set_view ViewContent (set_activeTab (Some (tab_id tab)) s).

(** The button Back to Document of the visualization view. *)
Definition backToDocument (s : uistate) : uistate :=
  match find_tab (a_learningTabs s) (a_activeTab s) with
  | Some _ => set_view ViewContent (set_activeTab None s)
  | None => s
  end.

Definition handleDragOver (s : uistate) : uistate := set_isDragging true s.
Definition handleDragLeave (s : uistate) : uistate := set_isDragging false s.

(** [handleFileSelect] on the files of the input, and [handleDrop] on the
    files dropped. *)
Definition handleFileSelect (maxSize : N) (acceptedTypes : list jsstring)
    (files : list PickedFile) (s : uistate) : uistate :=
  match files with
  | [] => s
  | selectedFile :: _ =>
      let '(valid, error) := validateFile maxSize acceptedTypes selectedFile in
      let s1 := set_error error s in
      if valid then set_file (Some selectedFile) s1 else s1
  end.

Definition handleDrop (maxSize : N) (acceptedTypes : list jsstring)
    (files : list PickedFile) (s : uistate) : uistate :=
  handleFileSelect maxSize acceptedTypes files (set_isDragging false s).

(** [handleBeginLearning], up to the timer: the file the callback closes
    over, if the handler goes on. *)
Definition handleBeginLearning (s : uistate) : option PickedFile * uistate :=
  match a_file s with
  | None => (None, s)
  | Some file =>
      (Some file, set_cachedFile (Some file) (set_error [] (set_loading true s)))
  end.

(** How the work of the timer callback ends: the conversion or the call
    threw ([message] is that of an [Error], if it is one), or
    [convertToBase64] gave [base64Data] and the service answered
    [rawText]. *)
Inductive analysis : Type :=
| AnalysisFailed (message : option jsstring)
| Analysed (base64Data rawText : jsstring).

(** The timer callback of [handleBeginLearning]; [now] is
    [Date.now().toString()]. *)
Definition beginLearning_settled (file : PickedFile) (now : jsstring)
    (result : analysis) (s : uistate) : uistate :=
  match result with
  | Analysed base64Data rawText =>
      let extraction := extractPaperAndVisualizations rawText in
      let tab :=
        newTab now (picked file) base64Data (paperContent extraction)
          (visualizations extraction) in
      set_loading false
        (set_file None
           (set_view ViewContent
              (set_activeTab (Some now)
                 (set_learningTabs (add_tab (a_learningTabs s) tab) s))))
  | AnalysisFailed message =>
      set_loading false
        (set_error
           (default (js "An error occurred while processing the document")
                    message)
           s)
  end.

(** What the user is told by [handleRegenerateVisualization]. *)
Inductive notice : Type :=
| AlertNoDocumentData
| AlertRegenerationError (message : jsstring).

(** How the promise of [convertToBase64] settles: the reader failed, or
    it loaded a data URL and the promise resolved with the text after its
    first comma ([None] for undefined). *)
Inductive conversion : Type :=
| Rejected
| Resolved (base64Data : option jsstring).

(** How [handleRegenerateVisualization] starts. *)
Inductive regeneration_start : Type :=
| NotStarted                        (* no active session: silent return *)
| ConversionRejected                (* the handler ends with the rejection *)
| Refused                           (* no document bytes: error log and alert *)
| Started (activeTab base64Data : jsstring).

(** The bytes for a regeneration, in the order of the handler. *)
Definition regeneration_bytes (convertToBase64 : PickedFile -> conversion)
    (s : uistate) (currentTab : LearningTab) : conversion :=
  match a_file s with
  | Some file => convertToBase64 file
  | None =>
      match a_cachedFile s with
      | Some cachedFile => convertToBase64 cachedFile
      | None =>
          Resolved (if nonempty (tab_fileData currentTab)
                    then tab_fileData currentTab else None)
      end
  end.

Definition handleRegenerateVisualization
    (convertToBase64 : PickedFile -> conversion)
    (visId description : jsstring) (s : uistate) : regeneration_start * uistate :=
  match a_activeTab s with
  | None | Some [] => (NotStarted, s)
  | Some activeTab =>
      match find_tab (a_learningTabs s) (Some activeTab) with
      | None => (NotStarted, s)
      | Some currentTab =>
          match regeneration_bytes convertToBase64 s currentTab with
          | Rejected => (ConversionRejected, s)
          | Resolved (Some (c :: base64Data)) =>
              (Started activeTab (c :: base64Data),
               set_regenerating visId true s)
          | Resolved _ => (Refused, s)
          end
      end
  end.

(** How the call of [generateVisualizationForPlaceholder] ends. *)
Inductive generation : Type :=
| GenerationFailed (message : option jsstring)
| Generated (response : jsstring).

(** The rest of [handleRegenerateVisualization], for the session that was
    active when it started. *)
Definition regeneration_settled (activeTab visId description : jsstring)
    (result : generation) (s : uistate) : uistate * list notice :=
  match result with
  | Generated response =>
      (set_regenerating visId false
         (set_learningTabs
            (update_tabs activeTab visId
               (updatedVisualization visId description
                  (generatedVisualizationCode response))
               (a_learningTabs s))
            s),
       [])
  | GenerationFailed message =>
      (set_regenerating visId false s,
       [AlertRegenerationError
          (js "Error regenerating visualization: "
           ++ default (js "Unknown error") message)])
  end.

(** What the user can do, and what comes back from the timers and the
    service.  [goToVisualization] is defined by the component and bound to
    nothing. *)
Inductive action : Type :=
| DragOver
| DragLeave
| Drop (files : list PickedFile)
| FileSelect (files : list PickedFile)
| BeginLearning
| BeginLearningSettled (file : PickedFile) (now : jsstring) (result : analysis)
| DeleteTab (index : nat) (confirmed : bool)
| ClearAllTabs (confirmed : bool)
| GoToUpload
| SelectTab (index : nat)
| BackToDocument
| Regenerate (visId description : jsstring)
| RegenerationSettled (activeTab visId description : jsstring)
    (result : generation).

Section Component.

Variable maxSize : N.
Variable acceptedTypes : list jsstring.
Variable convertToBase64 : PickedFile -> conversion.

(** One event on the rendered component: the buttons of a session exist
    for the sessions of the list, Clear All when the list is not empty,
    Back to Document in the visualization view with an active session. *)
Definition step (a : action) (s : uistate) : uistate :=
  match a with
  | DragOver => handleDragOver s
  | DragLeave => handleDragLeave s
  | Drop files => handleDrop maxSize acceptedTypes files s
  | FileSelect files => handleFileSelect maxSize acceptedTypes files s
  | BeginLearning => snd (handleBeginLearning s)
  | BeginLearningSettled file now result =>
      beginLearning_settled file now result s
  | DeleteTab index confirmed =>
      match a_learningTabs s !! index with
      | Some tab => handleDeleteTab confirmed (tab_id tab) s
      | None => s
      end
  | ClearAllTabs confirmed => fst (handleClearAllTabs confirmed s empty_world)
  | GoToUpload => goToUpload s
  | SelectTab index =>
      match a_learningTabs s !! index with
      | Some tab => selectTab tab s
      | None => s
      end
  | BackToDocument =>
      match a_view s, a_activeTab s with
      | ViewVisualization, Some (_ :: _) => backToDocument s
      | _, _ => s
      end
  | Regenerate visId description =>
      snd (handleRegenerateVisualization convertToBase64 visId description s)
  | RegenerationSettled activeTab visId description result =>
      fst (regeneration_settled activeTab visId description result s)
  end.

Definition run (actions : list action) (s : uistate) : uistate :=
  fold_left (fun s a => step a s) actions s.

End Component.

(** * Vocabulary of the further statements *)

(** [s] without the line feeds at its end. *)
Fixpoint strip_newlines (s : jsstring) : jsstring :=
  match s with
  | [] => []
  | c :: s' =>
      if forallb (N.eqb 10) (c :: s') then [] else c :: strip_newlines s'
  end.

(** A parsed value that the load effect can restore: an array whose
    elements each carry an array [visualizations] without null in it. *)
Definition restorable_vis (vis : json) : bool :=
  match vis with JNull => false | _ => true end.

Definition restorable_tab (tab : json) : bool :=
  match property tab (js "visualizations") with
  | Some (Some (JArr items)) => forallb restorable_vis items
  | _ => false
  end.

Definition restorable (parsed : option json) : bool :=
  match parsed with
  | Some (JArr items) => forallb restorable_tab items
  | _ => false
  end.

(** The view is the upload form or the content; the active session, when
    there is one, is a session of the list; the content view has an
    active session. *)
Definition active_is_listed (s : uistate) : Prop :=
  a_view s <> ViewVisualization
  /\ (forall a, a_activeTab s = Some a ->
                is_Some (find_tab (a_learningTabs s) (Some a)))
  /\ (a_view s = ViewContent -> is_Some (a_activeTab s)).

(** An artifact that is ready, without error text, and whose code is
    written into its frame as it is stored. *)
Definition artifact_settled (v : Visualization) : Prop :=
  vis_status_of v = Ready /\ vis_error v = None
  /\ transformedCode v = vis_code v.

Definition artifacts_settled (s : uistate) : Prop :=
  forall tab v,
    In tab (a_learningTabs s) -> In v (tab_visualizations tab) ->
    artifact_settled v.

Definition is_started (r : regeneration_start) : bool :=
  match r with Started _ _ => true | _ => false end.

(** ** Further examples *)

(** A stored list whose second session has lost its artifacts. *)
Definition malformed_world : world :=
  World {[ js "learningTabs"
           := JSON_print
                (JArr [json_of_stored_tab legacy_tab;
                       JObj [(js "id", JStr (js "1600000000001"))]]) ]} [].

Definition example_file : PickedFile :=
  mkPicked (mkFile (js "notes.pdf") 1000) (js "application/pdf").

Definition example_conversion (f : PickedFile) : conversion :=
  Resolved (Some (js "JVBERi0xLjQK")).

Definition example_response : jsstring :=
  js "# Sales

{{VISUALIZATION:abc:Sales Chart}}

<<VISUALIZATION:abc:Sales Chart>>
function Chart() { return <div>42</div>; }
<<END_VISUALIZATION>>".

Definition example_actions : list action :=
  [ FileSelect [example_file]; BeginLearning;
    BeginLearningSettled example_file (js "1700000000000")
      (Analysed (js "JVBERi0xLjQK") example_response);
    Regenerate (js "abc") (js "Sales Chart");
    RegenerationSettled (js "1700000000000") (js "abc") (js "Sales Chart")
      (Generated (js "const Sales = () => null;"));
    GoToUpload; SelectTab 0 ].

(** A second upload, after the first session, and a conversion that tells
    the files apart. *)
Definition second_file : PickedFile :=
  mkPicked (mkFile (js "other.pdf") 2000) (js "application/pdf").

Definition conversion_by_name (f : PickedFile) : conversion :=
  Resolved (Some (ch "@" :: file_name (picked f))).

Definition after_first_session : uistate :=
  run default_maxSize default_acceptedTypes conversion_by_name
    [ FileSelect [example_file]; BeginLearning;
      BeginLearningSettled example_file (js "1700000000000")
        (Analysed (js "JVBERi0xLjQK") example_response);
      GoToUpload; FileSelect [second_file] ]
    initial_app.

(** A text in which every surrogate stands in a pair. *)
Fixpoint well_formed_utf16 (s : jsstring) : bool :=
  match s with
  | [] => true
  | c :: rest =>
      if in_range 56320 57343 c then false
      else if in_range 55296 56319 c then
        match rest with
        | d :: rest' => in_range 56320 57343 d && well_formed_utf16 rest'
        | [] => false
        end
      else well_formed_utf16 rest
  end.

(** The four code units that open or close a tag or an attribute value. *)
Definition is_markup (c : char) : bool :=
  N.eqb c (ch "<") || N.eqb c (ch ">") || N.eqb c 34 || N.eqb c (ch "'").

(** A match that read nothing: a template expanded for it shows the code
    units the template itself contributes. *)
Definition no_match : minfo := MInfo [] [] [] [].

(** The code units the templates of [markdownToHtml] write: those of the
    tags [<h1>] to [<h6>], [<li>], [<ul>], [<ol>], [<strong>], [<em>],
    [<code>], [<p>], [<br>], [<pre>] and of the two [<div class=...>] of a
    code block. *)
Definition markdown_markup : jsstring :=
  tpl "<>/=~- 123456abcdeghiklmnoprstuv".

(** Every code unit of the matcher state satisfies [q]. *)
Definition state_within (q : char -> bool) (st : mstate) : Prop :=
  forallb q (before st) = true /\ forallb q (after st) = true
  /\ Forall (fun p => forallb q (snd p) = true) (caps st).

Definition match_within (q : char -> bool) (i : minfo) : Prop :=
  forallb q (m_text i) = true /\ forallb q (m_pre i) = true
  /\ forallb q (m_post i) = true
  /\ Forall (fun p => forallb q (snd p) = true) (m_caps i).

(** ** What a pattern reads first *)

(** Patterns that read no input. *)
Fixpoint zero_width (r : regex) : bool :=
  match r with
  | Eps | Bol | Eol | Eoi | Look _ _ => true
  | Seq r1 r2 | Alt r1 r2 => zero_width r1 && zero_width r2
  | Grp _ r1 => zero_width r1
  | Chr _ | Cls _ | Star _ _ => false
  end.

(** A test that the first code unit of every match of [r] passes; [None]
    when [r] may match without reading. *)
Fixpoint first_unit (ci : bool) (r : regex) : option (char -> bool) :=
  match r with
  | Chr c => Some (char_eq ci c)
  | Cls p => Some p
  | Seq r1 r2 =>
      match first_unit ci r1 with
      | Some h => Some h
      | None => if zero_width r1 then first_unit ci r2 else None
      end
  | Alt r1 r2 =>
      match first_unit ci r1, first_unit ci r2 with
      | Some h1, Some h2 => Some (fun x => h1 x || h2 x)
      | _, _ => None
      end
  | Grp _ r1 => first_unit ci r1
  | Eps | Star _ _ | Bol | Eol | Eoi | Look _ _ => None
  end.

(** A code unit of plain prose: no line terminator and none of the marks
    [*], [_], [`] and [<] that [markdownToHtml] reads. *)
Definition prose_unit (c : char) : bool :=
  is_dot c && negb (existsb (N.eqb c) (js "*_`<")).

(** A first code unit that opens no heading, list item or numbered
    item. *)
Definition opens_no_block (c : char) : bool :=
  negb (N.eqb c (ch "#")) && negb (N.eqb c (ch "-")) && negb (is_digit c).

(** The element of a heading of the level whose digit is [d]. *)
Definition heading_tag (d : char) (title : jsstring) : jsstring :=
  js "<h" ++ d :: js ">" ++ title ++ js "</h" ++ d :: js ">".

Definition level_digit (n : nat) : char := N.of_nat (48 + n).

(** ** Vocabulary of the amended claim on mount points *)

(** A replacement text that [String.prototype.replace] copies as it is
    when the pattern is a string: none of its [$] is followed by [$],
    [&], a backquote or a quote. *)
Fixpoint inert (t : jsstring) : bool :=
  match t with
  | [] => true
  | c :: rest =>
      (if N.eqb c (ch "$")
       then match rest with
            | d :: _ => negb (existsb (N.eqb d) (js "$&`'"))
            | [] => true
            end
       else true)
      && inert rest
  end.

(** What follows the [<] of the mount point of [id]. *)
Definition mount_tail (id : jsstring) : jsstring :=
  tpl "div id=~vis-container-" ++ id ++ dq.

(** The text [w] after a [<] cannot become the rest [m] of a mount
    point: it departs from [m] at a code unit that is not an opening
    brace, or it ends before [m] does.  (A part of [m] followed by an
    opening brace could be joined with what follows a region that the
    final strip removes.) *)
Fixpoint dead_after (m w : jsstring) : bool :=
  match m, w with
  | [], _ => false
  | _ :: _, [] => true
  | x :: m', c :: w' =>
      if N.eqb c x then dead_after m' w' else negb (N.eqb c (ch "{"))
  end.

(** No [<] of [s] starts a mount point whose rest is [m], whole or cut by
    an opening brace. *)
Fixpoint no_mount_start (m s : jsstring) : bool :=
  match s with
  | [] => true
  | c :: s' =>
      (if N.eqb c (ch "<") then dead_after m s' else true)
      && no_mount_start m s'
  end.

(** An artifact whose texts [formatResponse] copies as they are: the
    description holds no [$], [<] or [{]; for a ready artifact the escaped
    code is an inert replacement text and the code can be encoded; for a
    failed one the error text holds no [$], [<] or [{]. *)
Definition tame (v : Visualization) : bool :=
  forallb plain (vis_description v)
  && match vis_status_of v with
     | Ready => inert (escape_html (vis_code v)) && well_formed_utf16 (vis_code v)
     | Error => forallb plain (error_text v)
     | Loading => true
     end.

(** [a] and [b] are equal as far as both go. *)
Fixpoint agree (a b : jsstring) : bool :=
  match a, b with
  | x :: a', y :: b' => N.eqb x y && agree a' b'
  | _, _ => true
  end.

(** [dead_after] decided inside [w] and inside the fixed part [m] of the
    rest of a mount point. *)
Fixpoint dead_within (m w : jsstring) : bool :=
  match m, w with
  | x :: m', c :: w' =>
      if N.eqb c x then dead_within m' w' else negb (N.eqb c (ch "{"))
  | _, _ => false
  end.

(** Every [<] of the fixed text [f] is decided inside [f]. *)
Fixpoint settled (m f : jsstring) : bool :=
  match f with
  | [] => true
  | c :: f' =>
      (if N.eqb c (ch "<") then dead_within m f' else true) && settled m f'
  end.

(** ** The fragment of a ready artifact, in parts

    The text of [fragment_ready] before the end of the [onclick] handler,
    from there to the mount point, and after the mount point. *)

Definition ready_front (visualization : Visualization)
    (id description : jsstring) : jsstring :=
  tpl "<div class=~visualization-placeholder ready~>
          <div class=~visualization-header~>
            <h4>Visualization: "
    ++ vis_description visualization
    ++ tpl "</h4>
            <button 
              class=~regenerate-button~
              onclick=~window.dispatchEvent(new CustomEvent('regenerate-visualization', { detail: { id: '"
    ++ id
    ++ tpl "', description: '"
    ++ escape_quotes description.

Definition ready_guard (regenerating fileDataAvailable : bool) : jsstring :=
  tpl "))~
              "
    ++ (if regenerating then js "disabled" else [])
    ++ tpl "
              "
    ++ (if negb fileDataAvailable then js "disabled" else [])
    ++ tpl "
            >
              "
    ++ (if regenerating then js "Regenerating..." else js "Regenerate")
    ++ tpl "
            </button>
          </div>
          "
    ++ (if negb fileDataAvailable then file_data_warning else [])
    ++ tpl "
          ".

Definition ready_back (encoded escapedCode : jsstring) : jsstring :=
  tpl " class=~embedded-visualization-container~ data-code=~"
    ++ encoded
    ++ tpl "~></div>
          <details>
            <summary>Show Code</summary>
            <pre style=~background-color: #f0f0f0; padding: 10px; border-radius: 4px; overflow-x: auto; max-height: 300px;~>"
    ++ escapedCode
    ++ tpl "</pre>
          </details>
        </div>".

(** A marker whose fragment [formatResponse] copies as it is: its
    description holds no [$], [<] or [{], and its artifact, if there is
    one, is tame. *)
Definition tame_marker (visualizations : list Visualization)
    (p : placeholder) : bool :=
  forallb plain (ph_description p)
  && match List.find (fun x => jseq (vis_id x) (ph_id p)) visualizations with
     | Some v => tame v
     | None => true
     end.

(** A prose with the marker of one artifact once and the marker of
    another twice; the code of the artifacts is JSX with double braces, a
    template literal and quotes. *)
Definition two_markers : jsstring :=
  js "See {{VISUALIZATION:abc:Sales Chart}} and {{VISUALIZATION:xyz:Growth}}, then {{VISUALIZATION:xyz:Growth}} again.".

Definition styled_vis : Visualization :=
  mkVisualization (js "abc") (js "Sales Chart")
    (js "function App() { const t = `n=${1}`; return <div style={{color: 'red'}}>{t}</div>; }")
    Ready None.

Definition growth_vis : Visualization :=
  mkVisualization (js "xyz") (js "Growth")
    (js "function App() { return <p className='g'>{{}.x}</p>; }") Ready None.
(** ** Lemmas on the matcher *)

Lemma rmatch_complete ci r st st' :
  Matches ci r st st' ->
  forall (A : Type) (k : mstate -> option A),
    is_Some (k st') ->
    is_Some (rmatch ci r k st)
    /\ (forall g r1, r = Star g r1 -> forall n, length (after st) < n ->
          is_Some (star_loop g (rmatch ci r1) k n st)).
Proof.
  induction 1; intros A k Hk.
  - split; [exact Hk | discriminate].
  - split; [| discriminate]. simpl. rewrite H, H0. exact Hk.
  - split; [| discriminate]. simpl. rewrite H, H0. exact Hk.
  - split; [| discriminate]. simpl.
    apply IHMatches1. apply IHMatches2. exact Hk.
  - split; [| discriminate]. simpl.
    destruct (IHMatches A k Hk) as [[a Ha] _]. rewrite Ha. eauto.
  - split; [| discriminate]. simpl.
    destruct (rmatch ci r1 k st); [eauto |]. apply IHMatches. exact Hk.
  - assert (Hloop : forall n, length (after st) < n ->
                is_Some (star_loop g (rmatch ci r) k n st)).
    { intros [| n] Hn; [lia |]. simpl. destruct g.
      - destruct (rmatch ci r _ st); [eauto | exact Hk].
      - destruct Hk as [a Ha]. rewrite Ha. eauto. }
    split.
    + cbn [rmatch]. apply Hloop. lia.
    + intros g' r1 [= <- <-]. exact Hloop.
  - assert (Hloop : forall n, length (after st) < n ->
                is_Some (star_loop g (rmatch ci r) k n st)).
    { intros [| n] Hn; [lia |].
      assert (Hbody : is_Some (rmatch ci r
                 (fun st' => if progress st st'
                             then star_loop g (rmatch ci r) k n st'
                             else None) st)).
      { apply IHMatches1. rewrite H0.
        destruct (IHMatches2 A k Hk) as [_ Hstar].
        apply (Hstar g r eq_refl).
        unfold progress in H0. apply Nat.ltb_lt in H0. lia. }
      simpl. destruct g.
      - destruct Hbody as [a Ha]. rewrite Ha. eauto.
      - destruct (k st); [eauto | exact Hbody]. }
    split.
    + cbn [rmatch]. apply Hloop. lia.
    + intros g' r1 [= <- <-]. exact Hloop.
  - split; [| discriminate]. simpl. apply IHMatches. exact Hk.
  - split; [| discriminate]. simpl. rewrite H. exact Hk.
  - split; [| discriminate]. simpl. rewrite H. exact Hk.
  - split; [| discriminate]. simpl. rewrite H. exact Hk.
  - split; [| discriminate]. simpl. rewrite H. exact Hk.
  - split; [| discriminate]. simpl. rewrite H. exact Hk.
Qed.

Lemma star_loop_sound (A : Type) ci g r
    (IH : forall (k : mstate -> option A) st a,
        rmatch ci r k st = Some a ->
        exists st', Matches ci r st st' /\ k st' = Some a)
    (k : mstate -> option A) n :
  forall st a,
    star_loop g (rmatch ci r) k n st = Some a ->
    exists st', Matches ci (Star g r) st st' /\ k st' = Some a.
Proof.
  induction n as [| n IHn]; intros st a Hrun; [discriminate |].
  simpl in Hrun.
  assert (Hiter : forall a',
             rmatch ci r (fun st' => if progress st st'
                                     then star_loop g (rmatch ci r) k n st'
                                     else None) st = Some a' ->
             exists st', Matches ci (Star g r) st st' /\ k st' = Some a').
  { intros a' Hb. apply IH in Hb as (st1 & Hm1 & Hk1).
    destruct (progress st st1) eqn:Hp; [| discriminate].
    apply IHn in Hk1 as (st2 & Hm2 & Hk2).
    exists st2. split; [| exact Hk2]. eapply M_StarS; eauto. }
  destruct g.
  - destruct (rmatch ci r _ st) eqn:Hb.
    + injection Hrun as <-. apply Hiter. reflexivity.
    + exists st. split; [constructor | exact Hrun].
  - destruct (k st) eqn:Hk.
    + injection Hrun as <-. exists st. split; [constructor | exact Hk].
    + apply Hiter. exact Hrun.
Qed.

Lemma rmatch_sound ci r :
  forall (A : Type) (k : mstate -> option A) st a,
    rmatch ci r k st = Some a ->
    exists st', Matches ci r st st' /\ k st' = Some a.
Proof.
  induction r; intros A k st a Hrun; cbn [rmatch] in Hrun.
  - exists st. split; [constructor | exact Hrun].
  - destruct (after st) as [| x rest] eqn:Ha; [discriminate |].
    destruct (char_eq ci c x) eqn:Hc; [| discriminate].
    exists (advance x rest st). split; [constructor; assumption | exact Hrun].
  - destruct (after st) as [| x rest] eqn:Ha; [discriminate |].
    destruct (p x) eqn:Hc; [| discriminate].
    exists (advance x rest st). split; [constructor; assumption | exact Hrun].
  - apply IHr1 in Hrun as (st1 & Hm1 & Hrun).
    apply IHr2 in Hrun as (st2 & Hm2 & Hrun).
    exists st2. split; [econstructor; eauto | exact Hrun].
  - destruct (rmatch ci r1 k st) eqn:H1.
    + injection Hrun as <-. apply IHr1 in H1 as (st1 & Hm1 & Hk).
      exists st1. split; [apply M_AltL; assumption | exact Hk].
    + apply IHr2 in Hrun as (st1 & Hm1 & Hk).
      exists st1. split; [apply M_AltR; assumption | exact Hk].
  - eapply star_loop_sound; [| exact Hrun]. intros. apply IHr. assumption.
  - apply IHr in Hrun as (st1 & Hm1 & Hk).
    exists (set_cap n st st1). split; [constructor; assumption | exact Hk].
  - destruct (at_bol st) eqn:Hb; [| discriminate].
    exists st. split; [constructor; assumption | exact Hrun].
  - destruct (at_eol st) eqn:Hb; [| discriminate].
    exists st. split; [constructor; assumption | exact Hrun].
  - destruct (after st) eqn:Hb; [| discriminate].
    exists st. split; [constructor; assumption | exact Hrun].
  - destruct (rmatch ci r (fun st' => Some st') st) as [st1 |] eqn:Hl.
    + destruct negated; [discriminate |].
      eexists. split; [apply M_LookPos; exact Hl | exact Hrun].
    + destruct negated; [| discriminate].
      exists st. split; [apply M_LookNeg; exact Hl | exact Hrun].
Qed.

(** The matcher reads its continuation through its results only. *)

Lemma star_loop_ext (A : Type) g
    (body : (mstate -> option A) -> mstate -> option A)
    (Hbody : forall k k' st, (forall x, k x = k' x) -> body k st = body k' st)
    (k k' : mstate -> option A) :
  (forall x, k x = k' x) ->
  forall n st, star_loop g body k n st = star_loop g body k' n st.
Proof.
  intros Hk. induction n as [| n IHn]; intros st; [reflexivity |].
  simpl. rewrite (Hk st).
  rewrite (Hbody (fun st' => if progress st st' then star_loop g body k n st'
                             else None)
                 (fun st' => if progress st st' then star_loop g body k' n st'
                             else None) st).
  - reflexivity.
  - intros x. destruct (progress st x); [apply IHn | reflexivity].
Qed.

Lemma rmatch_ext ci r :
  forall (A : Type) (k k' : mstate -> option A) st,
    (forall x, k x = k' x) -> rmatch ci r k st = rmatch ci r k' st.
Proof.
  induction r; intros A k k' st Hk; cbn [rmatch]; rewrite ?Hk; try reflexivity.
  - destruct (after st); [reflexivity |]. rewrite Hk. reflexivity.
  - destruct (after st); [reflexivity |]. rewrite Hk. reflexivity.
  - apply IHr1. intros x. apply IHr2. exact Hk.
  - rewrite (IHr1 A k k' st Hk), (IHr2 A k k' st Hk). reflexivity.
  - apply star_loop_ext; [| exact Hk]. intros. apply IHr. assumption.
  - apply IHr. intros x. apply Hk.
  - destruct (rmatch ci r (fun st' => Some st') st); rewrite ?Hk; reflexivity.
Qed.

(** The fuel of a repetition never runs out: every amount above the length
    of the input left gives the same result. *)
Lemma star_loop_fuel (A : Type) ci g r (k : mstate -> option A) :
  forall n m st,
    length (after st) < n -> length (after st) < m ->
    star_loop g (rmatch ci r) k n st = star_loop g (rmatch ci r) k m st.
Proof.
  induction n as [| n IHn]; intros m st Hn Hm; [lia |].
  destruct m as [| m]; [lia |]. simpl.
  rewrite (@rmatch_ext ci r A
             (fun st' => if progress st st'
                         then star_loop g (rmatch ci r) k n st' else None)
             (fun st' => if progress st st'
                         then star_loop g (rmatch ci r) k m st' else None) st).
  - reflexivity.
  - intros x. destruct (progress st x) eqn:Hp; [| reflexivity].
    unfold progress in Hp. apply Nat.ltb_lt in Hp. apply IHn; lia.
Qed.

(** Derivations for literals and for runs of one character class. *)

Lemma Matches_Lit ci lit w :
  same_text ci lit w ->
  forall bef rest cs,
    Matches ci (Lit lit) (MState bef (w ++ rest) cs)
               (MState (rev w ++ bef) rest cs).
Proof.
  induction 1 as [| c x lit w Hc _ IH]; intros bef rest cs; simpl.
  - constructor.
  - eapply M_Seq.
    + eapply M_Chr; [reflexivity | exact Hc].
    + unfold advance; simpl. rewrite <- app_assoc. apply IH.
Qed.

Lemma Matches_star_cls ci g p w :
  Forall (fun c => p c = true) w ->
  forall bef rest cs,
    Matches ci (Star g (Cls p)) (MState bef (w ++ rest) cs)
               (MState (rev w ++ bef) rest cs).
Proof.
  induction 1 as [| x w Hx _ IH]; intros bef rest cs; simpl.
  - constructor.
  - eapply M_StarS.
    + eapply M_Cls; [reflexivity | exact Hx].
    + unfold progress, advance; simpl. apply Nat.ltb_lt. lia.
    + unfold advance; simpl. rewrite <- app_assoc. apply IH.
Qed.

Lemma Matches_plus_cls ci g p w :
  Forall (fun c => p c = true) w -> w <> [] ->
  forall bef rest cs,
    Matches ci (Plus g (Cls p)) (MState bef (w ++ rest) cs)
               (MState (rev w ++ bef) rest cs).
Proof.
  intros Hw Hne bef rest cs. destruct w as [| x w]; [congruence |].
  inversion Hw; subst. unfold Plus. simpl. eapply M_Seq.
  - eapply M_Cls; [reflexivity | assumption].
  - unfold advance; simpl. rewrite <- app_assoc.
    apply Matches_star_cls. assumption.
Qed.

Lemma Matches_Chr_here ci c x bef rest cs :
  char_eq ci c x = true ->
  Matches ci (Chr c) (MState bef (x :: rest) cs) (MState (x :: bef) rest cs).
Proof.
  intros Hc.
  exact (@M_Chr ci c x rest (MState bef (x :: rest) cs) eq_refl Hc).
Qed.

Lemma same_text_refl ci w : same_text ci w w.
Proof.
  induction w as [| x w IH]; constructor; [| exact IH].
  unfold char_eq. destruct ci; apply N.eqb_refl.
Qed.

Lemma same_text_ci lit w : same_text false lit w -> same_text true lit w.
Proof.
  induction 1 as [| c x lit w Hc _ IH]; constructor; [| exact IH].
  unfold char_eq in *. apply N.eqb_eq in Hc. subst. apply N.eqb_refl.
Qed.

(** ** Lemmas on search and test *)

Lemma search_intro p a :
  forall bef rest,
    is_Some (exec_at p (rev a ++ bef) rest) ->
    is_Some (search p bef (a ++ rest)).
Proof.
  induction a as [| x a IH]; intros bef rest Hex; simpl in *.
  - destruct rest; simpl; destruct Hex as [e ->]; eauto.
  - destruct (exec_at p bef (x :: a ++ rest)); [eauto |].
    apply IH. rewrite <- app_assoc in Hex. exact Hex.
Qed.

Lemma test_intro p pre m post :
  (forall bef, is_Some (exec_at p bef (m ++ post))) ->
  test p (pre ++ m ++ post) = true.
Proof.
  intros Hex. unfold test.
  destruct (search_intro p pre [] (m ++ post) (Hex _)) as [i ->].
  reflexivity.
Qed.

(** ** The entry-name check of the Code Normalizer *)

Lemma EntryDecl_ci m : EntryDecl false m -> EntryDecl true m.
Proof.
  destruct 1; constructor; auto using same_text_ci.
Qed.

Ltac step_seq := eapply M_Seq.

Lemma has_App_matches m :
  EntryDecl true m ->
  forall bef post, is_Some (exec_at re_has_App bef (m ++ post)).
Proof.
  intros Hm bef post. unfold exec_at.
  destruct Hm;
    try match goal with H : params_text _ |- _ => destruct H end;
    (eapply rmatch_complete; [| eauto]);
    change (pat_ci re_has_App) with true;
    unfold re_has_App, Alts, Seqs; cbn [pat_re fold_left fold_right];
    repeat rewrite <- app_assoc; rewrite ?app_nil_l.
  - apply M_AltL, M_AltL.
    step_seq; [apply Matches_Lit; eassumption |].
    step_seq; [apply Matches_plus_cls; assumption |].
    step_seq; [apply Matches_Lit; eassumption |].
    step_seq; [apply Matches_star_cls; assumption |].
    step_seq; [apply Matches_Chr_here; reflexivity | apply M_Eps].
  - apply M_AltL, M_AltR.
    step_seq; [apply Matches_Lit; eassumption |].
    step_seq; [apply Matches_plus_cls; assumption |].
    step_seq; [apply Matches_Lit; eassumption |].
    step_seq; [apply Matches_star_cls; assumption |].
    step_seq; [apply Matches_Chr_here; reflexivity |].
    step_seq; [apply Matches_star_cls; assumption |].
    step_seq; [apply M_Grp, M_AltR, M_Eps |].
    step_seq; [apply Matches_star_cls; assumption |].
    step_seq; [apply (Matches_Lit (same_text_refl true (js "=>"))) | apply M_Eps].
  - apply M_AltL, M_AltR.
    step_seq; [apply Matches_Lit; eassumption |].
    step_seq; [apply Matches_plus_cls; assumption |].
    step_seq; [apply Matches_Lit; eassumption |].
    step_seq; [apply Matches_star_cls; assumption |].
    step_seq; [apply Matches_Chr_here; reflexivity |].
    step_seq; [apply Matches_star_cls; assumption |].
    step_seq.
    { apply M_Grp, M_AltL. rewrite <- app_comm_cons, <- app_assoc.
      step_seq; [apply Matches_Chr_here; reflexivity |].
      step_seq; [apply Matches_star_cls; eassumption |].
      step_seq; [apply Matches_Chr_here; reflexivity | apply M_Eps]. }
    step_seq; [apply Matches_star_cls; assumption |].
    step_seq; [apply (Matches_Lit (same_text_refl true (js "=>"))) | apply M_Eps].
  - apply M_AltR.
    step_seq; [apply Matches_Lit; eassumption |].
    step_seq; [apply Matches_plus_cls; assumption |].
    step_seq; [apply Matches_Lit; eassumption |].
    step_seq; [apply Matches_plus_cls; assumption |].
    step_seq; [apply Matches_Lit; eassumption |].
    step_seq; [apply Matches_plus_cls; assumption |].
    step_seq; [apply Matches_Lit; eassumption | apply M_Eps].
Qed.

Lemma rename_guarded code :
  test re_has_App code = true -> renameComponentToApp code = code.
Proof.
  intros Ht. unfold renameComponentToApp, renameComponentToApp_run.
  rewrite Ht. reflexivity.
Qed.

Lemma rename_of_EntryDecl pre m post :
  EntryDecl true m ->
  renameComponentToApp (pre ++ m ++ post) = pre ++ m ++ post.
Proof.
  intros Hm. apply rename_guarded, test_intro.
  intros bef. apply has_App_matches. exact Hm.
Qed.

(** ** Lemmas on replace *)

Lemma replace_loop_shape {St : Type} (P : jsstring -> Prop) p
    (f : minfo -> St -> jsstring * St) :
  (forall bef aft e s,
      exec_at p bef aft = Some e ->
      fst (f (info_of bef aft e) s) = firstn (match_len aft e) aft
      \/ P (fst (f (info_of bef aft e) s))) ->
  forall aft skip bef s,
    skip <= length aft ->
    fst (replace_loop p f skip bef aft s) = skipn skip aft
    \/ exists a t b,
        fst (replace_loop p f skip bef aft s) = a ++ t ++ b /\ P t.
Proof.
  intros Hf. induction aft as [| c aft IH]; intros skip bef s Hskip.
  - destruct skip; [| simpl in Hskip; lia]. simpl.
    destruct (exec_at p bef []) as [e |] eqn:He; [| left; reflexivity].
    specialize (Hf _ _ _ s He).
    destruct (f (info_of bef [] e) s) as [t s1]. simpl in *.
    destruct Hf as [-> | HP].
    + left. destruct (match_len [] e); reflexivity.
    + right. exists [], t, []. rewrite app_nil_r. auto.
  - destruct skip as [| skip].
    + cbn [replace_loop].
      destruct (exec_at p bef (c :: aft)) as [e |] eqn:He.
      * specialize (Hf _ _ _ s He).
        destruct (f (info_of bef (c :: aft) e) s) as [t s1].
        cbn [fst] in Hf.
        assert (Hlen : match_len (c :: aft) e <= length (c :: aft))
          by (unfold match_len; lia).
        destruct (match_len (c :: aft) e) as [| n].
        -- destruct (IH 0 (c :: bef) s1 ltac:(lia)) as [Hout | (a & t' & b & Hout & HP)];
             destruct (replace_loop p f 0 (c :: bef) aft s1) as [out s2];
             cbn [fst] in *.
           ++ destruct Hf as [-> | HP].
              ** left. subst out. reflexivity.
              ** right. exists [], t, (c :: out). auto.
           ++ destruct Hf as [-> | HP'].
              ** right. exists (c :: a), t', b. subst out. auto.
              ** right. exists [], t, (c :: out). auto.
        -- simpl in Hlen.
           destruct (IH n (c :: bef) s1 ltac:(lia)) as [Hout | (a & t' & b & Hout & HP)];
             destruct (replace_loop p f n (c :: bef) aft s1) as [out s2];
             cbn [fst] in *.
           ++ destruct Hf as [-> | HP].
              ** left. subst out. simpl. f_equal. apply firstn_skipn.
              ** right. exists [], t, out. auto.
           ++ destruct Hf as [-> | HP'].
              ** right. exists (firstn (S n) (c :: aft) ++ a), t', b.
                 subst out. rewrite <- app_assoc. auto.
              ** right. exists [], t, out. auto.
      * destruct (IH 0 (c :: bef) s ltac:(lia)) as [Hout | (a & t' & b & Hout & HP)];
          destruct (replace_loop p f 0 (c :: bef) aft s) as [out s2];
          cbn [fst] in *.
        -- left. subst out. reflexivity.
        -- right. exists (c :: a), t', b. subst out. auto.
    + cbn [replace_loop]. simpl in Hskip.
      destruct (IH skip (c :: bef) s ltac:(lia)) as [Hout | Hout]; auto.
Qed.

Lemma replace_fn_shape {St : Type} (P : jsstring -> Prop) p
    (f : minfo -> St -> jsstring * St) :
  (forall bef aft e s,
      exec_at p bef aft = Some e ->
      fst (f (info_of bef aft e) s) = m_text (info_of bef aft e)
      \/ P (fst (f (info_of bef aft e) s))) ->
  forall code s,
    fst (replace_fn p f code s) = code
    \/ exists a t b, fst (replace_fn p f code s) = a ++ t ++ b /\ P t.
Proof.
  intros Hf code s. unfold replace_fn.
  apply (@replace_loop_shape St P p f Hf code 0 [] s). lia.
Qed.

Lemma replace_loop_state {St : Type} (R : St -> St -> Prop) p
    (f : minfo -> St -> jsstring * St) :
  (forall s, R s s) ->
  (forall a b c, R a b -> R b c -> R a c) ->
  (forall i s, R s (snd (f i s))) ->
  forall aft skip bef s, R s (snd (replace_loop p f skip bef aft s)).
Proof.
  intros Hrefl Htrans Hf. induction aft as [| c aft IH]; intros skip bef s.
  - destruct skip; simpl; [| apply Hrefl].
    destruct (exec_at p bef []); [| apply Hrefl].
    specialize (Hf (info_of bef [] m) s).
    destruct (f (info_of bef [] m) s). exact Hf.
  - destruct skip as [| skip]; cbn [replace_loop]; [| apply IH].
    destruct (exec_at p bef (c :: aft)) as [e |].
    + specialize (Hf (info_of bef (c :: aft) e) s).
      destruct (f (info_of bef (c :: aft) e) s) as [t s1]. cbn [snd] in Hf.
      destruct (match_len (c :: aft) e) as [| n].
      * specialize (IH 0 (c :: bef) s1).
        destruct (replace_loop p f 0 (c :: bef) aft s1). eauto.
      * specialize (IH n (c :: bef) s1).
        destruct (replace_loop p f n (c :: bef) aft s1). eauto.
    + specialize (IH 0 (c :: bef) s).
      destruct (replace_loop p f 0 (c :: bef) aft s). exact IH.
Qed.

Lemma replace_loop_text_indep {St : Type} p
    (f : minfo -> St -> jsstring * St) :
  (forall i s s', fst (f i s) = fst (f i s')) ->
  forall aft skip bef s s',
    fst (replace_loop p f skip bef aft s)
    = fst (replace_loop p f skip bef aft s').
Proof.
  intros Hf. induction aft as [| c aft IH]; intros skip bef s s'.
  - destruct skip; simpl; [| reflexivity].
    destruct (exec_at p bef []); [| reflexivity].
    specialize (Hf (info_of bef [] m) s s').
    destruct (f (info_of bef [] m) s), (f (info_of bef [] m) s'). exact Hf.
  - destruct skip as [| skip]; cbn [replace_loop]; [| apply IH].
    destruct (exec_at p bef (c :: aft)) as [e |].
    + specialize (Hf (info_of bef (c :: aft) e) s s').
      destruct (f (info_of bef (c :: aft) e) s) as [t s1],
               (f (info_of bef (c :: aft) e) s') as [t' s1'].
      cbn [fst] in Hf. subst t'.
      destruct (match_len (c :: aft) e) as [| n].
      * specialize (IH 0 (c :: bef) s1 s1').
        destruct (replace_loop p f 0 (c :: bef) aft s1),
                 (replace_loop p f 0 (c :: bef) aft s1').
        cbn [fst] in *. congruence.
      * specialize (IH n (c :: bef) s1 s1').
        destruct (replace_loop p f n (c :: bef) aft s1),
                 (replace_loop p f n (c :: bef) aft s1').
        cbn [fst] in *. congruence.
    + specialize (IH 0 (c :: bef) s s').
      destruct (replace_loop p f 0 (c :: bef) aft s),
               (replace_loop p f 0 (c :: bef) aft s').
      cbn [fst] in *. congruence.
Qed.

(** ** What a successful match says about the captures *)

Lemma Matches_groupless ci r st st' :
  Matches ci r st st' -> groupless r = true -> caps st' = caps st.
Proof.
  induction 1; simpl; intros Hg; try reflexivity;
    try (apply andb_prop in Hg as [Hg1 Hg2]).
  - rewrite IHMatches2, IHMatches1; auto.
  - auto.
  - auto.
  - rewrite IHMatches2, IHMatches1; auto.
  - discriminate.
  - discriminate.
Qed.

Lemma Matches_star_cls_inv ci g p st st' :
  Matches ci (Star g (Cls p)) st st' ->
  exists w, Forall (fun c => p c = true) w /\ after st = w ++ after st'.
Proof.
  remember (Star g (Cls p)) as r eqn:Hr. induction 1; try discriminate.
  - exists []. split; [constructor | reflexivity].
  - injection Hr as -> ->.
    destruct (IHMatches2 eq_refl) as (w & Hw & Haft).
    inversion H; subst. exists (x :: w). split.
    + constructor; assumption.
    + simpl in Haft.
      match goal with Ha : after st = _ :: _ |- _ => rewrite Ha end.
      rewrite Haft. reflexivity.
Qed.

Lemma firstn_prefix (w r : jsstring) :
  firstn (length (w ++ r) - length r) (w ++ r) = w.
Proof.
  rewrite length_app. replace (length w + length r - length r) with (length w) by lia.
  rewrite firstn_app, Nat.sub_diag, firstn_all. simpl. apply app_nil_r.
Qed.

Ltac inv_seq :=
  repeat match goal with
    | H : Matches _ (Seq _ _) _ _ |- _ => inversion H; subst; clear H
    | H : Matches _ Eps _ _ |- _ => inversion H; subst; clear H
    end.

Lemma arrow_params bef aft e :
  exec_at re_arrow bef aft = Some e ->
  exists ps, cap (info_of bef aft e) 2 = Some ps /\ params_text ps.
Proof.
  unfold exec_at. intros Hex.
  apply rmatch_sound in Hex as (st' & Hm & [= <-]).
  unfold re_arrow, Seqs in Hm. cbn [pat_re pat_ci fold_right] in Hm.
  inv_seq.
  match goal with H : Matches _ (Grp 2 _) _ _ |- _ => inversion H; subst; clear H end.
  repeat match goal with
    | H : Matches _ (Star true ws) _ _ |- _ =>
        apply Matches_groupless in H; [| reflexivity]
    | H : Matches _ (Chr _) _ _ |- _ =>
        apply Matches_groupless in H; [| reflexivity]
    end.
  unfold cap, info_of. cbn [m_caps].
  repeat match goal with
    | H : caps _ = _ |- _ => rewrite H; clear H
    end.
  cbn [set_cap caps List.find fst snd Nat.eqb fmap option_fmap option_map].
  eexists. split; [reflexivity |].
  match goal with H : Matches _ (Alt _ _) _ _ |- _ => inversion H; subst; clear H end.
  - inv_seq.
    repeat match goal with
      | H : Matches _ (Chr _) _ _ |- _ => inversion H; subst; clear H
      end.
    match goal with H : Matches _ (Star true (Cls _)) _ _ |- _ =>
      apply Matches_star_cls_inv in H as (w & Hw & Haft) end.
    unfold consumed, advance in *. cbn [after] in *.
    repeat match goal with
      | H : char_eq false _ _ = true |- _ => apply N.eqb_eq in H; subst
      end.
    match goal with
    | H1 : after ?a = ch "(" :: w ++ after ?b, H2 : after ?b = ch ")" :: ?r |- _ =>
        rewrite H1, H2;
        change (ch "(" :: w ++ ch ")" :: r)
          with (ch "(" :: w ++ [ch ")"] ++ r);
        rewrite app_comm_cons, app_assoc, firstn_prefix
    end.
    constructor. exact Hw.
  - inv_seq. unfold consumed. rewrite Nat.sub_diag. constructor.
Qed.

(** ** The three renaming passes *)

Lemma renamed_text_decl t : renamed_text t -> EntryDecl true t.
Proof.
  intros [-> | [(ps & Hps & ->) | ->]].
  - apply (@ED_function true (js "function") (js " ") (js "App") []);
      try apply same_text_refl; try discriminate; repeat constructor.
  - apply (@ED_arrow true (js "const") (js " ") (js "App") (js " ")
             (js " ") ps (js " "));
      try apply same_text_refl; try discriminate; try exact Hps;
      repeat constructor.
  - apply (@ED_class true (js "class") (js " ") (js "App") (js " ")
             (js "extends") (js " ") (js "React.Component"));
      try apply same_text_refl; try discriminate; repeat constructor.
Qed.

Lemma has_App_after_rename a t b :
  renamed_text t -> test re_has_App (a ++ t ++ b) = true.
Proof.
  intros Ht. apply test_intro. intros bef.
  apply has_App_matches, renamed_text_decl, Ht.
Qed.

Lemma function_pass_shape code s :
  fst (replace_fn re_function replace_function code s) = code
  \/ exists a t b,
       fst (replace_fn re_function replace_function code s) = a ++ t ++ b
       /\ renamed_text t.
Proof.
  apply replace_fn_shape. intros bef aft e s' _. unfold replace_function.
  destruct (keep_match _ _); [left; reflexivity |].
  right. left. reflexivity.
Qed.

Lemma arrow_pass_shape code s :
  fst (replace_fn re_arrow replace_arrow code s) = code
  \/ exists a t b,
       fst (replace_fn re_arrow replace_arrow code s) = a ++ t ++ b
       /\ renamed_text t.
Proof.
  apply replace_fn_shape. intros bef aft e s' Hex. unfold replace_arrow.
  destruct (keep_match _ _); [left; reflexivity |].
  right. right. left. cbn [fst].
  destruct (arrow_params _ _ Hex) as (ps & -> & Hps).
  exists ps. split; [exact Hps | reflexivity].
Qed.

Lemma class_pass_shape code s :
  fst (replace_fn re_class replace_class code s) = code
  \/ exists a t b,
       fst (replace_fn re_class replace_class code s) = a ++ t ++ b
       /\ renamed_text t.
Proof.
  apply replace_fn_shape. intros bef aft e s' _. unfold replace_class.
  destruct (keep_match _ _); [left; reflexivity |].
  right. right. right. reflexivity.
Qed.

Lemma rename_result code :
  renameComponentToApp code = code
  \/ test re_has_App (renameComponentToApp code) = true.
Proof.
  unfold renameComponentToApp, renameComponentToApp_run.
  destruct (test re_has_App code); [left; reflexivity |].
  pose proof (function_pass_shape code (RenameState false [LogRenaming])) as H1.
  destruct (replace_fn re_function replace_function code _) as [code1 st1].
  cbn [fst] in H1.
  assert (H2 : forall code2 st2,
             (if negb (functionMatched st1)
              then replace_fn re_arrow replace_arrow code1 st1
              else (code1, st1)) = (code2, st2) ->
             code2 = code
             \/ exists a t b, code2 = a ++ t ++ b /\ renamed_text t).
  { intros code2 st2 Heq. destruct (negb (functionMatched st1)).
    - pose proof (arrow_pass_shape code1 st1) as H2. rewrite Heq in H2.
      cbn [fst] in H2. destruct H2 as [-> | H2]; [exact H1 | right; exact H2].
    - injection Heq as <- <-. exact H1. }
  destruct (if negb (functionMatched st1) then _ else _) as [code2 st2].
  specialize (H2 code2 st2 eq_refl).
  pose proof (class_pass_shape code2 st2) as H3.
  destruct (replace_fn re_class replace_class code2 st2) as [code3 st3].
  cbn [fst] in *.
  destruct H3 as [-> | (a & t & b & -> & Ht)].
  - destruct H2 as [-> | (a & t & b & -> & Ht)]; [left; reflexivity |].
    right. apply has_App_after_rename, Ht.
  - right. apply has_App_after_rename, Ht.
Qed.

Lemma replace_loop_untouched {St : Type} (Q : St -> bool) p
    (f : minfo -> St -> jsstring * St) :
  (forall i s, Q (snd (f i s)) = true -> f i s = (m_text i, s)) ->
  forall aft skip bef s,
    skip <= length aft ->
    Q (snd (replace_loop p f skip bef aft s)) = true ->
    replace_loop p f skip bef aft s = (skipn skip aft, s).
Proof.
  intros Hf. induction aft as [| c aft IH]; intros skip bef s Hskip HQ.
  - destruct skip; [| simpl in Hskip; lia]. simpl in *.
    destruct (exec_at p bef []) as [e |]; [| reflexivity].
    specialize (Hf (info_of bef [] e) s).
    destruct (f (info_of bef [] e) s) as [t s1]. cbn [snd] in *.
    rewrite (Hf HQ). cbn [m_text info_of]. rewrite firstn_nil. reflexivity.
  - destruct skip as [| skip]; cbn [replace_loop] in *.
    + destruct (exec_at p bef (c :: aft)) as [e |].
      * specialize (Hf (info_of bef (c :: aft) e) s).
        destruct (f (info_of bef (c :: aft) e) s) as [t s1].
        cbn [snd] in Hf.
        assert (Hlen : match_len (c :: aft) e <= length (c :: aft))
          by (unfold match_len; lia).
        cbn [info_of m_text] in Hf.
        destruct (match_len (c :: aft) e) as [| n].
        -- specialize (IH 0 (c :: bef) s1 ltac:(lia)).
           destruct (replace_loop p f 0 (c :: bef) aft s1) as [out s2].
           cbn [snd] in *. specialize (IH HQ). injection IH as -> ->.
           specialize (Hf HQ). injection Hf as -> ->. reflexivity.
        -- simpl in Hlen. specialize (IH n (c :: bef) s1 ltac:(lia)).
           destruct (replace_loop p f n (c :: bef) aft s1) as [out s2].
           cbn [snd] in *. specialize (IH HQ). injection IH as -> ->.
           specialize (Hf HQ). injection Hf as -> ->.
           simpl. rewrite firstn_skipn. reflexivity.
      * specialize (IH 0 (c :: bef) s ltac:(lia)).
        destruct (replace_loop p f 0 (c :: bef) aft s) as [out s2].
        cbn [snd] in *. specialize (IH HQ). injection IH as -> ->.
        reflexivity.
    + simpl in Hskip. apply IH; [lia | exact HQ].
Qed.

Lemma adds_lines_refl kind s : adds_lines kind s s.
Proof.
  exists []. rewrite app_nil_r. simpl. rewrite orb_false_r. auto.
Qed.

Lemma adds_lines_trans kind a b c :
  adds_lines kind a b -> adds_lines kind b c -> adds_lines kind a c.
Proof.
  intros (l1 & H1 & K1 & F1) (l2 & H2 & K2 & F2). exists (l1 ++ l2).
  rewrite H2, H1, <- app_assoc, forallb_app, K1, K2, F2, F1, existsb_app,
    orb_assoc. auto.
Qed.

Lemma function_pass_lines code s :
  adds_lines is_function_line s
    (snd (replace_fn re_function replace_function code s)).
Proof.
  unfold replace_fn. apply replace_loop_state;
    [apply adds_lines_refl | apply adds_lines_trans |].
  intros i s0. unfold replace_function.
  destruct (keep_match _ _); [apply adds_lines_refl |].
  eexists. cbn. split; [reflexivity |]. rewrite orb_true_r. auto.
Qed.

Lemma arrow_pass_lines code s :
  adds_lines is_arrow_line s (snd (replace_fn re_arrow replace_arrow code s)).
Proof.
  unfold replace_fn. apply replace_loop_state;
    [apply adds_lines_refl | apply adds_lines_trans |].
  intros i s0. unfold replace_arrow.
  destruct (keep_match _ _); [apply adds_lines_refl |].
  eexists. cbn. split; [reflexivity |]. rewrite orb_false_r. auto.
Qed.

Lemma class_pass_lines code s :
  adds_lines is_class_line s (snd (replace_fn re_class replace_class code s)).
Proof.
  unfold replace_fn. apply replace_loop_state;
    [apply adds_lines_refl | apply adds_lines_trans |].
  intros i s0. unfold replace_class.
  destruct (keep_match _ _); [apply adds_lines_refl |].
  eexists. cbn. split; [reflexivity |]. rewrite orb_false_r. auto.
Qed.

Lemma other_kind_absent (k1 k2 : log_line -> bool) l :
  (forall x, k1 x = true -> k2 x = false) ->
  forallb k1 l = true -> existsb k2 l = false.
Proof.
  intros Hk. induction l as [| x l IH]; simpl; [reflexivity |].
  intros H. apply andb_prop in H as [Hx Hl]. rewrite (Hk x Hx), IH; auto.
Qed.

Lemma function_pass_untouched code s :
  functionMatched (snd (replace_fn re_function replace_function code s)) = false ->
  replace_fn re_function replace_function code s = (code, s).
Proof.
  intros Hflag. unfold replace_fn in *.
  apply (@replace_loop_untouched _ (fun st => negb (functionMatched st))
           re_function replace_function).
  - intros i s0. unfold replace_function.
    destruct (keep_match _ _); [reflexivity | discriminate].
  - lia.
  - rewrite Hflag. reflexivity.
Qed.

Lemma function_text_indep code s s' :
  fst (replace_fn re_function replace_function code s)
  = fst (replace_fn re_function replace_function code s').
Proof.
  unfold replace_fn. apply replace_loop_text_indep. intros i a b. unfold replace_function.
  destruct (keep_match _ _); reflexivity.
Qed.

Lemma arrow_text_indep code s s' :
  fst (replace_fn re_arrow replace_arrow code s)
  = fst (replace_fn re_arrow replace_arrow code s').
Proof.
  unfold replace_fn. apply replace_loop_text_indep. intros i a b. unfold replace_arrow.
  destruct (keep_match _ _); reflexivity.
Qed.

Lemma class_text_indep code s s' :
  fst (replace_fn re_class replace_class code s)
  = fst (replace_fn re_class replace_class code s').
Proof.
  unfold replace_fn. apply replace_loop_text_indep. intros i a b. unfold replace_class.
  destruct (keep_match _ _); reflexivity.
Qed.

(** The run of the Code Normalizer on a source without the entry name, pass
    by pass. *)
Lemma rename_run_passes code :
  test re_has_App code = false ->
  exists l1 l3,
    forallb is_function_line l1 = true /\ forallb is_class_line l3 = true
    /\ ((l1 <> []
         /\ renameComponentToApp_run code
            = (class_pass (function_pass code), LogRenaming :: l1 ++ l3))
        \/ (l1 = []
            /\ exists l2,
                forallb is_arrow_line l2 = true
                /\ renameComponentToApp_run code
                   = (class_pass (arrow_pass code), LogRenaming :: l2 ++ l3))).
Proof.
  intros Ht. unfold renameComponentToApp_run. rewrite Ht.
  set (st0 := RenameState false [LogRenaming]).
  pose proof (function_pass_lines code st0) as (l1 & Hc1 & Hk1 & Hf1).
  pose proof (function_pass_untouched code st0) as Hu.
  pose proof (function_text_indep code st0 (RenameState false [])) as Ht1.
  fold (function_pass code) in Ht1.
  destruct (replace_fn re_function replace_function code st0) as [code1 st1].
  cbn [fst snd] in *. subst code1.
  destruct (functionMatched st1) eqn:Hflag; cbn [negb].
  - pose proof (class_pass_lines (function_pass code) st1) as (l3 & Hc3 & Hk3 & _).
    pose proof (class_text_indep (function_pass code) st1 (RenameState false [])) as Ht3.
    fold (class_pass (function_pass code)) in Ht3.
    destruct (replace_fn re_class replace_class (function_pass code) st1)
      as [code3 st3].
    cbn [fst snd] in *. subst code3.
    exists l1, l3. split; [exact Hk1 | split; [exact Hk3 |]]. left. split.
    + intros ->. simpl in Hf1. discriminate.
    + rewrite Hc3, Hc1. simpl. rewrite <- ?app_assoc. reflexivity.
  - specialize (Hu eq_refl). injection Hu as Hcode ->.
    pose proof (arrow_pass_lines code st0) as (l2 & Hc2 & Hk2 & _).
    pose proof (arrow_text_indep code st0 (RenameState false [])) as Ht2.
    fold (arrow_pass code) in Ht2.
    rewrite Hcode.
    destruct (replace_fn re_arrow replace_arrow code st0) as [code2 st2].
    cbn [fst snd] in *. subst code2.
    pose proof (class_pass_lines (arrow_pass code) st2) as (l3 & Hc3 & Hk3 & _).
    pose proof (class_text_indep (arrow_pass code) st2 (RenameState false [])) as Ht3.
    fold (class_pass (arrow_pass code)) in Ht3.
    destruct (replace_fn re_class replace_class (arrow_pass code) st2)
      as [code3 st3].
    cbn [fst snd] in *. subst code3.
    exists [], l3. split; [reflexivity | split; [exact Hk3 |]]. right.
    split; [reflexivity |]. exists l2. split; [exact Hk2 |].
    rewrite Hc3, Hc2. simpl. rewrite <- ?app_assoc. reflexivity.
Qed.

(** ** Lemmas on persistence *)

Lemma jseq_eq a b : jseq a b = true <-> a = b.
Proof.
  revert b. induction a as [| x a IH]; intros [| y b]; simpl;
    try (split; [discriminate | congruence]); [tauto |].
  rewrite andb_true_iff, N.eqb_eq, IH. split; [intros [-> ->] | intros [= -> ->]]; auto.
Qed.

Lemma jseq_refl a : jseq a a = true.
Proof. apply jseq_eq. reflexivity. Qed.

Lemma json_of_tab_stored t :
  json_of_tab t = json_of_stored_tab (stored_of_tab t).
Proof.
  unfold json_of_tab, json_of_stored_tab, stored_of_tab. cbn [st_id st_title
    st_content st_visualizations st_fileData].
  rewrite List.map_map. reflexivity.
Qed.

Lemma backfill_stored_tab t : backfill_tab (stored_of_tab t) = t.
Proof.
  destruct t as [i ti c vs d]. unfold backfill_tab, stored_of_tab. simpl.
  f_equal. rewrite List.map_map.
  induction vs as [| [] vs IH]; simpl; [reflexivity |]. rewrite IH. reflexivity.
Qed.

Lemma mapM_cons_opt {A B : Type} (f : A -> option B) x l :
  mapM f (x :: l)
  = match f x with
    | Some y => match mapM f l with Some k => Some (y :: k) | None => None end
    | None => None
    end.
Proof. cbn. destruct (f x); reflexivity. Qed.

Lemma restore_read_vis sv :
  restore_vis (json_of_stored_vis sv) ≫= read_vis = Some (backfill_vis sv).
Proof.
  destruct sv as [i d c [[] |] [e |]]; reflexivity.
Qed.

Lemma restore_read_vis_list svs :
  mapM restore_vis (List.map json_of_stored_vis svs) ≫= mapM read_vis
  = Some (List.map backfill_vis svs).
Proof.
  induction svs as [| sv svs IH]; [reflexivity |].
  pose proof (restore_read_vis sv) as Hsv. cbn [List.map].
  rewrite mapM_cons_opt.
  destruct (restore_vis (json_of_stored_vis sv)) as [j |]; [| discriminate].
  destruct (mapM restore_vis (List.map json_of_stored_vis svs)) as [js' |];
    [| discriminate].
  cbn [mbind option_bind] in *. rewrite mapM_cons_opt, Hsv, IH. reflexivity.
Qed.

Lemma read_restored_tab i t c (old : json) js' d :
  read_tab
    (JObj (set_field
             ([ (js "id", JStr i); (js "title", JStr t);
                (js "content", JStr c); (js "visualizations", old) ]
              ++ optional_field (js "fileData") d)
             (js "visualizations") (JArr js')))
  = (vs ← mapM read_vis js'; Some (mkLearningTab i t c vs d)).
Proof. destruct d; reflexivity. Qed.

Lemma restore_read_tab st :
  restore_tab (json_of_stored_tab st) ≫= read_tab = Some (backfill_tab st).
Proof.
  destruct st as [i t c vs d].
  pose proof (restore_read_vis_list vs) as Hvs.
  unfold restore_tab, json_of_stored_tab.
  cbn [st_id st_title st_content st_visualizations st_fileData].
  change (property _ (js "visualizations"))
    with (Some (Some (JArr (List.map json_of_stored_vis vs)))).
  cbv iota beta.
  destruct (mapM restore_vis (List.map json_of_stored_vis vs)) as [js' |];
    [| discriminate].
  cbn [mbind option_bind] in Hvs |- *. cbn [spread].
  rewrite read_restored_tab. cbn [mbind option_bind]. rewrite Hvs. reflexivity.
Qed.

Lemma restored_tab_id st j :
  restore_tab (json_of_stored_tab st) = Some j ->
  property j (js "id") = Some (Some (JStr (st_id st))).
Proof.
  destruct st as [i t c vs d]. unfold restore_tab, json_of_stored_tab.
  cbn [st_id st_title st_content st_visualizations st_fileData].
  change (property _ (js "visualizations"))
    with (Some (Some (JArr (List.map json_of_stored_vis vs)))).
  cbv iota beta.
  destruct (mapM restore_vis (List.map json_of_stored_vis vs)) as [js' |];
    [| discriminate].
  cbn [mbind option_bind]. intros [= <-]. destruct d; reflexivity.
Qed.

Lemma restore_read_tabs sts :
  exists restoredTabs,
    restore_tabs (JArr (List.map json_of_stored_tab sts)) = Some restoredTabs
    /\ mapM read_tab restoredTabs = Some (List.map backfill_tab sts)
    /\ last_tab_id restoredTabs = last_id (List.map backfill_tab sts).
Proof.
  unfold restore_tabs.
  induction sts as [| st sts (rs & Hrs & Hread & Hlast)].
  - exists []. auto.
  - pose proof (restore_read_tab st) as Hst. cbn [List.map].
    rewrite mapM_cons_opt.
    destruct (restore_tab (json_of_stored_tab st)) as [j |] eqn:Hj;
      [| discriminate].
    cbn [mbind option_bind] in Hst. exists (j :: rs).
    rewrite Hrs, mapM_cons_opt, Hst, Hread.
    split; [reflexivity | split; [reflexivity |]].
    unfold last_tab_id, last_id in *.
    apply length_mapM in Hread as Hlen. rewrite length_map in Hlen.
    destruct rs as [| r rs], sts as [| st' sts]; try discriminate;
      cbn [List.map List.last] in *.
    + rewrite (restored_tab_id _ Hj). reflexivity.
    + exact Hlast.
Qed.

Lemma strip_fileData_tab t :
  strip_fileData (json_of_tab t) = json_of_tab (without_fileData t).
Proof. destruct t as [i ti c vs [d |]]; reflexivity. Qed.

Lemma strippedData_tabs tabs :
  strippedData (json_of_tabs tabs)
  = json_of_tabs (List.map without_fileData tabs).
Proof.
  unfold strippedData, json_of_tabs. rewrite !List.map_map. f_equal.
  apply List.map_ext. intros t. apply strip_fileData_tab.
Qed.

Lemma json_of_tabs_stored tabs :
  json_of_tabs tabs
  = JArr (List.map json_of_stored_tab (List.map stored_of_tab tabs)).
Proof.
  unfold json_of_tabs. rewrite List.map_map. f_equal.
  apply List.map_ext. intros t. apply json_of_tab_stored.
Qed.

Lemma backfill_stored_tabs tabs :
  List.map backfill_tab (List.map stored_of_tab tabs) = tabs.
Proof.
  rewrite List.map_map. rewrite <- (List.map_id tabs) at 2.
  apply List.map_ext. intros t. apply backfill_stored_tab.
Qed.

Lemma last_id_without_fileData tabs :
  last_id (List.map without_fileData tabs) = last_id tabs.
Proof.
  unfold last_id. induction tabs as [| t [| t' tabs] IH]; try reflexivity.
  exact IH.
Qed.

Section BrowserLemmas.

Variable JSON_stringify : json -> jsstring.
Variable JSON_parse : jsstring -> option json.
Variable try_setItem : gmap jsstring jsstring -> jsstring -> jsstring -> set_outcome.
Hypothesis parse_empty : JSON_parse [] = None.

Lemma load_stored (stored : list StoredTab) s w :
  reads_back JSON_stringify JSON_parse
    (JArr (List.map json_of_stored_tab stored)) ->
  localStorage w !! js "learningTabs"
  = Some (JSON_stringify (JArr (List.map json_of_stored_tab stored))) ->
  exists restoredTabs,
    load_effect JSON_parse s w
    = (if Nat.ltb 0 (length stored)
       then Restored restoredTabs
              (last_id (List.map backfill_tab stored)) ViewContent
       else Restored restoredTabs (r_activeTab s) (r_view s), w)
    /\ mapM read_tab restoredTabs = Some (List.map backfill_tab stored).
Proof.
  unfold reads_back. intros Hcodec Hget.
  unfold load_effect. cbv zeta. rewrite Hget.
  destruct (JSON_stringify _) as [| c txt] eqn:Htxt;
    [rewrite parse_empty in Hcodec; discriminate |].
  rewrite Hcodec. cbn [mbind option_bind].
  destruct (restore_read_tabs stored) as (rs & -> & Hread & Hlast).
  exists rs. split; [| exact Hread].
  apply length_mapM in Hread as Hlen. rewrite length_map in Hlen.
  rewrite Hlen, Hlast. reflexivity.
Qed.

Lemma save_effect_storage tabs w :
  tabs <> [] ->
  saved_ok JSON_stringify try_setItem tabs w = true ->
  exists kept,
    (kept = tabs \/ kept = List.map without_fileData tabs)
    /\ localStorage (save_effect JSON_stringify try_setItem tabs w)
         !! js "learningTabs"
       = Some (JSON_stringify (json_of_tabs kept)).
Proof.
  intros Hne. unfold saved_ok, save_effect.
  destruct tabs as [| t tabs]; [congruence |]. cbn [length Nat.ltb Nat.leb].
  set (data := json_of_tabs (t :: tabs)).
  unfold saveToLocalStorage, setItem.
  set (w1 := if N.ltb _ _ then emit WarnApproachingLimit w else w).
  destruct (try_setItem (localStorage w1) _ (JSON_stringify data)) eqn:H1;
    cbn [fst snd].
  - intros _. exists (t :: tabs). split; [left; reflexivity |].
    cbn [localStorage]. apply lookup_insert_eq.
  - change (jseq (js "learningTabs") (js "learningTabs") && is_array data)
      with true. cbv iota.
    unfold data. rewrite strippedData_tabs. cbn [emit localStorage].
    destruct (try_setItem (localStorage w1) _ (JSON_stringify (json_of_tabs _)))
      eqn:H2; cbn [fst snd emit localStorage]; try discriminate.
    intros _. exists (List.map without_fileData (t :: tabs)).
    split; [right; reflexivity |]. apply lookup_insert_eq.
  - discriminate.
Qed.

Lemma save_load_roundtrip tabs w :
  reads_back JSON_stringify JSON_parse (json_of_tabs tabs) ->
  reads_back JSON_stringify JSON_parse
    (json_of_tabs (List.map without_fileData tabs)) ->
  saved_ok JSON_stringify try_setItem tabs w = true ->
  exists restoredTabs kept,
    load_effect JSON_parse initial_state
      (save_effect JSON_stringify try_setItem tabs w)
    = (Restored restoredTabs (last_id tabs)
         (if Nat.ltb 0 (length tabs) then ViewContent else ViewUpload),
       save_effect JSON_stringify try_setItem tabs w)
    /\ mapM read_tab restoredTabs = Some kept
    /\ (kept = tabs \/ kept = List.map without_fileData tabs).
Proof.
  intros Hc1 Hc2 Hok. destruct tabs as [| t tabs].
  - exists [], []. unfold save_effect, load_effect, removeItem.
    cbv zeta. cbn [length Nat.ltb Nat.leb localStorage].
    rewrite lookup_delete_eq. auto.
  - destruct (save_effect_storage w (tabs := t :: tabs) ltac:(discriminate) Hok)
      as (kept & Hkept & Hget).
    assert (Hc : reads_back JSON_stringify JSON_parse (json_of_tabs kept))
      by (destruct Hkept as [-> | ->]; assumption).
    rewrite json_of_tabs_stored in Hget, Hc.
    destruct (@load_stored _ initial_state _ Hc Hget) as (rs & Hload & Hread).
    rewrite backfill_stored_tabs in Hload, Hread.
    exists rs, kept. rewrite Hload. split; [| auto].
    assert (Hlen : length (List.map stored_of_tab kept) = S (length tabs)).
    { destruct Hkept as [-> | ->]; rewrite ?length_map; reflexivity. }
    rewrite Hlen. cbn [Nat.ltb Nat.leb length].
    destruct Hkept as [-> | ->]; [reflexivity |].
    rewrite last_id_without_fileData. reflexivity.
Qed.

End BrowserLemmas.

Lemma last_add_tab {A : Type} (prev : list A) (t : A) :
  List.last (add_tab_list prev t) t = t.
Proof. unfold add_tab_list. apply last_last. Qed.

Lemma lookup_List_map {A B : Type} (f : A -> B) (l : list A) (i : nat) :
  List.map f l !! i = f <$> l !! i.
Proof.
  revert i. induction l as [| x l IH]; intros [| i]; try reflexivity.
  apply IH.
Qed.

(** ** Lemmas on occurrences *)

Lemma startsWith_nil s : startsWith s [] = true.
Proof. destruct s; reflexivity. Qed.

Lemma startsWith_app_same p r q : startsWith (p ++ r) (p ++ q) = startsWith r q.
Proof.
  induction p as [| x p IH]; [reflexivity |]. simpl. rewrite N.eqb_refl. exact IH.
Qed.

Lemma mismatch_startsWith u m r y :
  mismatch u m = true -> startsWith (u ++ r) (m ++ y) = false.
Proof.
  revert m. induction u as [| x u IH]; intros [| z m]; simpl; try discriminate.
  destruct (N.eqb z x) eqn:Hzx.
  - apply N.eqb_eq in Hzx. subst. rewrite N.eqb_refl. apply IH.
  - intros _. reflexivity.
Qed.

Lemma occurrences_clean m f y r :
  clean m f = true ->
  occurrences (m ++ y) (f ++ r) = occurrences (m ++ y) r.
Proof.
  induction f as [| c f IH]; [reflexivity |].
  cbn [clean]. intros H. apply andb_prop in H as [Hm Hc].
  change (occurrences (m ++ y) ((c :: f) ++ r))
    with ((if startsWith ((c :: f) ++ r) (m ++ y) then 1 else 0)
          + occurrences (m ++ y) (f ++ r)).
  rewrite (@mismatch_startsWith _ _ r y Hm), IH by exact Hc. reflexivity.
Qed.

Lemma occurrences_without_first x pat s r :
  forallb (is_not x) s = true ->
  occurrences (x :: pat) (s ++ r) = occurrences (x :: pat) r.
Proof.
  induction s as [| c s IH]; [reflexivity |].
  cbn [forallb]. intros H. apply andb_prop in H as [Hc Hs].
  change (occurrences (x :: pat) ((c :: s) ++ r))
    with ((if startsWith (c :: s ++ r) (x :: pat) then 1 else 0)
          + occurrences (x :: pat) (s ++ r)).
  rewrite IH by exact Hs. unfold is_not in Hc. cbn [startsWith].
  rewrite N.eqb_sym. destruct (N.eqb c x); [discriminate | reflexivity].
Qed.

Lemma startsWith_before_first x pat u b :
  forallb (is_not x) pat = true ->
  startsWith (u ++ x :: b) pat = startsWith u pat.
Proof.
  revert pat. induction u as [| z u IH]; intros [| y pat]; try reflexivity.
  - cbn. intros H. apply andb_prop in H as [Hy _]. unfold is_not in Hy.
    destruct (N.eqb y x); [discriminate | reflexivity].
  - cbn [forallb]. intros H. apply andb_prop in H as [_ Hp]. cbn.
    rewrite IH by exact Hp. reflexivity.
Qed.

Lemma occurrences_split x pat a b :
  forallb (is_not x) pat = true ->
  occurrences (x :: pat) (a ++ x :: b)
  = occurrences (x :: pat) a + occurrences (x :: pat) (x :: b).
Proof.
  intros Hp. induction a as [| c a IH]; [reflexivity |].
  change (occurrences (x :: pat) ((c :: a) ++ x :: b))
    with ((if startsWith (c :: a ++ x :: b) (x :: pat) then 1 else 0)
          + occurrences (x :: pat) (a ++ x :: b)).
  change (occurrences (x :: pat) (c :: a))
    with ((if startsWith (c :: a) (x :: pat) then 1 else 0)
          + occurrences (x :: pat) a).
  rewrite IH. cbn [startsWith].
  rewrite (@startsWith_before_first x pat a b Hp). lia.
Qed.

Lemma startsWith_prefix p r : startsWith (p ++ r) p = true.
Proof.
  induction p as [| x p IH]; [apply startsWith_nil |].
  simpl. rewrite N.eqb_refl. exact IH.
Qed.

Lemma occurrences_here x pat r :
  occurrences (x :: pat) ((x :: pat) ++ r)
  = 1 + occurrences (x :: pat) (pat ++ r).
Proof.
  change (occurrences (x :: pat) ((x :: pat) ++ r))
    with ((if startsWith ((x :: pat) ++ r) (x :: pat) then 1 else 0)
          + occurrences (x :: pat) (pat ++ r)).
  rewrite startsWith_prefix. reflexivity.
Qed.

(** ** Lemmas on replacement texts *)

Lemma expand_verbatim m i template :
  forallb (is_not (ch "$")) template = true -> expand m i template = template.
Proof.
  induction template as [| c t IH]; [reflexivity |].
  cbn [forallb]. intros H. apply andb_prop in H as [Hc Ht].
  cbn [expand]. unfold is_not in Hc. rewrite Hc, IH by exact Ht. reflexivity.
Qed.

Lemma split_at_first_found x pat pre post :
  forallb (is_not x) pre = true ->
  forall bef,
    split_at_first (x :: pat) bef (pre ++ (x :: pat) ++ post)
    = Some (rev bef ++ pre, post).
Proof.
  induction pre as [| c pre IH]; intros Hpre bef.
  - cbn [app split_at_first].
    change (x :: pat ++ post) with ((x :: pat) ++ post).
    rewrite startsWith_prefix, skipn_app, skipn_all, Nat.sub_diag, app_nil_r.
    reflexivity.
  - cbn [forallb] in Hpre. apply andb_prop in Hpre as [Hc Hpre].
    cbn [app split_at_first startsWith]. unfold is_not in Hc.
    rewrite N.eqb_sym. destruct (N.eqb c x); [discriminate |]. cbn [andb].
    rewrite IH by exact Hpre. cbn [rev]. rewrite <- app_assoc. reflexivity.
Qed.

(** ** Lemmas on braces and the final strip *)

Lemma brace_free_weaken s : brace_free true s = true -> brace_free false s = true.
Proof.
  destruct s as [| c s]; [reflexivity |]. simpl.
  destruct (N.eqb c (ch "{")); [discriminate | auto].
Qed.

Lemma brace_free_skip s r :
  forallb (is_not (ch "{")) s = true ->
  brace_free false (s ++ r) = brace_free false r.
Proof.
  induction s as [| c s IH]; [reflexivity |].
  cbn [forallb]. intros H. apply andb_prop in H as [Hc Hs].
  cbn [app brace_free]. unfold is_not in Hc.
  destruct (N.eqb c (ch "{")); [discriminate |]. apply IH, Hs.
Qed.

Lemma brace_free_fixed f r :
  ends_plain f = true ->
  forall p, brace_free p (f ++ r) = brace_free p f && brace_free false r.
Proof.
  induction f as [| c f IH]; [discriminate |]. intros Hend p.
  destruct f as [| d f].
  - unfold ends_plain, is_not in Hend. cbn in Hend. cbn [app brace_free].
    destruct (N.eqb c (ch "{")); [discriminate | reflexivity].
  - assert (Hend' : ends_plain (d :: f) = true).
    { unfold ends_plain in *. cbn [rev] in *.
      destruct (rev f ++ [d]) as [| e l] eqn:Hl;
        [destruct (rev f); discriminate | exact Hend]. }
    change ((c :: d :: f) ++ r) with (c :: (d :: f) ++ r).
    cbn [brace_free]. destruct (N.eqb c (ch "{")).
    + rewrite (IH Hend' true). destruct p; reflexivity.
    + apply (IH Hend' false).
Qed.

Lemma brace_free_before_plain a c r p :
  is_not (ch "{") c = true ->
  brace_free p (a ++ c :: r) = brace_free p a && brace_free false r.
Proof.
  intros Hc. revert p. induction a as [| x a IH]; intros p.
  - cbn [app brace_free]. unfold is_not in Hc.
    destruct (N.eqb c (ch "{")); [discriminate | reflexivity].
  - cbn [app brace_free]. destruct (N.eqb x (ch "{")).
    + rewrite IH. destruct p; reflexivity.
    + apply IH.
Qed.

Lemma exec_braces_none bef aft :
  (forall r, aft <> ch "{" :: ch "{" :: r) ->
  exec_at re_braces bef aft = None.
Proof.
  intros Hne. unfold exec_at, re_braces, Seqs.
  cbn [pat_re pat_ci fold_right].
  change (Lit (js "{{")) with (Seq (Chr (ch "{")) (Seq (Chr (ch "{")) Eps)).
  cbn [rmatch after advance char_eq].
  destruct aft as [| c1 [| c2 r]]; cbn [after]; try reflexivity.
  - destruct (N.eqb (ch "{") c1); reflexivity.
  - destruct (N.eqb_spec (ch "{") c1) as [<- |]; [| reflexivity].
    destruct (N.eqb_spec (ch "{") c2) as [<- |]; [| reflexivity].
    exfalso. exact (Hne r eq_refl).
Qed.

Lemma strip_loop_id (f : minfo -> unit -> jsstring * unit) s :
  forall p bef,
    brace_free p s = true ->
    replace_loop re_braces f 0 bef s tt = (s, tt).
Proof.
  induction s as [| c s IH]; intros p bef Hs.
  - cbn [replace_loop]. rewrite exec_braces_none by (intros r; discriminate).
    reflexivity.
  - cbn [replace_loop]. rewrite exec_braces_none.
    + cbn [brace_free] in Hs. destruct (N.eqb c (ch "{")).
      * apply andb_prop in Hs as [_ Hs]. rewrite (IH true _ Hs). reflexivity.
      * rewrite (IH false _ Hs). reflexivity.
    + intros r [= -> ->]. cbn in Hs. destruct p; discriminate.
Qed.

Lemma strip_id s :
  brace_free false s = true -> replace_regex re_braces [] s = s.
Proof.
  intros Hs. unfold replace_regex, replace_fn.
  rewrite (strip_loop_id _ s false [] Hs). reflexivity.
Qed.

(** ** Lemmas on the escapes *)

Lemma forallb_replace_unit (q : char -> bool) c r s :
  forallb q r = true ->
  forallb (fun x => N.eqb x c || q x) s = true ->
  forallb q (replace_unit c r s) = true.
Proof.
  intros Hr. induction s as [| x s IH]; [reflexivity |].
  cbn [forallb]. intros H. apply andb_prop in H as [Hx Hs].
  unfold replace_unit in *. cbn [flat_map]. rewrite forallb_app, IH by exact Hs.
  destruct (N.eqb x c); [rewrite Hr; reflexivity |].
  cbn in *. rewrite Hx. reflexivity.
Qed.

Lemma forallb_replace_unit_keep (q : char -> bool) c r s :
  forallb q r = true -> forallb q s = true ->
  forallb q (replace_unit c r s) = true.
Proof.
  intros Hr Hs. apply forallb_replace_unit; [exact Hr |].
  rewrite forallb_forall in *. intros x Hx. rewrite (Hs x Hx). apply orb_true_r.
Qed.

Lemma forallb_replace_unit_gone c r s :
  forallb (is_not c) r = true ->
  forallb (is_not c) (replace_unit c r s) = true.
Proof.
  intros Hr. apply forallb_replace_unit; [exact Hr |].
  rewrite forallb_forall. intros x _. unfold is_not. destruct (N.eqb x c); reflexivity.
Qed.

Lemma brace_free_replace_unit c r s :
  is_not (ch "{") c = true -> ends_plain r = true ->
  forallb (is_not (ch "{")) r = true ->
  forall p, brace_free p (replace_unit c r s) = brace_free p s.
Proof.
  intros Hc Hend Hr. induction s as [| x s IH]; intros p; [reflexivity |].
  unfold replace_unit in *. cbn [flat_map brace_free].
  destruct (N.eqb_spec x c) as [-> | Hxc].
  - unfold is_not in Hc. destruct (N.eqb c (ch "{")); [discriminate |].
    rewrite brace_free_fixed by exact Hend. rewrite IH.
    replace (brace_free p r) with true; [reflexivity |].
    symmetry. clear -Hr Hend. destruct r as [| y r]; [discriminate |].
    cbn [forallb] in Hr. apply andb_prop in Hr as [Hy Hr]. cbn [brace_free].
    unfold is_not in Hy. destruct (N.eqb y (ch "{")); [discriminate |].
    rewrite <- (app_nil_r r), brace_free_skip by exact Hr. reflexivity.
  - cbn [app brace_free]. destruct (N.eqb x (ch "{")); rewrite IH; reflexivity.
Qed.

Lemma plain_no_dollar s : forallb plain s = true -> forallb (is_not (ch "$")) s = true.
Proof.
  rewrite !forallb_forall. intros H x Hx. specialize (H x Hx).
  unfold plain, is_not in *. destruct (N.eqb x (ch "$")); [discriminate | reflexivity].
Qed.

Lemma plain_no_lt s : forallb plain s = true -> forallb (is_not (ch "<")) s = true.
Proof.
  rewrite !forallb_forall. intros H x Hx. specialize (H x Hx).
  unfold plain, is_not in *.
  destruct (N.eqb x (ch "<")); [rewrite andb_false_r in H; discriminate | reflexivity].
Qed.

Lemma plain_no_brace s : forallb plain s = true -> forallb (is_not (ch "{")) s = true.
Proof.
  rewrite !forallb_forall. intros H x Hx. specialize (H x Hx).
  unfold plain, is_not in *.
  destruct (N.eqb x (ch "{")); [rewrite andb_false_r in H; discriminate | reflexivity].
Qed.

Lemma plain_of_cases (q : char -> bool) :
  q (ch "$") = false -> q (ch "<") = false -> q (ch "{") = false ->
  forall c, q c = true -> plain c = true.
Proof.
  intros H1 H2 H3 c Hq. unfold plain.
  destruct (N.eqb_spec c (ch "$")) as [-> |]; [congruence |].
  destruct (N.eqb_spec c (ch "<")) as [-> |]; [congruence |].
  destruct (N.eqb_spec c (ch "{")) as [-> |]; [congruence |].
  reflexivity.
Qed.

Lemma word_plain s : forallb is_word s = true -> forallb plain s = true.
Proof.
  rewrite !forallb_forall. intros H x Hx.
  apply (plain_of_cases is_word); auto.
Qed.

Lemma escape_quotes_plain s :
  forallb plain s = true -> forallb plain (escape_quotes s) = true.
Proof.
  intros H. unfold escape_quotes. apply forallb_replace_unit_keep; auto.
Qed.

Lemma escape_html_no_lt code : forallb (is_not (ch "<")) (escape_html code) = true.
Proof.
  unfold escape_html.
  do 3 (apply forallb_replace_unit_keep; [reflexivity |]).
  apply forallb_replace_unit_gone. reflexivity.
Qed.

Lemma escape_html_no_dollar code :
  forallb (is_not (ch "$")) code = true ->
  forallb (is_not (ch "$")) (escape_html code) = true.
Proof.
  intros H. unfold escape_html.
  repeat (apply forallb_replace_unit_keep; [reflexivity |]). exact H.
Qed.

Lemma escape_html_brace_free code p :
  brace_free p (escape_html code) = brace_free p code.
Proof.
  unfold escape_html. rewrite !brace_free_replace_unit by reflexivity.
  reflexivity.
Qed.

Lemma upper_hex_plain x : plain (upper_hex (N.modulo x 16)) = true.
Proof.
  pose proof (N.mod_upper_bound x 16 ltac:(discriminate)) as Hlt.
  unfold upper_hex, plain.
  change (ch "$") with 36%N. change (ch "<") with 60%N. change (ch "{") with 123%N.
  set (y := N.modulo x 16) in *.
  destruct (N.ltb_spec y 10);
    repeat match goal with
      | |- context [N.eqb ?a ?b] => rewrite (proj2 (N.eqb_neq a b)) by lia
      end;
    reflexivity.
Qed.

Lemma percent_plain bytes : forallb plain (flat_map percent bytes) = true.
Proof.
  induction bytes as [| b bytes IH]; [reflexivity |].
  cbn [flat_map]. rewrite forallb_app, IH. unfold percent. cbn [forallb].
  rewrite !upper_hex_plain. reflexivity.
Qed.

Lemma unreserved_plain c : uri_unreserved c = true -> plain c = true.
Proof. apply (plain_of_cases uri_unreserved); reflexivity. Qed.

Lemma encodeURIComponent_plain n :
  forall s e,
    length s <= n ->
    encodeURIComponent s = Some e -> forallb plain e = true.
Proof.
  induction n as [| n IH]; intros s e Hlen Henc.
  - destruct s; [| simpl in Hlen; lia]. injection Henc as <-. reflexivity.
  - destruct s as [| c rest]; [injection Henc as <-; reflexivity |].
    simpl in Hlen. cbn [encodeURIComponent] in Henc.
    destruct (uri_unreserved c) eqn:Hu.
    + destruct (encodeURIComponent rest) as [e' |] eqn:Hr; [| discriminate].
      injection Henc as <-. cbn [forallb].
      rewrite (unreserved_plain _ Hu), (IH rest e'); auto. lia.
    + destruct (in_range 56320 57343 c); [discriminate |].
      destruct (in_range 55296 56319 c).
      * destruct rest as [| d rest']; [discriminate |].
        destruct (in_range 56320 57343 d); [| discriminate].
        destruct (encodeURIComponent rest') as [e' |] eqn:Hr; [| discriminate].
        injection Henc as <-. rewrite forallb_app, percent_plain.
        apply (IH rest' e'); auto. simpl in Hlen. lia.
      * destruct (encodeURIComponent rest) as [e' |] eqn:Hr; [| discriminate].
        injection Henc as <-. rewrite forallb_app, percent_plain.
        apply (IH rest e'); auto. lia.
Qed.

(** ** Lemmas on the mount point *)

Lemma mount_point_cons id :
  mount_point id = ch "<" :: (tpl "div id=~vis-container-" ++ id ++ dq).
Proof. reflexivity. Qed.

Lemma mp_clean id f r :
  clean mount_prefix f = true ->
  occurrences (mount_point id) (f ++ r) = occurrences (mount_point id) r.
Proof. apply occurrences_clean. Qed.

Lemma mp_skip id s r :
  forallb (is_not (ch "<")) s = true ->
  occurrences (mount_point id) (s ++ r) = occurrences (mount_point id) r.
Proof. rewrite mount_point_cons. apply occurrences_without_first. Qed.

Lemma mp_here id r :
  forallb (is_not (ch "<")) id = true ->
  occurrences (mount_point id) (mount_prefix ++ id ++ dq ++ r)
  = 1 + occurrences (mount_point id) r.
Proof.
  intros Hid.
  transitivity (occurrences (mount_point id) (mount_point id ++ r)).
  { f_equal. unfold mount_point. rewrite <- !app_assoc. reflexivity. }
  rewrite mount_point_cons, occurrences_here, <- mount_point_cons.
  rewrite <- !app_assoc.
  rewrite (mp_clean id (tpl "div id=~vis-container-")) by reflexivity.
  rewrite mp_skip by exact Hid.
  rewrite (mp_clean id dq) by reflexivity. reflexivity.
Qed.

Lemma mp_at id f h r :
  opens_mount f = true -> head_is (N.eqb 34) h = true ->
  forallb (is_not (ch "<")) id = true ->
  occurrences (mount_point id) (f ++ (js "vis-container-" ++ id) ++ h ++ r)
  = 1 + occurrences (mount_point id) (skipn 1 h ++ r).
Proof.
  intros Hf Hh Hid. unfold opens_mount in Hf.
  apply andb_prop in Hf as [Hf Hg]. apply jseq_eq in Hf.
  destruct h as [| q h]; [discriminate |]. unfold head_is in Hh.
  apply N.eqb_eq in Hh. subst q.
  remember (firstn (length f - 9) f) as g eqn:Eg. clear Eg. subst f.
  rewrite <- !app_assoc. rewrite mp_clean by exact Hg.
  change (tpl "<div id=~" ++ js "vis-container-" ++ id ++ (34%N :: h) ++ r)
    with (mount_prefix ++ id ++ dq ++ skipn 1 (34%N :: h) ++ r).
  apply mp_here, Hid.
Qed.

Lemma mp_split id a f r :
  head_is (N.eqb (ch "<")) f = true ->
  forallb (is_not (ch "<")) id = true ->
  occurrences (mount_point id) (a ++ f ++ r)
  = occurrences (mount_point id) a + occurrences (mount_point id) (f ++ r).
Proof.
  intros Hf Hid. destruct f as [| c f]; [discriminate |].
  unfold head_is in Hf. apply N.eqb_eq in Hf. subst c. rewrite mount_point_cons.
  apply occurrences_split. rewrite forallb_app, forallb_app, Hid. reflexivity.
Qed.

Lemma bf_fixed f r p :
  ends_plain f = true -> brace_free p f = true ->
  brace_free p (f ++ r) = brace_free false r.
Proof.
  intros He Hf. rewrite brace_free_fixed by exact He. rewrite Hf. reflexivity.
Qed.

Lemma bf_then_fixed a f r p :
  head_is (is_not (ch "{")) f = true ->
  brace_free p (a ++ f ++ r) = brace_free p a && brace_free false (skipn 1 f ++ r).
Proof.
  intros Hf. destruct f as [| c f]; [discriminate |]. unfold head_is in Hf.
  cbn [skipn]. apply brace_free_before_plain. exact Hf.
Qed.

(** ** The fragment of a ready artifact *)

Section ReadyFragment.

Variable visualization : Visualization.
Variables id description encoded escapedCode : jsstring.
Variables regenerating available : bool.
Hypothesis title_plain : forallb plain (vis_description visualization) = true.
Hypothesis id_plain : forallb plain id = true.
Hypothesis description_plain : forallb plain description = true.
Hypothesis encoded_plain : forallb plain encoded = true.
Hypothesis code_no_lt : forallb (is_not (ch "<")) escapedCode = true.
Hypothesis code_no_dollar : forallb (is_not (ch "$")) escapedCode = true.
Hypothesis code_brace_free : brace_free false escapedCode = true.

Let fragment : jsstring :=
  fragment_ready visualization id description regenerating available
    (js "vis-container-" ++ id) encoded escapedCode.

Lemma fragment_ready_verbatim m i : expand m i fragment = fragment.
Proof.
  apply expand_verbatim. unfold fragment, fragment_ready.
  pose proof (escape_quotes_plain _ description_plain) as Hq.
  destruct regenerating, available; cbn [negb];
    rewrite !forallb_app;
    rewrite ?(plain_no_dollar _ title_plain), ?(plain_no_dollar _ id_plain),
      ?(plain_no_dollar _ Hq), ?(plain_no_dollar _ encoded_plain),
      ?code_no_dollar;
    reflexivity.
Qed.

Lemma fragment_ready_brace_free r :
  brace_free false (fragment ++ r) = brace_free false r.
Proof.
  unfold fragment, fragment_ready.
  pose proof (escape_quotes_plain _ description_plain) as Hq.
  destruct regenerating, available; cbn [negb];
    rewrite <- !app_assoc; cbn [app];
    repeat first
      [ rewrite bf_fixed by reflexivity
      | rewrite (brace_free_skip _ _ (plain_no_brace _ title_plain))
      | rewrite (brace_free_skip _ _ (plain_no_brace _ id_plain))
      | rewrite (brace_free_skip _ _ (plain_no_brace _ Hq))
      | rewrite (brace_free_skip _ _ (plain_no_brace _ encoded_plain))
      | rewrite (bf_then_fixed escapedCode) by reflexivity;
        rewrite code_brace_free; cbn [andb] ];
    reflexivity.
Qed.

Lemma fragment_ready_mount r :
  occurrences (mount_point id) (fragment ++ r)
  = 1 + occurrences (mount_point id) r.
Proof.
  unfold fragment, fragment_ready.
  pose proof (escape_quotes_plain _ description_plain) as Hq.
  pose proof (plain_no_lt _ id_plain) as Hid.
  destruct regenerating, available; cbn [negb];
    rewrite <- !app_assoc; cbn [app];
    repeat first
      [ rewrite mp_clean by reflexivity
      | rewrite (mp_skip _ _ _ (plain_no_lt _ title_plain))
      | rewrite (mp_skip _ _ _ Hid)
      | rewrite (mp_skip _ _ _ (plain_no_lt _ Hq)) ];
    rewrite (app_assoc (js "vis-container-") id);
    rewrite mp_at by (reflexivity || exact Hid);
    repeat first
      [ rewrite mp_clean by reflexivity
      | rewrite (mp_skip _ _ _ (plain_no_lt _ encoded_plain))
      | rewrite (mp_skip _ _ _ code_no_lt) ];
    reflexivity.
Qed.

End ReadyFragment.

(** ** The fragment of a marker without artifact *)

Section MissingFragment.

Variables id description : jsstring.
Variables regenerating available : bool.
Hypothesis id_plain : forallb plain id = true.
Hypothesis description_plain : forallb plain description = true.

Let fragment : jsstring :=
  fragment_missing id description regenerating available.

Lemma fragment_missing_verbatim m i : expand m i fragment = fragment.
Proof.
  apply expand_verbatim. unfold fragment, fragment_missing.
  pose proof (escape_quotes_plain _ description_plain) as Hq.
  destruct regenerating, available; cbn [negb];
    rewrite !forallb_app;
    rewrite ?(plain_no_dollar _ description_plain),
      ?(plain_no_dollar _ id_plain), ?(plain_no_dollar _ Hq);
    reflexivity.
Qed.

Lemma fragment_missing_brace_free r :
  brace_free false (fragment ++ r) = brace_free false r.
Proof.
  unfold fragment, fragment_missing.
  pose proof (escape_quotes_plain _ description_plain) as Hq.
  destruct regenerating, available; cbn [negb];
    rewrite <- !app_assoc; cbn [app];
    repeat first
      [ rewrite bf_fixed by reflexivity
      | rewrite (brace_free_skip _ _ (plain_no_brace _ description_plain))
      | rewrite (brace_free_skip _ _ (plain_no_brace _ id_plain))
      | rewrite (brace_free_skip _ _ (plain_no_brace _ Hq)) ];
    reflexivity.
Qed.

End MissingFragment.

(** ** The markers found in the text *)

Lemma exec_loop_sound p aft :
  forall skip bef m,
    In m (exec_loop p skip bef aft) ->
    exists b a e, exec_at p b a = Some e /\ m = info_of b a e.
Proof.
  induction aft as [| c aft IH]; intros skip bef m Hin.
  - destruct skip; cbn [exec_loop] in Hin; [| contradiction].
    destruct (exec_at p bef []) as [e |] eqn:He; [| contradiction].
    destruct Hin as [<- | []]. eauto.
  - destruct skip as [| skip]; cbn [exec_loop] in Hin; [| eauto].
    destruct (exec_at p bef (c :: aft)) as [e |] eqn:He; [| eauto].
    destruct Hin as [<- | Hin]; eauto.
Qed.

Lemma Forall_forallb {A : Type} (q : A -> bool) l :
  Forall (fun x => q x = true) l -> forallb q l = true.
Proof. induction 1; simpl; [reflexivity |]. rewrite H, IHForall. reflexivity. Qed.

Lemma placeholder_id_word b a e :
  exec_at placeholderRegex b a = Some e ->
  exists id,
    cap (info_of b a e) 1 = Some id /\ forallb is_word id = true.
Proof.
  unfold exec_at. intros Hex.
  apply rmatch_sound in Hex as (st' & Hm & [= <-]).
  unfold placeholderRegex, Seqs in Hm. cbn [pat_re pat_ci fold_right] in Hm.
  inv_seq.
  repeat match goal with
    | H : Matches _ (Grp _ _) _ _ |- _ => inversion H; subst; clear H
    end.
  repeat match goal with
    | H : Matches _ (Chr _) _ _ |- _ =>
        apply Matches_groupless in H; [| reflexivity]
    | H : Matches _ (Plus true (Cls (is_not _))) _ _ |- _ =>
        apply Matches_groupless in H; [| reflexivity]
    end.
  match goal with
  | H : Matches _ (Plus true (Cls is_word)) _ _ |- _ =>
      pose proof (Matches_groupless H eq_refl) as Hcaps;
      inversion H; subst; clear H
  end.
  unfold cap, info_of. cbn [m_caps].
  repeat (progress (repeat match goal with
                            | H : caps _ = _ |- _ => rewrite H; clear H
                            end);
          cbn [set_cap caps List.find fst snd Nat.eqb]).
  cbn [fmap option_fmap option_map].
  eexists. split; [reflexivity |].
  match goal with
  | H : Matches _ (Cls is_word) _ _ |- _ => inversion H; subst; clear H
  end.
  match goal with
  | H : Matches _ (Star true (Cls is_word)) _ _ |- _ =>
      apply Matches_star_cls_inv in H as (w & Hw & Haft)
  end.
  unfold consumed, advance in *. cbn [after] in *.
  match goal with
  | H : after ?s = _ :: _ |- context [after ?s] => rewrite H
  end.
  rewrite Haft. rewrite app_comm_cons, firstn_prefix.
  apply Forall_forallb. constructor; assumption.
Qed.

Lemma single_marker_id_word text id description :
  placeholdersInText text = [Placeholder id description] ->
  forallb is_word id = true.
Proof.
  unfold placeholdersInText, exec_all. intros H.
  destruct (exec_loop placeholderRegex 0 [] text) as [| m l] eqn:Hl;
    [discriminate |].
  cbn [List.map] in H. injection H as Hid _ _.
  destruct (@exec_loop_sound placeholderRegex text 0 [] m) as (b & a & e & He & ->).
  { rewrite Hl. left. reflexivity. }
  destruct (placeholder_id_word _ _ He) as (id' & Hcap & Hw).
  unfold capture_text in Hid. rewrite Hcap in Hid. cbn in Hid. subst id'.
  exact Hw.
Qed.

Lemma no_brace_brace_free s :
  forallb (is_not (ch "{")) s = true -> brace_free false s = true.
Proof.
  intros H. rewrite <- (app_nil_r s), brace_free_skip by exact H. reflexivity.
Qed.

(** * Lemmas on the rest of the service and of the component *)

(** ** Lemmas on the string operations *)

Lemma split_at_first_occurs pat a b :
  forall bef, is_Some (split_at_first pat bef (a ++ pat ++ b)).
Proof.
  induction a as [| c a IH]; intros bef.
  - cbn [app]. destruct (pat ++ b) eqn:Hs;
      cbn [split_at_first]; rewrite <- ?Hs, startsWith_prefix; eauto.
  - cbn [app split_at_first].
    destruct (startsWith (c :: a ++ pat ++ b) pat); [eauto | apply IH].
Qed.

Lemma includes_occurs s pat a b : s = a ++ pat ++ b -> includes s pat = true.
Proof.
  intros ->. unfold includes.
  destruct (split_at_first_occurs pat a b []) as [x ->]. reflexivity.
Qed.

Lemma split_unit_plain c s :
  forallb (is_not c) s = true ->
  forall cur, split_unit c cur s = [rev cur ++ s].
Proof.
  induction s as [| x s IH]; intros Hs cur; cbn [split_unit].
  - rewrite app_nil_r. reflexivity.
  - cbn [forallb] in Hs. apply andb_prop in Hs as [Hx Hs].
    unfold is_not in Hx. destruct (N.eqb x c); [discriminate |].
    rewrite IH by exact Hs. cbn [rev]. rewrite <- app_assoc. reflexivity.
Qed.

Lemma split_unit_at c pre post :
  forallb (is_not c) pre = true ->
  forall cur,
    split_unit c cur (pre ++ c :: post)
    = (rev cur ++ pre) :: split_unit c [] post.
Proof.
  induction pre as [| x pre IH]; intros Hpre cur; cbn [app split_unit].
  - rewrite N.eqb_refl, app_nil_r. reflexivity.
  - cbn [forallb] in Hpre. apply andb_prop in Hpre as [Hx Hpre].
    unfold is_not in Hx. destruct (N.eqb x c); [discriminate |].
    rewrite IH by exact Hpre. cbn [rev]. rewrite <- app_assoc. reflexivity.
Qed.

(** ** Lemmas on the load effect *)

Lemma restore_vis_restorable vis :
  is_Some (restore_vis vis) <-> restorable_vis vis = true.
Proof.
  destruct vis; cbn; split; intros H; try reflexivity; try discriminate;
    try (eexists; reflexivity); try (destruct H; discriminate).
Qed.

Lemma mapM_is_Some_forallb {A B : Type} (f : A -> option B) (q : A -> bool) :
  (forall x, is_Some (f x) <-> q x = true) ->
  forall l, is_Some (mapM f l) <-> forallb q l = true.
Proof.
  intros Hf. induction l as [| x l IH].
  - split; [reflexivity | intros _; exists []; reflexivity].
  - rewrite mapM_cons_opt. cbn [forallb]. rewrite andb_true_iff, <- Hf, <- IH.
    destruct (f x) as [y |]; [destruct (mapM f l) |].
    + split; [intros _; split; eauto | eauto].
    + split; [intros [? [=]] | intros [_ [? [=]]]].
    + split; [intros [? [=]] | intros [[? [=]] _]].
Qed.

Lemma mapM_length_opt {A B : Type} (f : A -> option B) l :
  forall k, mapM f l = Some k -> length k = length l.
Proof.
  induction l as [| x l IH]; intros k.
  - intros [= <-]. reflexivity.
  - rewrite mapM_cons_opt. destruct (f x); [| discriminate].
    destruct (mapM f l) as [k' |]; [| discriminate].
    intros [= <-]. cbn. rewrite (IH k' eq_refl). reflexivity.
Qed.

Lemma restore_tab_restorable tab :
  is_Some (restore_tab tab) <-> restorable_tab tab = true.
Proof.
  unfold restore_tab, restorable_tab.
  destruct (property tab (js "visualizations")) as [[[] |] |];
    try (split; [intros [? [=]] | discriminate]).
  rewrite <- (mapM_is_Some_forallb restore_vis restorable_vis restore_vis_restorable).
  destruct (mapM restore_vis items); cbn [mbind option_bind].
  - split; eauto.
  - split; intros [? [=]].
Qed.

Lemma restore_tabs_restorable parsed :
  is_Some (parsed ≫= restore_tabs) <-> restorable parsed = true.
Proof.
  destruct parsed as [[] |]; cbn [mbind option_bind restore_tabs restorable];
    try (split; [intros [? [=]] | discriminate]).
  apply mapM_is_Some_forallb, restore_tab_restorable.
Qed.

(** ** Lemmas on the handlers *)

Lemma rename_idem code :
  renameComponentToApp (renameComponentToApp code) = renameComponentToApp code.
Proof.
  destruct (rename_result code) as [H | H].
  - rewrite H. exact H.
  - apply rename_guarded, H.
Qed.

Lemma find_tab_listed tabs a :
  is_Some (find_tab tabs (Some a)) <-> In a (List.map tab_id tabs).
Proof.
  unfold find_tab. induction tabs as [| t tabs IH]; cbn [List.find List.map In].
  - split; [intros [? [=]] | contradiction].
  - destruct (jseq (tab_id t) a) eqn:Hid.
    + apply jseq_eq in Hid. split; eauto.
    + rewrite IH. split; [auto | intros [Heq | H]; [| exact H]].
      apply jseq_eq in Heq. congruence.
Qed.

Lemma update_tabs_ids activeTab visId updated prevTabs :
  List.map tab_id (update_tabs activeTab visId updated prevTabs)
  = List.map tab_id prevTabs.
Proof.
  unfold update_tabs. rewrite List.map_map. apply List.map_ext.
  intros tab. destruct (jseq (tab_id tab) activeTab); reflexivity.
Qed.

Lemma last_tab_id_listed tabs :
  tabs <> [] ->
  exists a, last_tab_id_of tabs = Some a /\ In a (List.map tab_id tabs).
Proof.
  intros Hne. destruct (exists_last Hne) as (front & t & ->).
  exists (tab_id t). unfold last_tab_id_of.
  rewrite !List.map_app. cbn [List.map]. rewrite last_last.
  split; [reflexivity |]. apply in_or_app. right. left. reflexivity.
Qed.

Lemma filter_ids_other (tabs : list LearningTab) tabId a :
  a <> tabId ->
  In a (List.map tab_id tabs) ->
  In a (List.map tab_id
          (List.filter (fun tab => negb (jseq (tab_id tab) tabId)) tabs)).
Proof.
  intros Hne Hin. apply in_map_iff in Hin as (t & <- & Ht).
  apply in_map_iff. exists t. split; [reflexivity |].
  apply filter_In. split; [exact Ht |].
  destruct (jseq (tab_id t) tabId) eqn:Hid; [| reflexivity].
  apply jseq_eq in Hid. congruence.
Qed.

Lemma str_is_eq o s : str_is o s = true <-> o = Some s.
Proof.
  destruct o as [x |]; cbn; [| split; discriminate].
  rewrite jseq_eq. split; congruence.
Qed.

(** ** What a match has read *)

Lemma same_text_exact lit w : same_text false lit w -> w = lit.
Proof.
  induction 1 as [| c x lit w Hc _ IH]; [reflexivity |].
  unfold char_eq in Hc. apply N.eqb_eq in Hc. congruence.
Qed.

Lemma Matches_Seq_inv ci r1 r2 st st2 :
  Matches ci (Seq r1 r2) st st2 ->
  exists st1, Matches ci r1 st st1 /\ Matches ci r2 st1 st2.
Proof. inversion 1; subst; eauto. Qed.

Lemma Matches_Chr_inv ci c st st' :
  Matches ci (Chr c) st st' ->
  exists x, char_eq ci c x = true /\ after st = x :: after st'
            /\ caps st' = caps st.
Proof. inversion 1; subst. exists x. auto. Qed.

Lemma Matches_Lit_inv ci lit :
  forall st st',
    Matches ci (Lit lit) st st' ->
    exists w, same_text ci lit w /\ after st = w ++ after st'
              /\ caps st' = caps st.
Proof.
  induction lit as [| c lit IH]; intros st st' Hm; cbn [Lit] in Hm.
  - inversion Hm; subst. exists []. repeat split. constructor.
  - apply Matches_Seq_inv in Hm as (st1 & H1 & H2).
    apply Matches_Chr_inv in H1 as (x & Hx & Ha & Hc).
    apply IH in H2 as (w & Hw & Ha' & Hc').
    exists (x :: w). split; [constructor; assumption |].
    split; [rewrite Ha, Ha'; reflexivity | congruence].
Qed.

Lemma Matches_star_cls_read ci g p st st' :
  Matches ci (Star g (Cls p)) st st' ->
  exists w, Forall (fun c => p c = true) w /\ after st = w ++ after st'
            /\ caps st' = caps st.
Proof.
  intros Hm. pose proof (Matches_groupless Hm eq_refl) as Hc.
  apply Matches_star_cls_inv in Hm as (w & Hw & Ha). eauto.
Qed.

Lemma Matches_plus_cls_read ci g p st st' :
  Matches ci (Plus g (Cls p)) st st' ->
  exists w, w <> [] /\ Forall (fun c => p c = true) w
            /\ after st = w ++ after st' /\ caps st' = caps st.
Proof.
  unfold Plus. intros Hm. apply Matches_Seq_inv in Hm as (st1 & H1 & H2).
  inversion H1; subst. apply Matches_star_cls_read in H2 as (w & Hw & Ha & Hc).
  exists (x :: w). split; [discriminate |]. split; [constructor; assumption |].
  split; [| exact Hc].
  match goal with H : after st = _ |- _ => rewrite H end.
  cbn [advance after] in Ha. rewrite Ha. reflexivity.
Qed.

(** A group around a pattern that reads [w] binds [w]. *)
Lemma Matches_Grp_read ci n r st st'' :
  Matches ci (Grp n r) st st'' ->
  exists st', Matches ci r st st' /\ after st'' = after st'
              /\ forall w, after st = w ++ after st' ->
                           caps st'' = (n, w) :: caps st'.
Proof.
  inversion 1; subst. eexists. split; [eassumption |]. split; [reflexivity |].
  intros w Hw. unfold set_cap, consumed. cbn [caps]. rewrite Hw.
  rewrite firstn_prefix. reflexivity.
Qed.

Lemma exec_loop_sound_at p aft :
  forall skip bef m,
    In m (exec_loop p skip bef aft) ->
    exists b a e, exec_at p b a = Some e /\ m = info_of b a e
                  /\ rev b ++ a = rev bef ++ aft.
Proof.
  induction aft as [| c aft IH]; intros skip bef m Hin.
  - destruct skip; cbn [exec_loop] in Hin; [| contradiction].
    destruct (exec_at p bef []) as [e |] eqn:He; [| contradiction].
    destruct Hin as [<- | []]. eauto 6.
  - assert (Hnext : forall n,
               In m (exec_loop p n (c :: bef) aft) ->
               exists b a e, exec_at p b a = Some e /\ m = info_of b a e
                             /\ rev b ++ a = rev bef ++ c :: aft).
    { intros n Hn. apply IH in Hn as (b & a & e & He & Hm & Ht).
      exists b, a, e. split; [exact He |]. split; [exact Hm |].
      rewrite Ht. cbn [rev]. rewrite <- app_assoc. reflexivity. }
    destruct skip as [| skip]; cbn [exec_loop] in Hin; [| eauto].
    destruct (exec_at p bef (c :: aft)) as [e |] eqn:He; [| eauto].
    destruct Hin as [<- | Hin]; eauto 6.
Qed.

(** ** The blocks and the markers, as the patterns read them *)

Lemma visualization_match bef aft e :
  exec_at visualizationRegex bef aft = Some e ->
  exists id description sp code,
    aft = js "<<VISUALIZATION:" ++ id ++ ch ":" :: description ++ js ">>"
          ++ sp ++ code ++ js "<<END_VISUALIZATION>>" ++ after e
    /\ caps e = [(3, code); (2, description); (1, id)]
    /\ id <> [] /\ Forall (fun c => is_word c = true) id
    /\ description <> []
    /\ Forall (fun c => is_not (ch ">") c = true) description
    /\ Forall (fun c => is_space c = true) sp.
Proof.
  unfold exec_at. intros Hex.
  apply rmatch_sound in Hex as (st' & Hm & [= <-]).
  unfold visualizationRegex, Seqs in Hm. cbn [pat_re pat_ci fold_right] in Hm.
  apply Matches_Seq_inv in Hm as (s1 & H1 & Hm).
  apply Matches_Seq_inv in Hm as (s2 & H2 & Hm).
  apply Matches_Seq_inv in Hm as (s3 & H3 & Hm).
  apply Matches_Seq_inv in Hm as (s4 & H4 & Hm).
  apply Matches_Seq_inv in Hm as (s5 & H5 & Hm).
  apply Matches_Seq_inv in Hm as (s6 & H6 & Hm).
  apply Matches_Seq_inv in Hm as (s7 & H7 & Hm).
  apply Matches_Seq_inv in Hm as (s8 & H8 & Hm).
  inversion Hm; subst; clear Hm.
  apply Matches_Lit_inv in H1 as (w1 & Hw1 & Ha1 & Hc1).
  apply same_text_exact in Hw1. subst w1.
  apply Matches_Grp_read in H2 as (s2' & H2 & Ha2 & Hc2).
  apply Matches_plus_cls_read in H2 as (id & Hid0 & Hid & Hai & Hci).
  specialize (Hc2 id Hai).
  apply Matches_Chr_inv in H3 as (x & Hx & Ha3 & Hc3).
  unfold char_eq in Hx. apply N.eqb_eq in Hx. subst x.
  apply Matches_Grp_read in H4 as (s4' & H4 & Ha4 & Hc4).
  apply Matches_plus_cls_read in H4 as (d & Hd0 & Hd & Had & Hcd).
  specialize (Hc4 d Had).
  apply Matches_Lit_inv in H5 as (w5 & Hw5 & Ha5 & Hc5).
  apply same_text_exact in Hw5. subst w5.
  apply Matches_star_cls_read in H6 as (sp & Hsp & Ha6 & Hc6).
  apply Matches_Grp_read in H7 as (s7' & H7 & Ha7 & Hc7).
  apply Matches_star_cls_read in H7 as (code & _ & Hacode & Hccode).
  specialize (Hc7 code Hacode).
  apply Matches_Lit_inv in H8 as (w8 & Hw8 & Ha8 & Hc8).
  apply same_text_exact in Hw8. subst w8.
  exists id, d, sp, code. cbn [after caps] in *.
  split.
  - rewrite Ha1, Hai, <- Ha2, Ha3, Had, <- Ha4, Ha5, Ha6, Hacode, <- Ha7, Ha8.
    reflexivity.
  - split; [| auto].
    rewrite Hc8, Hc7, Hccode, Hc6, Hc5, Hc4, Hcd, Hc3, Hc2, Hci, Hc1.
    reflexivity.
Qed.

Lemma placeholder_match bef aft e :
  exec_at placeholderRegex bef aft = Some e ->
  exists id description,
    aft = placeholderTag id description ++ after e
    /\ caps e = [(2, description); (1, id)]
    /\ id <> [] /\ Forall (fun c => is_word c = true) id
    /\ description <> []
    /\ Forall (fun c => is_not (ch "}") c = true) description.
Proof.
  unfold exec_at. intros Hex.
  apply rmatch_sound in Hex as (st' & Hm & [= <-]).
  unfold placeholderRegex, Seqs in Hm. cbn [pat_re pat_ci fold_right] in Hm.
  apply Matches_Seq_inv in Hm as (s1 & H1 & Hm).
  apply Matches_Seq_inv in Hm as (s2 & H2 & Hm).
  apply Matches_Seq_inv in Hm as (s3 & H3 & Hm).
  apply Matches_Seq_inv in Hm as (s4 & H4 & Hm).
  apply Matches_Seq_inv in Hm as (s5 & H5 & Hm).
  inversion Hm; subst; clear Hm.
  apply Matches_Lit_inv in H1 as (w1 & Hw1 & Ha1 & Hc1).
  apply same_text_exact in Hw1. subst w1.
  apply Matches_Grp_read in H2 as (s2' & H2 & Ha2 & Hc2).
  apply Matches_plus_cls_read in H2 as (id & Hid0 & Hid & Hai & Hci).
  specialize (Hc2 id Hai).
  apply Matches_Chr_inv in H3 as (x & Hx & Ha3 & Hc3).
  unfold char_eq in Hx. apply N.eqb_eq in Hx. subst x.
  apply Matches_Grp_read in H4 as (s4' & H4 & Ha4 & Hc4).
  apply Matches_plus_cls_read in H4 as (d & Hd0 & Hd & Had & Hcd).
  specialize (Hc4 d Had).
  apply Matches_Lit_inv in H5 as (w5 & Hw5 & Ha5 & Hc5).
  apply same_text_exact in Hw5. subst w5.
  exists id, d. cbn [after caps] in *.
  split.
  - rewrite Ha1, Hai, <- Ha2, Ha3, Had, <- Ha4, Ha5. unfold placeholderTag.
    rewrite <- !app_assoc. reflexivity.
  - split; [| auto].
    rewrite Hc5, Hc4, Hcd, Hc3, Hc2, Hci, Hc1. reflexivity.
Qed.

(** ** Line feeds at the end of a text *)

Lemma forallb_Forall {A : Type} (q : A -> bool) l :
  forallb q l = true -> Forall (fun x => q x = true) l.
Proof.
  induction l as [| x l IH]; [constructor |].
  cbn [forallb]. intros H. apply andb_prop in H as [Hx Hl].
  constructor; auto.
Qed.

Lemma Matches_star_chr ci g c w :
  Forall (fun x => char_eq ci c x = true) w ->
  forall bef rest cs,
    Matches ci (Star g (Chr c)) (MState bef (w ++ rest) cs)
               (MState (rev w ++ bef) rest cs).
Proof.
  induction 1 as [| x w Hx _ IH]; intros bef rest cs; simpl.
  - constructor.
  - eapply M_StarS.
    + eapply M_Chr; [reflexivity | exact Hx].
    + unfold progress, advance; simpl. apply Nat.ltb_lt. lia.
    + unfold advance; simpl. rewrite <- app_assoc. apply IH.
Qed.

Lemma Matches_star_chr_read ci g c st st' :
  Matches ci (Star g (Chr c)) st st' ->
  exists w, Forall (fun x => char_eq ci c x = true) w
            /\ after st = w ++ after st'.
Proof.
  remember (Star g (Chr c)) as r eqn:Hr. induction 1; try discriminate.
  - exists []. split; [constructor | reflexivity].
  - injection Hr as -> ->.
    destruct (IHMatches2 eq_refl) as (w & Hw & Haft).
    inversion H; subst. exists (x :: w). split.
    + constructor; assumption.
    + simpl in Haft.
      match goal with Ha : after st = _ :: _ |- _ => rewrite Ha end.
      rewrite Haft. reflexivity.
Qed.

Lemma trailing_newlines_match (bef aft : jsstring) e :
  exec_at re_trailing_newlines bef aft = Some e ->
  aft <> [] /\ forallb (N.eqb 10) aft = true /\ after e = [].
Proof.
  unfold exec_at. intros Hex.
  apply rmatch_sound in Hex as (st' & Hm & [= <-]).
  unfold re_trailing_newlines, Seqs, Plus in Hm.
  cbn [pat_re pat_ci fold_right] in Hm.
  apply Matches_Seq_inv in Hm as (s1 & H1 & Hm).
  apply Matches_Seq_inv in Hm as (s2 & H2 & Hm).
  inversion Hm; subst; clear Hm. inversion H2; subst; clear H2.
  apply Matches_Seq_inv in H1 as (s0 & H0 & H1).
  apply Matches_Chr_inv in H0 as (x & Hx & Ha0 & _).
  apply Matches_star_chr_read in H1 as (w & Hw & Ha1).
  cbn [after] in *.
  match goal with H : after st' = [] |- _ => rewrite H in * end.
  rewrite Ha0, Ha1, app_nil_r. split; [discriminate |]. split; [| reflexivity].
  cbn [forallb]. unfold char_eq in Hx. rewrite Hx. cbn [andb].
  apply Forall_forallb. exact Hw.
Qed.

Lemma trailing_newlines_found (bef : jsstring) (c : char) (aft : jsstring) :
  forallb (N.eqb 10) (c :: aft) = true ->
  exists e, exec_at re_trailing_newlines bef (c :: aft) = Some e
            /\ after e = [].
Proof.
  intros Hall. cbn [forallb] in Hall. apply andb_prop in Hall as [Hc Haft].
  assert (Hsome : is_Some (exec_at re_trailing_newlines bef (c :: aft))).
  { unfold exec_at.
    refine (proj1 (@rmatch_complete false _ _
                     (MState (rev aft ++ c :: bef) [] []) _ mstate
                     (fun st' => Some st') _)); [| eauto].
    unfold re_trailing_newlines, Seqs, Plus. cbn [pat_re pat_ci fold_right].
    eapply M_Seq.
    - eapply M_Seq.
      + apply (@M_Chr false 10%N c aft (MState bef (c :: aft) []) eq_refl Hc).
      + unfold advance. cbn [before caps].
        rewrite <- (app_nil_r aft) at 1. apply Matches_star_chr.
        apply forallb_Forall, Haft.
    - eapply M_Seq; [apply M_Eoi; reflexivity | apply M_Eps]. }
  destruct Hsome as [e He]. exists e. split; [exact He |].
  apply trailing_newlines_match in He. tauto.
Qed.

Lemma search_trailing_newlines (s : jsstring) :
  forall bef,
    match search re_trailing_newlines bef s with
    | Some i => m_pre i ++ m_post i
    | None => rev bef ++ s
    end = rev bef ++ strip_newlines s.
Proof.
  induction s as [| c s IH]; intros bef.
  - cbn [search]. destruct (exec_at re_trailing_newlines bef []) eqn:He.
    + apply trailing_newlines_match in He as [Hne _]. congruence.
    + reflexivity.
  - cbn [search strip_newlines].
    destruct (forallb (N.eqb 10) (c :: s)) eqn:Hall.
    + destruct (trailing_newlines_found bef c s Hall) as (e & -> & Hend).
      unfold info_of, match_len. cbn [m_pre m_post]. rewrite Hend.
      change (length (@nil char)) with 0.
      rewrite Nat.sub_0_r, skipn_all. reflexivity.
    + destruct (exec_at re_trailing_newlines bef (c :: s)) eqn:He.
      * apply trailing_newlines_match in He as (_ & Habs & _). congruence.
      * specialize (IH (c :: bef)). cbn [rev] in IH.
        rewrite <- !app_assoc in IH. cbn [app] in IH.
        destruct (search re_trailing_newlines (c :: bef) s); exact IH.
Qed.

Lemma replace_trailing_newlines (s : jsstring) :
  replace_first re_trailing_newlines [] s = strip_newlines s.
Proof.
  unfold replace_first. pose proof (search_trailing_newlines s []) as H.
  destruct (search re_trailing_newlines [] s) as [i |]; exact H.
Qed.

Lemma strip_newlines_rest (s : jsstring) :
  exists n, s = strip_newlines s ++ repeat 10%N n.
Proof.
  induction s as [| c s (n & IH)]; [exists 0; reflexivity |].
  cbn [strip_newlines]. destruct (forallb (N.eqb 10) (c :: s)) eqn:Hall.
  - exists (length (c :: s)). cbn [app].
    clear IH. induction (c :: s) as [| x l IHl]; [reflexivity |].
    cbn [forallb] in Hall. apply andb_prop in Hall as [Hx Hl].
    apply N.eqb_eq in Hx. subst x. cbn [length repeat]. f_equal. auto.
  - exists n. cbn [app]. f_equal. exact IH.
Qed.

Lemma strip_newlines_end (s front : jsstring) (c : char) :
  strip_newlines s = front ++ [c] -> c <> 10%N.
Proof.
  revert front. induction s as [| x s IH]; intros front.
  - destruct front; discriminate.
  - cbn [strip_newlines]. destruct (forallb (N.eqb 10) (x :: s)) eqn:Hall.
    + destruct front; discriminate.
    + destruct front as [| y front]; cbn [app].
      * intros [= -> Hs] ->.
        destruct s as [| z s]; [cbn in Hall; discriminate |].
        cbn [strip_newlines] in Hs.
        destruct (forallb (N.eqb 10) (z :: s)) eqn:Hz; [| discriminate].
        cbn [forallb] in Hall. rewrite N.eqb_refl in Hall.
        cbn [forallb] in Hz. cbn [andb] in Hall. congruence.
      * intros [= _ Hs]. exact (IH _ Hs).
Qed.

Lemma strip_newlines_fixed (s : jsstring) :
  (forall front, s <> front ++ [10%N]) -> strip_newlines s = s.
Proof.
  induction s as [| c s IH]; intros Hend; [reflexivity |].
  cbn [strip_newlines]. destruct (forallb (N.eqb 10) (c :: s)) eqn:Hall.
  - exfalso. destruct (@exists_last _ (c :: s) ltac:(discriminate))
      as (front & x & Heq).
    apply (Hend front). rewrite Heq. f_equal. f_equal.
    rewrite Heq, forallb_app in Hall. apply andb_prop in Hall as [_ Hx].
    cbn [forallb] in Hx. rewrite andb_true_r in Hx. apply N.eqb_eq in Hx.
    congruence.
  - f_equal. apply IH. intros front ->. apply (Hend (c :: front)). reflexivity.
Qed.

(** ** Lemmas on trim *)

Lemma trimStart_split (s : jsstring) :
  exists w, s = w ++ trimStart s /\ forallb is_space w = true.
Proof.
  induction s as [| c s (w & Hs & Hw)]; [exists []; auto |].
  cbn [trimStart]. destruct (is_space c) eqn:Hc.
  - exists (c :: w). cbn [app forallb]. rewrite Hc, Hw.
    split; [f_equal; exact Hs | reflexivity].
  - exists []. auto.
Qed.

Lemma trimStart_head (s : jsstring) (c : char) (r : jsstring) :
  trimStart s = c :: r -> is_space c = false.
Proof.
  induction s as [| x s IH]; [discriminate |].
  cbn [trimStart]. destruct (is_space x) eqn:Hx; [exact IH |].
  intros [= <- _]. exact Hx.
Qed.

Lemma trimStart_skip (w x : jsstring) :
  forallb is_space w = true -> trimStart (w ++ x) = trimStart x.
Proof.
  induction w as [| c w IH]; [reflexivity |].
  cbn [forallb app trimStart]. intros H. apply andb_prop in H as [-> Hw].
  apply IH, Hw.
Qed.

Lemma trim_skip (w x : jsstring) :
  forallb is_space w = true -> trim (w ++ x) = trim x.
Proof. intros Hw. unfold trim. rewrite trimStart_skip by exact Hw. reflexivity. Qed.

Lemma trim_infix (s : jsstring) : exists l r, s = l ++ trim s ++ r.
Proof.
  unfold trim. destruct (trimStart_split s) as (w1 & Hs & _).
  destruct (trimStart_split (rev (trimStart s))) as (w2 & Hr & _).
  exists w1, (rev w2). rewrite <- rev_app_distr, <- Hr, rev_involutive.
  exact Hs.
Qed.

Lemma trim_end (s front : jsstring) (c : char) :
  trim s = front ++ [c] -> is_space c = false.
Proof.
  unfold trim. intros H. apply (f_equal (@rev char)) in H.
  rewrite rev_involutive, rev_app_distr in H. cbn [rev app] in H.
  exact (trimStart_head _ H).
Qed.

Lemma strip_newlines_trim (s : jsstring) : strip_newlines (trim s) = trim s.
Proof.
  apply strip_newlines_fixed. intros front H.
  apply trim_end in H. discriminate.
Qed.

(** ** The first occurrence of a text *)

Lemma startsWith_split (pat s : jsstring) :
  startsWith s pat = true -> s = pat ++ skipn (length pat) s.
Proof.
  revert s. induction pat as [| x pat IH]; intros s; [reflexivity |].
  destruct s as [| y s]; [discriminate |]. cbn [startsWith].
  intros H. apply andb_prop in H as [Hx Hs]. apply N.eqb_eq in Hx. subst.
  cbn [length skipn app]. f_equal. apply IH, Hs.
Qed.

Lemma split_at_first_spec (pat s : jsstring) :
  forall bef pre post,
    split_at_first pat bef s = Some (pre, post) ->
    exists a, pre = rev bef ++ a /\ s = a ++ pat ++ post
              /\ forall a1 a2, a = a1 ++ a2 -> a2 <> [] ->
                               startsWith (a2 ++ pat ++ post) pat = false.
Proof.
  induction s as [| c s IH]; intros bef pre post.
  - cbn [split_at_first]. destruct (startsWith [] pat) eqn:Hp; [| discriminate].
    intros [= <- <-]. exists []. rewrite app_nil_r. split; [reflexivity |].
    split; [apply (startsWith_split _ _ Hp) |].
    intros a1 a2 Ha Hne. destruct a1, a2; try discriminate. congruence.
  - cbn [split_at_first]. destruct (startsWith (c :: s) pat) eqn:Hp.
    + intros [= <- <-]. exists []. rewrite app_nil_r. split; [reflexivity |].
      split; [apply (startsWith_split _ _ Hp) |].
      intros a1 a2 Ha Hne. destruct a1, a2; try discriminate. congruence.
    + intros Hs. apply IH in Hs as (a & -> & -> & Hfirst).
      exists (c :: a). cbn [rev]. rewrite <- app_assoc. split; [reflexivity |].
      split; [reflexivity |].
      intros [| x a1] a2 Ha Hne; cbn [app] in Ha.
      * subst a2. exact Hp.
      * injection Ha as -> ->. apply (Hfirst a1 a2 eq_refl Hne).
Qed.

Lemma split_at_first_absent (pat s : jsstring) bef :
  split_at_first pat bef s = None -> forall a b, s <> a ++ pat ++ b.
Proof.
  intros Hnone a b ->.
  destruct (split_at_first_occurs pat a b bef) as [x Hx]. congruence.
Qed.

Lemma includes_false (s pat : jsstring) :
  (forall a b, s <> a ++ pat ++ b) -> includes s pat = false.
Proof.
  intros Hno. unfold includes.
  destruct (split_at_first pat [] s) as [[pre post] |] eqn:Hs; [| reflexivity].
  apply split_at_first_spec in Hs as (a & _ & -> & _).
  exfalso. exact (Hno a post eq_refl).
Qed.

Lemma includes_true (s pat : jsstring) :
  includes s pat = true -> exists a b, s = a ++ pat ++ b.
Proof.
  unfold includes.
  destruct (split_at_first pat [] s) as [[pre post] |] eqn:Hs; [| discriminate].
  apply split_at_first_spec in Hs as (a & _ & -> & _). eauto.
Qed.

Lemma before_first_clear (pat s pre post : jsstring) :
  pat <> [] ->
  split_at_first pat [] s = Some (pre, post) ->
  forall l a b r, pre <> l ++ (a ++ pat ++ b) ++ r.
Proof.
  intros Hpat Hs l a b r Hpre.
  apply split_at_first_spec in Hs as (p & Hp & -> & Hfirst).
  cbn [rev app] in Hp. subst p.
  assert (Hne : pat ++ b ++ r <> []) by (destruct pat; [congruence | discriminate]).
  pose proof (Hfirst (l ++ a) (pat ++ b ++ r)
                ltac:(rewrite Hpre, <- !app_assoc; reflexivity) Hne) as Hf.
  rewrite <- app_assoc, startsWith_prefix in Hf. discriminate.
Qed.

(** ** Lemmas on the extraction *)

Lemma capture_text_of (n : nat) (cs : list (nat * jsstring))
    (bef aft : jsstring) (e : mstate) :
  caps e = cs ->
  capture_text (info_of bef aft e) n
  = default [] (snd <$> List.find (fun p => Nat.eqb (fst p) n) cs).
Proof. intros <-. reflexivity. Qed.

Lemma extracted_from_block rawText v :
  In v (visualizations (extractPaperAndVisualizations rawText)) ->
  exists before sp code rest,
    rawText = before ++ js "<<VISUALIZATION:" ++ ev_id v ++ ch ":"
              :: ev_description v ++ js ">>" ++ sp ++ code
              ++ js "<<END_VISUALIZATION>>" ++ rest
    /\ ev_code v = renameComponentToApp (trim code)
    /\ ev_id v <> [] /\ forallb is_word (ev_id v) = true
    /\ ev_description v <> []
    /\ forallb (is_not (ch ">")) (ev_description v) = true
    /\ forallb is_space sp = true.
Proof.
  unfold extractPaperAndVisualizations, exec_all. cbn [visualizations].
  intros Hin. apply in_map_iff in Hin as (m & <- & Hm).
  apply exec_loop_sound_at in Hm as (b & a & e & He & -> & Htext).
  apply visualization_match in He
    as (id & d & sp & code & Ha & Hcaps & Hid0 & Hid & Hd0 & Hd & Hsp).
  cbn [ev_id ev_description ev_code].
  rewrite !(@capture_text_of _ _ b a _ Hcaps).
  cbn [List.find fst snd Nat.eqb fmap option_fmap option_map default].
  exists (rev b), sp, code, (after e). cbn [rev app] in Htext.
  split; [rewrite <- Htext, Ha; reflexivity |].
  split; [reflexivity |].
  repeat split; auto using Forall_forallb.
Qed.

(** ** The loop over the matches of a pattern *)

Section ExecLoop.

Variable p : pattern.
Variable x : char.

(** Every match of [p] begins with [x]. *)
Hypothesis match_head :
  forall (b a : jsstring) e, exec_at p b a = Some e -> exists r, a = x :: r.

Lemma exec_loop_dead (pre : jsstring) :
  forallb (is_not x) pre = true ->
  forall bef rest,
    exec_loop p 0 bef (pre ++ rest) = exec_loop p 0 (rev pre ++ bef) rest.
Proof.
  induction pre as [| c pre IH]; intros Hpre bef rest; [reflexivity |].
  cbn [forallb] in Hpre. apply andb_prop in Hpre as [Hc Hpre].
  cbn [app exec_loop].
  destruct (exec_at p bef (c :: pre ++ rest)) eqn:He.
  - apply match_head in He as (r & [= -> _]).
    unfold is_not in Hc. rewrite N.eqb_refl in Hc. discriminate.
  - rewrite IH by exact Hpre. cbn [rev]. rewrite <- app_assoc. reflexivity.
Qed.

Lemma exec_loop_nothing (s : jsstring) :
  forallb (is_not x) s = true -> forall bef, exec_loop p 0 bef s = [].
Proof.
  intros Hs bef. rewrite <- (app_nil_r s), exec_loop_dead by exact Hs.
  cbn [exec_loop]. destruct (exec_at p (rev s ++ bef) []) eqn:He;
    [| reflexivity].
  apply match_head in He as (r & [=]).
Qed.

End ExecLoop.

Lemma exec_loop_skip p (w : jsstring) :
  forall bef rest,
    exec_loop p (length w) bef (w ++ rest) = exec_loop p 0 (rev w ++ bef) rest.
Proof.
  induction w as [| c w IH]; intros bef rest; [reflexivity |].
  cbn [length app exec_loop]. rewrite IH. cbn [rev].
  rewrite <- app_assoc. reflexivity.
Qed.

Lemma exec_loop_match p (bef m : jsstring) e :
  m <> [] ->
  exec_at p bef (m ++ after e) = Some e ->
  exec_loop p 0 bef (m ++ after e)
  = info_of bef (m ++ after e) e :: exec_loop p 0 (rev m ++ bef) (after e).
Proof.
  intros Hm He. destruct m as [| c m]; [congruence |].
  cbn [app exec_loop]. cbn [app] in He. rewrite He. f_equal.
  unfold match_len. cbn [length]. rewrite length_app.
  replace (S (length m + length (after e)) - length (after e))
    with (S (length m)) by lia.
  cbn [Nat.pred]. rewrite exec_loop_skip. cbn [rev].
  rewrite <- app_assoc. reflexivity.
Qed.

(** ** Reading a text in one way only *)

Lemma run_unique (q : char -> bool) (c : char) :
  q c = false ->
  forall (w1 w2 r1 r2 : jsstring),
    forallb q w1 = true -> forallb q w2 = true ->
    w1 ++ c :: r1 = w2 ++ c :: r2 -> w1 = w2 /\ r1 = r2.
Proof.
  intros Hc. induction w1 as [| a w1 IH]; intros [| b w2] r1 r2 H1 H2 Heq;
    cbn [app forallb] in *.
  - injection Heq as ->. auto.
  - injection Heq as <- _. apply andb_prop in H2 as [Hb _]. congruence.
  - injection Heq as -> _. apply andb_prop in H1 as [Ha _]. congruence.
  - injection Heq as -> Heq. apply andb_prop in H1 as [_ H1].
    apply andb_prop in H2 as [_ H2].
    destruct (IH w2 r1 r2 H1 H2 Heq) as [-> ->]. auto.
Qed.

Lemma occurrences_found (pat a b : jsstring) :
  1 <= occurrences pat (a ++ pat ++ b).
Proof.
  induction a as [| c a IH].
  - cbn [app]. destruct (pat ++ b) as [| y l] eqn:Hs.
    + cbn [occurrences]. rewrite <- Hs, startsWith_prefix. lia.
    + cbn [occurrences]. rewrite <- Hs, startsWith_prefix. lia.
  - cbn [app occurrences]. lia.
Qed.

Lemma occurrence_unique (pat : jsstring) :
  forall (s a b a' b' : jsstring),
    occurrences pat s = 1 ->
    s = a ++ pat ++ b -> s = a' ++ pat ++ b' -> a = a'.
Proof.
  intros s a. revert s. induction a as [| c a IH]; intros s b [| c' a'] b' Hone H1 H2.
  - reflexivity.
  - exfalso. subst s. cbn [app] in H2, Hone.
    pose proof (occurrences_found pat a' b') as Hge.
    destruct (pat ++ b) as [| y l] eqn:Hs; [discriminate |].
    injection H2 as -> ->. cbn [occurrences] in Hone.
    rewrite <- Hs, startsWith_prefix in Hone. lia.
  - exfalso. subst s. cbn [app] in H2, Hone.
    pose proof (occurrences_found pat a b) as Hge.
    destruct (pat ++ b') as [| y l] eqn:Hs; [discriminate |].
    injection H2 as <- <-. cbn [occurrences] in Hone.
    rewrite <- Hs, startsWith_prefix in Hone. lia.
  - subst s. cbn [app] in H2. injection H2 as -> H2. f_equal.
    pose proof (occurrences_found pat a b) as Hge.
    cbn [app occurrences] in Hone.
    apply (IH (a ++ pat ++ b) b a' b'); [| reflexivity | exact H2].
    destruct (startsWith (c' :: a ++ pat ++ b) pat); lia.
Qed.

Lemma cons_same_head (x : char) (a b : jsstring) : x :: a = x :: b -> a = b.
Proof. intros [= H]. exact H. Qed.

(** ** A well-formed block and a well-formed marker are matched *)

Lemma visualization_block_matches (bef id d sp code tail : jsstring) :
  id <> [] -> forallb is_word id = true ->
  d <> [] -> forallb (is_not (ch ">")) d = true ->
  forallb is_space sp = true ->
  is_Some (exec_at visualizationRegex bef
             (js "<<VISUALIZATION:" ++ id ++ ch ":" :: d ++ js ">>" ++ sp
              ++ code ++ js "<<END_VISUALIZATION>>" ++ tail)).
Proof.
  intros Hid0 Hid Hd0 Hd Hsp. unfold exec_at.
  eapply rmatch_complete; [| eauto].
  change (pat_ci visualizationRegex) with false.
  unfold visualizationRegex, Seqs; cbn [pat_re fold_right].
  step_seq; [apply (Matches_Lit (same_text_refl false (js "<<VISUALIZATION:"))) |].
  step_seq; [apply M_Grp, Matches_plus_cls; [apply forallb_Forall, Hid | exact Hid0] |].
  step_seq; [apply Matches_Chr_here; reflexivity |].
  step_seq; [apply M_Grp, Matches_plus_cls; [apply forallb_Forall, Hd | exact Hd0] |].
  step_seq; [apply (Matches_Lit (same_text_refl false (js ">>"))) |].
  step_seq; [apply Matches_star_cls, forallb_Forall, Hsp |].
  step_seq; [apply M_Grp, Matches_star_cls, forallb_Forall;
             apply forallb_forall; reflexivity |].
  step_seq; [apply (Matches_Lit (same_text_refl false (js "<<END_VISUALIZATION>>")))
            | apply M_Eps].
Qed.

Lemma placeholder_tag_matches (bef id d post : jsstring) :
  id <> [] -> forallb is_word id = true ->
  d <> [] -> forallb (is_not (ch "}")) d = true ->
  is_Some (exec_at placeholderRegex bef (placeholderTag id d ++ post)).
Proof.
  intros Hid0 Hid Hd0 Hd. unfold exec_at, placeholderTag.
  eapply rmatch_complete; [| eauto].
  change (pat_ci placeholderRegex) with false.
  unfold placeholderRegex, Seqs; cbn [pat_re fold_right].
  repeat rewrite <- app_assoc.
  change (js ":" ++ d ++ js "}}" ++ post) with (ch ":" :: d ++ js "}}" ++ post).
  step_seq; [apply (Matches_Lit (same_text_refl false (js "{{VISUALIZATION:"))) |].
  step_seq; [apply M_Grp, Matches_plus_cls; [apply forallb_Forall, Hid | exact Hid0] |].
  step_seq; [apply Matches_Chr_here; reflexivity |].
  step_seq; [apply M_Grp, Matches_plus_cls; [apply forallb_Forall, Hd | exact Hd0] |].
  step_seq; [apply (Matches_Lit (same_text_refl false (js "}}"))) | apply M_Eps].
Qed.

Lemma visualization_match_head (b a : jsstring) e :
  exec_at visualizationRegex b a = Some e -> exists r, a = ch "<" :: r.
Proof.
  intros He. apply visualization_match in He as (id & d & sp & code & -> & _).
  eexists. reflexivity.
Qed.

Lemma placeholder_match_head (b a : jsstring) e :
  exec_at placeholderRegex b a = Some e -> exists r, a = ch "{" :: r.
Proof.
  intros He. apply placeholder_match in He as (id & d & -> & _).
  eexists. reflexivity.
Qed.

(** ** Lemmas on the errors of the Placeholder Protocol *)

Lemma unreserved_below_128 (c : char) :
  uri_unreserved c = true -> (c < 128)%N.
Proof.
  intros Hu. destruct (N.lt_ge_cases c 128) as [Hlt | Hge]; [exact Hlt |].
  exfalso. unfold uri_unreserved, is_alnum, is_lower, is_upper, is_digit,
    in_range in Hu.
  set (l := js "-_.!~*'()") in Hu. vm_compute in l. subst l.
  cbn [existsb] in Hu.
  repeat match type of Hu with
    | context [N.leb c ?k] =>
        rewrite (proj2 (N.leb_gt c k)) in Hu by lia
    | context [N.eqb c ?k] =>
        rewrite (proj2 (N.eqb_neq c k)) in Hu by lia
    end.
  rewrite ?andb_false_r in Hu. cbn [orb] in Hu. discriminate.
Qed.

Lemma unreserved_not_surrogate (c : char) :
  uri_unreserved c = true ->
  in_range 56320 57343 c = false /\ in_range 55296 56319 c = false.
Proof.
  intros Hu. apply unreserved_below_128 in Hu. unfold in_range.
  rewrite (proj2 (N.leb_gt 56320 c)), (proj2 (N.leb_gt 55296 c)) by lia.
  auto.
Qed.

Lemma encodeURIComponent_well_formed (n : nat) :
  forall s : jsstring,
    length s <= n ->
    (is_Some (encodeURIComponent s) <-> well_formed_utf16 s = true).
Proof.
  induction n as [| n IH]; intros s Hlen.
  - destruct s; [| simpl in Hlen; lia]. cbn. split; eauto.
  - destruct s as [| c rest]; [cbn; split; eauto |].
    cbn [length] in Hlen. cbn [encodeURIComponent well_formed_utf16].
    destruct (uri_unreserved c) eqn:Hu.
    + destruct (unreserved_not_surrogate _ Hu) as [-> ->].
      rewrite <- (IH rest) by lia.
      destruct (encodeURIComponent rest); cbn; split; intros [? H];
        try discriminate; eauto.
    + destruct (in_range 56320 57343 c); [split; [intros [? [=]] | discriminate] |].
      destruct (in_range 55296 56319 c).
      * destruct rest as [| d rest'];
          [split; [intros [? [=]] | discriminate] |].
        cbn [length] in Hlen.
        destruct (in_range 56320 57343 d); cbn [andb];
          [| split; [intros [? [=]] | discriminate]].
        rewrite <- (IH rest') by lia.
        destruct (encodeURIComponent rest'); cbn; split; intros [? H];
          try discriminate; eauto.
      * rewrite <- (IH rest) by lia.
        destruct (encodeURIComponent rest); cbn; split; intros [? H];
          try discriminate; eauto.
Qed.

Lemma replacementHtml_None c visualizations p :
  replacementHtml c visualizations p = None <->
  exists v,
    List.find (fun x => jseq (vis_id x) (ph_id p)) visualizations = Some v
    /\ vis_status_of v = Ready
    /\ well_formed_utf16 (vis_code v) = false.
Proof.
  unfold replacementHtml.
  destruct (List.find _ visualizations) as [v |].
  - pose proof (@encodeURIComponent_well_formed _ (vis_code v) (le_n _)) as Hiff.
    destruct (vis_status_of v) eqn:Hst.
    + split; [discriminate | intros (v' & [= <-] & Hr & _); congruence].
    + destruct (encodeURIComponent (vis_code v)) as [e |];
        cbn [mbind option_bind].
      * split; [discriminate |]. intros (v' & [= <-] & _ & Hw).
        rewrite (proj1 Hiff) in Hw by eauto. discriminate.
      * split; [| reflexivity]. intros _. exists v.
        split; [reflexivity |]. split; [exact Hst |].
        destruct (well_formed_utf16 (vis_code v)); [| reflexivity].
        destruct (proj2 Hiff eq_refl) as [? [=]].
    + split; [discriminate | intros (v' & [= <-] & Hr & _); congruence].
  - split; [discriminate | intros (v' & [=] & _)].
Qed.

Lemma substitute_None c visualizations placeholders :
  forall formattedText,
    substitute c visualizations placeholders formattedText = None <->
    exists p, In p placeholders /\ replacementHtml c visualizations p = None.
Proof.
  induction placeholders as [| p rest IH]; intros formattedText.
  - cbn. split; [discriminate | intros (p & [] & _)].
  - cbn [substitute].
    destruct (replacementHtml c visualizations p) as [html |] eqn:Hp;
      cbn [mbind option_bind].
    + rewrite IH. split.
      * intros (q & Hq & Hnone). exists q. split; [right; exact Hq | exact Hnone].
      * intros (q & [<- | Hq] & Hnone); [congruence | eauto].
    + split; [| reflexivity]. intros _. exists p. split; [left; reflexivity | exact Hp].
Qed.

Lemma escape_html_no_markup code :
  forallb (fun c => negb (is_markup c)) (escape_html code) = true.
Proof.
  assert (Hsplit : forall s : jsstring,
             forallb (is_not (ch "<")) s = true ->
             forallb (is_not (ch ">")) s = true ->
             forallb (is_not 34%N) s = true ->
             forallb (is_not (ch "'")) s = true ->
             forallb (fun c => negb (is_markup c)) s = true).
  { intros s. rewrite !forallb_forall. intros H1 H2 H3 H4 x Hx.
    specialize (H1 x Hx). specialize (H2 x Hx). specialize (H3 x Hx).
    specialize (H4 x Hx). unfold is_markup, is_not in *.
    destruct (N.eqb x (ch "<")), (N.eqb x (ch ">")), (N.eqb x 34),
      (N.eqb x (ch "'")); try discriminate; reflexivity. }
  apply Hsplit; unfold escape_html.
  - do 3 (apply forallb_replace_unit_keep; [reflexivity |]).
    apply forallb_replace_unit_gone. reflexivity.
  - do 2 (apply forallb_replace_unit_keep; [reflexivity |]).
    apply forallb_replace_unit_gone. reflexivity.
  - apply forallb_replace_unit_keep; [reflexivity |].
    apply forallb_replace_unit_gone. reflexivity.
  - apply forallb_replace_unit_gone. reflexivity.
Qed.

(** ** The code units of a replacement come from the input and from the
    template *)

Lemma forallb_firstn {A : Type} (q : A -> bool) n l :
  forallb q l = true -> forallb q (firstn n l) = true.
Proof.
  revert n. induction l as [| x l IH]; intros [| n] H; try reflexivity.
  cbn [forallb firstn] in *. apply andb_prop in H as [-> Hl].
  rewrite IH by exact Hl. reflexivity.
Qed.

Lemma forallb_skipn {A : Type} (q : A -> bool) n l :
  forallb q l = true -> forallb q (skipn n l) = true.
Proof.
  revert n. induction l as [| x l IH]; intros [| n] H; try reflexivity;
    [exact H |].
  cbn [forallb skipn] in *. apply andb_prop in H as [_ Hl]. apply IH, Hl.
Qed.

Lemma forallb_rev {A : Type} (q : A -> bool) l :
  forallb q (rev l) = forallb q l.
Proof.
  induction l as [| x l IH]; [reflexivity |].
  cbn [rev forallb]. rewrite forallb_app, IH. cbn [forallb].
  rewrite andb_true_r. apply andb_comm.
Qed.

Section Within.

Variable q : char -> bool.

Lemma advance_within x rest st :
  after st = x :: rest -> state_within q st ->
  state_within q (advance x rest st).
Proof.
  intros Ha (Hb & Hf & Hc). rewrite Ha in Hf. cbn [forallb] in Hf.
  apply andb_prop in Hf as [Hx Hr]. unfold advance, state_within.
  cbn [before after caps forallb]. rewrite Hx, Hb, Hr. auto.
Qed.

Lemma set_cap_within n st st' :
  state_within q st -> state_within q st' ->
  state_within q (set_cap n st st').
Proof.
  intros (_ & Hf & _) (Hb' & Hf' & Hc'). unfold set_cap, state_within, consumed.
  cbn [before after caps]. repeat split; auto.
  constructor; [| exact Hc']. cbn [snd]. apply forallb_firstn, Hf.
Qed.

Lemma star_loop_within (A : Type) ci g r
    (IH : forall (k : mstate -> option A) st a,
        rmatch ci r k st = Some a -> state_within q st ->
        exists st', state_within q st' /\ k st' = Some a)
    (k : mstate -> option A) n :
  forall st a,
    star_loop g (rmatch ci r) k n st = Some a -> state_within q st ->
    exists st', state_within q st' /\ k st' = Some a.
Proof.
  induction n as [| n IHn]; intros st a Hrun Hst; [discriminate |].
  simpl in Hrun.
  assert (Hiter : forall a',
             rmatch ci r (fun st' => if progress st st'
                                     then star_loop g (rmatch ci r) k n st'
                                     else None) st = Some a' ->
             exists st', state_within q st' /\ k st' = Some a').
  { intros a' Hb. apply IH in Hb as (st1 & Hw1 & Hk1); [| exact Hst].
    destruct (progress st st1); [| discriminate].
    exact (IHn _ _ Hk1 Hw1). }
  destruct g.
  - destruct (rmatch ci r _ st) eqn:Hb.
    + injection Hrun as <-. apply Hiter. reflexivity.
    + eauto.
  - destruct (k st) eqn:Hk.
    + injection Hrun as <-. eauto.
    + apply Hiter. exact Hrun.
Qed.

Lemma rmatch_within ci r :
  forall (A : Type) (k : mstate -> option A) st a,
    rmatch ci r k st = Some a -> state_within q st ->
    exists st', state_within q st' /\ k st' = Some a.
Proof.
  induction r; intros A k st a Hrun Hst; cbn [rmatch] in Hrun.
  - eauto.
  - destruct (after st) as [| x rest] eqn:Ha; [discriminate |].
    destruct (char_eq ci c x); [| discriminate].
    exists (advance x rest st). split; [apply advance_within; assumption | exact Hrun].
  - destruct (after st) as [| x rest] eqn:Ha; [discriminate |].
    destruct (p x); [| discriminate].
    exists (advance x rest st). split; [apply advance_within; assumption | exact Hrun].
  - apply IHr1 in Hrun as (st1 & Hw1 & Hrun); [| exact Hst].
    apply IHr2 in Hrun as (st2 & Hw2 & Hrun); [| exact Hw1]. eauto.
  - destruct (rmatch ci r1 k st) eqn:H1.
    + injection Hrun as <-. exact (IHr1 _ _ _ _ H1 Hst).
    + exact (IHr2 _ _ _ _ Hrun Hst).
  - eapply star_loop_within; [| exact Hrun | exact Hst].
    intros. eapply IHr; eassumption.
  - apply IHr in Hrun as (st1 & Hw1 & Hk); [| exact Hst].
    exists (set_cap n st st1). split; [apply set_cap_within; assumption | exact Hk].
  - destruct (at_bol st); [eauto | discriminate].
  - destruct (at_eol st); [eauto | discriminate].
  - destruct (after st); [eauto | discriminate].
  - destruct (rmatch ci r (fun st' => Some st') st) as [st1 |] eqn:Hl.
    + destruct negated; [discriminate |].
      apply IHr in Hl as (st2 & Hw2 & [= ->]); [| exact Hst].
      eexists. split; [| exact Hrun].
      destruct Hst as (Hb & Hf & _). destruct Hw2 as (_ & _ & Hc).
      repeat split; assumption.
    + destruct negated; [eauto | discriminate].
Qed.

Lemma exec_at_within p (bef aft : jsstring) e :
  exec_at p bef aft = Some e ->
  forallb q bef = true -> forallb q aft = true ->
  match_within q (info_of bef aft e).
Proof.
  unfold exec_at. intros He Hb Ha.
  apply rmatch_within in He as (st' & (_ & _ & Hc) & [= ->]).
  - unfold match_within, info_of. cbn [m_text m_pre m_post m_caps].
    rewrite forallb_rev, Hb, forallb_firstn, forallb_skipn by exact Ha.
    auto.
  - repeat split; auto.
Qed.

Lemma capture_within i n :
  match_within q i -> forallb q (capture_text i n) = true.
Proof.
  intros (_ & _ & _ & Hc). unfold capture_text, cap.
  induction Hc as [| [k w] l Hw _ IH]; [reflexivity |].
  cbn [List.find fst]. destruct (Nat.eqb k n); [exact Hw | exact IH].
Qed.

Lemma expand_within m i :
  match_within q i ->
  forall n (template : jsstring),
    length template <= n ->
    forallb q (expand m no_match template) = true ->
    forallb q (expand m i template) = true.
Proof.
  intros Hi. pose proof Hi as (Ht & Hpre & Hpost & _).
  induction n as [| n IH]; intros template Hlen Hq.
  - destruct template; [reflexivity | cbn in Hlen; lia].
  - destruct template as [| c rest]; [reflexivity |].
    cbn [length] in Hlen. cbn [expand] in *.
    assert (Hkeep : forallb q (c :: expand m no_match rest) = true ->
                    forallb q (c :: expand m i rest) = true).
    { cbn [forallb]. intros [-> Hr]%andb_prop. apply IH; [lia | exact Hr]. }
    destruct (negb (N.eqb c (ch "$"))); [exact (Hkeep Hq) |].
    destruct rest as [| d rest1]; [exact Hq |].
    cbn [length] in Hlen.
    assert (Hnext : forallb q (expand m no_match rest1) = true ->
                    forallb q (expand m i rest1) = true)
      by (apply IH; lia).
    destruct (N.eqb d (ch "$")).
    { cbn [forallb] in *. apply andb_prop in Hq as [-> Hr]. exact (Hnext Hr). }
    destruct (N.eqb d (ch "&")); [rewrite forallb_app, Ht; exact (Hnext Hq) |].
    destruct (N.eqb d (ch "`")); [rewrite forallb_app, Hpre; exact (Hnext Hq) |].
    destruct (N.eqb d (ch "'")); [rewrite forallb_app, Hpost; exact (Hnext Hq) |].
    destruct (is_digit d); [| exact (Hkeep Hq)].
    destruct rest1 as [| e rest2].
    + destruct (valid_index m (digit_value d)); [| exact (Hkeep Hq)].
      apply capture_within, Hi.
    + cbn [length] in Hlen.
      destruct (is_digit e && valid_index m (digit_value d * 10 + digit_value e)).
      * rewrite forallb_app, capture_within by exact Hi.
        apply IH; [lia | exact Hq].
      * destruct (valid_index m (digit_value d)); [| exact (Hkeep Hq)].
        rewrite forallb_app, capture_within by exact Hi. exact (Hnext Hq).
Qed.

Lemma replace_loop_within p template :
  forallb q (expand (ngroups (pat_re p)) no_match template) = true ->
  forall (aft bef : jsstring) skip,
    forallb q bef = true -> forallb q aft = true ->
    forallb q
      (fst (replace_loop p
              (fun i (u : unit) => (expand (ngroups (pat_re p)) i template, u))
              skip bef aft tt)) = true.
Proof.
  intros Ht. induction aft as [| c aft IH]; intros bef skip Hb Ha.
  - destruct skip; cbn [replace_loop]; [| reflexivity].
    destruct (exec_at p bef []) eqn:He; [| reflexivity].
    cbn [fst]. eapply expand_within; [| reflexivity | exact Ht].
    eapply exec_at_within; eauto.
  - assert (Hcb : forallb q (c :: bef) = true).
    { cbn [forallb] in *. apply andb_prop in Ha as [-> _]. exact Hb. }
    assert (Ha' : forallb q aft = true).
    { cbn [forallb] in Ha. apply andb_prop in Ha as [_ Ha]. exact Ha. }
    assert (Hc : q c = true).
    { cbn [forallb] in Ha. apply andb_prop in Ha as [Ha _]. exact Ha. }
    destruct skip as [| skip]; cbn [replace_loop]; [| apply IH; assumption].
    destruct (exec_at p bef (c :: aft)) eqn:He.
    + assert (Hx : forallb q (expand (ngroups (pat_re p))
                                (info_of bef (c :: aft) m) template) = true).
      { eapply expand_within; [| reflexivity | exact Ht].
        eapply exec_at_within; eauto. }
      destruct (match_len (c :: aft) m) as [| k].
      * specialize (IH (c :: bef) 0 Hcb Ha').
        destruct (replace_loop _ _ 0 (c :: bef) aft tt) as [out u].
        cbn [fst] in *. rewrite forallb_app, Hx. cbn [forallb].
        rewrite Hc, IH. reflexivity.
      * specialize (IH (c :: bef) k Hcb Ha').
        destruct (replace_loop _ _ k (c :: bef) aft tt) as [out u].
        cbn [fst] in *. rewrite forallb_app, Hx, IH. reflexivity.
    + specialize (IH (c :: bef) 0 Hcb Ha').
      destruct (replace_loop _ _ 0 (c :: bef) aft tt) as [out u].
      cbn [fst forallb] in *. rewrite Hc, IH. reflexivity.
Qed.

Lemma replace_regex_within p template (s : jsstring) :
  forallb q (expand (ngroups (pat_re p)) no_match template) = true ->
  forallb q s = true ->
  forallb q (replace_regex p template s) = true.
Proof.
  intros Ht Hs. unfold replace_regex, replace_fn.
  apply replace_loop_within; [exact Ht | reflexivity | exact Hs].
Qed.

End Within.

Lemma forallb_sub {A : Type} (q : A -> bool) (eqb : A -> A -> bool)
    (Heqb : forall a b, eqb a b = true -> a = b) (l l' : list A) :
  forallb q l = true ->
  forallb (fun c => existsb (eqb c) l) l' = true ->
  forallb q l' = true.
Proof.
  rewrite !forallb_forall. intros Hl Hsub x Hx.
  specialize (Hsub x Hx). apply existsb_exists in Hsub as (y & Hy & Hxy).
  apply Heqb in Hxy as ->. exact (Hl _ Hy).
Qed.

Lemma markup_sub (q : char -> bool) (l : jsstring) :
  forallb q markdown_markup = true ->
  forallb (fun c => existsb (N.eqb c) markdown_markup) l = true ->
  forallb q l = true.
Proof.
  apply forallb_sub. intros a b H. apply N.eqb_eq, H.
Qed.

Lemma markdownToHtml_within (q : char -> bool) (markdown : jsstring) :
  forallb q markdown_markup = true ->
  forallb q markdown = true ->
  forallb q (markdownToHtml markdown) = true.
Proof.
  intros Hm Hs. unfold markdownToHtml.
  do 23 (apply replace_regex_within;
          [apply (@markup_sub q _ Hm); vm_compute; reflexivity |]).
  exact Hs.
Qed.

Lemma no_brace_no_placeholder (text : jsstring) :
  forallb (is_not (ch "{")) text = true -> placeholdersInText text = [].
Proof.
  intros H. unfold placeholdersInText, exec_all.
  rewrite (@exec_loop_nothing _ _ placeholder_match_head _ H). reflexivity.
Qed.


(** ** Passes of [markdownToHtml] that find nothing *)

Lemma zero_width_after ci r st st' :
  Matches ci r st st' -> zero_width r = true -> after st' = after st.
Proof.
  induction 1; cbn [zero_width]; intros Hz; try reflexivity;
    try discriminate; try (apply andb_prop in Hz as [Hz1 Hz2]); auto.
  rewrite IHMatches2, IHMatches1; auto.
Qed.

Lemma first_unit_sound ci r st st' :
  Matches ci r st st' ->
  forall h, first_unit ci r = Some h ->
  exists x rest, after st = x :: rest /\ h x = true.
Proof.
  induction 1; cbn [first_unit]; intros h Hh; try discriminate.
  - injection Hh as <-. eauto.
  - injection Hh as <-. eauto.
  - destruct (first_unit ci r1) as [h1 |] eqn:H1.
    + injection Hh as <-. eauto.
    + destruct (zero_width r1) eqn:Hz; [| discriminate].
      destruct (IHMatches2 _ Hh) as (x & rest & Ha & Hx).
      rewrite (zero_width_after H Hz) in Ha. eauto.
  - destruct (first_unit ci r1) as [h1 |]; [| discriminate].
    destruct (first_unit ci r2) as [h2 |]; [| discriminate].
    injection Hh as <-. destruct (IHMatches _ eq_refl) as (x & rest & Ha & Hx).
    exists x, rest. rewrite Hx. auto.
  - destruct (first_unit ci r1) as [h1 |]; [| discriminate].
    destruct (first_unit ci r2) as [h2 |]; [| discriminate].
    injection Hh as <-. destruct (IHMatches _ eq_refl) as (x & rest & Ha & Hx).
    exists x, rest. rewrite Hx, orb_true_r. auto.
  - eauto.
Qed.

Lemma exec_at_first p h (bef aft : jsstring) e :
  first_unit (pat_ci p) (pat_re p) = Some h ->
  exec_at p bef aft = Some e ->
  exists x rest, aft = x :: rest /\ h x = true.
Proof.
  unfold exec_at. intros Hh He. apply rmatch_sound in He as (st' & Hm & _).
  exact (first_unit_sound Hm Hh).
Qed.

Lemma exec_at_bol p r h (bef aft : jsstring) e :
  pat_re p = Seq Bol r ->
  first_unit (pat_ci p) r = Some h ->
  exec_at p bef aft = Some e ->
  at_bol (MState bef aft []) = true
  /\ exists x rest, aft = x :: rest /\ h x = true.
Proof.
  unfold exec_at. intros Hr Hh He. rewrite Hr in He. cbn [rmatch] in He.
  destruct (at_bol (MState bef aft [])); [| discriminate].
  split; [reflexivity |].
  apply rmatch_sound in He as (st' & Hm & _).
  exact (first_unit_sound Hm Hh).
Qed.

Section Passes.

Variable p : pattern.
Variable f : minfo -> unit -> jsstring * unit.

Lemma replace_loop_none (c : char) (bef rest : jsstring) :
  exec_at p bef (c :: rest) = None ->
  replace_loop p f 0 bef (c :: rest) tt
  = (c :: fst (replace_loop p f 0 (c :: bef) rest tt), tt).
Proof.
  intros He. cbn [replace_loop]. rewrite He.
  destruct (replace_loop p f 0 (c :: bef) rest tt) as [out []]. reflexivity.
Qed.

Lemma replace_loop_end (bef : jsstring) :
  exec_at p bef [] = None -> replace_loop p f 0 bef [] tt = ([], tt).
Proof. intros He. cbn [replace_loop]. rewrite He. reflexivity. Qed.

Lemma replace_loop_dead (w : jsstring) :
  forall bef rest,
    (forall a x b, w = a ++ x :: b ->
                   exec_at p (rev a ++ bef) (x :: b ++ rest) = None) ->
    replace_loop p f 0 bef (w ++ rest) tt
    = (w ++ fst (replace_loop p f 0 (rev w ++ bef) rest tt), tt).
Proof.
  induction w as [| c w IH]; intros bef rest Hw.
  - cbn [app rev]. destruct (replace_loop p f 0 bef rest tt) as [out []].
    reflexivity.
  - cbn [app]. rewrite replace_loop_none by exact (Hw [] c w eq_refl).
    rewrite IH.
    + cbn [fst rev]. rewrite <- app_assoc. reflexivity.
    + intros a x b ->. specialize (Hw (c :: a) x b eq_refl).
      cbn [rev] in Hw. rewrite <- app_assoc in Hw. exact Hw.
Qed.

Lemma replace_loop_skip (w : jsstring) :
  forall bef rest,
    replace_loop p f (length w) bef (w ++ rest) tt
    = replace_loop p f 0 (rev w ++ bef) rest tt.
Proof.
  induction w as [| c w IH]; intros bef rest; [reflexivity |].
  cbn [length app replace_loop]. rewrite IH. cbn [rev].
  rewrite <- app_assoc. reflexivity.
Qed.

(** A segment none of whose code units can begin a match. *)
Lemma replace_loop_dead_first h (w : jsstring) bef rest :
  first_unit (pat_ci p) (pat_re p) = Some h ->
  forallb (fun x => negb (h x)) w = true ->
  replace_loop p f 0 bef (w ++ rest) tt
  = (w ++ fst (replace_loop p f 0 (rev w ++ bef) rest tt), tt).
Proof.
  intros Hh Hw. apply replace_loop_dead. intros a x b ->.
  destruct (exec_at p (rev a ++ bef) (x :: b ++ rest)) as [e |] eqn:He;
    [| reflexivity].
  destruct (@exec_at_first _ _ _ _ _ Hh He) as (y & r & [= <- _] & Hy).
  rewrite forallb_app in Hw. cbn [forallb] in Hw. rewrite Hy in Hw.
  rewrite andb_false_r in Hw. discriminate.
Qed.

Lemma replace_loop_end_first h bef :
  first_unit (pat_ci p) (pat_re p) = Some h ->
  replace_loop p f 0 bef [] tt = ([], tt).
Proof.
  intros Hh. apply replace_loop_end.
  destruct (exec_at p bef []) as [e |] eqn:He; [| reflexivity].
  destruct (@exec_at_first _ _ _ _ _ Hh He) as (y & r & [=] & _).
Qed.

End Passes.

Lemma replace_regex_no_first p h t (s : jsstring) :
  first_unit (pat_ci p) (pat_re p) = Some h ->
  forallb (fun x => negb (h x)) s = true ->
  replace_regex p t s = s.
Proof.
  intros Hh Hs. unfold replace_regex, replace_fn.
  pose proof (@replace_loop_dead_first p
                (fun i (u : unit) => (expand (ngroups (pat_re p)) i t, u))
                h s [] [] Hh Hs) as H.
  rewrite app_nil_r in H. rewrite H. cbn [fst].
  rewrite (@replace_loop_end_first p _ h _ Hh). cbn [fst]. apply app_nil_r.
Qed.

(** A pattern anchored at the start of a line finds nothing in one line
    whose first code unit it does not read. *)
Lemma replace_regex_not_at_start p r h t (c : char) (line : jsstring) :
  pat_re p = Seq Bol r ->
  first_unit (pat_ci p) r = Some h ->
  h c = false ->
  forallb is_dot (c :: line) = true ->
  replace_regex p t (c :: line) = c :: line.
Proof.
  intros Hr Hh Hc Hdot. unfold replace_regex, replace_fn.
  pose proof (@replace_loop_dead p
                (fun i (u : unit) => (expand (ngroups (pat_re p)) i t, u))
                (c :: line) [] []) as H.
  rewrite app_nil_r in H. rewrite H; clear H.
  - cbn [fst]. rewrite replace_loop_end; [cbn [fst]; apply app_nil_r |].
    destruct (exec_at p _ []) as [e |] eqn:He; [| reflexivity].
    destruct (@exec_at_bol _ _ _ _ _ _ Hr Hh He) as (_ & y & r0 & [=] & _).
  - intros a x b Hs.
    destruct (exec_at p (rev a ++ []) (x :: b ++ [])) as [e |] eqn:He;
      [| reflexivity].
    destruct (@exec_at_bol _ _ _ _ _ _ Hr Hh He) as (Hbol & y & r0 & [= <- _] & Hy).
    unfold at_bol in Hbol. cbn [before] in Hbol. rewrite app_nil_r in Hbol.
    destruct a as [| a0 a].
    + injection Hs as -> _. congruence.
    + destruct (rev (a0 :: a)) as [| z l] eqn:Hrev.
      * apply (f_equal (@length _)) in Hrev. rewrite length_rev in Hrev.
        discriminate.
      * assert (Hz : In z (c :: line)).
        { rewrite Hs. apply in_or_app. left. apply in_rev. rewrite Hrev.
          left. reflexivity. }
        rewrite forallb_forall in Hdot. specialize (Hdot z Hz).
        unfold is_dot in Hdot. rewrite Hbol in Hdot. discriminate.
Qed.

Lemma replace_regex_absent p t (s : jsstring) :
  (forall a x b, s = a ++ x :: b -> exec_at p (rev a) (x :: b) = None) ->
  exec_at p (rev s) [] = None ->
  replace_regex p t s = s.
Proof.
  intros Hs Hend. unfold replace_regex, replace_fn.
  pose proof (@replace_loop_dead p
                (fun i (u : unit) => (expand (ngroups (pat_re p)) i t, u))
                s [] []) as H.
  rewrite !app_nil_r in H. rewrite H; clear H.
  - rewrite replace_loop_end by exact Hend. cbn [fst]. apply app_nil_r.
  - intros a x b Hab. rewrite !app_nil_r. apply Hs, Hab.
Qed.

(** ** One line of plain prose *)

Lemma prose_unit_dot (s : jsstring) :
  forallb prose_unit s = true -> forallb is_dot s = true.
Proof.
  rewrite !forallb_forall. intros H x Hx. specialize (H x Hx).
  unfold prose_unit in H. apply andb_prop in H as [H _]. exact H.
Qed.

Lemma prose_unit_not (m : char) (s : jsstring) :
  existsb (N.eqb m) (js "*_`<") = true ->
  forallb prose_unit s = true ->
  forallb (fun y => negb (N.eqb m y)) s = true.
Proof.
  intros Hm. rewrite !forallb_forall. intros H x Hx. specialize (H x Hx).
  destruct (N.eqb_spec m x) as [<- |]; [| reflexivity].
  unfold prose_unit in H. rewrite Hm, andb_false_r in H. discriminate.
Qed.

Lemma pass_over_prose p t (m : char) (s : jsstring) :
  first_unit (pat_ci p) (pat_re p) = Some (N.eqb m) ->
  existsb (N.eqb m) (js "*_`<") = true ->
  forallb prose_unit s = true ->
  replace_regex p t s = s.
Proof.
  intros Hh Hm Hs. apply replace_regex_no_first with (h := N.eqb m).
  - exact Hh.
  - apply prose_unit_not; assumption.
Qed.

Lemma expand_paragraph m i :
  expand m i (js "<p>$&</p>") = js "<p>" ++ m_text i ++ js "</p>".
Proof. reflexivity. Qed.

Lemma paragraph_match (bef aft : jsstring) e :
  exec_at re_paragraph bef aft = Some e ->
  forallb is_dot aft = true -> after e = [].
Proof.
  unfold exec_at. intros He Hdot.
  apply rmatch_sound in He as (st' & Hm & [= <-]).
  unfold re_paragraph, Seqs in Hm. cbn [pat_re pat_ci fold_right] in Hm.
  apply Matches_Seq_inv in Hm as (s1 & H1 & Hm).
  apply Matches_Seq_inv in Hm as (s2 & H2 & Hm).
  apply Matches_Seq_inv in Hm as (s3 & H3 & Hm).
  apply Matches_Seq_inv in Hm as (s4 & H4 & Hm).
  inversion Hm; subst; clear Hm. inversion H4; subst; clear H4.
  inversion H1; subst; clear H1. inversion H2; subst; clear H2.
  apply Matches_plus_cls_read in H3 as (w & _ & _ & Ha & _).
  cbn [after] in Ha.
  match goal with H : at_eol _ = true |- _ => rename H into Heol end.
  unfold at_eol in Heol. destruct (after st') as [| y r]; [reflexivity |].
  rewrite Ha, forallb_app in Hdot. cbn [forallb] in Hdot.
  unfold is_dot in Hdot at 2. rewrite Heol in Hdot. cbn [negb andb] in Hdot.
  rewrite andb_false_r in Hdot. discriminate.
Qed.

Lemma paragraph_found (c : char) (line : jsstring) :
  forallb is_dot (c :: line) = true ->
  N.eqb (ch "#") c = false -> N.eqb (ch "<") c = false ->
  is_Some (exec_at re_paragraph [] (c :: line)).
Proof.
  intros Hdot Hhash Hlt.
  assert (Hm : exists st', Matches false (pat_re re_paragraph)
                             (MState [] (c :: line) []) st').
  { eexists. unfold re_paragraph, Seqs. cbn [pat_re pat_ci fold_right].
    eapply M_Seq; [apply M_Bol; reflexivity |].
    eapply M_Seq.
    - apply M_LookNeg.
      match goal with
      | |- ?run = None => destruct run as [st1 |] eqn:Hg; [| reflexivity]
      end.
      apply rmatch_sound in Hg as (st2 & Hm & _).
      destruct (@first_unit_sound _ _ _ _ Hm
                  (fun x => N.eqb (ch "#") x || N.eqb (ch "<") x
                            || N.eqb (ch "<") x || N.eqb (ch "<") x
                            || N.eqb (ch "<") x || N.eqb (ch "<") x)
                  eq_refl) as (x & rest & [= <- _] & Hx).
      rewrite Hhash, Hlt in Hx. discriminate.
    - eapply M_Seq.
      + pose proof (@Matches_plus_cls false true is_dot (c :: line)
                      (forallb_Forall _ _ Hdot) ltac:(discriminate)
                      [] [] []) as Hp.
        rewrite !app_nil_r in Hp. exact Hp.
      + eapply M_Seq; [apply M_Eol; reflexivity | apply M_Eps]. }
  destruct Hm as (st' & Hm). unfold exec_at.
  exact (proj1 (rmatch_complete Hm (fun st' => Some st') ltac:(eauto))).
Qed.

Lemma paragraph_pass (c : char) (line : jsstring) :
  forallb is_dot (c :: line) = true ->
  N.eqb (ch "#") c = false -> N.eqb (ch "<") c = false ->
  replace_regex re_paragraph (js "<p>$&</p>") (c :: line)
  = js "<p>" ++ (c :: line) ++ js "</p>".
Proof.
  intros Hdot Hhash Hlt.
  destruct (@paragraph_found _ _ Hdot Hhash Hlt) as [e He].
  pose proof (@paragraph_match _ _ _ He Hdot) as Hend.
  unfold replace_regex, replace_fn. cbn [replace_loop]. rewrite He.
  unfold match_len at 1. rewrite Hend. cbn [length].
  rewrite expand_paragraph. unfold info_of, match_len. cbn [m_text].
  rewrite Hend. change (length (@nil char)) with 0.
  cbn [length Nat.sub firstn]. rewrite firstn_all.
  pose proof (@replace_loop_skip re_paragraph
                (fun i (u : unit) =>
                   (expand (ngroups (pat_re re_paragraph)) i (js "<p>$&</p>"), u))
                line [c] []) as Hskip.
  rewrite app_nil_r in Hskip. rewrite Hskip.
  rewrite (@replace_loop_end_first re_paragraph _ is_dot _ eq_refl).
  cbn [fst]. rewrite app_nil_r. reflexivity.

Qed.

Lemma literal_match l (bef aft : jsstring) e :
  exec_at (re_literal l) bef aft = Some e -> exists r, aft = l ++ r.
Proof.
  unfold exec_at. intros He. apply rmatch_sound in He as (st' & Hm & _).
  cbn [re_literal pat_re pat_ci] in Hm.
  apply Matches_Lit_inv in Hm as (w & Hw & Ha & _).
  apply same_text_exact in Hw as ->. cbn [after] in Ha. eauto.
Qed.

Lemma line_break_match (bef aft : jsstring) e :
  exec_at re_line_break bef aft = Some e -> In 10%N aft.
Proof.
  unfold exec_at. intros He. apply rmatch_sound in He as (st' & Hm & _).
  unfold re_line_break, Seqs in Hm. cbn [pat_re pat_ci fold_right] in Hm.
  apply Matches_Seq_inv in Hm as (s1 & H1 & Hm).
  apply Matches_Seq_inv in Hm as (s2 & H2 & _).
  apply Matches_Grp_read in H1 as (s0 & H0 & Ha1 & _).
  apply Matches_plus_cls_read in H0 as (w & _ & _ & Ha & _).
  apply Matches_Chr_inv in H2 as (x & Hx & Ha2 & _).
  cbn [after] in Ha. rewrite Ha, <- Ha1, Ha2. apply in_or_app. right. left.
  unfold char_eq in Hx. apply N.eqb_eq in Hx. congruence.
Qed.

Lemma line_break_pass t (s : jsstring) :
  forallb is_dot s = true -> replace_regex re_line_break t s = s.
Proof.
  intros Hdot.
  assert (Hno : forall b a, In 10%N a -> (forall x, In x a -> In x s) ->
                            exec_at re_line_break b a = None).
  { intros b a Hin Hsub. apply Hsub in Hin. rewrite forallb_forall in Hdot.
    specialize (Hdot _ Hin). discriminate. }
  apply replace_regex_absent.
  - intros a x b ->.
    destruct (exec_at re_line_break (rev a) (x :: b)) as [e |] eqn:He;
      [| reflexivity].
    rewrite <- He. apply Hno; [exact (@line_break_match _ _ _ He) |].
    intros y Hy. apply in_or_app. right. exact Hy.
  - destruct (exec_at re_line_break (rev s) []) as [e |] eqn:He;
      [| reflexivity].
    destruct (@line_break_match _ _ _ He).
Qed.

Lemma wrapped_line_literal_pass l t (c : char) (line : jsstring) :
  l = js "<p><p>" \/ l = js "</p></p>" ->
  forallb prose_unit (c :: line) = true ->
  replace_regex (re_literal l) t (js "<p>" ++ (c :: line) ++ js "</p>")
  = js "<p>" ++ (c :: line) ++ js "</p>".
Proof.
  intros Hl Hs.
  assert (Hh : first_unit (pat_ci (re_literal l)) (pat_re (re_literal l))
               = Some (N.eqb (ch "<")))
    by (destruct Hl as [-> | ->]; reflexivity).
  assert (Hc : N.eqb (ch "<") c = false).
  { pose proof (@prose_unit_not (ch "<") _ eq_refl Hs) as H.
    cbn [forallb] in H. apply andb_prop in H as [H _].
    apply negb_true_iff, H. }
  assert (Hseg : forallb (fun x => negb (N.eqb (ch "<") x))
                   (js "p>" ++ c :: line) = true).
  { rewrite forallb_app. apply andb_true_intro. split; [reflexivity |].
    exact (@prose_unit_not (ch "<") _ eq_refl Hs). }
  unfold replace_regex, replace_fn.
  change (js "<p>" ++ (c :: line) ++ js "</p>")
    with (ch "<" :: (js "p>" ++ c :: line) ++ ch "<" :: js "/p>" ++ []).
  rewrite replace_loop_none.
  2:{ match goal with
      | |- ?run = None => destruct run as [e |] eqn:He; [| reflexivity]
      end.
      apply literal_match in He as (r & Hr).
      destruct Hl as [-> | ->]; [| discriminate Hr].
      exfalso. vm_compute in Hr. injection Hr as Hr _. subst c.
      vm_compute in Hc. discriminate. }
  cbn [fst].
  rewrite (@replace_loop_dead_first _ _ _ _ _ _ Hh Hseg). cbn [fst].
  rewrite replace_loop_none.
  2:{ match goal with
      | |- ?run = None => destruct run as [e |] eqn:He; [| reflexivity]
      end.
      apply literal_match in He as (r & Hr).
      destruct Hl as [-> | ->]; discriminate Hr. }
  cbn [fst].
  rewrite (@replace_loop_dead_first _ _ _ (js "/p>") _ [] Hh eq_refl).
  cbn [fst]. rewrite (@replace_loop_end_first _ _ _ _ Hh). reflexivity.
Qed.

(** ** One heading line *)

Section MatchPass.

Variable p : pattern.
Variable f : minfo -> unit -> jsstring * unit.

Lemma replace_loop_match (bef m rest : jsstring) e :
  m <> [] -> after e = rest ->
  exec_at p bef (m ++ rest) = Some e ->
  replace_loop p f 0 bef (m ++ rest) tt
  = (fst (f (info_of bef (m ++ rest) e) tt)
     ++ fst (replace_loop p f 0 (rev m ++ bef) rest tt), tt).
Proof.
  intros Hne <- He. destruct m as [| c m]; [congruence |].
  cbn [app replace_loop]. cbn [app] in He. rewrite He.
  destruct (f (info_of bef (c :: m ++ after e) e) tt) as [t []].
  unfold match_len. cbn [length]. rewrite length_app.
  replace (S (length m + length (after e)) - length (after e))
    with (S (length m)) by lia.
  rewrite replace_loop_skip. cbn [rev fst]. rewrite <- app_assoc.
  change ([c] ++ bef) with (c :: bef).
  destruct (replace_loop p f 0 (rev m ++ c :: bef) (after e) tt) as [out []].
  reflexivity.
Qed.

End MatchPass.

(** A pattern anchored at the start of a line finds nothing in one line
    on which it fails at the first position. *)
Lemma replace_regex_line_start_only p r h t (s : jsstring) :
  pat_re p = Seq Bol r ->
  first_unit (pat_ci p) r = Some h ->
  forallb is_dot s = true ->
  exec_at p [] s = None ->
  replace_regex p t s = s.
Proof.
  intros Hr Hh Hdot Hstart. apply replace_regex_absent.
  - intros a x b Hs.
    destruct (exec_at p (rev a) (x :: b)) as [e |] eqn:He; [| reflexivity].
    destruct (@exec_at_bol _ _ _ _ _ _ Hr Hh He) as (Hbol & _).
    unfold at_bol in Hbol. cbn [before] in Hbol.
    destruct a as [| a0 a].
    + cbn [app rev] in *. congruence.
    + destruct (rev (a0 :: a)) as [| z l] eqn:Hrev.
      * apply (f_equal (@length _)) in Hrev. rewrite length_rev in Hrev.
        discriminate.
      * assert (Hz : In z s).
        { rewrite Hs. apply in_or_app. left. apply in_rev. rewrite Hrev.
          left. reflexivity. }
        rewrite forallb_forall in Hdot. specialize (Hdot z Hz).
        unfold is_dot in Hdot. rewrite Hbol in Hdot. discriminate.
  - destruct (exec_at p (rev s) []) as [e |] eqn:He; [| reflexivity].
    destruct (@exec_at_bol _ _ _ _ _ _ Hr Hh He) as (_ & y & r0 & [=] & _).
Qed.

(** A pattern whose matches begin with [<] finds nothing in an element
    without [<] inside when it fails at the two tags. *)
Lemma replace_regex_element p t (open body close : jsstring) :
  first_unit (pat_ci p) (pat_re p) = Some (N.eqb (ch "<")) ->
  forallb (fun x => negb (N.eqb (ch "<") x)) (open ++ body) = true ->
  forallb (fun x => negb (N.eqb (ch "<") x)) close = true ->
  (forall bef, exec_at p bef (ch "<" :: (open ++ body) ++ ch "<" :: close ++ [])
               = None) ->
  (forall bef, exec_at p bef (ch "<" :: close ++ []) = None) ->
  replace_regex p t (ch "<" :: (open ++ body) ++ ch "<" :: close ++ [])
  = ch "<" :: (open ++ body) ++ ch "<" :: close ++ [].
Proof.
  intros Hh Hbody Hclose Hopen Hend. unfold replace_regex, replace_fn.
  rewrite replace_loop_none by apply Hopen. cbn [fst].
  rewrite (@replace_loop_dead_first _ _ _ _ _ _ Hh Hbody). cbn [fst].
  rewrite replace_loop_none by apply Hend. cbn [fst].
  rewrite (@replace_loop_dead_first _ _ _ _ _ _ Hh Hclose). cbn [fst].
  rewrite (@replace_loop_end_first _ _ _ _ Hh). reflexivity.
Qed.

Lemma ngroups_Lit l : ngroups (Lit l) = 0.
Proof. induction l as [| c l IH]; [reflexivity |]. cbn [Lit ngroups]. exact IH. Qed.

Lemma ngroups_heading n : ngroups (pat_re (re_heading n)) = 1.
Proof.
  unfold re_heading, Seqs. cbn [pat_re fold_right ngroups].
  rewrite ngroups_Lit. reflexivity.
Qed.

Lemma heading_match n (bef aft : jsstring) e :
  exec_at (re_heading n) bef aft = Some e ->
  exists w, aft = repeat (ch "#") n ++ ch " " :: w ++ after e
            /\ w <> [] /\ caps e = [(1, w)] /\ at_eol e = true.
Proof.
  unfold exec_at. intros He.
  apply rmatch_sound in He as (st' & Hm & [= <-]).
  unfold re_heading, Seqs in Hm. cbn [pat_re pat_ci fold_right] in Hm.
  apply Matches_Seq_inv in Hm as (s1 & H1 & Hm).
  apply Matches_Seq_inv in Hm as (s2 & H2 & Hm).
  apply Matches_Seq_inv in Hm as (s3 & H3 & Hm).
  apply Matches_Seq_inv in Hm as (s4 & H4 & Hm).
  apply Matches_Seq_inv in Hm as (s5 & H5 & Hm).
  inversion Hm; subst; clear Hm. inversion H5; subst; clear H5.
  inversion H1; subst; clear H1.
  apply Matches_Lit_inv in H2 as (w2 & Hw2 & Ha2 & Hc2).
  apply same_text_exact in Hw2 as ->.
  apply Matches_Chr_inv in H3 as (x & Hx & Ha3 & Hc3).
  apply Matches_Grp_read in H4 as (s0 & Hg & Ha4 & Hc4).
  apply Matches_plus_cls_read in Hg as (w & Hne & _ & Ha & Hc0).
  unfold char_eq in Hx. apply N.eqb_eq in Hx as <-.
  cbn [after caps] in *. exists w.
  split; [rewrite Ha2, Ha3, Ha, Ha4; reflexivity |].
  split; [exact Hne |]. split; [| assumption].
  rewrite (Hc4 _ Ha), Hc0, Hc3, Hc2. reflexivity.
Qed.

Lemma heading_found n (title : jsstring) :
  title <> [] -> forallb is_dot title = true ->
  is_Some (exec_at (re_heading n) []
             ((repeat (ch "#") n ++ ch " " :: title) ++ [])).
Proof.
  intros Hne Hdot.
  assert (Hm : exists st', Matches false (pat_re (re_heading n))
                 (MState [] ((repeat (ch "#") n ++ ch " " :: title) ++ []) [])
                 st').
  { eexists. unfold re_heading, Seqs. cbn [pat_re pat_ci fold_right].
    eapply M_Seq; [apply M_Bol; reflexivity |].
    rewrite <- app_assoc.
    eapply M_Seq; [apply (Matches_Lit (same_text_refl false _)) |].
    eapply M_Seq; [eapply M_Chr; [reflexivity | apply N.eqb_refl] |].
    unfold advance. cbn [before caps].
    eapply M_Seq.
    - apply M_Grp.
      apply (@Matches_plus_cls false true is_dot title
               (forallb_Forall _ _ Hdot) Hne).
    - eapply M_Seq; [apply M_Eol; reflexivity | apply M_Eps]. }
  destruct Hm as (st' & Hm). unfold exec_at.
  exact (proj1 (rmatch_complete Hm (fun st' => Some st') ltac:(eauto))).
Qed.

Lemma repeat_mismatch (x y : char) (u v : jsstring) k :
  forall n, k < n -> x <> y -> repeat y k ++ x :: u <> repeat y n ++ v.
Proof.
  induction k as [| k IH]; intros [| n] Hlt Hxy; try lia.
  - cbn [repeat app]. congruence.
  - cbn [repeat app]. intros [= H]. exact (IH n ltac:(lia) Hxy H).
Qed.

Lemma heading_line_dot n (title : jsstring) :
  forallb is_dot title = true ->
  forallb is_dot (repeat (ch "#") n ++ ch " " :: title) = true.
Proof.
  intros Hdot. rewrite forallb_app. cbn [forallb]. rewrite Hdot.
  replace (forallb is_dot (repeat (ch "#") n)) with true; [reflexivity |].
  induction n as [| n IH]; [reflexivity |]. cbn [repeat forallb].
  rewrite <- IH. reflexivity.
Qed.

(** The passes of the lower levels find nothing. *)
Lemma heading_lower k n t (title : jsstring) :
  S k < n -> forallb is_dot title = true ->
  replace_regex (re_heading (S k)) t (repeat (ch "#") n ++ ch " " :: title)
  = repeat (ch "#") n ++ ch " " :: title.
Proof.
  intros Hlt Hdot.
  apply (@replace_regex_line_start_only (re_heading (S k)) _
           (N.eqb (ch "#")) t _ eq_refl eq_refl).
  - apply heading_line_dot, Hdot.
  - destruct (exec_at (re_heading (S k)) [] _) as [e |] eqn:He;
      [| reflexivity].
    apply heading_match in He as (w & Ha & _).
    destruct n as [| n]; [lia |].
    cbn [repeat app] in Ha. injection Ha as Ha.
    symmetry in Ha. apply repeat_mismatch in Ha; [contradiction | lia |].
    vm_compute. discriminate.
Qed.

(** The pass of the level of the line writes the element. *)
Lemma heading_pass n (template : jsstring) (d : char) (title : jsstring) :
  (forall i, expand 1 i template = heading_tag d (capture_text i 1)) ->
  title <> [] -> forallb is_dot title = true ->
  replace_regex (re_heading (S n)) template
    (repeat (ch "#") (S n) ++ ch " " :: title)
  = heading_tag d title.
Proof.
  intros Ht Hne Hdot.
  destruct (heading_found (S n) Hne Hdot) as [e He].
  destruct (heading_match _ _ _ He) as (w & Ha & _ & Hcaps & Heol).
  assert (Hend : after e = []).
  { unfold at_eol in Heol. destruct (after e) as [| y r]; [reflexivity |].
    rewrite app_nil_r in Ha. apply app_inv_head in Ha. injection Ha as Ha.
    rewrite Ha, forallb_app in Hdot. cbn [forallb] in Hdot.
    unfold is_dot in Hdot at 2. rewrite Heol in Hdot. cbn [negb andb] in Hdot.
    rewrite andb_false_r in Hdot. discriminate. }
  assert (Hw : w = title).
  { rewrite Hend, !app_nil_r in Ha. apply app_inv_head in Ha.
    injection Ha as Ha. congruence. }
  subst w. unfold replace_regex, replace_fn. rewrite ngroups_heading.
  rewrite <- (app_nil_r (repeat (ch "#") (S n) ++ ch " " :: title)).
  assert (Hm : repeat (ch "#") (S n) ++ ch " " :: title <> [])
    by (cbn [repeat app]; discriminate).
  rewrite (@replace_loop_match (re_heading (S n)) _ [] _ [] e Hm Hend He).
  cbn [fst]. rewrite Ht. unfold capture_text, cap, info_of. cbn [m_caps].
  rewrite Hcaps. cbn [List.find fst snd Nat.eqb fmap option_fmap option_map default].
  rewrite (@replace_loop_end_first (re_heading (S n)) _ (N.eqb (ch "#")) _ eq_refl).
  cbn [fst]. unfold Datatypes.id. apply app_nil_r.
Qed.

Lemma forallb_heading_tag (q : char -> bool) (d : char) (title : jsstring) :
  forallb q (js "<h>/") = true -> q d = true -> forallb q title = true ->
  forallb q (heading_tag d title) = true.
Proof.
  intros Hq Hd Ht. unfold heading_tag.
  change (js "<h" ++ d :: js ">" ++ title ++ js "</h" ++ d :: js ">")
    with ([ch "<"; ch "h"; d; ch ">"]
            ++ title ++ [ch "<"; ch "/"; ch "h"; d; ch ">"]).
  change (js "<h>/") with [ch "<"; ch "h"; ch ">"; ch "/"] in Hq.
  rewrite !forallb_app, Ht. cbn [forallb] in *.
  apply andb_prop in Hq as [H1 Hq]. apply andb_prop in Hq as [H2 Hq].
  apply andb_prop in Hq as [H3 Hq]. apply andb_prop in Hq as [H4 _].
  rewrite H1, H2, H3, H4, Hd. reflexivity.
Qed.

Lemma digit_dot (d : char) : is_digit d = true -> is_dot d = true.
Proof.
  unfold is_digit, in_range, is_dot, is_line_terminator. intros H.
  apply andb_prop in H as [H1 H2]. apply N.leb_le in H1, H2.
  destruct (N.eqb_spec d 10); [lia |]. destruct (N.eqb_spec d 13); [lia |].
  destruct (N.eqb_spec d 8232); [lia |]. destruct (N.eqb_spec d 8233); [lia |].
  reflexivity.
Qed.

Lemma digit_not (m d : char) :
  is_digit d = true -> is_digit m = false -> negb (N.eqb m d) = true.
Proof.
  intros Hd Hm. destruct (N.eqb_spec m d) as [-> |]; [congruence | reflexivity].
Qed.

Lemma heading_tag_dot (d : char) (title : jsstring) :
  is_digit d = true -> forallb is_dot title = true ->
  forallb is_dot (heading_tag d title) = true.
Proof.
  intros Hd Ht. apply forallb_heading_tag;
    [reflexivity | apply digit_dot, Hd | exact Ht].
Qed.

(** The passes of the higher levels, of the list items and of the
    numbered items find nothing in the element. *)
Lemma line_start_pass_on_heading p r h t (d : char) (title : jsstring) :
  pat_re p = Seq Bol r ->
  first_unit (pat_ci p) r = Some h ->
  h (ch "<") = false ->
  is_digit d = true -> forallb is_dot title = true ->
  replace_regex p t (heading_tag d title) = heading_tag d title.
Proof.
  intros Hr Hh Hc Hd Ht.
  change (heading_tag d title)
    with (ch "<" :: js "h" ++ d :: js ">" ++ title ++ js "</h" ++ d :: js ">").
  apply (@replace_regex_not_at_start p r h t _ _ Hr Hh Hc).
  exact (@heading_tag_dot d title Hd Ht).
Qed.

Lemma mark_pass_on_heading p t (m : char) (d : char) (title : jsstring) :
  first_unit (pat_ci p) (pat_re p) = Some (N.eqb m) ->
  existsb (N.eqb m) (js "*_`") = true ->
  is_digit d = true -> forallb prose_unit title = true ->
  replace_regex p t (heading_tag d title) = heading_tag d title.
Proof.
  intros Hh Hm Hd Ht. apply replace_regex_no_first with (h := N.eqb m);
    [exact Hh |].
  assert (Hcases : m = ch "*" \/ m = ch "_" \/ m = ch "`").
  { change (js "*_`") with [ch "*"; ch "_"; ch "`"] in Hm.
    cbn [existsb] in Hm. rewrite orb_false_r in Hm.
    apply orb_prop in Hm as [Hm | Hm]; [apply N.eqb_eq in Hm; auto |].
    apply orb_prop in Hm as [Hm | Hm]; apply N.eqb_eq in Hm; auto. }
  apply forallb_heading_tag.
  - destruct Hcases as [-> | [-> | ->]]; reflexivity.
  - apply digit_not; [exact Hd |].
    destruct Hcases as [-> | [-> | ->]]; reflexivity.
  - apply prose_unit_not; [| exact Ht].
    destruct Hcases as [-> | [-> | ->]]; reflexivity.
Qed.

Lemma list_item_match p r (bef aft : jsstring) e :
  pat_re p = Seq list_item r -> pat_ci p = false ->
  exec_at p bef aft = Some e -> exists rest, aft = js "<li>" ++ rest.
Proof.
  unfold exec_at. intros Hr Hci He. rewrite Hr, Hci in He.
  apply rmatch_sound in He as (st' & Hm & _).
  apply Matches_Seq_inv in Hm as (s1 & H1 & _).
  unfold list_item, Seqs in H1. cbn [fold_right] in H1.
  apply Matches_Grp_read in H1 as (s0 & Hg & _).
  apply Matches_Seq_inv in Hg as (s2 & H2 & _).
  apply Matches_Lit_inv in H2 as (w & Hw & Ha & _).
  apply same_text_exact in Hw as ->. cbn [after] in Ha. eauto.
Qed.

(** A pattern that reads a tag other than [<hN>] and [</hN>] first finds
    nothing in the element. *)
Lemma tag_pass_on_heading p t (tag : jsstring) (d : char) (title : jsstring) :
  first_unit (pat_ci p) (pat_re p) = Some (N.eqb (ch "<")) ->
  (forall bef aft e, exec_at p bef aft = Some e ->
                     exists rest, aft = tag ++ rest) ->
  (exists x y rest, tag = ch "<" :: x :: y :: rest
                    /\ x <> ch "h" /\ (x = ch "/" -> y <> ch "h")) ->
  is_digit d = true -> forallb prose_unit title = true ->
  replace_regex p t (heading_tag d title) = heading_tag d title.
Proof.
  intros Hh Hp (x & y & tl & -> & Hx & Hy) Hd Ht.
  change (heading_tag d title)
    with (ch "<" :: ([ch "h"; d; ch ">"] ++ title)
            ++ ch "<" :: [ch "/"; ch "h"; d; ch ">"] ++ []).
  apply replace_regex_element.
  - exact Hh.
  - rewrite forallb_app. apply andb_true_intro. split.
    + cbn [forallb]. rewrite (@digit_not (ch "<") d Hd eq_refl). reflexivity.
    + exact (@prose_unit_not (ch "<") _ eq_refl Ht).
  - cbn [forallb]. rewrite (@digit_not (ch "<") d Hd eq_refl). reflexivity.
  - intros bef. match goal with
                | |- ?run = None => destruct run as [e |] eqn:He; [| reflexivity]
                end.
    apply Hp in He as (rest & Hr). cbn [app] in Hr. congruence.
  - intros bef. match goal with
                | |- ?run = None => destruct run as [e |] eqn:He; [| reflexivity]
                end.
    apply Hp in He as (rest & Hr). cbn [app] in Hr.
    injection Hr as Hx' Hy'. symmetry in Hx'. specialize (Hy Hx'). congruence.
Qed.

Lemma paragraph_pass_on_heading t (d : char) (title : jsstring) :
  is_digit d = true -> forallb is_dot title = true ->
  replace_regex re_paragraph t (heading_tag d title) = heading_tag d title.
Proof.
  intros Hd Ht.
  apply (@replace_regex_line_start_only re_paragraph _ is_dot t _
           eq_refl eq_refl (@heading_tag_dot d title Hd Ht)).
  vm_compute. reflexivity.
Qed.

(** The passes after those of the headings leave the element of a
    heading as it is. *)
Lemma passes_after_headings (d : char) (title : jsstring) :
  is_digit d = true -> forallb prose_unit title = true ->
  let html := heading_tag d title in
  let html := replace_regex (re_bullet (ch "*")) (js "<li>$1</li>") html in
  let html := replace_regex (re_bullet (ch "-")) (js "<li>$1</li>") html in
  let html := replace_regex re_item_newline (js "$1") html in
  let html := replace_regex re_items (js "<ul>$&</ul>") html in
  let html := replace_regex re_numbered (js "<li>$1</li>") html in
  let html := replace_regex re_item_newline (js "$1") html in
  let html := replace_regex re_items (js "<ol>$&</ol>") html in
  let html := replace_regex (re_emphasis (js "**")) (js "<strong>$1</strong>") html in
  let html := replace_regex (re_emphasis (js "__")) (js "<strong>$1</strong>") html in
  let html := replace_regex (re_emphasis (js "*")) (js "<em>$1</em>") html in
  let html := replace_regex (re_emphasis (js "_")) (js "<em>$1</em>") html in
  let html :=
    replace_regex re_code_block
      (tpl "<div class=~code-block~><div class=~code-lang~>$1</div><pre>$2</pre></div>")
      html in
  let html := replace_regex re_inline_code (js "<code>$1</code>") html in
  let html := replace_regex re_paragraph (js "<p>$&</p>") html in
  let html := replace_regex (re_literal (js "<p><p>")) (js "<p>") html in
  let html := replace_regex (re_literal (js "</p></p>")) (js "</p>") html in
  let html := replace_regex re_line_break (js "$1<br>") html in
  html = heading_tag d title.
Proof.
  intros Hd Ht. pose proof (prose_unit_dot _ Ht) as Hdot. cbv zeta.
  assert (Hstart : forall p r h t,
             pat_re p = Seq Bol r -> first_unit (pat_ci p) r = Some h ->
             h (ch "<") = false ->
             replace_regex p t (heading_tag d title) = heading_tag d title).
  { intros p r h t Hr Hh Hc.
    exact (@line_start_pass_on_heading p r h t d title Hr Hh Hc Hd Hdot). }
  assert (Hmark : forall p t m,
             first_unit (pat_ci p) (pat_re p) = Some (N.eqb m) ->
             existsb (N.eqb m) (js "*_`") = true ->
             replace_regex p t (heading_tag d title) = heading_tag d title).
  { intros p t m Hh Hm. exact (@mark_pass_on_heading p t m d title Hh Hm Hd Ht). }
  assert (Hitem : forall p r t,
             pat_re p = Seq list_item r -> pat_ci p = false ->
             first_unit (pat_ci p) (pat_re p) = Some (N.eqb (ch "<")) ->
             replace_regex p t (heading_tag d title) = heading_tag d title).
  { intros p r t Hr Hci Hh.
    apply (@tag_pass_on_heading p t (js "<li>") d title Hh); try assumption.
    - intros bef aft e He. exact (@list_item_match p r bef aft e Hr Hci He).
    - exists (ch "l"), (ch "i"), (js ">").
      split; [reflexivity |]. split; discriminate. }
  assert (Hlit : forall l t,
             (exists x y rest, l = ch "<" :: x :: y :: rest
                               /\ x <> ch "h" /\ (x = ch "/" -> y <> ch "h")) ->
             replace_regex (re_literal l) t (heading_tag d title)
             = heading_tag d title).
  { intros l t Hl.
    apply (@tag_pass_on_heading (re_literal l) t l d title); try assumption.
    - destruct Hl as (x & y & rest & -> & _). reflexivity.
    - intros bef aft e He. exact (@literal_match l bef aft e He). }
  rewrite (Hstart (re_bullet (ch "*")) _ (N.eqb (ch "*")) _ eq_refl eq_refl eq_refl).
  rewrite (Hstart (re_bullet (ch "-")) _ (N.eqb (ch "-")) _ eq_refl eq_refl eq_refl).
  rewrite (Hitem re_item_newline _ _ eq_refl eq_refl eq_refl).
  rewrite (Hitem re_items _ _ eq_refl eq_refl eq_refl).
  rewrite (Hstart re_numbered _ is_digit _ eq_refl eq_refl eq_refl).
  rewrite (Hitem re_item_newline _ _ eq_refl eq_refl eq_refl).
  rewrite (Hitem re_items _ _ eq_refl eq_refl eq_refl).
  rewrite (Hmark (re_emphasis (js "**")) _ (ch "*") eq_refl eq_refl).
  rewrite (Hmark (re_emphasis (js "__")) _ (ch "_") eq_refl eq_refl).
  rewrite (Hmark (re_emphasis (js "*")) _ (ch "*") eq_refl eq_refl).
  rewrite (Hmark (re_emphasis (js "_")) _ (ch "_") eq_refl eq_refl).
  rewrite (Hmark re_code_block _ (ch "`") eq_refl eq_refl).
  rewrite (Hmark re_inline_code _ (ch "`") eq_refl eq_refl).
  rewrite (@paragraph_pass_on_heading _ d title Hd Hdot).
  rewrite (Hlit (js "<p><p>") _).
  2:{ exists (ch "p"), (ch ">"), (js "<p>").
      split; [reflexivity |]. split; discriminate. }
  rewrite (Hlit (js "</p></p>") _).
  2:{ exists (ch "/"), (ch "p"), (js "></p>").
      split; [reflexivity |]. split; discriminate. }
  apply line_break_pass, heading_tag_dot; assumption.
Qed.

Lemma heading_higher k t (d : char) (title : jsstring) :
  is_digit d = true -> forallb is_dot title = true ->
  replace_regex (re_heading (S k)) t (heading_tag d title) = heading_tag d title.
Proof.
  intros Hd Ht.
  exact (@line_start_pass_on_heading (re_heading (S k)) _ (N.eqb (ch "#")) t
           d title eq_refl eq_refl eq_refl Hd Ht).
Qed.



(** ** Lemmas on the starts of mount points *)

Lemma mount_point_tail id : mount_point id = ch "<" :: mount_tail id.
Proof. reflexivity. Qed.

Lemma dead_after_swap (m : jsstring) :
  forallb (is_not (ch "{")) m = true ->
  forall (u z z' : jsstring),
    dead_after m (u ++ ch "{" :: z) = true -> dead_after m (u ++ z') = true.
Proof.
  induction m as [| x m IH]; intros Hm u z z' H; [destruct u; discriminate |].
  cbn [forallb] in Hm. apply andb_prop in Hm as [Hx Hm].
  destruct u as [| c u].
  - cbn [app dead_after] in H. unfold is_not in Hx. rewrite N.eqb_sym in Hx.
    destruct (N.eqb (ch "{") x); [discriminate |].
    rewrite N.eqb_refl in H. discriminate.
  - cbn [app dead_after] in *. destruct (N.eqb c x); [| exact H].
    exact (IH Hm u z z' H).
Qed.

Lemma dead_after_prefix (m : jsstring) :
  forall (u z : jsstring),
    dead_after m (u ++ z) = true -> dead_after m u = true.
Proof.
  induction m as [| x m IH]; intros u z H; [destruct u; discriminate |].
  destruct u as [| c u]; [reflexivity |].
  cbn [app dead_after] in *. destruct (N.eqb c x); [| exact H].
  exact (IH u z H).
Qed.

(** A text that is dead for want of more stays dead in front of a code
    unit that the rest of a mount point does not hold. *)
Lemma dead_after_before (m : jsstring) (y : char) :
  forallb (is_not y) m = true -> N.eqb y (ch "{") = false ->
  forall (u z : jsstring),
    dead_after m u = true -> dead_after m (u ++ y :: z) = true.
Proof.
  intros Hm Hy. induction m as [| x m IH]; intros u z H;
    [destruct u; discriminate |].
  cbn [forallb] in Hm. apply andb_prop in Hm as [Hx Hm'].
  destruct u as [| c u].
  - cbn [app dead_after]. unfold is_not in Hx. rewrite N.eqb_sym in Hx.
    destruct (N.eqb y x); [discriminate |]. rewrite Hy. reflexivity.
  - cbn [app dead_after] in *. destruct (N.eqb c x); [| exact H].
    exact (IH Hm' u z H).
Qed.

Lemma dead_after_startsWith (m u : jsstring) :
  dead_after m u = true -> startsWith u m = false.
Proof.
  revert u. induction m as [| x m IH]; intros u H; [destruct u; discriminate |].
  destruct u as [| c u]; [reflexivity |].
  cbn [dead_after startsWith] in *. rewrite N.eqb_sym.
  destruct (N.eqb c x); [apply IH, H | reflexivity].
Qed.

Lemma no_mount_start_app (m a b : jsstring) :
  no_mount_start m (a ++ b) = true -> no_mount_start m b = true.
Proof.
  induction a as [| c a IH]; [auto |]. cbn [app no_mount_start].
  intros H. apply andb_prop in H as [_ H]. exact (IH H).
Qed.

Lemma no_mount_start_prefix (m a b : jsstring) :
  no_mount_start m (a ++ b) = true -> no_mount_start m a = true.
Proof.
  induction a as [| c a IH]; [auto |]. cbn [app no_mount_start].
  intros H. apply andb_prop in H as [Hc H]. rewrite (IH H), andb_true_r.
  destruct (N.eqb c (ch "<")); [| reflexivity].
  exact (dead_after_prefix _ _ _ Hc).
Qed.

(** What stands before a brace stays dead when the text from the brace on
    is changed. *)
Lemma no_mount_start_swap (m : jsstring) :
  forallb (is_not (ch "{")) m = true ->
  forall (pre z z' : jsstring),
    no_mount_start m (pre ++ ch "{" :: z) = true ->
    no_mount_start m (pre ++ z') = no_mount_start m z'.
Proof.
  intros Hm pre z z'. induction pre as [| c pre IH]; [reflexivity |].
  cbn [app no_mount_start]. intros H. apply andb_prop in H as [Hc H].
  rewrite (IH H). destruct (N.eqb c (ch "<")); [| reflexivity].
  rewrite (dead_after_swap _ Hm _ _ z' Hc). reflexivity.
Qed.

Lemma no_mount_start_before (m : jsstring) (y : char) :
  forallb (is_not y) m = true -> N.eqb y (ch "{") = false ->
  forall (a z : jsstring),
    no_mount_start m a = true ->
    no_mount_start m (a ++ y :: z) = no_mount_start m (y :: z).
Proof.
  intros Hm Hy a z. induction a as [| c a IH]; [reflexivity |].
  cbn [app no_mount_start]. intros H. apply andb_prop in H as [Hc H].
  rewrite (IH H). destruct (N.eqb c (ch "<")); [| reflexivity].
  rewrite (dead_after_before _ _ Hm Hy _ z Hc). reflexivity.
Qed.

Lemma no_mount_start_none (m s : jsstring) :
  forallb (is_not (ch "<")) s = true -> no_mount_start m s = true.
Proof.
  induction s as [| c s IH]; [reflexivity |]. cbn [forallb no_mount_start].
  intros H. apply andb_prop in H as [Hc Hs]. unfold is_not in Hc.
  destruct (N.eqb c (ch "<")); [discriminate |]. exact (IH Hs).
Qed.

Lemma occurrences_dead (m s : jsstring) :
  no_mount_start m s = true -> occurrences (ch "<" :: m) s = 0.
Proof.
  induction s as [| c s IH]; [reflexivity |]. cbn [no_mount_start].
  intros H. apply andb_prop in H as [Hc Hs].
  cbn [occurrences startsWith]. rewrite (IH Hs). rewrite N.eqb_sym.
  destruct (N.eqb c (ch "<")); [| reflexivity].
  rewrite (dead_after_startsWith _ _ Hc). reflexivity.
Qed.

Lemma occurrences_dead_before (m : jsstring) (y : char) :
  forallb (is_not y) m = true -> N.eqb y (ch "{") = false ->
  forall (a z : jsstring),
    no_mount_start m a = true ->
    occurrences (ch "<" :: m) (a ++ y :: z) = occurrences (ch "<" :: m) (y :: z).
Proof.
  intros Hm Hy a z. induction a as [| c a IH]; [reflexivity |].
  cbn [no_mount_start]. intros H. apply andb_prop in H as [Hc Ha].
  change (occurrences (ch "<" :: m) ((c :: a) ++ y :: z))
    with ((if startsWith (c :: a ++ y :: z) (ch "<" :: m) then 1 else 0)
          + occurrences (ch "<" :: m) (a ++ y :: z)).
  rewrite (IH Ha). cbn [startsWith]. rewrite N.eqb_sym.
  destruct (N.eqb c (ch "<")); [| reflexivity].
  rewrite (dead_after_startsWith _ _ (dead_after_before _ _ Hm Hy _ z Hc)).
  reflexivity.
Qed.

(** ** Fixed texts and the rest of a mount point *)

Lemma dead_within_after (m w : jsstring) :
  dead_within m w = true ->
  forall y r, dead_after (m ++ y) (w ++ r) = true.
Proof.
  revert w. induction m as [| x m IH]; intros w H y r;
    [destruct w; discriminate |].
  destruct w as [| c w]; [discriminate |].
  cbn [app dead_after dead_within] in *. destruct (N.eqb c x); [| exact H].
  exact (IH w H y r).
Qed.

Lemma no_mount_start_settled (m f : jsstring) :
  settled m f = true ->
  forall y r, no_mount_start (m ++ y) (f ++ r) = no_mount_start (m ++ y) r.
Proof.
  induction f as [| c f IH]; [reflexivity |]. cbn [settled].
  intros H y r. apply andb_prop in H as [Hc Hf].
  cbn [app no_mount_start]. rewrite (IH Hf).
  destruct (N.eqb c (ch "<")); [| reflexivity].
  rewrite (dead_within_after _ _ Hc). reflexivity.
Qed.

Lemma no_mount_start_skip (m s r : jsstring) :
  forallb (is_not (ch "<")) s = true ->
  no_mount_start m (s ++ r) = no_mount_start m r.
Proof.
  induction s as [| c s IH]; [reflexivity |]. cbn [forallb].
  intros H. apply andb_prop in H as [Hc Hs]. cbn [app no_mount_start].
  unfold is_not in Hc. destruct (N.eqb c (ch "<")); [discriminate |].
  exact (IH Hs).
Qed.

(** The mount point of another id is dead. *)
Lemma other_id_dead (id : jsstring) :
  forallb is_word id = true ->
  forall (other r : jsstring),
    forallb is_word other = true -> other <> id ->
    dead_after (id ++ dq) (other ++ dq ++ r) = true.
Proof.
  assert (Hq : forall c, is_word c = true ->
                         N.eqb c 34 = false /\ N.eqb 34 c = false
                         /\ N.eqb c (ch "{") = false).
  { intros c Hc. repeat split;
      match goal with
      | |- N.eqb ?a ?b = false =>
          destruct (N.eqb_spec a b) as [E |]; [| reflexivity];
          first [rewrite E in Hc | rewrite <- E in Hc]; discriminate
      end. }
  induction id as [| x id IH]; intros Hid other r Ho Hne.
  - destruct other as [| c other]; [congruence |].
    cbn [forallb] in Ho. apply andb_prop in Ho as [Hc _].
    destruct (Hq c Hc) as (H1 & _ & H3).
    cbn [app dead_after]. unfold dq. cbn [app dead_after].
    rewrite H1, H3. reflexivity.
  - cbn [forallb] in Hid. apply andb_prop in Hid as [Hx Hid].
    destruct other as [| c other].
    + destruct (Hq x Hx) as (_ & H2 & _). unfold dq. cbn [app dead_after].
      rewrite H2. reflexivity.
    + cbn [forallb] in Ho. apply andb_prop in Ho as [Hc Ho].
      cbn [app dead_after]. destruct (N.eqb_spec c x) as [-> |].
      * apply IH; [exact Hid | exact Ho | congruence].
      * destruct (Hq c Hc) as (_ & _ & ->). reflexivity.
Qed.


(** ** Occurrences that cannot overlap *)

Lemma agree_of_eq (a b r1 r2 : jsstring) :
  a ++ r1 = b ++ r2 -> agree a b = true.
Proof.
  revert b. induction a as [| x a IH]; intros [| y b] H; try reflexivity.
  cbn [app] in H. injection H as -> H. cbn [agree].
  rewrite N.eqb_refl. exact (IH b H).
Qed.

Lemma agree_head (x y : char) (a b : jsstring) :
  N.eqb x y = false -> agree (x :: a) (y :: b) = false.
Proof. intros H. cbn [agree]. rewrite H. reflexivity. Qed.

(** Two texts [u] and [t] that stand in one text, where no end of [u]
    agrees with [t] and no proper end of [t] agrees with [u], stand apart:
    one of them lies wholly before the other. *)
Lemma no_overlap (a u b pre t post : jsstring) :
  a ++ u ++ b = pre ++ t ++ post ->
  u <> [] ->
  (forall l1 l2, u = l1 ++ l2 -> l2 <> [] -> agree l2 t = false) ->
  (forall l1 l2, t = l1 ++ l2 -> l1 <> [] -> l2 <> [] -> agree l2 u = false) ->
  (exists l, pre = a ++ u ++ l /\ b = l ++ t ++ post)
  \/ (exists l, a = pre ++ t ++ l /\ post = l ++ u ++ b).
Proof.
  intros Heq Hne Hu Ht.
  apply app_eq_app in Heq as [l [[Ha Hr] | [Hp Hr]]].
  - (* [a = pre ++ l] and [t ++ post = l ++ u ++ b] *)
    apply app_eq_app in Hr as [l' [[Ht' Hr'] | [Hl Hr']]].
    + (* [t = l ++ l'] and [u ++ b = l' ++ post] *)
      destruct l' as [| y l'].
      * right. exists []. rewrite app_nil_r in Ht'. subst t a.
        cbn [app] in *. rewrite app_nil_r. auto.
      * exfalso. destruct l as [| x l].
        -- specialize (Hu [] u eq_refl Hne). cbn [app] in Ht'. subst t.
           rewrite (agree_of_eq _ _ _ _ Hr') in Hu. discriminate.
        -- specialize (Ht (x :: l) (y :: l') Ht' ltac:(discriminate)
                         ltac:(discriminate)).
           rewrite (agree_of_eq _ _ _ _ (eq_sym Hr')) in Ht. discriminate.
    + right. exists l'. subst a l. auto.
  - (* [pre = a ++ l] and [u ++ b = l ++ t ++ post] *)
    apply app_eq_app in Hr as [l' [[Hu' Hr'] | [Hl Hr']]].
    + (* [u = l ++ l'] and [t ++ post = l' ++ b] *)
      destruct l' as [| y l'].
      * left. exists []. rewrite app_nil_r in Hu'. subst u pre.
        cbn [app] in *. rewrite app_nil_r. auto.
      * exfalso. specialize (Hu l (y :: l') Hu' ltac:(discriminate)).
        rewrite (agree_of_eq _ _ _ _ (eq_sym Hr')) in Hu. discriminate.
    + left. exists l'. subst pre l. auto.
Qed.


(** ** The text of a marker *)

Lemma forallb_not_head {A : Type} (q : A -> bool) (l1 l2 l : list A) :
  forallb q l = true -> l = l1 ++ l2 -> forallb q l2 = true.
Proof. intros H ->. rewrite forallb_app in H. apply andb_prop in H. tauto. Qed.

(** A text that opens with two braces and holds no other opening brace:
    none of its proper ends agrees with a text that opens with two
    braces. *)
Lemma marker_end_disagrees (x : char) (rest t : jsstring) :
  N.eqb x (ch "{") = false -> forallb (is_not (ch "{")) rest = true ->
  forall l1 l2 u,
    ch "{" :: ch "{" :: x :: rest = l1 ++ l2 -> l1 <> [] -> l2 <> [] ->
    agree l2 (ch "{" :: ch "{" :: u) = false.
Proof.
  intros Hx Hrest l1 l2 u Heq H1 H2.
  destruct l1 as [| a l1]; [congruence |]. injection Heq as <- Heq.
  destruct l1 as [| b l1].
  - cbn [app] in Heq. subst l2. cbn [agree]. rewrite N.eqb_refl, Hx. reflexivity.
  - injection Heq as <- Heq. destruct l2 as [| c l2]; [congruence |].
    assert (Hc : forallb (is_not (ch "{")) (c :: l2) = true).
    { apply (@forallb_not_head _ _ l1 (c :: l2) (x :: rest)); [| exact Heq].
      cbn [forallb]. unfold is_not at 1. rewrite Hx. exact Hrest. }
    cbn [forallb] in Hc. apply andb_prop in Hc as [Hc _]. unfold is_not in Hc.
    cbn [agree]. destruct (N.eqb c (ch "{")); [discriminate | reflexivity].
Qed.

(** A text that closes with two braces and holds no other closing brace:
    none of its ends agrees with a text whose third unit is a closing
    brace between units that are none. *)
Lemma closing_end_disagrees (body : jsstring) (x0 x1 x3 : char) (u : jsstring) :
  forallb (is_not (ch "}")) body = true ->
  N.eqb x0 (ch "}") = false -> N.eqb x1 (ch "}") = false ->
  N.eqb x3 (ch "}") = false ->
  forall l1 l2,
    body ++ js "}}" = l1 ++ l2 -> l2 <> [] ->
    agree l2 (x0 :: x1 :: ch "}" :: x3 :: u) = false.
Proof.
  intros Hbody H0 H1 H3 l1 l2 Heq Hne.
  assert (Hsym : forall a b, N.eqb a b = false -> N.eqb b a = false)
    by (intros a b H; rewrite N.eqb_sym; exact H).
  apply app_eq_app in Heq as [l [[-> Hr] | [-> Hr]]].
  - (* [l2 = l ++ }}], with [l] an end of the body *)
    subst l2. rewrite forallb_app in Hbody. apply andb_prop in Hbody as [_ Hl].
    change (js "}}") with [ch "}"; ch "}"].
    destruct l as [| b0 [| b1 [| b2 l]]]; cbn [app agree].
    + rewrite (Hsym _ _ H0). reflexivity.
    + rewrite (Hsym _ _ H1), andb_false_r. reflexivity.
    + rewrite (Hsym _ _ H3), !andb_false_r. reflexivity.
    + cbn [forallb] in Hl. apply andb_prop in Hl as [_ Hl].
      apply andb_prop in Hl as [_ Hl]. apply andb_prop in Hl as [Hb2 _].
      unfold is_not in Hb2. destruct (N.eqb b2 (ch "}")); [discriminate |].
      rewrite !andb_false_r. reflexivity.
  - (* [l2] lies in the two braces *)
    destruct l2 as [| c l2]; [congruence |].
    assert (Hc : c = ch "}").
    { change (js "}}") with [ch "}"; ch "}"] in Hr.
      destruct l as [| a [| b [| ? ?]]]; cbn [app] in Hr; congruence. }
    subst c. cbn [agree]. rewrite (Hsym _ _ H0). reflexivity.
Qed.

Lemma placeholderTag_opens id d :
  placeholderTag id d
  = ch "{" :: ch "{" :: ch "V"
    :: (js "ISUALIZATION:" ++ id ++ js ":" ++ d ++ js "}}").
Proof. reflexivity. Qed.

Lemma placeholderTag_closes id d :
  placeholderTag id d = (js "{{VISUALIZATION:" ++ id ++ js ":" ++ d) ++ js "}}".
Proof. unfold placeholderTag. rewrite <- !app_assoc. reflexivity. Qed.

Lemma word_no_brace (s : jsstring) :
  forallb is_word s = true ->
  forallb (is_not (ch "{")) s = true /\ forallb (is_not (ch "}")) s = true.
Proof.
  intros H. pose proof (word_plain _ H) as Hp. split.
  - exact (plain_no_brace _ Hp).
  - rewrite forallb_forall in *. intros c Hc. specialize (H c Hc).
    unfold is_not. destruct (N.eqb_spec c (ch "}")) as [-> |]; [discriminate | reflexivity].
Qed.

(** The markers of two ids differ where their ids do. *)
Lemma tags_disagree (id : jsstring) :
  forallb is_word id = true ->
  forall (id' d d' : jsstring),
    forallb is_word id' = true -> id <> id' ->
    agree (placeholderTag id d) (placeholderTag id' d') = false.
Proof.
  intros Hid id' d d' Hid' Hne. unfold placeholderTag.
  assert (Hskip : forall (p a b : jsstring), agree (p ++ a) (p ++ b) = agree a b).
  { induction p as [| x p IH]; intros a b; [reflexivity |].
    cbn [app agree]. rewrite N.eqb_refl. apply IH. }
  rewrite Hskip. clear Hskip.
  assert (Hw : forall c, is_word c = true -> N.eqb c (ch ":") = false
                                            /\ N.eqb (ch ":") c = false).
  { intros c Hc. split;
      match goal with
      | |- N.eqb ?a ?b = false =>
          destruct (N.eqb_spec a b) as [E |]; [| reflexivity];
          first [rewrite E in Hc | rewrite <- E in Hc]; discriminate
      end. }
  revert id' Hid' Hne. induction id as [| x id IH]; intros [| y id'] Hid' Hne.
  - congruence.
  - cbn [forallb] in Hid'. apply andb_prop in Hid' as [Hy _].
    change (js ":" ++ d ++ js "}}") with (ch ":" :: d ++ js "}}").
    cbn [app agree]. rewrite (proj2 (Hw y Hy)). reflexivity.
  - cbn [forallb] in Hid. apply andb_prop in Hid as [Hx _].
    change (js ":" ++ d' ++ js "}}") with (ch ":" :: d' ++ js "}}").
    cbn [app agree]. rewrite (proj1 (Hw x Hx)). reflexivity.
  - cbn [forallb] in Hid, Hid'. apply andb_prop in Hid as [_ Hid].
    apply andb_prop in Hid' as [_ Hid'].
    cbn [app agree]. destruct (N.eqb_spec x y) as [-> |]; [| reflexivity].
    apply IH; [exact Hid | exact Hid' | congruence].
Qed.

(** ** One replacement of a marker *)

Lemma replace_string_cases (tag fragment text : jsstring) :
  (forall i, expand 0 i fragment = fragment) ->
  (includes text tag = false /\ replace_string tag fragment text = text)
  \/ (exists pre post,
         text = pre ++ tag ++ post
         /\ replace_string tag fragment text = pre ++ fragment ++ post).
Proof.
  intros Hf. unfold replace_string, includes.
  destruct (split_at_first tag [] text) as [[pre post] |] eqn:Hs.
  - right. apply split_at_first_spec in Hs as (a & -> & -> & _).
    exists a, post. rewrite Hf. auto.
  - left. auto.
Qed.

Lemma substitute_app c visualizations (l1 l2 : list placeholder) :
  forall text,
    substitute c visualizations (l1 ++ l2) text
    = substitute c visualizations l1 text
        ≫= substitute c visualizations l2.
Proof.
  induction l1 as [| p l1 IH]; intros text; [reflexivity |].
  cbn [app substitute].
  destruct (replacementHtml c visualizations p); [apply IH | reflexivity].
Qed.

(** A property of the text that every replacement keeps holds at the end
    of the loop. *)
Lemma substitute_keeps (P : jsstring -> Prop) c visualizations
    (placeholders : list placeholder) :
  (forall p, In p placeholders ->
     exists fragment,
       replacementHtml c visualizations p = Some fragment
       /\ forall text,
            P text ->
            P (replace_string (placeholderTag (ph_id p) (ph_description p))
                 fragment text)) ->
  forall text,
    P text ->
    exists text',
      substitute c visualizations placeholders text = Some text' /\ P text'.
Proof.
  induction placeholders as [| p rest IH]; intros Hstep text Htext.
  - exists text. auto.
  - cbn [substitute].
    destruct (Hstep p (or_introl eq_refl)) as (fragment & -> & Hkeep).
    cbn [mbind option_bind]. apply IH.
    + intros q Hq. apply Hstep. right. exact Hq.
    + apply Hkeep, Htext.
Qed.

(** ** Replacement texts with inert dollars *)

Lemma valid_index_0 n : valid_index 0 n = false.
Proof. unfold valid_index. destruct n; reflexivity. Qed.

Lemma expand_skip m i (a r : jsstring) :
  forallb (is_not (ch "$")) a = true -> expand m i (a ++ r) = a ++ expand m i r.
Proof.
  induction a as [| c a IH]; [reflexivity |]. cbn [forallb].
  intros H. apply andb_prop in H as [Hc Ha]. cbn [app expand].
  unfold is_not in Hc. rewrite Hc, (IH Ha). reflexivity.
Qed.

Lemma expand_dollar_kept i (c d : char) (rest : jsstring) :
  N.eqb c (ch "$") = true ->
  existsb (N.eqb d) (js "$&`'") = false ->
  expand 0 i (c :: d :: rest) = c :: expand 0 i (d :: rest).
Proof.
  intros Hc Hd. change (js "$&`'") with [ch "$"; ch "&"; ch "`"; ch "'"] in Hd.
  cbn [existsb] in Hd. rewrite orb_false_r in Hd.
  apply orb_false_elim in Hd as [E1 Hd]. apply orb_false_elim in Hd as [E2 Hd].
  apply orb_false_elim in Hd as [E3 E4].
  cbn [expand]. rewrite Hc, E1, E2, E3, E4. cbn [negb].
  rewrite !valid_index_0, ?andb_false_r.
  destruct (is_digit d); [| reflexivity].
  destruct rest as [| e rest]; [reflexivity |].
  rewrite ?valid_index_0, ?andb_false_r. reflexivity.
Qed.

(** An inert text before a text that does not open with [$], [&], a
    backquote or a quote is copied as it is. *)
Lemma expand_inert i (t f : jsstring) :
  inert t = true ->
  head_is (fun x => negb (existsb (N.eqb x) (js "$&`'"))) f = true ->
  expand 0 i (t ++ f) = t ++ expand 0 i f.
Proof.
  intros Ht Hf. induction t as [| c t IH]; [reflexivity |].
  cbn [inert] in Ht. apply andb_prop in Ht as [Hc Ht].
  specialize (IH Ht).
  destruct (N.eqb c (ch "$")) eqn:Ec.
  - assert (Hnext : exists d rest, t ++ f = d :: rest
                                   /\ existsb (N.eqb d) (js "$&`'") = false).
    { destruct t as [| d t].
      - destruct f as [| x f]; [discriminate |]. unfold head_is in Hf.
        exists x, f. split; [reflexivity |].
        destruct (existsb (N.eqb x) (js "$&`'")); [discriminate | reflexivity].
      - exists d, (t ++ f). split; [reflexivity |].
        destruct (existsb (N.eqb d) (js "$&`'")); [discriminate | reflexivity]. }
    destruct Hnext as (d & rest & Heq & Hd).
    cbn [app]. rewrite Heq, (@expand_dollar_kept i c d rest Ec Hd), <- Heq, IH.
    reflexivity.
  - cbn [app expand]. rewrite Ec. cbn [negb]. rewrite IH. reflexivity.
Qed.

(** ** The fragments and the starts of mount points *)

Lemma dead_after_same_prefix (p m w : jsstring) :
  dead_after (p ++ m) (p ++ w) = dead_after m w.
Proof.
  induction p as [| x p IH]; [reflexivity |].
  cbn [app dead_after]. rewrite N.eqb_refl.
  destruct (p ++ m) eqn:E; [| exact IH].
  destruct p; [| discriminate]. cbn [app] in *. subst m. reflexivity.
Qed.

Lemma mount_tail_no_lt id :
  forallb is_word id = true -> forallb (is_not (ch "<")) (mount_tail id) = true.
Proof.
  intros Hid. unfold mount_tail. rewrite !forallb_app.
  rewrite (plain_no_lt _ (word_plain _ Hid)). reflexivity.
Qed.

Lemma mount_tail_no_brace id :
  forallb is_word id = true -> forallb (is_not (ch "{")) (mount_tail id) = true.
Proof.
  intros Hid. unfold mount_tail. rewrite !forallb_app.
  rewrite (plain_no_brace _ (word_plain _ Hid)). reflexivity.
Qed.

Lemma nms_fixed (target f r : jsstring) :
  settled (tpl "div id=~vis-container-") f = true ->
  no_mount_start (mount_tail target) (f ++ r)
  = no_mount_start (mount_tail target) r.
Proof. intros Hf. unfold mount_tail. apply no_mount_start_settled, Hf. Qed.

Lemma nms_other_mount (target other r : jsstring) :
  forallb is_word target = true -> forallb is_word other = true ->
  other <> target ->
  no_mount_start (mount_tail target) (mount_point other ++ r)
  = no_mount_start (mount_tail target) r.
Proof.
  intros Ht Ho Hne. rewrite mount_point_tail. cbn [app no_mount_start].
  rewrite N.eqb_refl.
  rewrite (no_mount_start_skip _ _ _ (mount_tail_no_lt _ Ho)).
  unfold mount_tail at 1 2. rewrite <- !app_assoc, dead_after_same_prefix.
  rewrite (other_id_dead Ht _ Ho Hne). reflexivity.
Qed.

Ltac settle_pieces :=
  repeat first
    [ rewrite nms_fixed by (vm_compute; reflexivity)
    | rewrite no_mount_start_skip by assumption ].

Lemma ready_guard_no_brace (regenerating available : bool) :
  forallb (is_not (ch "{")) (ready_guard regenerating available) = true.
Proof. destruct regenerating, available; reflexivity. Qed.

Lemma ready_guard_dead (regenerating available : bool) (target r : jsstring) :
  no_mount_start (mount_tail target)
    ((js "' } }" ++ ready_guard regenerating available) ++ r)
  = no_mount_start (mount_tail target) r.
Proof.
  apply nms_fixed. destruct regenerating, available; vm_compute; reflexivity.
Qed.

Section ReadyParts.

Variable visualization : Visualization.
Variables id description encoded escapedCode : jsstring.
Variables regenerating available : bool.
Hypothesis title_plain : forallb plain (vis_description visualization) = true.
Hypothesis id_word : forallb is_word id = true.
Hypothesis description_plain : forallb plain description = true.
Hypothesis encoded_plain : forallb plain encoded = true.
Hypothesis code_no_lt : forallb (is_not (ch "<")) escapedCode = true.
Hypothesis code_inert : inert escapedCode = true.

Let fragment : jsstring :=
  fragment_ready visualization id description regenerating available
    (js "vis-container-" ++ id) encoded escapedCode.

Lemma fragment_ready_parts :
  fragment
  = ready_front visualization id description
    ++ (js "' } }" ++ ready_guard regenerating available)
    ++ mount_point id ++ ready_back encoded escapedCode.
Proof.
  unfold fragment, fragment_ready, ready_front, ready_guard, ready_back,
    mount_point, mount_prefix.
  rewrite <- !app_assoc. reflexivity.
Qed.

Lemma ready_front_dead target r :
  no_mount_start (mount_tail target)
    (ready_front visualization id description ++ r)
  = no_mount_start (mount_tail target) r.
Proof.
  pose proof (plain_no_lt _ title_plain) as H1.
  pose proof (plain_no_lt _ (word_plain _ id_word)) as H2.
  pose proof (plain_no_lt _ (escape_quotes_plain _ description_plain)) as H3.
  unfold ready_front. rewrite <- !app_assoc. settle_pieces. reflexivity.
Qed.

Lemma ready_back_dead target r :
  no_mount_start (mount_tail target) (ready_back encoded escapedCode ++ r)
  = no_mount_start (mount_tail target) r.
Proof.
  pose proof (plain_no_lt _ encoded_plain) as H1.
  unfold ready_back. rewrite <- !app_assoc. settle_pieces. reflexivity.
Qed.

Lemma fragment_ready_inert i : expand 0 i fragment = fragment.
Proof.
  pose proof (plain_no_dollar _ title_plain) as H1.
  pose proof (plain_no_dollar _ (word_plain _ id_word)) as H2.
  pose proof (plain_no_dollar _ (escape_quotes_plain _ description_plain)) as H3.
  pose proof (plain_no_dollar _ encoded_plain) as H4.
  unfold fragment, fragment_ready.
  destruct regenerating, available; cbn [negb];
    rewrite <- !app_assoc; cbn [app];
    repeat first
      [ rewrite expand_skip by first [assumption | vm_compute; reflexivity]
      | rewrite (@expand_inert i escapedCode) by first [assumption | reflexivity] ];
    rewrite expand_verbatim by reflexivity; reflexivity.
Qed.

Lemma fragment_ready_other target r :
  forallb is_word target = true -> id <> target ->
  no_mount_start (mount_tail target) (fragment ++ r)
  = no_mount_start (mount_tail target) r.
Proof.
  intros Ht Hne. rewrite fragment_ready_parts, <- !app_assoc.
  rewrite ready_front_dead.
  rewrite (app_assoc (js "' } }")), ready_guard_dead.
  rewrite (nms_other_mount _ Ht id_word Hne). apply ready_back_dead.
Qed.

End ReadyParts.

Section OtherFragments.

Variable visualization : Visualization.
Variables id description : jsstring.
Variables regenerating available : bool.
Hypothesis id_word : forallb is_word id = true.
Hypothesis description_plain : forallb plain description = true.

Lemma fragment_missing_dead target r :
  no_mount_start (mount_tail target)
    (fragment_missing id description regenerating available ++ r)
  = no_mount_start (mount_tail target) r.
Proof.
  pose proof (plain_no_lt _ description_plain) as H1.
  pose proof (plain_no_lt _ (word_plain _ id_word)) as H2.
  pose proof (plain_no_lt _ (escape_quotes_plain _ description_plain)) as H3.
  unfold fragment_missing.
  destruct regenerating, available; cbn [negb];
    rewrite <- !app_assoc; cbn [app]; settle_pieces; reflexivity.
Qed.

Hypothesis title_plain : forallb plain (vis_description visualization) = true.

Lemma fragment_loading_verbatim m i :
  expand m i (fragment_loading visualization) = fragment_loading visualization.
Proof.
  apply expand_verbatim. unfold fragment_loading. rewrite !forallb_app.
  rewrite (plain_no_dollar _ title_plain). reflexivity.
Qed.

Lemma fragment_loading_dead target r :
  no_mount_start (mount_tail target) (fragment_loading visualization ++ r)
  = no_mount_start (mount_tail target) r.
Proof.
  pose proof (plain_no_lt _ title_plain) as H1.
  unfold fragment_loading. rewrite <- !app_assoc. settle_pieces. reflexivity.
Qed.

Hypothesis error_plain : forallb plain (error_text visualization) = true.

Lemma fragment_error_verbatim m i :
  expand m i (fragment_error visualization id description regenerating available)
  = fragment_error visualization id description regenerating available.
Proof.
  apply expand_verbatim. unfold fragment_error.
  pose proof (escape_quotes_plain _ description_plain) as Hq.
  destruct regenerating, available; cbn [negb];
    rewrite !forallb_app;
    rewrite ?(plain_no_dollar _ title_plain),
      ?(plain_no_dollar _ (word_plain _ id_word)),
      ?(plain_no_dollar _ Hq), ?(plain_no_dollar _ error_plain);
    reflexivity.
Qed.

Lemma fragment_error_dead target r :
  no_mount_start (mount_tail target)
    (fragment_error visualization id description regenerating available ++ r)
  = no_mount_start (mount_tail target) r.
Proof.
  pose proof (plain_no_lt _ title_plain) as H1.
  pose proof (plain_no_lt _ (word_plain _ id_word)) as H2.
  pose proof (plain_no_lt _ (escape_quotes_plain _ description_plain)) as H3.
  pose proof (plain_no_lt _ error_plain) as H4.
  unfold fragment_error.
  destruct regenerating, available; cbn [negb];
    rewrite <- !app_assoc; cbn [app]; settle_pieces; reflexivity.
Qed.

End OtherFragments.

(** ** The markers of a text, as the pattern reads them *)

Lemma marker_shape (text : jsstring) (p : placeholder) :
  In p (placeholdersInText text) ->
  ph_id p <> [] /\ forallb is_word (ph_id p) = true
  /\ ph_description p <> []
  /\ forallb (is_not (ch "}")) (ph_description p) = true.
Proof.
  unfold placeholdersInText, exec_all. intros Hin.
  apply in_map_iff in Hin as (i & <- & Hin).
  apply exec_loop_sound_at in Hin as (b & a & e & He & -> & _).
  apply placeholder_match in He as (id & d & _ & Hcaps & Hid0 & Hid & Hd0 & Hd).
  cbn [ph_id ph_description].
  rewrite (@capture_text_of 1 _ b a e Hcaps), (@capture_text_of 2 _ b a e Hcaps).
  cbn. repeat split; auto using Forall_forallb.
Qed.

Lemma found_id (visualizations : list Visualization) (id : jsstring) v :
  List.find (fun x => jseq (vis_id x) id) visualizations = Some v ->
  vis_id v = id.
Proof. intros H. apply find_some in H as [_ H]. apply jseq_eq, H. Qed.

(** ** The fragment that replaces a marker *)

Lemma replacement_ready c visualizations (p : placeholder) v :
  forallb is_word (ph_id p) = true ->
  forallb plain (ph_description p) = true ->
  List.find (fun x => jseq (vis_id x) (ph_id p)) visualizations = Some v ->
  vis_status_of v = Ready ->
  tame v = true ->
  exists encoded,
    replacementHtml c visualizations p
    = Some (fragment_ready v (ph_id p) (ph_description p)
              (is_regenerating c (ph_id p)) (fileDataAvailable c)
              (js "vis-container-" ++ ph_id p) encoded
              (escape_html (vis_code v)))
    /\ forallb plain encoded = true
    /\ forallb plain (vis_description v) = true
    /\ inert (escape_html (vis_code v)) = true.
Proof.
  intros Hw Hp Hfind Hst Ht. unfold tame in Ht. rewrite Hst in Ht.
  apply andb_prop in Ht as [Htitle Ht]. apply andb_prop in Ht as [Hinert Hwf].
  destruct (proj2 (@encodeURIComponent_well_formed _ (vis_code v) (le_n _)) Hwf)
    as [encoded Henc].
  exists encoded. unfold replacementHtml. rewrite Hfind, Hst, Henc.
  cbn [mbind option_bind]. unfold visContainerId_of.
  rewrite (@found_id _ _ _ Hfind).
  split; [reflexivity |]. split; [| auto].
  exact (@encodeURIComponent_plain _ _ _ (le_n _) Henc).
Qed.

Lemma replacement_other c visualizations (p : placeholder) (target : jsstring) :
  forallb is_word (ph_id p) = true ->
  forallb plain (ph_description p) = true ->
  (forall v,
     List.find (fun x => jseq (vis_id x) (ph_id p)) visualizations = Some v ->
     tame v = true) ->
  forallb is_word target = true -> ph_id p <> target ->
  exists fragment,
    replacementHtml c visualizations p = Some fragment
    /\ (forall i, expand 0 i fragment = fragment)
    /\ forall r, no_mount_start (mount_tail target) (fragment ++ r)
                 = no_mount_start (mount_tail target) r.
Proof.
  intros Hw Hp Htame Ht Hne.
  destruct (List.find (fun x => jseq (vis_id x) (ph_id p)) visualizations)
    as [v |] eqn:Hfind.
  - specialize (Htame v eq_refl).
    destruct (vis_status_of v) eqn:Hst.
    + (* loading *)
      unfold tame in Htame. apply andb_prop in Htame as [Htitle _].
      exists (fragment_loading v). unfold replacementHtml. rewrite Hfind, Hst.
      split; [reflexivity |]. split.
      * intros i. apply fragment_loading_verbatim, Htitle.
      * intros r. apply fragment_loading_dead, Htitle.
    + (* ready *)
      destruct (@replacement_ready c _ _ _ Hw Hp Hfind Hst Htame)
        as (encoded & -> & Henc & Htitle & Hinert).
      eexists. split; [reflexivity |]. split.
      * intros i. apply fragment_ready_inert; auto.
      * intros r. apply fragment_ready_other; auto.
        apply escape_html_no_lt.
    + (* error *)
      unfold tame in Htame. rewrite Hst in Htame.
      apply andb_prop in Htame as [Htitle Herr].
      eexists. unfold replacementHtml. rewrite Hfind, Hst.
      split; [reflexivity |]. split.
      * intros i. apply fragment_error_verbatim; auto.
      * intros r. apply fragment_error_dead; auto.
  - eexists. unfold replacementHtml. rewrite Hfind.
    split; [reflexivity |]. split.
    + intros i. apply fragment_missing_verbatim; auto using word_plain.
    + intros r. apply fragment_missing_dead; auto.
Qed.

(** ** Markers and fragments in one text *)

Lemma marker_ends_disagree (id d : jsstring) :
  forallb is_word id = true -> forallb (is_not (ch "{")) d = true ->
  forall l1 l2 u,
    placeholderTag id d = l1 ++ l2 -> l1 <> [] -> l2 <> [] ->
    agree l2 (ch "{" :: ch "{" :: u) = false.
Proof.
  intros Hid Hd l1 l2 u Heq. rewrite placeholderTag_opens in Heq.
  assert (Hrest : forallb (is_not (ch "{"))
                    (js "ISUALIZATION:" ++ id ++ js ":" ++ d ++ js "}}") = true).
  { rewrite !forallb_app, (proj1 (word_no_brace _ Hid)), Hd. reflexivity. }
  exact (@marker_end_disagrees (ch "V") _ [] eq_refl Hrest l1 l2 u Heq).
Qed.

Lemma markers_apart (id d id' d' : jsstring) (a b pre post : jsstring) :
  forallb is_word id = true -> forallb (is_not (ch "{")) d = true ->
  forallb is_word id' = true -> forallb (is_not (ch "{")) d' = true ->
  id <> id' ->
  a ++ placeholderTag id d ++ b = pre ++ placeholderTag id' d' ++ post ->
  (exists l, pre = a ++ placeholderTag id d ++ l
             /\ b = l ++ placeholderTag id' d' ++ post)
  \/ (exists l, a = pre ++ placeholderTag id' d' ++ l
                /\ post = l ++ placeholderTag id d ++ b).
Proof.
  intros Hid Hd Hid' Hd' Hne Heq. apply (@no_overlap _ _ _ _ _ _ Heq).
  - discriminate.
  - intros l1 l2 Hs Hl2. destruct l1 as [| x l1].
    + cbn [app] in Hs. subst l2. apply tags_disagree; assumption.
    + rewrite (placeholderTag_opens id' d').
      assert (Hl1 : x :: l1 <> []) by discriminate.
      exact (@marker_ends_disagree id d Hid Hd (x :: l1) l2 _ Hs Hl1 Hl2).
  - intros l1 l2 Hs Hl1 Hl2. rewrite (placeholderTag_opens id d).
    exact (@marker_ends_disagree id' d' Hid' Hd' l1 l2 _ Hs Hl1 Hl2).
Qed.

Lemma marker_survives (id d id' d' fragment text : jsstring) :
  forallb is_word id = true -> forallb (is_not (ch "{")) d = true ->
  forallb is_word id' = true -> forallb (is_not (ch "{")) d' = true ->
  id <> id' ->
  (forall i, expand 0 i fragment = fragment) ->
  includes text (placeholderTag id d) = true ->
  includes (replace_string (placeholderTag id' d') fragment text)
    (placeholderTag id d) = true.
Proof.
  intros Hid Hd Hid' Hd' Hne Hf Hinc.
  destruct (@replace_string_cases (placeholderTag id' d') _ text Hf)
    as [[_ ->] | (pre & post & HT & ->)]; [exact Hinc |].
  apply includes_true in Hinc as (a & b & Hab). rewrite Hab in HT.
  destruct (@markers_apart _ _ _ _ _ _ _ _ Hid Hd Hid' Hd' Hne HT)
    as [(l & -> & _) | (l & _ & ->)].
  - apply includes_occurs with (a := a) (b := l ++ fragment ++ post).
    rewrite <- !app_assoc. reflexivity.
  - apply includes_occurs with (a := pre ++ fragment ++ l) (b := b).
    rewrite <- !app_assoc. reflexivity.
Qed.

(** A fragment that starts no mount point, in the place of a marker. *)
Lemma swap_marker (m id' d' fragment pre post : jsstring) :
  forallb (is_not (ch "{")) m = true ->
  (forall r, no_mount_start m (fragment ++ r) = no_mount_start m r) ->
  no_mount_start m (pre ++ placeholderTag id' d' ++ post) = true ->
  no_mount_start m (pre ++ fragment ++ post) = true.
Proof.
  intros Hm Hf H.
  assert (Hpost : no_mount_start m post = true).
  { rewrite !app_assoc in H. exact (@no_mount_start_app _ _ _ H). }
  rewrite placeholderTag_opens in H. cbn [app] in H.
  rewrite (@no_mount_start_swap _ Hm _ _ (fragment ++ post) H), Hf.
  exact Hpost.
Qed.

Lemma guard_apart (K id id' d' X R pre post : jsstring) :
  forallb (is_not (ch "{")) K = true ->
  forallb is_word id = true ->
  forallb is_word id' = true -> forallb (is_not (ch "}")) d' = true ->
  X ++ ((js "' } }" ++ K) ++ mount_point id) ++ R
  = pre ++ placeholderTag id' d' ++ post ->
  (exists l, pre = X ++ ((js "' } }" ++ K) ++ mount_point id) ++ l
             /\ R = l ++ placeholderTag id' d' ++ post)
  \/ (exists l, X = pre ++ placeholderTag id' d' ++ l
                /\ post = l ++ ((js "' } }" ++ K) ++ mount_point id) ++ R).
Proof.
  intros HK Hid Hid' Hd' Heq. apply (@no_overlap _ _ _ _ _ _ Heq).
  - discriminate.
  - intros l1 l2 Hs Hl2.
    assert (Hu : forallb (is_not (ch "{"))
                   ((js "' } }" ++ K) ++ mount_point id) = true).
    { rewrite mount_point_tail, !forallb_app, HK. cbn [forallb].
      rewrite (mount_tail_no_brace _ Hid). reflexivity. }
    pose proof (forallb_not_head _ l1 l2 Hu Hs) as H2.
    destruct l2 as [| x l2]; [congruence |].
    cbn [forallb] in H2. apply andb_prop in H2 as [Hx _].
    rewrite placeholderTag_opens. cbn [agree]. unfold is_not in Hx.
    destruct (N.eqb x (ch "{")); [discriminate | reflexivity].
  - intros l1 l2 Hs _ Hl2. rewrite placeholderTag_closes in Hs.
    change ((js "' } }" ++ K) ++ mount_point id)
      with (ch "'" :: ch " " :: ch "}" :: ch " "
            :: (ch "}" :: K ++ mount_point id)).
    assert (Hbody : forallb (is_not (ch "}"))
                      (js "{{VISUALIZATION:" ++ id' ++ js ":" ++ d') = true).
    { rewrite !forallb_app, (proj2 (word_no_brace _ Hid')), Hd'. reflexivity. }
    exact (@closing_end_disagrees _ (ch "'") (ch " ") (ch " ")
             (ch "}" :: K ++ mount_point id) Hbody eq_refl eq_refl eq_refl
             l1 l2 Hs Hl2).
Qed.

(** ** The loop over the markers and the mount point of one id *)

Section MountInvariant.

Variable c : component.
Variable visualizations : list Visualization.
Variables id description : jsstring.
Hypothesis id_word : forallb is_word id = true.
Hypothesis description_plain : forallb plain description = true.

(** The marker of [id] is still in the text. *)
Let pending (text : jsstring) : Prop :=
  no_mount_start (mount_tail id) text = true
  /\ includes text (placeholderTag id description) = true.

(** The mount point of [id] is in the text, once, behind the end of the
    handler of its button. *)
Let placed (text : jsstring) : Prop :=
  exists X K R,
    text = X ++ (js "' } }" ++ K) ++ mount_point id ++ R
    /\ forallb (is_not (ch "{")) K = true
    /\ no_mount_start (mount_tail id) (X ++ js "' } }" ++ K) = true
    /\ no_mount_start (mount_tail id) R = true.

Let good (p : placeholder) : Prop :=
  forallb is_word (ph_id p) = true
  /\ forallb plain (ph_description p) = true
  /\ forallb (is_not (ch "}")) (ph_description p) = true
  /\ forall v,
       List.find (fun x => jseq (vis_id x) (ph_id p)) visualizations = Some v ->
       tame v = true.

Lemma other_keeps_pending (p : placeholder) :
  good p -> ph_id p <> id ->
  exists fragment,
    replacementHtml c visualizations p = Some fragment
    /\ forall text,
         pending text ->
         pending (replace_string (placeholderTag (ph_id p) (ph_description p))
                    fragment text).
Proof.
  intros (Hw & Hp & Hc & Ht) Hne.
  destruct (@replacement_other c _ _ _ Hw Hp Ht id_word Hne)
    as (fragment & Hf & Hv & Hd).
  exists fragment. split; [exact Hf |]. intros text [Hn Hi]. split.
  - destruct (@replace_string_cases (placeholderTag (ph_id p) (ph_description p))
                _ text Hv) as [[_ ->] | (pre & post & -> & ->)]; [exact Hn |].
    apply swap_marker with (id' := ph_id p) (d' := ph_description p); auto.
    apply mount_tail_no_brace, id_word.
  - apply marker_survives; auto using plain_no_brace.
Qed.

Lemma other_keeps_placed (p : placeholder) :
  good p -> ph_id p <> id ->
  exists fragment,
    replacementHtml c visualizations p = Some fragment
    /\ forall text,
         placed text ->
         placed (replace_string (placeholderTag (ph_id p) (ph_description p))
                   fragment text).
Proof.
  intros (Hw & Hp & Hc & Ht) Hne.
  destruct (@replacement_other c _ _ _ Hw Hp Ht id_word Hne)
    as (fragment & Hf & Hv & Hd).
  pose proof (mount_tail_no_brace _ id_word) as Hm.
  exists fragment. split; [exact Hf |].
  intros text (X & K & R & -> & HK & HX & HR).
  destruct (@replace_string_cases (placeholderTag (ph_id p) (ph_description p))
              _ (X ++ (js "' } }" ++ K) ++ mount_point id ++ R) Hv)
    as [[_ ->] | (pre & post & HT & ->)]; [exists X, K, R; auto |].
  rewrite (app_assoc (js "' } }" ++ K)) in HT.
  destruct (@guard_apart _ _ _ _ _ _ _ _ HK id_word Hw Hc HT)
    as [(l & -> & ->) | (l & -> & ->)].
  - exists X, K, (l ++ fragment ++ post). split.
    { rewrite <- !app_assoc. reflexivity. }
    split; [exact HK |]. split; [exact HX |].
    apply swap_marker with (id' := ph_id p) (d' := ph_description p); auto.
  - exists (pre ++ fragment ++ l), K, R. split.
    { rewrite <- !app_assoc. reflexivity. }
    split; [exact HK |]. split; [| exact HR].
    rewrite <- !app_assoc in HX |- *.
    apply swap_marker with (id' := ph_id p) (d' := ph_description p); auto.
Qed.

Lemma own_places v :
  List.find (fun x => jseq (vis_id x) id) visualizations = Some v ->
  vis_status_of v = Ready -> tame v = true ->
  exists fragment,
    replacementHtml c visualizations (Placeholder id description) = Some fragment
    /\ forall text,
         pending text ->
         placed (replace_string (placeholderTag id description) fragment text).
Proof.
  intros Hfind Hst Ht.
  destruct (@replacement_ready c visualizations (Placeholder id description) v
              id_word description_plain Hfind Hst Ht)
    as (encoded & Hf & Henc & Htitle & Hinert).
  cbn [ph_id ph_description] in Hf.
  pose proof (mount_tail_no_brace _ id_word) as Hm.
  eexists. split; [exact Hf |]. intros text [Hn Hi].
  destruct (@replace_string_cases (placeholderTag id description) _ text
              (fun i => @fragment_ready_inert v id description encoded
                          (escape_html (vis_code v))
                          (is_regenerating c id) (fileDataAvailable c)
                          Htitle id_word description_plain Henc Hinert i))
    as [[Hno _] | (pre & post & -> & ->)]; [congruence |].
  rewrite fragment_ready_parts.
  exists (pre ++ ready_front v id description),
    (ready_guard (is_regenerating c id) (fileDataAvailable c)),
    (ready_back encoded (escape_html (vis_code v)) ++ post).
  split; [rewrite <- !app_assoc; reflexivity |].
  split; [apply ready_guard_no_brace |].
  assert (Hpost : no_mount_start (mount_tail id) post = true).
  { rewrite !app_assoc in Hn. exact (@no_mount_start_app _ _ _ Hn). }
  split.
  - rewrite placeholderTag_opens in Hn. cbn [app] in Hn.
    rewrite <- app_assoc.
    rewrite (@no_mount_start_swap _ Hm _ _ _ Hn).
    rewrite ready_front_dead by assumption.
    rewrite <- (app_nil_r (js "' } }" ++ _)), ready_guard_dead. reflexivity.
  - rewrite ready_back_dead by (assumption || apply escape_html_no_lt).
    exact Hpost.
Qed.

Lemma substitute_places (front back : list placeholder) v :
  (forall p, In p (front ++ Placeholder id description :: back) -> good p) ->
  (forall p, In p (front ++ back) -> ph_id p <> id) ->
  List.find (fun x => jseq (vis_id x) id) visualizations = Some v ->
  vis_status_of v = Ready ->
  forall text,
    pending text ->
    exists text',
      substitute c visualizations (front ++ Placeholder id description :: back)
        text = Some text'
      /\ placed text'.
Proof.
  intros Hgood Hother Hfind Hst text Htext.
  assert (Hown : good (Placeholder id description)).
  { apply Hgood, in_or_app. right. left. reflexivity. }
  destruct Hown as (_ & _ & _ & Htame). specialize (Htame v Hfind).
  rewrite substitute_app.
  destruct (@substitute_keeps pending c visualizations front) with (text := text)
    as (text1 & -> & H1); [| exact Htext |].
  { intros p Hp. apply other_keeps_pending.
    - apply Hgood, in_or_app. left. exact Hp.
    - apply Hother, in_or_app. left. exact Hp. }
  cbn [mbind option_bind substitute].
  destruct (@own_places v Hfind Hst Htame) as (fragment & -> & Hplace).
  cbn [mbind option_bind ph_id ph_description].
  apply (@substitute_keeps placed c visualizations back).
  - intros p Hp. apply other_keeps_placed.
    + apply Hgood, in_or_app. right. right. exact Hp.
    + apply Hother, in_or_app. right. exact Hp.
  - apply Hplace, H1.
Qed.

End MountInvariant.

(** ** The final strip of [formatResponse] *)

Lemma braces_match (bef aft : jsstring) e :
  exec_at re_braces bef aft = Some e ->
  exists run,
    aft = js "{{" ++ run ++ js "}}" ++ after e
    /\ run <> [] /\ forallb (is_not (ch "}")) run = true.
Proof.
  unfold exec_at. intros Hex.
  apply rmatch_sound in Hex as (st' & Hm & [= <-]).
  unfold re_braces, Seqs in Hm. cbn [pat_re pat_ci fold_right] in Hm.
  apply Matches_Seq_inv in Hm as (s1 & H1 & Hm).
  apply Matches_Seq_inv in Hm as (s2 & H2 & Hm).
  apply Matches_Seq_inv in Hm as (s3 & H3 & Hm).
  inversion Hm; subst; clear Hm.
  apply Matches_Lit_inv in H1 as (w1 & Hw1 & Ha1 & _).
  apply same_text_exact in Hw1. subst w1.
  apply Matches_plus_cls_read in H2 as (run & Hr0 & Hr & Har & _).
  apply Matches_Lit_inv in H3 as (w3 & Hw3 & Ha3 & _).
  apply same_text_exact in Hw3. subst w3.
  exists run. cbn [after] in *. split.
  - rewrite Ha1, Har, Ha3. reflexivity.
  - split; [exact Hr0 | apply Forall_forallb, Hr].
Qed.

Lemma braces_found (bef run rest : jsstring) :
  run <> [] -> forallb (is_not (ch "}")) run = true ->
  exists e,
    exec_at re_braces bef (js "{{" ++ run ++ js "}}" ++ rest) = Some e
    /\ after e = rest.
Proof.
  intros Hr0 Hr.
  assert (Hsome : is_Some (exec_at re_braces bef
                             (js "{{" ++ run ++ js "}}" ++ rest))).
  { unfold exec_at. eapply rmatch_complete; [| eauto].
    change (pat_ci re_braces) with false.
    unfold re_braces, Seqs; cbn [pat_re fold_right].
    step_seq; [apply (Matches_Lit (same_text_refl false (js "{{"))) |].
    step_seq; [apply Matches_plus_cls; [apply forallb_Forall, Hr | exact Hr0] |].
    step_seq; [apply (Matches_Lit (same_text_refl false (js "}}"))) | apply M_Eps]. }
  destruct Hsome as [e He]. exists e. split; [exact He |].
  apply braces_match in He as (run' & Heq & _ & Hr').
  apply app_inv_head in Heq.
  change (js "}}" ++ rest) with (ch "}" :: ch "}" :: rest) in Heq.
  change (js "}}" ++ after e) with (ch "}" :: ch "}" :: after e) in Heq.
  destruct (@run_unique (is_not (ch "}")) (ch "}") eq_refl run run' _ _ Hr Hr' Heq)
    as [_ H].
  injection H as H. symmetry. exact H.
Qed.

Lemma braces_assoc (run rest : jsstring) :
  js "{{" ++ run ++ js "}}" ++ rest = (js "{{" ++ run ++ js "}}") ++ rest.
Proof. rewrite <- !app_assoc. reflexivity. Qed.

Section Strip.

Variable f : minfo -> unit -> jsstring * unit.
Hypothesis f_empty : forall i, fst (f i tt) = [].

Let strip_from (bef s : jsstring) : jsstring :=
  fst (replace_loop re_braces f 0 bef s tt).

Lemma strip_end bef : strip_from bef [] = [].
Proof.
  unfold strip_from. rewrite replace_loop_end; [reflexivity |].
  apply exec_braces_none. intros r. discriminate.
Qed.

Lemma strip_none (c : char) (bef rest : jsstring) :
  exec_at re_braces bef (c :: rest) = None ->
  strip_from bef (c :: rest) = c :: strip_from (c :: bef) rest.
Proof.
  intros He. unfold strip_from. rewrite replace_loop_none by exact He.
  reflexivity.
Qed.

Lemma strip_plain (c : char) (bef rest : jsstring) :
  N.eqb c (ch "{") = false ->
  strip_from bef (c :: rest) = c :: strip_from (c :: bef) rest.
Proof.
  intros Hc. apply strip_none, exec_braces_none. intros r [= -> _].
  discriminate.
Qed.

Lemma strip_dead (w : jsstring) :
  forallb (is_not (ch "{")) w = true ->
  forall bef rest,
    strip_from bef (w ++ rest) = w ++ strip_from (rev w ++ bef) rest.
Proof.
  induction w as [| c w IH]; intros Hw bef rest; [reflexivity |].
  cbn [forallb] in Hw. apply andb_prop in Hw as [Hc Hw].
  unfold is_not in Hc. apply negb_true_iff in Hc.
  cbn [app]. rewrite (@strip_plain _ _ _ Hc), (IH Hw). cbn [rev].
  rewrite <- app_assoc. reflexivity.
Qed.

Lemma strip_match (bef run rest : jsstring) :
  run <> [] -> forallb (is_not (ch "}")) run = true ->
  strip_from bef ((js "{{" ++ run ++ js "}}") ++ rest)
  = strip_from (rev (js "{{" ++ run ++ js "}}") ++ bef) rest.
Proof.
  intros Hr0 Hr. destruct (@braces_found bef _ rest Hr0 Hr) as (e & He & Ha).
  unfold strip_from. rewrite braces_assoc in He.
  rewrite (@replace_loop_match re_braces f bef _ rest e); [| discriminate | exact Ha | exact He].
  cbn [fst]. rewrite f_empty. reflexivity.
Qed.

(** The strip keeps dead what is dead. *)
Lemma dead_after_strip (m : jsstring) :
  forallb (is_not (ch "{")) m = true ->
  forall (w bef : jsstring),
    dead_after m w = true -> dead_after m (strip_from bef w) = true.
Proof.
  induction m as [| x m IH]; intros Hm w bef H; [destruct w; discriminate |].
  cbn [forallb] in Hm. apply andb_prop in Hm as [Hx Hm].
  unfold is_not in Hx. apply negb_true_iff in Hx.
  destruct w as [| c w]; [rewrite strip_end; reflexivity |].
  cbn [dead_after] in H. destruct (N.eqb c x) eqn:Ecx.
  - apply N.eqb_eq in Ecx. subst c. rewrite (@strip_plain _ _ _ Hx).
    cbn [dead_after]. rewrite N.eqb_refl. apply IH; assumption.
  - apply negb_true_iff in H. rewrite (@strip_plain _ _ _ H).
    cbn [dead_after]. rewrite Ecx, H. reflexivity.
Qed.

Lemma no_mount_start_strip (m : jsstring) :
  forallb (is_not (ch "{")) m = true ->
  forall n (s bef : jsstring),
    length s <= n ->
    no_mount_start m s = true -> no_mount_start m (strip_from bef s) = true.
Proof.
  intros Hm. induction n as [| n IH]; intros s bef Hlen H.
  - destruct s; [| cbn [length] in Hlen; lia]. rewrite strip_end. reflexivity.
  - destruct s as [| c rest]; [rewrite strip_end; reflexivity |].
    cbn [length] in Hlen.
    destruct (exec_at re_braces bef (c :: rest)) as [e |] eqn:He.
    + apply braces_match in He as (run & Heq & Hr0 & Hr).
      rewrite Heq, braces_assoc.
      rewrite (@strip_match _ _ _ Hr0 Hr). apply IH.
      * apply (f_equal (@length _)) in Heq. cbn [length] in Heq.
        rewrite !length_app in Heq. cbn [length] in Heq.
        change (length (js "{{")) with 2 in Heq. lia.
      * rewrite Heq, braces_assoc in H. exact (@no_mount_start_app _ _ _ H).
    + rewrite (@strip_none _ _ _ He). cbn [no_mount_start] in H |- *.
      apply andb_prop in H as [Hc Hrest].
      rewrite (IH rest (c :: bef) ltac:(lia) Hrest), andb_true_r.
      destruct (N.eqb c (ch "<")); [| reflexivity].
      apply dead_after_strip; assumption.
Qed.

(** No match of the strip reaches over the end of the handler of a
    button, where a closing brace is followed by a space. *)
Lemma strip_guard (K Z : jsstring) :
  forall n (X bef : jsstring),
    length X <= n ->
    exists bef',
      strip_from bef (X ++ (js "' } }" ++ K) ++ Z)
      = strip_from bef X ++ strip_from bef' ((js "' } }" ++ K) ++ Z).
Proof.
  induction n as [| n IH]; intros X bef Hlen.
  - destruct X; [| cbn [length] in Hlen; lia]. exists bef.
    rewrite strip_end. reflexivity.
  - destruct X as [| c X]; [exists bef; rewrite strip_end; reflexivity |].
    cbn [length] in Hlen.
    destruct (exec_at re_braces bef ((c :: X) ++ (js "' } }" ++ K) ++ Z))
      as [e |] eqn:He.
    + apply braces_match in He as (run & Heq & Hr0 & Hr).
      assert (Hin : exists l,
                 c :: X = (js "{{" ++ run ++ js "}}") ++ l
                 /\ after e = l ++ (js "' } }" ++ K) ++ Z).
      { rewrite braces_assoc in Heq.
        apply app_eq_app in Heq as [l [[H1 H2] | [H1 H2]]].
        - exists l. auto.
        - destruct l as [| y l].
          + exists []. rewrite app_nil_r in H1. cbn [app] in H2.
            rewrite app_nil_r. auto.
          + exfalso.
            assert (Hbody : forallb (is_not (ch "}")) (js "{{" ++ run) = true).
            { rewrite forallb_app, Hr. reflexivity. }
            rewrite (app_assoc (js "{{")) in H1.
            pose proof (@closing_end_disagrees _ (ch "'") (ch " ") (ch " ")
                          (ch "}" :: K ++ Z) Hbody eq_refl eq_refl eq_refl
                          (c :: X) (y :: l) H1 ltac:(discriminate)) as Hno.
            assert (Hyes : agree (y :: l) ((js "' } }" ++ K) ++ Z) = true).
            { apply agree_of_eq with (r1 := after e) (r2 := []).
              rewrite app_nil_r. symmetry. exact H2. }
            rewrite <- app_assoc in Hyes.
            change (js "' } }" ++ K ++ Z)
              with (ch "'" :: ch " " :: ch "}" :: ch " " :: ch "}" :: K ++ Z)
              in Hyes.
            congruence. }
      destruct Hin as (l & HX & Ha).
      assert (Hl : length l <= n).
      { apply (f_equal (@length _)) in HX. cbn [length] in HX.
        rewrite !length_app in HX.
        change (length (js "{{")) with 2 in HX. lia. }
      destruct (IH l (rev (js "{{" ++ run ++ js "}}") ++ bef) Hl) as [bef' E].
      exists bef'. rewrite HX, <- app_assoc.
      rewrite !(@strip_match _ _ _ Hr0 Hr). exact E.
    + assert (He' : exec_at re_braces bef (c :: X) = None).
      { destruct (exec_at re_braces bef (c :: X)) as [e |] eqn:E; [| reflexivity].
        apply braces_match in E as (run & Heq & Hr0 & Hr).
        rewrite Heq, braces_assoc in He. rewrite <- app_assoc in He.
        destruct (@braces_found bef _ (after e ++ (js "' } }" ++ K) ++ Z) Hr0 Hr)
          as (e' & He' & _).
        rewrite braces_assoc in He'. congruence. }
      destruct (IH X (c :: bef) ltac:(lia)) as [bef' E].
      exists bef'. cbn [app] in *.
      rewrite (@strip_none _ _ _ He), (@strip_none _ _ _ He'), E. reflexivity.
Qed.

Lemma strip_one_mount (id X K R : jsstring) :
  forallb is_word id = true ->
  forallb (is_not (ch "{")) K = true ->
  no_mount_start (mount_tail id) (X ++ js "' } }" ++ K) = true ->
  no_mount_start (mount_tail id) R = true ->
  occurrences (mount_point id)
    (strip_from [] (X ++ (js "' } }" ++ K) ++ mount_point id ++ R))
  = 1.
Proof.
  intros Hid HK HX HR.
  pose proof (@mount_tail_no_brace _ Hid) as Hm.
  pose proof (@mount_tail_no_lt _ Hid) as Hlt.
  assert (HG : forallb (is_not (ch "{")) (js "' } }" ++ K) = true).
  { rewrite forallb_app, HK. reflexivity. }
  assert (HP : forallb (is_not (ch "{")) (mount_point id) = true).
  { rewrite mount_point_tail. cbn [forallb]. rewrite Hm. reflexivity. }
  (* the text before the mount point, stripped *)
  assert (Hfront : no_mount_start (mount_tail id)
                     (strip_from [] X ++ js "' } }" ++ K) = true).
  { destruct (@strip_guard K [] _ X [] (le_n _)) as [b E].
    rewrite app_nil_r in E. rewrite <- (app_nil_r (js "' } }" ++ K)) in E at 2.
    rewrite (@strip_dead _ HG), strip_end, app_nil_r in E.
    rewrite <- E. exact (@no_mount_start_strip _ Hm _ _ _ (le_n _) HX). }
  destruct (@strip_guard K (mount_point id ++ R) _ X [] (le_n _)) as [b ->].
  rewrite (@strip_dead _ HG), (@strip_dead _ HP).
  set (SR := strip_from _ R).
  assert (HSR : no_mount_start (mount_tail id) SR = true).
  { exact (@no_mount_start_strip _ Hm _ _ _ (le_n _) HR). }
  rewrite mount_point_tail.
  rewrite (app_assoc (strip_from [] X)).
  change ((ch "<" :: mount_tail id) ++ SR) with (ch "<" :: mount_tail id ++ SR).
  rewrite (@occurrences_dead_before _ (ch "<") Hlt eq_refl _ _ Hfront).
  change (ch "<" :: mount_tail id ++ SR) with ((ch "<" :: mount_tail id) ++ SR).
  rewrite occurrences_here, occurrences_dead; [reflexivity |].
  rewrite (@no_mount_start_skip _ _ _ Hlt). exact HSR.
Qed.

End Strip.

(** ** Claims on the Code Normalizer *)

(** C2. The Code Normalizer is idempotent: a second pass over its own
    output changes nothing, for every source text. *)
Theorem normalizer_idempotent code :
  renameComponentToApp (renameComponentToApp code) = renameComponentToApp code.
Proof.
  destruct (rename_result code) as [H | H].
  - rewrite H. exact H.
  - apply rename_guarded, H.
Qed.

(** C6, as the spec states it, fails: an arrow function with a bare
    parameter is an assignment of [App] that the check does not see, and
    the helper declared next to it is renamed. *)
Lemma normalizer_misses_bare_parameter_arrow :
  renameComponentToApp
    (js "const App = props => null; function Helper() { return null; }")
  = js "const App = props => null; function App() { return null; }"
  /\ renameComponentToApp
       (js "const App = props => null; function Helper() { return null; }")
     <> js "const App = props => null; function Helper() { return null; }".
Proof.
  split; [vm_compute; reflexivity |]. vm_compute. discriminate.
Qed.

(** C6, amended.  A source that declares [App] as a function declaration,
    as an arrow function assigned with a parenthesised parameter list, or
    as a class extending React.Component, comes back from the Code
    Normalizer unchanged, code unit for code unit. *)
Theorem normalizer_keeps_source_with_App pre m post :
  EntryDecl false m ->
  renameComponentToApp (pre ++ m ++ post) = pre ++ m ++ post.
Proof.
  intros Hm. apply rename_of_EntryDecl, EntryDecl_ci, Hm.
Qed.

Lemma normalizer_keeps_source_with_App_witness :
  EntryDecl false (js "const App = (props) =>")
  /\ renameComponentToApp
       (js "function Helper() {} const App = (props) => null;")
     = js "function Helper() {} const App = (props) => null;".
Proof.
  assert (H : EntryDecl false (js "const App = (props) =>")).
  { apply (@ED_arrow false (js "const") (js " ") (js "App") (js " ")
             (js " ") (js "(props)") (js " ")).
    - apply same_text_refl.
    - repeat constructor.
    - discriminate.
    - apply same_text_refl.
    - repeat constructor.
    - repeat constructor.
    - apply (PT_list (p := js "props")). repeat constructor.
    - repeat constructor. }
  split; [exact H |].
  exact (normalizer_keeps_source_with_App
           (js "function Helper() {} ") (js " null;") H).
Defined.

(** C9. The check for an existing entry point ignores letter case: a
    source with a declaration such as [function app(] comes back
    unchanged, whatever else it declares, an upper-case component
    included. *)
Theorem normalizer_entry_check_ignores_case pre m post :
  EntryDecl true m ->
  renameComponentToApp (pre ++ m ++ post) = pre ++ m ++ post.
Proof.
  intros Hm. apply rename_of_EntryDecl, Hm.
Qed.

Lemma normalizer_entry_check_ignores_case_witness :
  EntryDecl true (js "function app(")
  /\ renameComponentToApp
       (js "function app() {} function Chart() { return null; }")
     = js "function app() {} function Chart() { return null; }".
Proof.
  assert (H : EntryDecl true (js "function app(")).
  { apply (@ED_function true (js "function") (js " ") (js "app") []).
    - apply same_text_refl.
    - repeat constructor.
    - discriminate.
    - repeat constructor.
    - constructor. }
  split; [exact H |].
  exact (normalizer_entry_check_ignores_case
           [] (js ") {} function Chart() { return null; }") H).
Defined.

(** C3, as the spec states it, fails: on a source with a function
    component and a class component two categories are applied. *)
Lemma normalizer_renames_function_and_class :
  ~ (test re_has_App
       (js "function Chart() {} class Panel extends React.Component {}") = false ->
     categories_applied
       (js "function Chart() {} class Panel extends React.Component {}") <= 1).
Proof.
  intros H.
  assert (H2 : categories_applied
                 (js "function Chart() {} class Panel extends React.Component {}")
               = 2) by (vm_compute; reflexivity).
  rewrite H2 in H. specialize (H ltac:(vm_compute; reflexivity)). lia.
Qed.

(** C3, amended.  On a source that does not declare the entry name, the
    function category and the arrow category exclude each other: when a
    function declaration is renamed the arrow pass is skipped, and
    otherwise the arrow pass runs.  The class pass runs in both cases. *)
Theorem normalizer_category_order code :
  test re_has_App code = false ->
  (applied_function code = true ->
     applied_arrow code = false
     /\ renameComponentToApp code = class_pass (function_pass code))
  /\ (applied_function code = false ->
     renameComponentToApp code = class_pass (arrow_pass code)).
Proof.
  intros Ht. unfold applied_function, applied_arrow,
    renameComponentToApp_console, renameComponentToApp.
  destruct (rename_run_passes code Ht)
    as (l1 & l3 & Hk1 & Hk3 & [(Hne & ->) | (-> & l2 & Hk2 & ->)]);
    cbn [fst snd existsb is_function_line is_arrow_line orb];
    rewrite !existsb_app.
  - split; [intros _ | intros Hf].
    + split; [| reflexivity].
      rewrite (other_kind_absent is_function_line is_arrow_line l1),
        (other_kind_absent is_class_line is_arrow_line l3); auto;
        intros []; simpl; congruence.
    + destruct l1 as [| x l1]; [congruence |].
      simpl in Hk1, Hf. apply andb_prop in Hk1 as [Hx _].
      rewrite Hx in Hf. discriminate.
  - split; [intros Hf | reflexivity].
    rewrite (other_kind_absent is_arrow_line is_function_line l2),
      (other_kind_absent is_class_line is_function_line l3) in Hf; auto;
      try (intros []; simpl; congruence).
    discriminate.
Qed.

Lemma normalizer_category_order_witness :
  test re_has_App
    (js "function Chart() {} const Row = () => 1; class Panel extends React.Component {}")
  = false
  /\ renameComponentToApp
       (js "function Chart() {} const Row = () => 1; class Panel extends React.Component {}")
     = js "function App() {} const Row = () => 1; class App extends React.Component {}".
Proof.
  assert (Ht : test re_has_App
    (js "function Chart() {} const Row = () => 1; class Panel extends React.Component {}")
  = false) by (vm_compute; reflexivity).
  split; [exact Ht |].
  destruct (normalizer_category_order _ Ht) as [H _].
  destruct (H ltac:(vm_compute; reflexivity)) as [_ ->].
  vm_compute. reflexivity.
Defined.

(** ** Claims on the session store *)

(** C4, amended.  When the first write of the session list fails with a
    quota-exceeded error, [saveToLocalStorage] writes exactly once more,
    with [fileData] removed from every session.  When that write is
    accepted the notice is shown, once in this call, and the save
    succeeds; when it fails too, the failure is logged, nothing else is
    tried, no notice is shown and the storage is left as it was.  This
    holds at every call, in every state: a later save that meets the
    quota takes the same path and shows the notice again. *)
Theorem quota_failure_retries_once_stripped
    (JSON_stringify : json -> jsstring)
    (try_setItem : gmap jsstring jsstring -> jsstring -> jsstring -> set_outcome)
    (tabs : list LearningTab) (w : world) :
  let key := js "learningTabs" in
  let first := JSON_stringify (json_of_tabs tabs) in
  let retry := JSON_stringify (json_of_tabs (List.map without_fileData tabs)) in
  try_setItem (localStorage w) key first = SetQuotaExceeded ->
  exists warning,
    (warning = [] \/ warning = [WarnApproachingLimit])
    /\ saveToLocalStorage JSON_stringify try_setItem key (json_of_tabs tabs) w
       = match try_setItem (localStorage w) key retry with
         | SetOk =>
             (true,
              World (<[key := retry]> (localStorage w))
                (trace w ++ warning
                 ++ [CallSetItem key first SetQuotaExceeded; ErrorSaving;
                     CallSetItem key retry SetOk;
                     WarnSavedWithoutFileData; AlertStorageLimit]))
         | failure =>
             (false,
              World (localStorage w)
                (trace w ++ warning
                 ++ [CallSetItem key first SetQuotaExceeded; ErrorSaving;
                     CallSetItem key retry failure; ErrorRetryFailed]))
         end.
Proof.
  intros key first retry Hfirst. subst key.
  exists (if N.ltb (4 * (1024 * 1024)) (blob_size first)
          then [WarnApproachingLimit] else []).
  split; [destruct (N.ltb _ _); auto |].
  unfold saveToLocalStorage, setItem. fold first.
  rewrite jseq_refl, strippedData_tabs. fold retry.
  change (is_array (json_of_tabs tabs)) with true. cbn [andb].
  destruct (N.ltb _ _); cbn [emit localStorage trace]; rewrite Hfirst;
    cbn [emit localStorage trace];
    destruct (try_setItem (localStorage w) (js "learningTabs") retry);
    unfold emit; cbn [localStorage trace]; rewrite <- ?app_assoc;
    reflexivity.
Qed.

Lemma quota_failure_retries_once_stripped_witness :
  quota_browser 250 (localStorage empty_world) (js "learningTabs")
    (JSON_print (json_of_tabs example_tabs)) = SetQuotaExceeded
  /\ fst (saveToLocalStorage JSON_print (quota_browser 250) (js "learningTabs")
            (json_of_tabs example_tabs) empty_world) = true.
Proof.
  assert (H : quota_browser 250 (localStorage empty_world) (js "learningTabs")
                (JSON_print (json_of_tabs example_tabs)) = SetQuotaExceeded)
    by (vm_compute; reflexivity).
  split; [exact H |].
  destruct (quota_failure_retries_once_stripped JSON_print (quota_browser 250)
              example_tabs empty_world H) as (warning & _ & ->).
  vm_compute. reflexivity.
Defined.

(** C4, as the spec states it, fails: the notice is not shown one time
    only.  It belongs to one call of the save: the sessions in memory
    keep their bytes, so the next save of the list meets the quota again
    and shows the notice again. *)
Lemma notice_repeats_on_next_save :
  let w1 := save_effect JSON_print (quota_browser 250) example_tabs empty_world in
  let w2 := save_effect JSON_print (quota_browser 250) example_tabs w1 in
  List.filter (fun e => match e with AlertStorageLimit => true | _ => false end)
    (trace w2)
  = [AlertStorageLimit; AlertStorageLimit].
Proof. vm_compute. reflexivity. Qed.

(** C5. A session list that was saved and is then restored comes back
    with the same number of sessions, the same prose and the same
    artifact lists (the cached bytes are gone when the save had to strip
    them), and the last session of the list is the active one.  An
    artifact stored without a status is restored with status ready. *)
Theorem persist_restore_roundtrip
    (JSON_stringify : json -> jsstring)
    (JSON_parse : jsstring -> option json)
    (try_setItem : gmap jsstring jsstring -> jsstring -> jsstring -> set_outcome) :
  JSON_parse [] = None ->
  (forall tabs w,
      reads_back JSON_stringify JSON_parse (json_of_tabs tabs) ->
      reads_back JSON_stringify JSON_parse
        (json_of_tabs (List.map without_fileData tabs)) ->
      saved_ok JSON_stringify try_setItem tabs w = true ->
      exists restoredTabs kept,
        fst (load_effect JSON_parse initial_state
               (save_effect JSON_stringify try_setItem tabs w))
        = Restored restoredTabs (last_id tabs)
            (if Nat.ltb 0 (length tabs) then ViewContent else ViewUpload)
        /\ mapM read_tab restoredTabs = Some kept
        /\ length kept = length tabs
        /\ List.map tab_content kept = List.map tab_content tabs
        /\ List.map tab_visualizations kept = List.map tab_visualizations tabs)
  /\ (forall (stored : list StoredTab) w,
         reads_back JSON_stringify JSON_parse
           (JArr (List.map json_of_stored_tab stored)) ->
         localStorage w !! js "learningTabs"
         = Some (JSON_stringify (JArr (List.map json_of_stored_tab stored))) ->
         exists restoredTabs,
           r_learningTabs (fst (load_effect JSON_parse initial_state w))
           = restoredTabs
           /\ mapM read_tab restoredTabs
              = Some (List.map backfill_tab stored)).
Proof.
  intros Hempty. split.
  - intros tabs w Hc1 Hc2 Hok.
    destruct (save_load_roundtrip try_setItem Hempty w Hc1 Hc2 Hok)
      as (rs & kept & Hload & Hread & Hkept).
    exists rs, kept. rewrite Hload. split; [reflexivity |].
    split; [exact Hread |].
    destruct Hkept as [-> | ->]; rewrite ?length_map, ?List.map_map; auto.
  - intros stored w Hc Hget.
    destruct (@load_stored JSON_stringify JSON_parse Hempty stored initial_state w
                Hc Hget) as (rs & Hload & Hread).
    exists rs. rewrite Hload. split; [| exact Hread].
    destruct (Nat.ltb 0 (length stored)); reflexivity.
Qed.

Lemma persist_restore_roundtrip_witness :
  JSON_read [] = None
  /\ saved_ok JSON_print (quota_browser 250) example_tabs empty_world = true
  /\ (exists restoredTabs kept,
        fst (load_effect JSON_read initial_state
               (save_effect JSON_print (quota_browser 250) example_tabs
                  empty_world))
        = Restored restoredTabs (last_id example_tabs) ViewContent
        /\ mapM read_tab restoredTabs = Some kept
        /\ List.map tab_content kept = List.map tab_content example_tabs)
  /\ (exists restoredTabs,
        r_learningTabs (fst (load_effect JSON_read initial_state legacy_world))
        = restoredTabs
        /\ mapM read_tab restoredTabs = Some [backfill_tab legacy_tab]).
Proof.
  assert (He : JSON_read [] = None) by reflexivity.
  assert (Hok : saved_ok JSON_print (quota_browser 250) example_tabs empty_world
                = true) by (vm_compute; reflexivity).
  split; [exact He |]. split; [exact Hok |].
  destruct (persist_restore_roundtrip JSON_print JSON_read (quota_browser 250) He)
    as [Hround Hlegacy].
  split.
  - destruct (Hround example_tabs empty_world
                ltac:(vm_compute; reflexivity) ltac:(vm_compute; reflexivity) Hok)
      as (rs & kept & Hload & Hread & _ & Hcontent & _).
    exists rs, kept. auto.
  - exact (Hlegacy [legacy_tab] legacy_world
             ltac:(vm_compute; reflexivity) ltac:(vm_compute; reflexivity)).
Defined.

(** C7. A session created from a file of 5 MB or more holds no cached
    bytes: they are withheld when the session is built, whatever the
    serialized size, and the session read back after a save and a restore
    has none either. *)
Theorem large_file_bytes_never_cached
    (JSON_stringify : json -> jsstring)
    (JSON_parse : jsstring -> option json)
    (try_setItem : gmap jsstring jsstring -> jsstring -> jsstring -> set_outcome)
    (newTabId : jsstring) (file : File) (base64Data paperContent : jsstring)
    (extracted : list ExtractedVisualization) :
  (5 * 1024 * 1024 <= file_size file)%N ->
  let session := newTab newTabId file base64Data paperContent extracted in
  tab_fileData session = None
  /\ forall prev w,
       JSON_parse [] = None ->
       reads_back JSON_stringify JSON_parse (json_of_tabs (add_tab prev session)) ->
       reads_back JSON_stringify JSON_parse
         (json_of_tabs (List.map without_fileData (add_tab prev session))) ->
       saved_ok JSON_stringify try_setItem (add_tab prev session) w = true ->
       exists restoredTabs kept,
         r_learningTabs
           (fst (load_effect JSON_parse initial_state
                   (save_effect JSON_stringify try_setItem
                      (add_tab prev session) w)))
         = restoredTabs
         /\ mapM read_tab restoredTabs = Some kept
         /\ tab_id (List.last kept session) = newTabId
         /\ tab_fileData (List.last kept session) = None.
Proof.
  intros Hsize session.
  assert (Hnone : tab_fileData session = None).
  { unfold session, newTab, fileDataToStore. cbn [tab_fileData].
    destruct (N.ltb_spec (file_size file) (5 * 1024 * 1024)); [lia | reflexivity]. }
  split; [exact Hnone |].
  intros prev w Hempty Hc1 Hc2 Hok.
  destruct (save_load_roundtrip try_setItem Hempty w Hc1 Hc2 Hok)
    as (rs & kept & Hload & Hread & Hkept).
  exists rs, kept. rewrite Hload. split; [reflexivity |].
  split; [exact Hread |].
  destruct Hkept as [-> | ->].
  - unfold add_tab. rewrite last_add_tab. auto.
  - unfold add_tab, add_tab_list. rewrite List.map_app. cbn [List.map].
    rewrite last_last. auto.
Qed.

Lemma large_file_bytes_never_cached_witness :
  (5 * 1024 * 1024 <= file_size big_file)%N
  /\ tab_fileData big_session = None
  /\ exists restoredTabs kept,
       r_learningTabs
         (fst (load_effect JSON_read initial_state
                 (save_effect JSON_print (quota_browser 330)
                    (add_tab example_tabs big_session) empty_world)))
       = restoredTabs
       /\ mapM read_tab restoredTabs = Some kept
       /\ tab_fileData (List.last kept big_session) = None.
Proof.
  assert (H : (5 * 1024 * 1024 <= file_size big_file)%N)
    by (vm_compute; discriminate).
  split; [exact H |].
  destruct (large_file_bytes_never_cached JSON_print JSON_read
              (quota_browser 330) (js "1700000000001") big_file
              (js "JVBERi0xLjQK") (js "# Big") [] H) as [Hnone Hcycle].
  split; [exact Hnone |].
  destruct (Hcycle example_tabs empty_world eq_refl
              ltac:(vm_compute; reflexivity) ltac:(vm_compute; reflexivity)
              ltac:(vm_compute; reflexivity))
    as (rs & kept & Hload & Hread & _ & Hdata).
  exists rs, kept. auto.
Defined.

(** ** Claim on the regeneration update *)

(** C10. The update of the session list after a regeneration replaces
    artifacts, it never adds one, and it replaces only the artifacts of
    the regenerated id in the active session.  Every session keeps its
    id, title, prose, cached bytes and number of artifacts; at every
    position of its artifact list the artifact is the regenerated one
    when the session is the active one and the artifact had the
    regenerated id, and is the artifact that was there otherwise; a
    session with no artifact of the regenerated id is left exactly as it
    was. *)
Theorem regeneration_update_adds_nothing
    (activeTab visId : jsstring) (updated : Visualization)
    (prevTabs : list LearningTab) :
  length (update_tabs activeTab visId updated prevTabs) = length prevTabs
  /\ forall i tab,
       prevTabs !! i = Some tab ->
       exists tab',
         update_tabs activeTab visId updated prevTabs !! i = Some tab'
         /\ tab_id tab' = tab_id tab
         /\ tab_title tab' = tab_title tab
         /\ tab_content tab' = tab_content tab
         /\ tab_fileData tab' = tab_fileData tab
         /\ length (tab_visualizations tab') = length (tab_visualizations tab)
         /\ (forall j v,
               tab_visualizations tab !! j = Some v ->
               tab_visualizations tab' !! j
               = Some (if jseq (tab_id tab) activeTab && jseq (vis_id v) visId
                       then updated else v))
         /\ ((forall v, In v (tab_visualizations tab) -> vis_id v <> visId) ->
             tab' = tab).
Proof.
  split; [apply length_map |].
  intros i tab Hi. unfold update_tabs.
  rewrite lookup_List_map, Hi. cbn [fmap option_fmap option_map].
  eexists. split; [reflexivity |].
  destruct (jseq (tab_id tab) activeTab).
  - cbn [tab_id tab_title tab_content tab_fileData tab_visualizations andb].
    unfold replace_visualization.
    repeat (split; [reflexivity |]).
    split; [apply length_map |]. split.
    + intros j v Hj. rewrite lookup_List_map, Hj. reflexivity.
    + intros Hno. destruct tab as [i' t c vs d]. cbn [tab_id tab_title
        tab_content tab_visualizations tab_fileData] in *. clear Hi. f_equal.
      induction vs as [| v vs IH]; [reflexivity |]. cbn [List.map].
      rewrite IH by (intros v' Hv'; apply Hno; right; exact Hv').
      destruct (jseq (vis_id v) visId) eqn:Hid; [| reflexivity].
      apply jseq_eq in Hid. exfalso.
      apply (Hno v); [left; reflexivity | exact Hid].
  - cbn [andb]. repeat (split; [reflexivity |]). split; auto.
Qed.

Lemma regeneration_update_adds_nothing_witness :
  example_tabs !! 0 = Some example_tab
  /\ tab_visualizations example_tab !! 0 = Some example_vis
  /\ (exists tab',
         update_tabs (js "1700000000000") (js "abc")
           (updatedVisualization (js "abc") (js "Sales Chart")
              (js "function App() {}"))
           example_tabs !! 0 = Some tab'
         /\ tab_content tab' = tab_content example_tab
         /\ tab_visualizations tab' !! 0
            = Some (updatedVisualization (js "abc") (js "Sales Chart")
                      (js "function App() {}")))
  /\ (forall v, In v (tab_visualizations example_tab) -> vis_id v <> js "xyz")
  /\ update_tabs (js "1700000000000") (js "xyz")
       (updatedVisualization (js "xyz") (js "Missing") (js "function App() {}"))
       example_tabs !! 0
     = Some example_tab.
Proof.
  assert (Hno : forall v,
             In v (tab_visualizations example_tab) -> vis_id v <> js "xyz").
  { intros v Hv. cbv in Hv. destruct Hv as [<- | []]. discriminate. }
  split; [reflexivity |]. split; [reflexivity |]. split.
  - destruct (regeneration_update_adds_nothing (js "1700000000000") (js "abc")
                (updatedVisualization (js "abc") (js "Sales Chart")
                   (js "function App() {}"))
                example_tabs) as [_ H].
    destruct (H 0 example_tab eq_refl)
      as (tab' & Hget & _ & _ & Hcontent & _ & _ & Hat & _).
    exists tab'. split; [exact Hget |]. split; [exact Hcontent |].
    exact (Hat 0 example_vis eq_refl).
  - split; [exact Hno |].
    destruct (regeneration_update_adds_nothing (js "1700000000000") (js "xyz")
                (updatedVisualization (js "xyz") (js "Missing")
                   (js "function App() {}"))
                example_tabs) as [_ H].
    destruct (H 0 example_tab eq_refl)
      as (tab' & Hget & _ & _ & _ & _ & _ & _ & Hsame).
    rewrite Hget, (Hsame Hno). reflexivity.
Defined.

(** ** Claims on the Placeholder Protocol *)

(** C1, as the spec states it, fails: when the prose holds the marker of a
    ready artifact twice, each occurrence is replaced and the HTML holds
    two mount points with the same element id. *)
Lemma repeated_marker_two_mount_points :
  In (Placeholder (js "abc") (js "Sales Chart")) (placeholdersInText twice_marked)
  /\ List.find (fun x => jseq (vis_id x) (js "abc")) [example_vis]
     = Some example_vis
  /\ vis_status_of example_vis = Ready
  /\ mount_points example_component twice_marked [example_vis] (js "abc")
     = Some 2.
Proof.
  split; [vm_compute; left; reflexivity |].
  split; [reflexivity |]. split; [reflexivity |].
  vm_compute. reflexivity.
Qed.

(** C1, amended.  When the marker of a ready artifact occurs once among
    the markers of the prose, markers of other ids occurring any number
    of times, the HTML of [formatResponse] holds exactly one mount point
    [<div id="vis-container-<id>"], whatever the code of the artifacts
    holds in braces, quotes and markup.  This is stated for inputs on
    which the loop puts each fragment in as it is written: the marker
    stands unchanged in the converted text (see C8), the converted text
    does not itself spell the opening of that mount point, whole or
    broken off by an opening brace, the descriptions of the markers and
    of their artifacts and the error texts hold no [$], [<] or [{], no
    [$] of the escaped code of a ready artifact is followed by [$], [&],
    a backquote or a quote, and the code of the ready artifacts can be
    encoded. *)
Theorem unique_marker_one_mount_point
    (c : component) (text : jsstring) (visualizations : list Visualization)
    (v : Visualization) (id description : jsstring)
    (front back : list placeholder) :
  placeholdersInText text = front ++ Placeholder id description :: back ->
  existsb (fun p => jseq (ph_id p) id) (front ++ back) = false ->
  List.find (fun x => jseq (vis_id x) id) visualizations = Some v ->
  vis_status_of v = Ready ->
  includes (markdownToHtml text) (placeholderTag id description) = true ->
  no_mount_start (mount_tail id) (markdownToHtml text) = true ->
  forallb (tame_marker visualizations) (placeholdersInText text) = true ->
  mount_points c text visualizations id = Some 1.
Proof.
  intros Hlist Hother Hfind Hst Hinc Hdead Htame.
  rewrite forallb_forall in Htame.
  assert (Hgood : forall p,
             In p (front ++ Placeholder id description :: back) ->
             forallb is_word (ph_id p) = true
             /\ forallb plain (ph_description p) = true
             /\ forallb (is_not (ch "}")) (ph_description p) = true
             /\ forall v',
                  List.find (fun x => jseq (vis_id x) (ph_id p)) visualizations
                  = Some v' ->
                  tame v' = true).
  { intros p Hp. rewrite <- Hlist in Hp.
    destruct (marker_shape _ _ Hp) as (_ & Hw & _ & Hc).
    specialize (Htame p Hp). unfold tame_marker in Htame.
    apply andb_prop in Htame as [Hd Hv].
    repeat split; auto. intros v' Hv'. rewrite Hv' in Hv. exact Hv. }
  assert (Hown : In (Placeholder id description)
                   (front ++ Placeholder id description :: back)).
  { apply in_or_app. right. left. reflexivity. }
  destruct (Hgood _ Hown) as (Hid & Hd & _ & _).
  cbn [ph_id ph_description] in Hid, Hd.
  assert (Hne : forall p, In p (front ++ back) -> ph_id p <> id).
  { intros p Hp Heq.
    assert (Hex : existsb (fun p => jseq (ph_id p) id) (front ++ back) = true).
    { apply existsb_exists. exists p. split; [exact Hp |]. apply jseq_eq, Heq. }
    congruence. }
  destruct (@substitute_places c visualizations id description Hid Hd
              front back v Hgood Hne Hfind Hst (markdownToHtml text)
              (conj Hdead Hinc))
    as (text' & Hsub & X & K & R & -> & HK & HX & HR).
  unfold mount_points, formatResponse. rewrite Hlist, Hsub.
  cbn [mbind option_bind fmap option_fmap option_map].
  f_equal. unfold replace_regex, replace_fn.
  apply strip_one_mount; auto.
Qed.

Lemma unique_marker_one_mount_point_witness :
  placeholdersInText two_markers
  = [Placeholder (js "abc") (js "Sales Chart");
     Placeholder (js "xyz") (js "Growth"); Placeholder (js "xyz") (js "Growth")]
  /\ includes (markdownToHtml two_markers)
       (placeholderTag (js "abc") (js "Sales Chart")) = true
  /\ no_mount_start (mount_tail (js "abc")) (markdownToHtml two_markers) = true
  /\ forallb (tame_marker [styled_vis; growth_vis])
       (placeholdersInText two_markers) = true
  /\ mount_points example_component two_markers [styled_vis; growth_vis]
       (js "abc")
     = Some 1.
Proof.
  assert (H1 : placeholdersInText two_markers
               = [] ++ Placeholder (js "abc") (js "Sales Chart")
                 :: [Placeholder (js "xyz") (js "Growth");
                     Placeholder (js "xyz") (js "Growth")])
    by (vm_compute; reflexivity).
  assert (H2 : includes (markdownToHtml two_markers)
                 (placeholderTag (js "abc") (js "Sales Chart")) = true)
    by (vm_compute; reflexivity).
  assert (H3 : no_mount_start (mount_tail (js "abc"))
                 (markdownToHtml two_markers) = true)
    by (vm_compute; reflexivity).
  assert (H4 : forallb (tame_marker [styled_vis; growth_vis])
                 (placeholdersInText two_markers) = true)
    by (vm_compute; reflexivity).
  split; [exact H1 |]. split; [exact H2 |]. split; [exact H3 |].
  split; [exact H4 |].
  exact (@unique_marker_one_mount_point example_component two_markers
           [styled_vis; growth_vis] styled_vis (js "abc") (js "Sales Chart")
           [] [Placeholder (js "xyz") (js "Growth");
               Placeholder (js "xyz") (js "Growth")]
           H1 ltac:(vm_compute; reflexivity) eq_refl eq_refl H2 H3 H4).
Defined.

(** The conditions of the amended claim are needed.  A replacement
    pattern in the code of another artifact copies the text before its
    marker, the mount point of [abc] included, into its fragment. *)
Lemma replacement_pattern_copies_mount_point :
  tame (mkVisualization (js "xyz") (js "Growth")
          (js "s.replace(/x/, '$`')") Ready None) = false
  /\ mount_points example_component
       (js "A {{VISUALIZATION:abc:Sales Chart}} B {{VISUALIZATION:xyz:Growth}}")
       [styled_vis;
        mkVisualization (js "xyz") (js "Growth") (js "s.replace(/x/, '$`')")
          Ready None]
       (js "abc")
     = Some 2.
Proof. split; vm_compute; reflexivity. Qed.

(** A description of the marker that spells the opening of the mount
    point is copied into the handler of the button. *)
Lemma description_spells_mount_point :
  mount_points example_component
    (tpl "See {{VISUALIZATION:abc:<div id=~vis-container-abc~ }} here")
    [styled_vis] (js "abc")
  = Some 2.
Proof. vm_compute. reflexivity. Qed.

(** A prose that spells the opening of the mount point keeps it. *)
Lemma prose_spells_mount_point :
  mount_points example_component
    (tpl "<div id=~vis-container-abc~></div> {{VISUALIZATION:abc:Sales Chart}}")
    [styled_vis] (js "abc")
  = Some 2.
Proof. vm_compute. reflexivity. Qed.

(** A marker that stands unchanged in the converted text and has no
    artifact of its id is replaced by the error fragment of the missing
    artifact: its action reads Generate unless a regeneration of that id
    is running, and it is disabled, with the notice, when no document
    bytes are available. *)
Theorem intact_marker_missing_artifact
    (c : component) (text : jsstring) (visualizations : list Visualization)
    (id description pre post : jsstring) :
  placeholdersInText text = [Placeholder id description] ->
  List.find (fun x => jseq (vis_id x) id) visualizations = None ->
  markdownToHtml text = pre ++ placeholderTag id description ++ post ->
  forallb (is_not (ch "{")) pre = true ->
  forallb (is_not (ch "{")) post = true ->
  forallb plain description = true ->
  formatResponse c text visualizations
  = Some (pre
          ++ fragment_missing id description (is_regenerating c id)
               (fileDataAvailable c)
          ++ post).
Proof.
  intros Hone Hfind Hmd Hpre Hpost Hdesc.
  pose proof (word_plain _ (single_marker_id_word _ Hone)) as Hid.
  unfold formatResponse. rewrite Hone, Hmd.
  cbn [substitute ph_id ph_description]. unfold replacementHtml.
  cbn [ph_id ph_description]. rewrite Hfind.
  cbn [mbind option_bind]. unfold replace_string.
  change (placeholderTag id description)
    with (ch "{" :: (js "{VISUALIZATION:" ++ id ++ js ":" ++ description ++ js "}}")).
  rewrite (@split_at_first_found _ _ pre post Hpre []). cbn [rev app].
  rewrite fragment_missing_verbatim by assumption.
  rewrite strip_id; [reflexivity |].
  rewrite brace_free_skip by exact Hpre.
  rewrite fragment_missing_brace_free by assumption.
  apply no_brace_brace_free, Hpost.
Qed.

Lemma intact_marker_missing_artifact_witness :
  placeholdersInText (js "See {{VISUALIZATION:chart1:Sales chart}} below.")
  = [Placeholder (js "chart1") (js "Sales chart")]
  /\ formatResponse blank_component
       (js "See {{VISUALIZATION:chart1:Sales chart}} below.") []
     = Some (js "<p>See "
             ++ fragment_missing (js "chart1") (js "Sales chart") false false
             ++ js " below.</p>").
Proof.
  assert (H1 : placeholdersInText
                 (js "See {{VISUALIZATION:chart1:Sales chart}} below.")
               = [Placeholder (js "chart1") (js "Sales chart")])
    by (vm_compute; reflexivity).
  split; [exact H1 |].
  exact (@intact_marker_missing_artifact blank_component
           (js "See {{VISUALIZATION:chart1:Sales chart}} below.") []
           (js "chart1") (js "Sales chart") (js "<p>See ") (js " below.</p>")
           H1 eq_refl
           ltac:(vm_compute; reflexivity) ltac:(vm_compute; reflexivity)
           ltac:(vm_compute; reflexivity) ltac:(vm_compute; reflexivity)).
Defined.

(** C8 at a marker that the markdown pass disturbs: the id holds two
    underscores, the text between them is set in italics before the
    markers are looked for, and the marker is stripped with no fragment
    in its place. *)
Lemma underscored_marker_dropped :
  placeholdersInText underscored_marker
  = [Placeholder (js "sales_by_region") (js "Sales by region")]
  /\ formatResponse blank_component underscored_marker []
     = Some (js "<p>See  below.</p>").
Proof. split; vm_compute; reflexivity. Qed.

(** * Further properties of the service and of the component *)

(** ** Choosing a file *)

(** X1. An accepted type written with a wildcard, [p/*], is compared as a
    prefix without its slash: a file within the size limit is accepted
    exactly when its media type starts with [p]. *)
Theorem validateFile_wildcard_is_prefix
    (maxSize : N) (p : jsstring) (file : PickedFile) :
  forallb (is_not (ch "/")) p = true ->
  (file_size (picked file) <= maxSize * 1024 * 1024)%N ->
  fst (validateFile maxSize [p ++ js "/*"] file)
  = startsWith (picked_type file) p.
Proof.
  intros Hp Hsize. unfold validateFile.
  destruct (N.ltb_spec (maxSize * 1024 * 1024) (file_size (picked file)));
    [lia |].
  cbn [existsb]. unfold type_accepted.
  rewrite (@includes_occurs (p ++ js "/*") (js "*") (p ++ js "/") [])
    by (rewrite <- app_assoc; reflexivity).
  unfold before_first.
  change (js "/*") with (ch "/" :: js "*").
  rewrite <- (app_nil_r (ch "/" :: js "*")) at 2.
  rewrite (@split_at_first_found (ch "/") (js "*") p [] Hp []).
  cbn [rev app]. rewrite orb_false_r.
  destruct (startsWith (picked_type file) p); reflexivity.
Qed.

Lemma validateFile_wildcard_is_prefix_witness :
  forallb (is_not (ch "/")) (js "image") = true
  /\ fst (validateFile default_maxSize [js "image/*"]
            (mkPicked (mkFile (js "scan.bin") 1000) (js "imagery/raw")))
     = true.
Proof.
  split; [reflexivity |].
  exact (@validateFile_wildcard_is_prefix default_maxSize (js "image")
           (mkPicked (mkFile (js "scan.bin") 1000) (js "imagery/raw"))
           eq_refl ltac:(vm_compute; discriminate)).
Defined.

(** X2. [convertToBase64] resolves with the text between the first and
    the second comma of the data URL: the payload, for a URL with one
    comma; the payload without what follows a second comma; and
    undefined for a text without comma. *)
Theorem data_url_payload (header payload : jsstring) :
  forallb (is_not (ch ",")) header = true ->
  forallb (is_not (ch ",")) payload = true ->
  base64_of_data_url (header ++ js "," ++ payload) = Some payload
  /\ (forall rest,
        base64_of_data_url (header ++ js "," ++ payload ++ js "," ++ rest)
        = Some payload)
  /\ base64_of_data_url header = None.
Proof.
  intros Hh Hp. unfold base64_of_data_url. split; [| split].
  - change (header ++ js "," ++ payload) with (header ++ ch "," :: payload).
    rewrite split_unit_at by exact Hh.
    rewrite split_unit_plain by exact Hp. reflexivity.
  - intros rest.
    change (header ++ js "," ++ payload ++ js "," ++ rest)
      with (header ++ ch "," :: payload ++ ch "," :: rest).
    rewrite split_unit_at by exact Hh.
    rewrite split_unit_at by exact Hp. reflexivity.
  - rewrite split_unit_plain by exact Hh. reflexivity.
Qed.

Lemma data_url_payload_witness :
  base64_of_data_url (js "data:application/pdf;base64,JVBERi0xLjQK")
  = Some (js "JVBERi0xLjQK").
Proof.
  exact (proj1 (@data_url_payload (js "data:application/pdf;base64")
                  (js "JVBERi0xLjQK") eq_refl eq_refl)).
Defined.

(** ** The session store *)

(** X3. [saveToLocalStorage] returns true exactly when the entry now
    holds the data, whole or without [fileData]; when it returns false
    the storage is as it was before the call. *)
Theorem save_result_tells_storage
    (JSON_stringify : json -> jsstring)
    (try_setItem : gmap jsstring jsstring -> jsstring -> jsstring -> set_outcome)
    (key : jsstring) (data : json) (w : world) :
  let r := saveToLocalStorage JSON_stringify try_setItem key data w in
  if fst r
  then localStorage (snd r) = <[key := JSON_stringify data]> (localStorage w)
       \/ localStorage (snd r)
          = <[key := JSON_stringify (strippedData data)]> (localStorage w)
  else localStorage (snd r) = localStorage w.
Proof.
  unfold saveToLocalStorage, setItem.
  destruct (N.ltb _ _); cbn [emit localStorage trace];
    destruct (try_setItem (localStorage w) key (JSON_stringify data));
    cbn [fst snd emit localStorage trace]; auto;
    destruct (jseq key (js "learningTabs") && is_array data);
    cbn [fst snd emit localStorage trace]; auto;
    destruct (try_setItem (localStorage w) key
                (JSON_stringify (strippedData data)));
    cbn [fst snd emit localStorage trace]; auto.
Qed.

(** X4. The load effect restores a stored text exactly when it parses to
    an array whose elements each carry an array of artifacts without
    null.  Any other text, one malformed session among good ones
    included, is discarded whole: the error is logged, the entry is
    deleted and the state is left as it was. *)
Theorem load_restores_all_or_nothing
    (JSON_parse : jsstring -> option json)
    (s : restored) (w : world) (savedTabs : jsstring) :
  localStorage w !! js "learningTabs" = Some savedTabs ->
  savedTabs <> [] ->
  if restorable (JSON_parse savedTabs)
  then exists items restoredTabs,
         JSON_parse savedTabs = Some (JArr items)
         /\ length restoredTabs = length items
         /\ r_learningTabs (fst (load_effect JSON_parse s w)) = restoredTabs
         /\ snd (load_effect JSON_parse s w) = w
  else load_effect JSON_parse s w
       = (s, removeItem (js "learningTabs") (emit ErrorParsing w)).
Proof.
  intros Hget Hne. unfold load_effect. rewrite Hget.
  destruct savedTabs as [| c t]; [congruence |].
  pose proof (restore_tabs_restorable (JSON_parse (c :: t))) as Hiff.
  destruct (restorable (JSON_parse (c :: t))) eqn:Hr.
  - destruct (proj2 Hiff eq_refl) as [rs Hrs]. rewrite Hrs.
    destruct (JSON_parse (c :: t)) as [[] |]; try discriminate.
    exists items, rs. split; [reflexivity |].
    cbn [mbind option_bind restore_tabs] in Hrs.
    split; [apply (mapM_length_opt _ _ Hrs) |].
    destruct (Nat.ltb 0 (length rs)); auto.
  - destruct (JSON_parse (c :: t) ≫= restore_tabs) eqn:Hrs; [| reflexivity].
    destruct Hiff as [Hiff _].
    assert (Habs : false = true) by (apply Hiff; eauto). discriminate.
Qed.

Lemma load_restores_all_or_nothing_witness :
  load_effect JSON_read initial_state malformed_world
  = (initial_state,
     removeItem (js "learningTabs") (emit ErrorParsing malformed_world)).
Proof.
  exact (@load_restores_all_or_nothing JSON_read initial_state malformed_world
           (JSON_print
              (JArr [json_of_stored_tab legacy_tab;
                     JObj [(js "id", JStr (js "1600000000001"))]]))
           ltac:(vm_compute; reflexivity) ltac:(vm_compute; discriminate)).
Defined.

(** ** The state of the component *)

Section Invariants.

Variable maxSize : N.
Variable acceptedTypes : list jsstring.
Variable convertToBase64 : PickedFile -> conversion.

Local Abbreviation step := (step maxSize acceptedTypes convertToBase64).
Local Abbreviation run := (run maxSize acceptedTypes convertToBase64).

Ltac state_simpl :=
  cbn [a_isDragging a_file a_cachedFile a_error a_loading a_learningTabs
       a_activeTab a_view a_regenerating fst snd
       selectTab goToUpload set_isDragging set_file set_cachedFile
       set_error set_loading set_learningTabs set_activeTab set_view
       set_regenerating].

Lemma handleFileSelect_frame files s :
  a_learningTabs (handleFileSelect maxSize acceptedTypes files s)
  = a_learningTabs s
  /\ a_activeTab (handleFileSelect maxSize acceptedTypes files s)
     = a_activeTab s
  /\ a_view (handleFileSelect maxSize acceptedTypes files s) = a_view s.
Proof.
  unfold handleFileSelect. destruct files as [| f files]; [auto |].
  destruct (validateFile maxSize acceptedTypes f) as [[] e]; auto.
Qed.

Lemma handleRegenerateVisualization_state visId description s :
  snd (handleRegenerateVisualization convertToBase64 visId description s) = s
  \/ snd (handleRegenerateVisualization convertToBase64 visId description s)
     = set_regenerating visId true s.
Proof.
  unfold handleRegenerateVisualization.
  destruct (a_activeTab s) as [[| c a] |]; auto.
  destruct (find_tab _ _) as [tab |]; auto.
  destruct (regeneration_bytes _ _ _) as [| [[| d b] |]]; auto.
Qed.

Lemma handleRegenerateVisualization_frame visId description s :
  let s' := snd (handleRegenerateVisualization convertToBase64 visId
                   description s) in
  a_learningTabs s' = a_learningTabs s
  /\ a_activeTab s' = a_activeTab s /\ a_view s' = a_view s.
Proof.
  destruct (handleRegenerateVisualization_state visId description s)
    as [-> | ->]; auto.
Qed.

Lemma step_keeps_active_listed a s :
  active_is_listed s -> active_is_listed (step a s).
Proof.
  intros Hinv. pose proof Hinv as (Hview & Hact & Hcontent).
  destruct a as [| | files | files | | file now result | index confirmed | confirmed | | index | | visId description | startTab visId description result];
    cbn [step].
  - exact Hinv.
  - exact Hinv.
  - unfold handleDrop.
    destruct (handleFileSelect_frame files (set_isDragging false s))
      as (Ht & Ha & Hv).
    unfold active_is_listed. rewrite Ht, Ha, Hv.
    exact Hinv.
  - destruct (handleFileSelect_frame files s) as (Ht & Ha & Hv).
    unfold active_is_listed. rewrite Ht, Ha, Hv.
    exact Hinv.
  - unfold handleBeginLearning. destruct (a_file s);
      exact Hinv.
  - destruct result as [message | base64Data rawText];
      unfold active_is_listed, beginLearning_settled; state_simpl.
    + exact Hinv.
    + split; [discriminate |]. split; [| eauto].
      intros a [= <-]. apply find_tab_listed.
      unfold add_tab, add_tab_list. rewrite List.map_app.
      apply in_or_app. right. left. reflexivity.
  - destruct (a_learningTabs s !! index) as [tab |];
      [| exact Hinv].
    unfold handleDeleteTab. destruct confirmed; cbn [negb];
      [| exact Hinv].
    set (updatedTabs := List.filter _ (a_learningTabs s)).
    destruct (str_is (a_activeTab s) (tab_id tab)) eqn:Hdel.
    + destruct updatedTabs as [| t0 rest] eqn:Hup;
        cbn [length Nat.ltb Nat.leb]; unfold active_is_listed; state_simpl.
      * split; [discriminate |]. split; [discriminate | discriminate].
      * destruct (@last_tab_id_listed (t0 :: rest) ltac:(discriminate))
          as (a & Ha & Hin).
        split; [exact Hview |]. split.
        -- intros a'. rewrite Ha. intros [= <-].
           apply find_tab_listed, Hin.
        -- intros _. rewrite Ha. eauto.
    + unfold active_is_listed; state_simpl.
      split; [exact Hview |]. split; [| exact Hcontent].
      intros a Ha. apply find_tab_listed. apply filter_ids_other.
      * intros ->. rewrite Ha in Hdel. cbn in Hdel.
        rewrite jseq_refl in Hdel. discriminate.
      * apply find_tab_listed, Hact, Ha.
  - unfold handleClearAllTabs. destruct (clears confirmed s);
      unfold active_is_listed; state_simpl;
      [| exact Hinv].
    split; [discriminate |]. split; discriminate.
  - unfold active_is_listed; state_simpl.
    split; [discriminate |]. split; discriminate.
  - destruct (a_learningTabs s !! index) as [tab |] eqn:Hi;
      [| exact Hinv].
    unfold active_is_listed; state_simpl.
    split; [discriminate |]. split; [| eauto].
    intros a [= <-]. apply find_tab_listed, in_map.
    apply list_elem_of_In, list_elem_of_lookup. eauto.
  - destruct (a_view s) eqn:Hv; try exact Hinv. congruence.
  - destruct (handleRegenerateVisualization_frame visId description s)
      as (Ht & Ha & Hv).
    unfold active_is_listed. rewrite Ht, Ha, Hv.
    exact Hinv.
  - destruct result as [message | response];
      unfold active_is_listed, regeneration_settled; state_simpl.
    + exact Hinv.
    + split; [exact Hview |]. split; [| exact Hcontent].
      intros a Ha. apply find_tab_listed. rewrite update_tabs_ids.
      apply find_tab_listed, Hact, Ha.
Qed.

(** X5. The events of the component keep what holds in its initial
    state: the component shows the upload form or the content, never the
    visualization view; the active session, when one is set, is a session
    of the list; and the content view always has an active session.  The
    events are those of the user and the results of the timer and of the
    service; the load effect, which runs once before them, is not among
    them. *)
Theorem active_session_always_listed (actions : list action) (s : uistate) :
  active_is_listed s -> active_is_listed (run actions s).
Proof.
  revert s. induction actions as [| a actions IH]; intros s Hs; [exact Hs |].
  apply IH, step_keeps_active_listed, Hs.
Qed.

Lemma extracted_settled rawText v :
  In v (processedVisualizations
          (visualizations (extractPaperAndVisualizations rawText))) ->
  artifact_settled v.
Proof.
  unfold processedVisualizations, extractPaperAndVisualizations.
  cbn [visualizations]. rewrite List.map_map. intros Hin.
  apply in_map_iff in Hin as (m & <- & _).
  repeat split. unfold transformedCode. cbn [vis_code ev_code].
  apply rename_idem.
Qed.

Lemma step_keeps_artifacts_settled a s :
  artifacts_settled s -> artifacts_settled (step a s).
Proof.
  intros Hinv.
  destruct a as [| | files | files | | file now result | index confirmed | confirmed | | index | | visId description | startTab visId description result];
    cbn [step].
  - exact Hinv.
  - exact Hinv.
  - unfold handleDrop.
    destruct (handleFileSelect_frame files (set_isDragging false s))
      as (Ht & _). unfold artifacts_settled. rewrite Ht. exact Hinv.
  - destruct (handleFileSelect_frame files s) as (Ht & _).
    unfold artifacts_settled. rewrite Ht. exact Hinv.
  - unfold handleBeginLearning. destruct (a_file s); exact Hinv.
  - destruct result as [message | base64Data rawText];
      unfold artifacts_settled, beginLearning_settled; state_simpl;
      [exact Hinv |].
    intros tab v Htab Hv. unfold add_tab, add_tab_list in Htab.
    apply in_app_or in Htab as [Htab | [<- | []]].
    + exact (Hinv tab v Htab Hv).
    + exact (extracted_settled _ _ Hv).
  - destruct (a_learningTabs s !! index) as [tab |]; [| exact Hinv].
    unfold handleDeleteTab. destruct confirmed; cbn [negb]; [| exact Hinv].
    assert (Hsub : forall tab' v,
               In tab' (List.filter
                          (fun t => negb (jseq (tab_id t) (tab_id tab)))
                          (a_learningTabs s)) ->
               In v (tab_visualizations tab') -> artifact_settled v).
    { intros tab' v Htab Hv. apply filter_In in Htab as [Htab _].
      exact (Hinv tab' v Htab Hv). }
    destruct (str_is (a_activeTab s) (tab_id tab));
      [destruct (Nat.ltb 0 _) |];
      unfold artifacts_settled; state_simpl; exact Hsub.
  - unfold handleClearAllTabs. destruct (clears confirmed s);
      unfold artifacts_settled; state_simpl; [| exact Hinv].
    intros tab v [].
  - exact Hinv.
  - destruct (a_learningTabs s !! index) as [tab |]; exact Hinv.
  - destruct (a_view s); try exact Hinv.
    destruct (a_activeTab s) as [[| c a] |]; try exact Hinv.
    unfold backToDocument. destruct (find_tab _ _); exact Hinv.
  - destruct (handleRegenerateVisualization_frame visId description s)
      as (Ht & _). unfold artifacts_settled. rewrite Ht. exact Hinv.
  - destruct result as [message | response];
      unfold artifacts_settled, regeneration_settled; state_simpl;
      [exact Hinv |].
    intros tab' v' Htab Hv. unfold update_tabs in Htab.
    apply in_map_iff in Htab as (tab & <- & Htab).
    destruct (jseq (tab_id tab) startTab); [| exact (Hinv tab v' Htab Hv)].
    cbn [tab_visualizations] in Hv. unfold replace_visualization in Hv.
    apply in_map_iff in Hv as (v & <- & Hv).
    destruct (jseq (vis_id v) visId); [| exact (Hinv tab v Htab Hv)].
    repeat split. unfold transformedCode, updatedVisualization,
      generatedVisualizationCode. cbn [vis_code]. apply rename_idem.
Qed.

(** X6. Every artifact that the handlers put into a session is ready,
    carries no error text, and holds code that the Code Normalizer leaves
    as it is: what is written into the frame of an artifact is the code
    that is stored and shown.  When the artifacts of the sessions are so
    before a sequence of events, as they are in the initial state, they
    are so after it: no handler stores an artifact with status loading or
    error. *)
Theorem artifacts_always_settled (actions : list action) (s : uistate) :
  artifacts_settled s -> artifacts_settled (run actions s).
Proof.
  revert s. induction actions as [| a actions IH]; intros s Hs; [exact Hs |].
  apply IH, step_keeps_artifacts_settled, Hs.
Qed.

(** X7. The bytes cached for regeneration are those of the file uploaded
    last: right after a session has been created from [file], a
    regeneration in any session of the list is started with the bytes of
    [file], whatever bytes that session holds itself. *)
Theorem regeneration_uses_last_upload
    (s : uistate) (file : PickedFile) (now base64Data rawText : jsstring)
    (index : nat) (tab : LearningTab) (visId description : jsstring)
    (c : char) (bytes : jsstring) :
  a_file s = Some file ->
  a_learningTabs s !! index = Some tab ->
  tab_id tab <> [] ->
  convertToBase64 file = Resolved (Some (c :: bytes)) ->
  fst (handleRegenerateVisualization convertToBase64 visId description
         (run [BeginLearning;
               BeginLearningSettled file now (Analysed base64Data rawText);
               SelectTab index] s))
  = Started (tab_id tab) (c :: bytes).
Proof.
  intros Hfile Hi Hid Hconv. cbn [run fold_left step].
  unfold handleBeginLearning. rewrite Hfile. cbn [snd].
  unfold beginLearning_settled. state_simpl.
  unfold add_tab, add_tab_list.
  rewrite (lookup_app_l_Some _ _ _ _ Hi).
  unfold handleRegenerateVisualization. state_simpl.
  destruct (tab_id tab) as [| x i] eqn:Htid; [congruence |].
  destruct (find_tab _ _) as [current |] eqn:Hfind.
  2: { exfalso. apply (@is_Some_None LearningTab). rewrite <- Hfind.
       apply find_tab_listed. rewrite List.map_app. apply in_or_app. left.
       rewrite <- Htid. apply in_map.
       apply list_elem_of_In, list_elem_of_lookup. eauto. }
  unfold regeneration_bytes. state_simpl. rewrite Hconv. reflexivity.
Qed.

(** X8. The action of the fragments and the handler agree: when no
    document bytes are available, so that the action is rendered
    disabled, the handler never starts a regeneration and leaves the
    state as it is; when bytes are available, the active session is
    listed and the files convert, it starts one. *)
Theorem regeneration_starts_iff_bytes_available
    (visId description : jsstring) (s : uistate) :
  (fileDataAvailable (component_of s) = false ->
   is_started
     (fst (handleRegenerateVisualization convertToBase64 visId description s))
   = false
   /\ snd (handleRegenerateVisualization convertToBase64 visId description s)
      = s)
  /\ (fileDataAvailable (component_of s) = true ->
      (forall f, exists c bytes, convertToBase64 f = Resolved (Some (c :: bytes))) ->
      (exists a, a <> [] /\ a_activeTab s = Some a
                 /\ is_Some (find_tab (a_learningTabs s) (Some a))) ->
      is_started
        (fst (handleRegenerateVisualization convertToBase64 visId
                description s))
      = true).
Proof.
  unfold fileDataAvailable, component_of, current_tab,
    handleRegenerateVisualization, regeneration_bytes.
  cbn [file cachedFile learningTabs activeTab]. split.
  - intros Hno. destruct (a_activeTab s) as [[| c a] |]; auto.
    unfold find_tab.
    destruct (a_file s); [discriminate |].
    destruct (a_cachedFile s); [discriminate |]. cbn [fmap option_fmap option_map] in *.
    destruct (List.find _ _) as [tab |]; auto.
    rewrite Hno. auto.
  - intros Hyes Hconv (a & Hne & Hact & [tab Hfind]). rewrite Hact in *.
    destruct a as [| c a]; [congruence |].
    unfold jsstring in *. rewrite Hfind. unfold find_tab in Hfind.
    destruct (a_file s) as [f |].
    + destruct (Hconv f) as (x & d & ->). reflexivity.
    + destruct (a_cachedFile s) as [f |].
      * destruct (Hconv f) as (x & d & ->). reflexivity.
      * cbn [fmap option_fmap option_map] in Hyes. rewrite Hfind in Hyes.
        rewrite Hyes. unfold nonempty in Hyes.
        destruct (tab_fileData tab) as [[| x d] |]; try discriminate.
        reflexivity.
Qed.

End Invariants.

Lemma active_session_always_listed_witness :
  active_is_listed initial_app
  /\ active_is_listed
       (run default_maxSize default_acceptedTypes example_conversion
          example_actions initial_app).
Proof.
  assert (H : active_is_listed initial_app).
  { split; [discriminate |]. split; discriminate. }
  split; [exact H |].
  exact (@active_session_always_listed default_maxSize default_acceptedTypes
           example_conversion example_actions initial_app H).
Defined.

Lemma artifacts_always_settled_witness :
  artifacts_settled initial_app
  /\ artifacts_settled
       (run default_maxSize default_acceptedTypes example_conversion
          example_actions initial_app).
Proof.
  assert (H : artifacts_settled initial_app) by (intros tab v []).
  split; [exact H |].
  exact (@artifacts_always_settled default_maxSize default_acceptedTypes
           example_conversion example_actions initial_app H).
Defined.

Lemma regeneration_uses_last_upload_witness :
  a_file after_first_session = Some second_file
  /\ tab_fileData example_tab = Some (js "JVBERi0xLjQK")
  /\ fst (handleRegenerateVisualization conversion_by_name (js "abc")
            (js "Sales Chart")
            (run default_maxSize default_acceptedTypes conversion_by_name
               [BeginLearning;
                BeginLearningSettled second_file (js "1700000000001")
                  (Analysed (js "JVBERi0yLjAK") (js "# Other"));
                SelectTab 0]
               after_first_session))
     = Started (js "1700000000000") (js "@other.pdf").
Proof.
  split; [reflexivity |]. split; [reflexivity |].
  exact (@regeneration_uses_last_upload default_maxSize default_acceptedTypes
           conversion_by_name after_first_session second_file
           (js "1700000000001") (js "JVBERi0yLjAK") (js "# Other") 0
           example_tab (js "abc") (js "Sales Chart")
           (ch "@") (js "other.pdf")
           ltac:(vm_compute; reflexivity) ltac:(vm_compute; reflexivity)
           ltac:(vm_compute; discriminate) ltac:(vm_compute; reflexivity)).
Defined.

Lemma regeneration_starts_iff_bytes_available_witness :
  (fileDataAvailable (component_of initial_app) = false
   /\ is_started
        (fst (handleRegenerateVisualization example_conversion (js "abc")
                (js "Sales Chart") initial_app))
      = false)
  /\ (fileDataAvailable
        (component_of
           (run default_maxSize default_acceptedTypes example_conversion
              example_actions initial_app)) = true
      /\ is_started
           (fst (handleRegenerateVisualization example_conversion (js "abc")
                   (js "Sales Chart")
                   (run default_maxSize default_acceptedTypes
                      example_conversion example_actions initial_app)))
         = true).
Proof.
  split.
  - split; [reflexivity |].
    exact (proj1 (proj1 (@regeneration_starts_iff_bytes_available
                           example_conversion (js "abc") (js "Sales Chart")
                           initial_app)
                    eq_refl)).
  - assert (H : fileDataAvailable
                  (component_of
                     (run default_maxSize default_acceptedTypes
                        example_conversion example_actions initial_app))
                = true) by (vm_compute; reflexivity).
    split; [exact H |].
    refine (proj2 (@regeneration_starts_iff_bytes_available
                     example_conversion (js "abc") (js "Sales Chart")
                     (run default_maxSize default_acceptedTypes
                        example_conversion example_actions initial_app))
              H _ _).
    + intros f. exists (ch "J"), (js "VBERi0xLjQK"). reflexivity.
    + exists (js "1700000000000").
      split; [vm_compute; discriminate |].
      split; [vm_compute; reflexivity |]. vm_compute. eauto.
Defined.

(** ** The extraction of the paper and of the artifacts *)

(** X9. Every artifact that [extractPaperAndVisualizations] returns comes
    from a block of the text: an opener with its id (word characters, at
    least one) and its description (at least one character, none of them
    [>]), white space, the code, and the end marker; the code kept is the
    code of the block, trimmed and passed through the Code Normalizer. *)
Theorem extracted_artifacts_come_from_blocks
    (rawText : jsstring) (v : ExtractedVisualization) :
  In v (visualizations (extractPaperAndVisualizations rawText)) ->
  exists before sp code rest,
    rawText = before ++ js "<<VISUALIZATION:" ++ ev_id v ++ ch ":"
              :: ev_description v ++ js ">>" ++ sp ++ code
              ++ js "<<END_VISUALIZATION>>" ++ rest
    /\ ev_code v = renameComponentToApp (trim code)
    /\ ev_id v <> [] /\ forallb is_word (ev_id v) = true
    /\ ev_description v <> []
    /\ forallb (is_not (ch ">")) (ev_description v) = true
    /\ forallb is_space sp = true.
Proof. apply extracted_from_block. Qed.

Lemma extracted_artifacts_come_from_blocks_witness :
  exists before sp code rest,
    example_response
    = before ++ js "<<VISUALIZATION:" ++ js "abc" ++ ch ":"
      :: js "Sales Chart" ++ js ">>" ++ sp ++ code
      ++ js "<<END_VISUALIZATION>>" ++ rest
    /\ js "function App() { return <div>42</div>; }"
       = renameComponentToApp (trim code).
Proof.
  destruct (@extracted_artifacts_come_from_blocks example_response
              (mkExtracted (js "abc") (js "Sales Chart")
                 (js "function App() { return <div>42</div>; }"))
              ltac:(vm_compute; left; reflexivity))
    as (before & sp & code & rest & Htext & Hcode & _).
  exists before, sp, code, rest. auto.
Defined.

(** X10. A block that is opened and never closed is lost with all that
    follows it: when the text holds no end marker, no artifact is
    returned, and the paper is the text before the first opener,
    trimmed. *)
Theorem unterminated_block_is_lost (rawText before rest : jsstring) :
  split_at_first (js "<<VISUALIZATION:") [] rawText = Some (before, rest) ->
  includes rawText (js "<<END_VISUALIZATION>>") = false ->
  extractPaperAndVisualizations rawText = mkExtraction (trim before) [].
Proof.
  intros Hsplit Hend.
  destruct (visualizations (extractPaperAndVisualizations rawText))
    as [| v l] eqn:Hv.
  - unfold extractPaperAndVisualizations in *. cbn [visualizations] in Hv.
    rewrite Hv, Hsplit, replace_trailing_newlines, strip_newlines_trim.
    reflexivity.
  - exfalso.
    destruct (@extracted_from_block rawText v ltac:(rewrite Hv; left; reflexivity))
      as (b & sp & code & r & Htext & _).
    rewrite (@includes_occurs rawText (js "<<END_VISUALIZATION>>")
               (b ++ js "<<VISUALIZATION:" ++ ev_id v ++ ch ":"
                :: ev_description v ++ js ">>" ++ sp ++ code) r) in Hend.
    + discriminate.
    + rewrite Htext, <- !app_assoc. cbn [app]. rewrite <- !app_assoc.
      reflexivity.
Qed.

Lemma unterminated_block_is_lost_witness :
  extractPaperAndVisualizations
    (js "# Title

<<VISUALIZATION:v1:Chart>>
function Chart() { return null; }")
  = mkExtraction (js "# Title") [].
Proof.
  exact (@unterminated_block_is_lost
           (js "# Title

<<VISUALIZATION:v1:Chart>>
function Chart() { return null; }")
           (js "# Title

")
           (js "v1:Chart>>
function Chart() { return null; }")
           ltac:(vm_compute; reflexivity) ltac:(vm_compute; reflexivity)).
Defined.

(** X11. The paper never holds the opener of a block and never ends with
    a line feed.  With an opener in the text it is the text before the
    first opener, trimmed at both ends; without one it is the whole text
    less the line feeds at its end only, and no artifact is returned. *)
Theorem paper_is_text_before_blocks (rawText : jsstring) :
  let paper := paperContent (extractPaperAndVisualizations rawText) in
  includes paper (js "<<VISUALIZATION:") = false
  /\ (forall front, paper <> front ++ [10%N])
  /\ match split_at_first (js "<<VISUALIZATION:") [] rawText with
     | Some (before, _) => paper = trim before
     | None =>
         (exists n, rawText = paper ++ repeat 10%N n)
         /\ visualizations (extractPaperAndVisualizations rawText) = []
     end.
Proof.
  assert (Hpaper :
            paperContent (extractPaperAndVisualizations rawText)
            = strip_newlines
                match split_at_first (js "<<VISUALIZATION:") [] rawText with
                | Some (before, _) => trim before
                | None => rawText
                end).
  { unfold extractPaperAndVisualizations. cbn [paperContent].
    apply replace_trailing_newlines. }
  cbv zeta. rewrite !Hpaper. clear Hpaper.
  destruct (split_at_first (js "<<VISUALIZATION:") [] rawText)
    as [[before rest] |] eqn:Hsplit.
  - rewrite strip_newlines_trim. split; [| split; [| reflexivity]].
    + apply includes_false. intros a b Hp.
      destruct (trim_infix before) as (l & r & Hb).
      assert (Hpat : js "<<VISUALIZATION:" <> []) by (vm_compute; discriminate).
      apply (@before_first_clear _ _ _ _ Hpat Hsplit l a b r).
      rewrite <- Hp. exact Hb.
    + intros front H. apply trim_end in H. vm_compute in H. discriminate.
  - destruct (strip_newlines_rest rawText) as (n & Hn).
    split; [| split; [| split; [eauto |]]].
    + apply includes_false. intros a b Hp.
      apply (@split_at_first_absent _ _ _ Hsplit a (b ++ repeat 10%N n)).
      etransitivity; [exact Hn |]. rewrite Hp, <- !app_assoc. reflexivity.
    + intros front H. exact (strip_newlines_end _ _ H eq_refl).
    + destruct (visualizations (extractPaperAndVisualizations rawText))
        as [| v l] eqn:Hv; [reflexivity |]. exfalso.
      destruct (@extracted_from_block rawText v
                  ltac:(rewrite Hv; left; reflexivity))
        as (b & sp & code & r & Htext & _).
      exact (@split_at_first_absent _ _ _ Hsplit b _ Htext).
Qed.

(** X12. A response made of a paper, one well-formed block and a tail is
    taken apart into the paper, trimmed, and the one artifact of the
    block, with its id, its description and its code, trimmed and passed
    through the Code Normalizer.  The paper and the tail hold no [<], and
    the end marker occurs once after the opener. *)
Theorem single_block_roundtrip
    (paper id description sp code tail : jsstring) :
  forallb (is_not (ch "<")) paper = true ->
  id <> [] -> forallb is_word id = true ->
  description <> [] -> forallb (is_not (ch ">")) description = true ->
  forallb is_space sp = true ->
  occurrences (js "<<END_VISUALIZATION>>")
    (sp ++ code ++ js "<<END_VISUALIZATION>>" ++ tail) = 1 ->
  forallb (is_not (ch "<")) tail = true ->
  extractPaperAndVisualizations
    (paper ++ js "<<VISUALIZATION:" ++ id ++ ch ":" :: description
     ++ js ">>" ++ sp ++ code ++ js "<<END_VISUALIZATION>>" ++ tail)
  = mkExtraction (trim paper)
      [mkExtracted id description (renameComponentToApp (trim code))].
Proof.
  intros Hpaper Hid0 Hid Hd0 Hd Hsp Hone Htail.
  unfold extractPaperAndVisualizations. f_equal.
  - change (js "<<VISUALIZATION:") with (ch "<" :: js "<VISUALIZATION:") at 1.
    change (js "<<VISUALIZATION:" ++ id ++ ch ":" :: description ++ js ">>"
            ++ sp ++ code ++ js "<<END_VISUALIZATION>>" ++ tail)
      with ((ch "<" :: js "<VISUALIZATION:")
            ++ (id ++ ch ":" :: description ++ js ">>" ++ sp ++ code
                ++ js "<<END_VISUALIZATION>>" ++ tail)).
    rewrite (@split_at_first_found _ _ paper _ Hpaper []). cbn [rev app].
    rewrite replace_trailing_newlines. apply strip_newlines_trim.
  - unfold exec_all.
    rewrite (@exec_loop_dead _ _ visualization_match_head _ Hpaper).
    destruct (@visualization_block_matches (rev paper ++ []) id description sp
                code tail Hid0 Hid Hd0 Hd Hsp) as [e He].
    destruct (visualization_match _ _ He)
      as (id' & d' & sp' & code' & Ha & Hcaps & _ & Hid' & _ & Hd' & Hsp').
    apply app_inv_head in Ha.
    apply (@run_unique is_word (ch ":") eq_refl) in Ha as [<- Ha];
      [| exact Hid | apply Forall_forallb, Hid'].
    change (js ">>" ++ sp ++ code ++ js "<<END_VISUALIZATION>>" ++ tail)
      with (ch ">" :: ch ">" :: sp ++ code ++ js "<<END_VISUALIZATION>>" ++ tail)
      in Ha.
    change (js ">>" ++ sp' ++ code' ++ js "<<END_VISUALIZATION>>" ++ after e)
      with (ch ">" :: ch ">" :: sp' ++ code' ++ js "<<END_VISUALIZATION>>"
            ++ after e) in Ha.
    apply (@run_unique (is_not (ch ">")) (ch ">") eq_refl) in Ha as [<- Ha];
      [| exact Hd | apply Forall_forallb, Hd'].
    apply cons_same_head in Ha.
    assert (Hcode : sp ++ code = sp' ++ code').
    { apply (@occurrence_unique (js "<<END_VISUALIZATION>>")
               (sp ++ code ++ js "<<END_VISUALIZATION>>" ++ tail)
               (sp ++ code) tail (sp' ++ code') (after e) Hone).
      - rewrite <- !app_assoc. reflexivity.
      - rewrite Ha, <- !app_assoc. reflexivity. }
    assert (Hafter : after e = tail).
    { rewrite !(app_assoc sp), !(app_assoc sp'), <- Hcode in Ha.
      apply app_inv_head, app_inv_head in Ha. congruence. }
    assert (Htrim : trim code' = trim code).
    { rewrite <- (trim_skip sp' code') by (apply Forall_forallb, Hsp').
      rewrite <- Hcode. apply trim_skip, Hsp. }
    set (m := js "<<VISUALIZATION:" ++ id ++ ch ":" :: description ++ js ">>"
              ++ sp ++ code ++ js "<<END_VISUALIZATION>>").
    assert (Hm : js "<<VISUALIZATION:" ++ id ++ ch ":" :: description
                 ++ js ">>" ++ sp ++ code ++ js "<<END_VISUALIZATION>>" ++ tail
                 = m ++ after e).
    { unfold m. rewrite Hafter, <- !app_assoc. cbn [app].
      rewrite <- !app_assoc. reflexivity. }
    rewrite Hm in He |- *.
    rewrite (@exec_loop_match visualizationRegex _ m e) by
      (exact He || (unfold m; vm_compute; discriminate)).
    rewrite Hafter at 2.
    rewrite (@exec_loop_nothing _ _ visualization_match_head _ Htail).
    cbn [List.map]. rewrite !(@capture_text_of _ _ _ _ _ Hcaps).
    cbn [List.find fst snd Nat.eqb fmap option_fmap option_map default].
    unfold Datatypes.id. rewrite Htrim. reflexivity.
Qed.

Lemma single_block_roundtrip_witness :
  extractPaperAndVisualizations example_response
  = mkExtraction (js "# Sales

{{VISUALIZATION:abc:Sales Chart}}")
      [mkExtracted (js "abc") (js "Sales Chart")
         (js "function App() { return <div>42</div>; }")].
Proof.
  refine (eq_trans
            (@single_block_roundtrip
               (js "# Sales

{{VISUALIZATION:abc:Sales Chart}}

")
               (js "abc") (js "Sales Chart") (js "
")
               (js "function Chart() { return <div>42</div>; }
")
               [] _ _ _ _ _ _ _ _) _);
    try (vm_compute; reflexivity); try (vm_compute; discriminate).
Defined.

(** ** The markers of a paper *)

(** X13. Every marker that [extractVisualizationPlaceholders] returns
    stands in the paper as [{{VISUALIZATION:id:description}}]; its id is
    made of word characters, at least one, and its description holds at
    least one character and no closing brace. *)
Theorem markers_come_from_paper (paper : jsstring) (p : placeholder) :
  In p (extractVisualizationPlaceholders paper) ->
  (exists before rest,
      paper = before ++ placeholderTag (ph_id p) (ph_description p) ++ rest)
  /\ ph_id p <> [] /\ forallb is_word (ph_id p) = true
  /\ ph_description p <> []
  /\ forallb (is_not (ch "}")) (ph_description p) = true.
Proof.
  unfold extractVisualizationPlaceholders, exec_all. intros Hin.
  apply in_map_iff in Hin as (m & <- & Hm).
  apply exec_loop_sound_at in Hm as (b & a & e & He & -> & Htext).
  apply placeholder_match in He as (id & d & Ha & Hcaps & Hid0 & Hid & Hd0 & Hd).
  cbn [ph_id ph_description].
  rewrite !(@capture_text_of _ _ b a _ Hcaps).
  cbn [List.find fst snd Nat.eqb fmap option_fmap option_map default].
  split; [| auto using Forall_forallb].
  exists (rev b), (after e). cbn [rev app] in Htext.
  rewrite <- Htext, Ha. reflexivity.
Qed.

Lemma markers_come_from_paper_witness :
  exists before rest,
    tab_content example_tab
    = before ++ placeholderTag (js "abc") (js "Sales Chart") ++ rest.
Proof.
  exact (proj1 (@markers_come_from_paper (tab_content example_tab)
                  (Placeholder (js "abc") (js "Sales Chart"))
                  ltac:(vm_compute; left; reflexivity))).
Defined.

(** X14. A marker written from an id of word characters and a description
    without closing brace is read back as that id and that description,
    when the text around it holds no opening brace. *)
Theorem marker_roundtrip (before id description rest : jsstring) :
  forallb (is_not (ch "{")) before = true ->
  id <> [] -> forallb is_word id = true ->
  description <> [] -> forallb (is_not (ch "}")) description = true ->
  forallb (is_not (ch "{")) rest = true ->
  extractVisualizationPlaceholders
    (before ++ placeholderTag id description ++ rest)
  = [Placeholder id description].
Proof.
  intros Hbefore Hid0 Hid Hd0 Hd Hrest.
  unfold extractVisualizationPlaceholders, exec_all.
  rewrite (@exec_loop_dead _ _ placeholder_match_head _ Hbefore).
  destruct (@placeholder_tag_matches (rev before ++ []) id description rest
              Hid0 Hid Hd0 Hd) as [e He].
  destruct (placeholder_match _ _ He)
    as (id' & d' & Ha & Hcaps & _ & Hid' & _ & Hd').
  unfold placeholderTag in Ha. rewrite <- !app_assoc in Ha.
  apply app_inv_head in Ha.
  change (js ":" ++ description ++ js "}}" ++ rest)
    with (ch ":" :: description ++ js "}}" ++ rest) in Ha.
  change (js ":" ++ d' ++ js "}}" ++ after e)
    with (ch ":" :: d' ++ js "}}" ++ after e) in Ha.
  apply (@run_unique is_word (ch ":") eq_refl) in Ha as [<- Ha];
    [| exact Hid | apply Forall_forallb, Hid'].
  change (js "}}" ++ rest) with (ch "}" :: ch "}" :: rest) in Ha.
  change (js "}}" ++ after e) with (ch "}" :: ch "}" :: after e) in Ha.
  apply (@run_unique (is_not (ch "}")) (ch "}") eq_refl) in Ha as [<- Ha];
    [| exact Hd | apply Forall_forallb, Hd'].
  apply cons_same_head in Ha.
  rewrite Ha in He |- *.
  rewrite (@exec_loop_match placeholderRegex _ (placeholderTag id description) e)
    by (exact He || (unfold placeholderTag; vm_compute; discriminate)).
  rewrite <- Ha at 2.
  rewrite (@exec_loop_nothing _ _ placeholder_match_head _ Hrest).
  cbn [List.map]. rewrite !(@capture_text_of _ _ _ _ _ Hcaps).
  reflexivity.
Qed.

Lemma marker_roundtrip_witness :
  extractVisualizationPlaceholders (tab_content example_tab)
  = [Placeholder (js "abc") (js "Sales Chart")].
Proof.
  exact (@marker_roundtrip (js "# Sales

") (js "abc") (js "Sales Chart") []
           eq_refl ltac:(vm_compute; discriminate) eq_refl
           ltac:(vm_compute; discriminate) eq_refl eq_refl).
Defined.

(** ** The Placeholder Protocol *)

(** X15. On artifacts as their type declares them, [formatResponse]
    throws in one case only: the text holds a marker whose artifact, the
    first of that id, is ready and whose code holds a surrogate outside a
    pair, on which [encodeURIComponent] throws.  In every other case it
    returns the HTML. *)
Theorem formatResponse_throws_iff
    (c : component) (text : jsstring) (visualizations : list Visualization) :
  formatResponse c text visualizations = None <->
  exists p v,
    In p (placeholdersInText text)
    /\ List.find (fun x => jseq (vis_id x) (ph_id p)) visualizations = Some v
    /\ vis_status_of v = Ready
    /\ well_formed_utf16 (vis_code v) = false.
Proof.
  unfold formatResponse.
  destruct (substitute c visualizations (placeholdersInText text)
              (markdownToHtml text)) as [formattedText |] eqn:Hs;
    cbn [mbind option_bind].
  - split; [discriminate |]. intros (p & v & Hp & Hv).
    assert (Hnone : substitute c visualizations (placeholdersInText text)
                      (markdownToHtml text) = None).
    { apply substitute_None. exists p. split; [exact Hp |].
      apply replacementHtml_None. eauto. }
    congruence.
  - split; [| reflexivity]. intros _.
    apply substitute_None in Hs as (p & Hp & Hnone).
    apply replacementHtml_None in Hnone as (v & Hv). eauto.
Qed.

(** X16. The escaping of the code for display ([escapedCode], the five
    replacements of [formatResponse]): whatever the code, the escaped
    text holds no [<], no [>], no double quote and no single quote.  The
    escaped text is then part of the replacement text of the marker,
    where a [$] pattern of the code is still expanded: the statement is
    about the escaped text, not about what the [pre] element holds in
    the end. *)
Theorem escaped_code_holds_no_markup (code : jsstring) :
  forallb (fun c => negb (is_markup c)) (escape_html code) = true.
Proof. apply escape_html_no_markup. Qed.

(** X17. A text without opening brace holds no marker, and
    [formatResponse] returns its markdown conversion as it is: no
    fragment is put in and the last pass, which strips what is left in
    double braces, finds nothing. *)
Theorem prose_without_brace_is_markdown_only
    (c : component) (text : jsstring) (visualizations : list Visualization) :
  forallb (is_not (ch "{")) text = true ->
  formatResponse c text visualizations = Some (markdownToHtml text).
Proof.
  intros H. unfold formatResponse.
  rewrite (no_brace_no_placeholder _ H).
  cbn [substitute mbind option_bind].
  assert (Hfree : brace_free false (markdownToHtml text) = true).
  { apply no_brace_brace_free, markdownToHtml_within;
      [vm_compute; reflexivity | exact H]. }
  rewrite (strip_id _ Hfree). reflexivity.
Qed.

Lemma prose_without_brace_is_markdown_only_witness :
  formatResponse blank_component (js "# Results") []
  = Some (js "<h1>Results</h1>").
Proof.
  exact (@prose_without_brace_is_markdown_only blank_component
           (js "# Results") [] eq_refl).
Defined.

(** ** Markdown to HTML *)

(** X18. [markdownToHtml] writes nothing of its own but its tags: every
    code unit of its result is a code unit of the markdown or one of the
    code units of the tags, which are [<], [>], [/], [=], the double
    quote, [-], the space, the digits 1 to 6 and the letters of the tag
    and class names. *)
Theorem markdown_adds_only_markup (markdown : jsstring) (c : char) :
  In c (markdownToHtml markdown) -> In c markdown \/ In c markdown_markup.
Proof.
  intros Hc.
  pose (q := fun x : char => existsb (N.eqb x) (markdown ++ markdown_markup)).
  assert (Hall : forall l : jsstring,
             (forall x, In x l -> In x (markdown ++ markdown_markup)) ->
             forallb q l = true).
  { intros l Hl. apply forallb_forall. intros x Hx. unfold q.
    apply existsb_exists. exists x. split; [apply Hl, Hx | apply N.eqb_refl]. }
  assert (Hq : forallb q (markdownToHtml markdown) = true).
  { apply markdownToHtml_within.
    - apply Hall. intros x Hx. apply in_or_app. right. exact Hx.
    - apply Hall. intros x Hx. apply in_or_app. left. exact Hx. }
  rewrite forallb_forall in Hq. specialize (Hq c Hc). unfold q in Hq.
  apply existsb_exists in Hq as (y & Hy & Hcy). apply N.eqb_eq in Hcy as <-.
  apply in_app_or, Hy.
Qed.

Lemma markdown_adds_only_markup_witness :
  In (ch "h") (markdownToHtml (js "# A"))
  /\ (In (ch "h") (js "# A") \/ In (ch "h") markdown_markup).
Proof.
  assert (H : In (ch "h") (markdownToHtml (js "# A")))
    by (vm_compute; auto).
  split; [exact H | exact (@markdown_adds_only_markup (js "# A") (ch "h") H)].
Defined.

(** X19. One line of plain prose becomes one paragraph: when the
    markdown is a single non-empty line without [*], [_], backquote and
    [<], and its first code unit is not [#], [-] or a digit,
    [markdownToHtml] returns the line between [<p>] and [</p>] and
    changes nothing in it. *)
Theorem plain_line_is_one_paragraph (c : char) (line : jsstring) :
  forallb prose_unit (c :: line) = true ->
  opens_no_block c = true ->
  markdownToHtml (c :: line) = js "<p>" ++ (c :: line) ++ js "</p>".
Proof.
  intros Hs Hc. pose proof (prose_unit_dot _ Hs) as Hdot.
  unfold opens_no_block in Hc.
  apply andb_prop in Hc as [Hc Hdigit]. apply andb_prop in Hc as [Hhash Hdash].
  apply negb_true_iff in Hhash, Hdash, Hdigit.
  rewrite N.eqb_sym in Hhash, Hdash.
  assert (Hlt : N.eqb (ch "<") c = false).
  { pose proof (@prose_unit_not (ch "<") _ eq_refl Hs) as H.
    cbn [forallb] in H. apply andb_prop in H as [H _].
    apply negb_true_iff, H. }
  assert (Hheading : forall n t,
             replace_regex (re_heading (S n)) t (c :: line) = c :: line).
  { intros n t.
    exact (@replace_regex_not_at_start (re_heading (S n)) _ (N.eqb (ch "#"))
             t c line eq_refl eq_refl Hhash Hdot). }
  assert (Hmark : forall p t m,
             first_unit (pat_ci p) (pat_re p) = Some (N.eqb m) ->
             existsb (N.eqb m) (js "*_`<") = true ->
             replace_regex p t (c :: line) = c :: line).
  { intros p t m Hh Hm. exact (@pass_over_prose p t m _ Hh Hm Hs). }
  unfold markdownToHtml.
  rewrite !Hheading.
  rewrite (Hmark (re_bullet (ch "*")) _ (ch "*") eq_refl eq_refl).
  rewrite (@replace_regex_not_at_start (re_bullet (ch "-")) _ (N.eqb (ch "-"))
             _ c line eq_refl eq_refl Hdash Hdot).
  rewrite (Hmark re_item_newline _ (ch "<") eq_refl eq_refl).
  rewrite (Hmark re_items _ (ch "<") eq_refl eq_refl).
  rewrite (@replace_regex_not_at_start re_numbered _ is_digit
             _ c line eq_refl eq_refl Hdigit Hdot).
  rewrite (Hmark re_item_newline _ (ch "<") eq_refl eq_refl).
  rewrite (Hmark re_items _ (ch "<") eq_refl eq_refl).
  rewrite (Hmark (re_emphasis (js "**")) _ (ch "*") eq_refl eq_refl).
  rewrite (Hmark (re_emphasis (js "__")) _ (ch "_") eq_refl eq_refl).
  rewrite (Hmark (re_emphasis (js "*")) _ (ch "*") eq_refl eq_refl).
  rewrite (Hmark (re_emphasis (js "_")) _ (ch "_") eq_refl eq_refl).
  rewrite (Hmark re_code_block _ (ch "`") eq_refl eq_refl).
  rewrite (Hmark re_inline_code _ (ch "`") eq_refl eq_refl).
  rewrite (@paragraph_pass c line Hdot Hhash Hlt).
  rewrite (@wrapped_line_literal_pass (js "<p><p>") _ c line
             (or_introl eq_refl) Hs).
  rewrite (@wrapped_line_literal_pass (js "</p></p>") _ c line
             (or_intror eq_refl) Hs).
  apply line_break_pass.
  rewrite !forallb_app, Hdot. reflexivity.
Qed.

Lemma plain_line_is_one_paragraph_witness :
  markdownToHtml (js "See {{VISUALIZATION:chart1:Sales chart}} below.")
  = js "<p>See {{VISUALIZATION:chart1:Sales chart}} below.</p>".
Proof.
  exact (@plain_line_is_one_paragraph (ch "S")
           (js "ee {{VISUALIZATION:chart1:Sales chart}} below.")
           eq_refl eq_refl).
Defined.

(** X20. One heading line becomes one heading: for a level from 1 to 6,
    that many [#], a space and a non-empty title without line
    terminator, [*], [_], backquote and [<] are turned into the title
    between [<hN>] and [</hN>], N being the level; the title is not
    changed and no paragraph is put around the element. *)
Theorem heading_line_is_one_heading (n : nat) (title : jsstring) :
  1 <= n <= 6 -> title <> [] -> forallb prose_unit title = true ->
  markdownToHtml (repeat (ch "#") n ++ ch " " :: title)
  = heading_tag (level_digit n) title.
Proof.
  intros Hn Hne Ht. pose proof (prose_unit_dot _ Ht) as Hdot.
  assert (Hd : is_digit (level_digit n) = true).
  { unfold level_digit, is_digit, in_range.
    apply andb_true_intro. split; apply N.leb_le; lia. }
  pose proof (@passes_after_headings (level_digit n) title Hd Ht) as Htail.
  cbv zeta in Htail. unfold markdownToHtml.
  destruct n as [| [| [| [| [| [| [| n]]]]]]]; try lia;
    rewrite ?heading_lower by (lia || exact Hdot).
  - rewrite (@heading_pass 0 (js "<h1>$1</h1>") (level_digit 1) title
               (fun i => eq_refl) Hne Hdot).
    rewrite !heading_higher by assumption. exact Htail.
  - rewrite (@heading_pass 1 (js "<h2>$1</h2>") (level_digit 2) title
               (fun i => eq_refl) Hne Hdot).
    rewrite !heading_higher by assumption. exact Htail.
  - rewrite (@heading_pass 2 (js "<h3>$1</h3>") (level_digit 3) title
               (fun i => eq_refl) Hne Hdot).
    rewrite !heading_higher by assumption. exact Htail.
  - rewrite (@heading_pass 3 (js "<h4>$1</h4>") (level_digit 4) title
               (fun i => eq_refl) Hne Hdot).
    rewrite !heading_higher by assumption. exact Htail.
  - rewrite (@heading_pass 4 (js "<h5>$1</h5>") (level_digit 5) title
               (fun i => eq_refl) Hne Hdot).
    rewrite !heading_higher by assumption. exact Htail.
  - rewrite (@heading_pass 5 (js "<h6>$1</h6>") (level_digit 6) title
               (fun i => eq_refl) Hne Hdot).
    exact Htail.
Qed.

Lemma heading_line_is_one_heading_witness :
  markdownToHtml (js "## Results of 2024")
  = js "<h2>Results of 2024</h2>".
Proof.
  exact (@heading_line_is_one_heading 2 (js "Results of 2024")
           ltac:(lia) ltac:(discriminate) eq_refl).
Defined.
